(** * Interactive Approval Gateway of claude-code-slack-bot

    A shallow embedding of the permission-mode store, the danger
    classifier, the approval coordinator, the session store and the
    backup manager, with the properties of the specification stated
    and settled against it.

    Conventions.
    - A JavaScript string is a [string] whose characters are UTF-16
      code units below 256 (the Latin-1 range); every command phrase,
      file name and shell command in the sources stays in that range.
    - A [Map<string, V>] and a plain object used as a dictionary are
      [gmap string V].
    - [Date] values are integral milliseconds since the epoch ([Z]).
    - Any other Number is an IEEE 754 binary64 value ([spec_float]),
      with the arithmetic of the Standard Library's [SpecFloat].
    - A promise that has not settled yet is [None]. *)

From Stdlib Require Import ZArith List String Ascii Lia Bool Sorted SpecFloat.
From Stdlib Require OrderedTypeEx.
From stdpp Require Import base gmap strings list pretty.
Import ListNotations.

Local Open Scope string_scope.

(* ===================================================================== *)
(** * Part I. Definitions                                                 *)
(* ===================================================================== *)

(** ** JavaScript strings *)

Module JsString.

Definition code (c : ascii) : N := N_of_ascii c.

Definition between (lo hi n : N) : bool := (lo <=? n)%N && (n <=? hi)%N.

(** WhiteSpace and LineTerminator code units below 256: TAB, LF, VT,
    FF, CR, SP and NBSP.  This is the set both [String.prototype.trim]
    and the regular-expression class [\s] use. *)
Definition isWhiteSpace (c : ascii) : bool :=
  let n := code c in between 9 13 n || (n =? 32)%N || (n =? 160)%N.

(** [String.prototype.toLowerCase] on one code unit. *)
Definition lowerChar (c : ascii) : ascii :=
  let n := code c in
  if between 65 90 n || (between 192 222 n && negb (n =? 215)%N)
  then ascii_of_N (n + 32) else c.

(** Canonicalize of the regular-expression semantics (flag [i]): the
    upper-case form when it is a single code unit.  The two Latin-1
    letters whose upper case lies above 255 (181 and 255) are the only
    ones with that canonical form, so leaving them unchanged preserves
    every equality between canonical forms. *)
Definition canonChar (c : ascii) : ascii :=
  let n := code c in
  if between 97 122 n || (between 224 254 n && negb (n =? 247)%N)
  then ascii_of_N (n - 32) else c.

Definition chars (s : string) : list ascii := list_ascii_of_string s.
Definition str (l : list ascii) : string := string_of_list_ascii l.

Fixpoint dropSpace (l : list ascii) : list ascii :=
  match l with
  | c :: t => if isWhiteSpace c then dropSpace t else l
  | [] => []
  end.

Definition trimChars (l : list ascii) : list ascii :=
  rev (dropSpace (rev (dropSpace l))).

Definition trim (s : string) : string := str (trimChars (chars s)).

Definition toLowerCase (s : string) : string := str (map lowerChar (chars s)).

Fixpoint prefixChars (p l : list ascii) : bool :=
  match p, l with
  | [], _ => true
  | a :: p', b :: l' => if ascii_dec a b then prefixChars p' l' else false
  | _ :: _, [] => false
  end.

Definition startsWith (s p : string) : bool := prefixChars (chars p) (chars s).

Definition endsWith (s p : string) : bool :=
  prefixChars (rev (chars p)) (rev (chars s)).

(** [s.slice(0, n)] *)
Definition slice0 (n : nat) (s : string) : string := str (firstn n (chars s)).

(** A string is truthy when it is not empty; [undefined] is falsy. *)
Definition truthy (o : option string) : bool :=
  match o with
  | Some s => negb (String.eqb s "")
  | None => false
  end.

(** [a || b] on strings. *)
Definition orElse (o : option string) (d : string) : string :=
  match o with
  | Some s => if String.eqb s "" then d else s
  | None => d
  end.

End JsString.

(** ** Regular expressions

    The fragment of ECMAScript regular expressions the sources use:
    literals, [\s], identity escapes, the dot, (negated) character
    classes without ranges, groups, alternation, the quantifiers
    [*], [+] and [?], and the assertions [^] and [$] (no [m] flag, so
    they mean the start and the end of the input). *)

Module Regex.
Import JsString.

Inductive citem : Type :=
  | CChar (c : ascii)
  | CSpace.

Inductive regex : Type :=
  | Eps
  | CSet (neg : bool) (items : list citem)
  | Bol
  | Eol
  | Seq (r1 r2 : regex)
  | Alt (r1 r2 : regex)
  | Star (r : regex).

Definition Chr (c : ascii) : regex := CSet false [CChar c].
Definition Space : regex := CSet false [CSpace].
(** [.] matches everything but a line terminator (LF and CR below 256). *)
Definition Dot : regex := CSet true [CChar "010"%char; CChar "013"%char].
Definition Plus (r : regex) : regex := Seq r (Star r).
Definition Opt (r : regex) : regex := Alt r Eps.
Definition Void : regex := CSet false [].

(** *** Reading a pattern from its source text *)

Definition escape (c : ascii) : option citem :=
  if ascii_dec c "s"%char then Some CSpace
  else if between 48 57 (code c) || between 65 90 (code c) || between 97 122 (code c)
       then None (* class, back-reference and control escapes: not in the fragment *)
       else Some (CChar c).

Fixpoint parse_class (s : list ascii) (acc : list citem) : option (list citem * list ascii) :=
  match s with
  | [] => None
  | c :: t =>
      if ascii_dec c "]"%char then Some (rev acc, t)
      else if ascii_dec c "-"%char then None (* ranges: not in the fragment *)
      else if ascii_dec c "\"%char then
        match t with
        | e :: t' =>
            match escape e with
            | Some it => parse_class t' (it :: acc)
            | None => None
            end
        | [] => None
        end
      else parse_class t (CChar c :: acc)
  end.

Definition is_meta (c : ascii) : bool :=
  existsb (fun m => if ascii_dec c m then true else false)
          ["*"; "+"; "?"; ")"; "|"; "{"; "}"; "]"]%char.

Fixpoint parse_disj (fuel : nat) (s : list ascii) {struct fuel} : option (regex * list ascii) :=
  match fuel with
  | O => None
  | S f =>
      match parse_alt f s with
      | Some (r, c :: t) =>
          if ascii_dec c "|"%char then
            match parse_disj f t with
            | Some (r2, t') => Some (Alt r r2, t')
            | None => None
            end
          else Some (r, c :: t)
      | other => other
      end
  end
with parse_alt (fuel : nat) (s : list ascii) {struct fuel} : option (regex * list ascii) :=
  match fuel with
  | O => None
  | S f =>
      match s with
      | [] => Some (Eps, [])
      | c :: _ =>
          if ascii_dec c "|"%char then Some (Eps, s)
          else if ascii_dec c ")"%char then Some (Eps, s)
          else
            match parse_term f s with
            | Some (r, t) =>
                match parse_alt f t with
                | Some (r2, t') => Some (Seq r r2, t')
                | None => None
                end
            | None => None
            end
      end
  end
with parse_term (fuel : nat) (s : list ascii) {struct fuel} : option (regex * list ascii) :=
  match fuel with
  | O => None
  | S f =>
      match parse_atom f s with
      | Some (r, c :: t) =>
          if ascii_dec c "*"%char then Some (Star r, t)
          else if ascii_dec c "+"%char then Some (Plus r, t)
          else if ascii_dec c "?"%char then Some (Opt r, t)
          else Some (r, c :: t)
      | other => other
      end
  end
with parse_atom (fuel : nat) (s : list ascii) {struct fuel} : option (regex * list ascii) :=
  match fuel with
  | O => None
  | S f =>
      match s with
      | [] => None
      | c :: t =>
          if ascii_dec c "^"%char then Some (Bol, t)
          else if ascii_dec c "$"%char then Some (Eol, t)
          else if ascii_dec c "."%char then Some (Dot, t)
          else if ascii_dec c "\"%char then
            match t with
            | e :: t' =>
                match escape e with
                | Some it => Some (CSet false [it], t')
                | None => None
                end
            | [] => None
            end
          else if ascii_dec c "["%char then
            match t with
            | n :: t' =>
                if ascii_dec n "^"%char then
                  match parse_class t' [] with
                  | Some (items, rest) => Some (CSet true items, rest)
                  | None => None
                  end
                else
                  match parse_class t [] with
                  | Some (items, rest) => Some (CSet false items, rest)
                  | None => None
                  end
            | [] => None
            end
          else if ascii_dec c "("%char then
            match parse_disj f t with
            | Some (r, c' :: t') =>
                if ascii_dec c' ")"%char then Some (r, t') else None
            | _ => None
            end
          else if is_meta c then None
          else Some (Chr c, t)
      end
  end.

Definition parse (src : string) : option regex :=
  match parse_disj (4 * String.length src + 4) (chars src) with
  | Some (r, []) => Some r
  | _ => None
  end.

(** The pattern written [/src/] in the sources. *)
Definition re (src : string) : regex :=
  match parse src with
  | Some r => r
  | None => Void
  end.

(** *** Matching *)

Definition item_mem (icase : bool) (it : citem) (c : ascii) : bool :=
  match it with
  | CChar p =>
      if icase then (if ascii_dec (canonChar p) (canonChar c) then true else false)
      else (if ascii_dec p c then true else false)
  | CSpace => isWhiteSpace c
  end.

Definition cset_mem (icase neg : bool) (items : list citem) (c : ascii) : bool :=
  xorb neg (existsb (fun it => item_mem icase it c) items).

(** Iteration of [step] from the input [s]: every suffix reachable by
    rounds that each consume at least one character.  A round that
    consumes nothing adds no new suffix. *)
Fixpoint star_iter (step : list ascii -> list (list ascii)) (fuel : nat) (s : list ascii)
  : list (list ascii) :=
  s :: match fuel with
       | O => []
       | S f =>
           flat_map (fun s' => if (List.length s' <? List.length s)%nat
                               then star_iter step f s' else [])
                    (step s)
       end.

(** [matchFrom icase n r s]: the inputs left after [r] has matched a
    prefix of [s], where [s] is a suffix of an input of length [n]. *)
Fixpoint matchFrom (icase : bool) (n : nat) (r : regex) (s : list ascii)
  : list (list ascii) :=
  match r with
  | Eps => [s]
  | CSet neg items =>
      match s with
      | c :: t => if cset_mem icase neg items c then [t] else []
      | [] => []
      end
  | Bol => if (List.length s =? n)%nat then [s] else []
  | Eol => match s with [] => [[]] | _ :: _ => [] end
  | Seq r1 r2 => flat_map (matchFrom icase n r2) (matchFrom icase n r1 s)
  | Alt r1 r2 => matchFrom icase n r1 s ++ matchFrom icase n r2 s
  | Star r1 => star_iter (matchFrom icase n r1) (List.length s) s
  end.

Definition matchesAt (icase : bool) (n : nat) (r : regex) (s : list ascii) : bool :=
  match matchFrom icase n r s with
  | [] => false
  | _ :: _ => true
  end.

Fixpoint searchFrom (icase : bool) (n : nat) (r : regex) (s : list ascii) : bool :=
  matchesAt icase n r s ||
  match s with
  | [] => false
  | _ :: t => searchFrom icase n r t
  end.

(** [RegExp.prototype.test] for a pattern without the [g] and [y]
    flags: is there a match starting anywhere in the input? *)
Definition test (icase : bool) (r : regex) (s : string) : bool :=
  searchFrom icase (List.length (chars s)) r (chars s).

(** *** What a pattern matches

    [lang icase r before matched after]: the pattern matches the text
    [matched] when the input is [before ++ matched ++ after]. *)

Inductive lang (icase : bool) : regex -> list ascii -> list ascii -> list ascii -> Prop :=
  | L_eps before after :
    lang icase Eps before [] after
  | L_set neg items before c after :
    cset_mem icase neg items c = true ->
    lang icase (CSet neg items) before [c] after
  | L_bol after :
    lang icase Bol [] [] after
  | L_eol before :
    lang icase Eol before [] []
  | L_seq r1 r2 before m1 m2 after :
    lang icase r1 before m1 (m2 ++ after)%list ->
    lang icase r2 (before ++ m1)%list m2 after ->
    lang icase (Seq r1 r2) before (m1 ++ m2)%list after
  | L_alt_l r1 r2 before m after :
    lang icase r1 before m after ->
    lang icase (Alt r1 r2) before m after
  | L_alt_r r1 r2 before m after :
    lang icase r2 before m after ->
    lang icase (Alt r1 r2) before m after
  | L_star_stop r before after :
    lang icase (Star r) before [] after
  | L_star_more r before m1 m2 after :
    lang icase r before m1 (m2 ++ after)%list ->
    lang icase (Star r) (before ++ m1)%list m2 after ->
    lang icase (Star r) before (m1 ++ m2)%list after.

End Regex.

(** ** JavaScript values and completions *)

#[local] Set Warnings "-register-all".

(** A value as [JSON.parse] builds it, also used for the [unknown]
    fields of a tool input.  An object is its list of own properties; a
    property that is absent reads as [undefined] ([None]). *)
Inductive JsValue : Type :=
| JNull
| JBool (b : bool)
| JNum (z : Z)
| JStr (s : string)
| JArr (items : list JsValue)
| JObj (fields : list (string * JsValue)).

(** The outcome of a call that may throw. *)
Inductive Completion (A : Type) : Type :=
| Normal (a : A)
| Throw (err : string).
Arguments Normal {A} a.
Arguments Throw {A} err.

Module Js.

Fixpoint assoc (k : string) (fields : list (string * JsValue)) : option JsValue :=
  match fields with
  | [] => None
  | (k', v) :: rest => if String.eqb k k' then Some v else assoc k rest
  end.

(** [o.k] for an object [o] given by its fields. *)
Definition prop (fields : list (string * JsValue)) (k : string) : option JsValue :=
  assoc k fields.

(** [v.k] for an arbitrary value: reading a property of [null] throws,
    a primitive or an array has no such property. *)
Definition get (v : JsValue) (k : string) : Completion (option JsValue) :=
  match v with
  | JNull => Throw "TypeError: Cannot read properties of null"
  | JObj fields => Normal (assoc k fields)
  | _ => Normal None
  end.

(** ToBoolean; [undefined] is [None]. *)
Definition truthy (o : option JsValue) : bool :=
  match o with
  | None => false
  | Some JNull => false
  | Some (JBool b) => b
  | Some (JNum z) => negb (z =? 0)%Z
  | Some (JStr s) => negb (String.eqb s "")
  | Some (JArr _) => true
  | Some (JObj _) => true
  end.

(** [v === 'lit'] *)
Definition isStr (o : option JsValue) (lit : string) : bool :=
  match o with
  | Some (JStr s) => String.eqb s lit
  | _ => false
  end.

End Js.

(** A tool input: [Record<string, unknown>]. *)
Abbreviation ToolInput := (list (string * JsValue)).

(** ** Node's [path.resolve] (POSIX) *)

Module Path.
Import JsString.

Definition slash : ascii := "/"%char.

(** The segments between the slashes of a path. *)
Fixpoint splitSlash (l : list ascii) (cur : list ascii) : list (list ascii) :=
  match l with
  | [] => [rev cur]
  | c :: t => if ascii_dec c slash then rev cur :: splitSlash t [] else splitSlash t (c :: cur)
  end.

Definition isDot (seg : list ascii) : bool :=
  match seg with ["."%char] => true | _ => false end.
Definition isDotDot (seg : list ascii) : bool :=
  match seg with ["."%char; "."%char] => true | _ => false end.

(** [normalizeString]: the stack holds the segments kept so far, last
    one first. *)
Fixpoint normalizeSegs (allowAboveRoot : bool) (segs : list (list ascii))
         (stack : list (list ascii)) : list (list ascii) :=
  match segs with
  | [] => rev stack
  | seg :: rest =>
      match seg with
      | [] => normalizeSegs allowAboveRoot rest stack
      | _ :: _ =>
          if isDot seg then normalizeSegs allowAboveRoot rest stack
          else if isDotDot seg then
            match stack with
            | top :: below =>
                if isDotDot top
                then normalizeSegs allowAboveRoot rest (seg :: stack)
                else normalizeSegs allowAboveRoot rest below
            | [] =>
                if allowAboveRoot
                then normalizeSegs allowAboveRoot rest [seg]
                else normalizeSegs allowAboveRoot rest []
            end
          else normalizeSegs allowAboveRoot rest (seg :: stack)
      end
  end.

Fixpoint joinSlash (segs : list (list ascii)) : list ascii :=
  match segs with
  | [] => []
  | [s] => s
  | s :: rest => (s ++ slash :: joinSlash rest)%list
  end.

Definition normalizeString (p : list ascii) (allowAboveRoot : bool) : list ascii :=
  joinSlash (normalizeSegs allowAboveRoot (splitSlash p []) []).

(** The loop of [resolve]: the arguments from the last to the first,
    then the process's working directory, until an absolute one. *)
Fixpoint gather (ps : list (list ascii)) (acc : list ascii) : list ascii * bool :=
  match ps with
  | [] => (acc, false)
  | p :: rest =>
      match p with
      | [] => gather rest acc
      | c :: _ =>
          let acc' := (p ++ slash :: acc)%list in
          if ascii_dec c slash then (acc', true) else gather rest acc'
      end
  end.

Definition resolve (cwd : string) (args : list string) : string :=
  let '(p, absolute) := gather (map chars (rev args ++ [cwd])%list) [] in
  let n := normalizeString p (negb absolute) in
  if absolute then str (slash :: n)
  else match n with [] => "." | _ :: _ => str n end.

Definition sep : string := "/".

End Path.

(** ** Permission Mode Store ([BypassModeManager]) *)

Module BypassModeManager.
Import JsString.

Inductive PermissionMode : Type := Approval | Bypass | Auto.

#[global] Instance PermissionMode_eq_dec : EqDecision PermissionMode.
Proof. solve_decision. Defined.

Definition getKey (channelId : string) (threadTs userId : option string) : string :=
  if truthy threadTs then channelId +:+ "-" +:+ default "" threadTs
  else if truthy userId && startsWith channelId "D"
       then channelId +:+ "-" +:+ default "" userId
       else channelId.

Definition setMode (modes : gmap string PermissionMode) (channelId : string)
           (mode : PermissionMode) (threadTs userId : option string)
  : gmap string PermissionMode :=
  <[getKey channelId threadTs userId := mode]> modes.

Definition getMode (modes : gmap string PermissionMode) (channelId : string)
           (threadTs userId : option string) : PermissionMode :=
  let channelMode := default Approval (modes !! getKey channelId None userId) in
  if truthy threadTs then
    match modes !! getKey channelId threadTs None with
    | Some threadMode => threadMode
    | None => channelMode
    end
  else channelMode.

Definition isBypassMode (modes : gmap string PermissionMode) channelId threadTs userId : bool :=
  bool_decide (getMode modes channelId threadTs userId = Bypass).
Definition isAutoMode (modes : gmap string PermissionMode) channelId threadTs userId : bool :=
  bool_decide (getMode modes channelId threadTs userId = Auto).
Definition isApprovalMode (modes : gmap string PermissionMode) channelId threadTs userId : bool :=
  bool_decide (getMode modes channelId threadTs userId = Approval).

Definition autoOn : string := "^auto\s+(on|enable|enabled|true|1)$".
Definition autoOff : string := "^auto\s+(off|disable|disabled|false|0)$".
Definition bypassOn : string := "^bypass\s+(on|enable|enabled|true|1)$".
Definition bypassOff : string := "^bypass\s+(off|disable|disabled|false|0)$".
Definition approvalOn : string := "^approval\s+(on|enable|enabled|true|1)$".
Definition approvalOff : string := "^approval\s+(off|disable|disabled|false|0)$".

(** Every pattern carries the flag [i]. *)
Definition parseModeCommand (text : string) : option PermissionMode :=
  let trimmed := toLowerCase (trim text) in
  if Regex.test true (Regex.re autoOn) trimmed then Some Auto
  else if Regex.test true (Regex.re autoOff) trimmed then Some Approval
  else if Regex.test true (Regex.re bypassOn) trimmed then Some Bypass
  else if Regex.test true (Regex.re bypassOff) trimmed then Some Approval
  else if Regex.test true (Regex.re approvalOn) trimmed then Some Approval
  else if Regex.test true (Regex.re approvalOff) trimmed then Some Bypass
  else None.

Definition isStatusQuery (text : string) : bool :=
  let trimmed := toLowerCase (trim text) in
  Regex.test true (Regex.re "^(mode|bypass|approval|auto)(\s+status)?(\?)?$") trimmed.

(** *** Legacy compatibility methods and the backup of the settings *)

Definition setBypassMode (modes : gmap string PermissionMode) (channelId : string)
           (enabled : bool) (threadTs userId : option string)
  : gmap string PermissionMode :=
  setMode modes channelId (if enabled then Bypass else Approval) threadTs userId.

(** [{ enable }], or [null] when the text is no mode command. *)
Definition parseBypassCommand (text : string) : option bool :=
  match parseModeCommand text with
  | Some mode => Some (bool_decide (mode = Bypass))
  | None => None
  end.

(** [new Map(this.modes)]: a copy of the store. *)
Definition getAllSettings (modes : gmap string PermissionMode)
  : gmap string PermissionMode := modes.

(** A setting as a backup holds it: a mode, or a boolean of the legacy
    format. *)
Inductive Setting : Type :=
| ModeSetting (mode : PermissionMode)
| LegacyFlag (enabled : bool).

Definition restoreSettings (modes : gmap string PermissionMode)
           (settings : gmap string Setting) : gmap string PermissionMode :=
  fold_left (fun acc (entry : string * Setting) =>
               match entry.2 with
               | LegacyFlag value => <[entry.1 := if value then Bypass else Approval]> acc
               | ModeSetting value => <[entry.1 := value]> acc
               end)
            (map_to_list settings) modes.

End BypassModeManager.

(** ** Permission Mode Store, one boolean per scope
       ([src/src/bypass-mode-manager.ts]) *)

Module BypassModeManagerLegacy.
Import JsString.

Definition getKey (channelId : string) (threadTs userId : option string) : string :=
  if truthy threadTs then channelId +:+ "-" +:+ default "" threadTs
  else if truthy userId && startsWith channelId "D"
       then channelId +:+ "-" +:+ default "" userId
       else channelId.

Definition setBypassMode (bypassModes : gmap string bool) (channelId : string)
           (enabled : bool) (threadTs userId : option string) : gmap string bool :=
  <[getKey channelId threadTs userId := enabled]> bypassModes.

Definition isBypassMode (bypassModes : gmap string bool) (channelId : string)
           (threadTs userId : option string) : bool :=
  let channelBypass := default false (bypassModes !! getKey channelId None userId) in
  if truthy threadTs then
    match bypassModes !! getKey channelId threadTs None with
    | Some threadBypass => threadBypass
    | None => channelBypass
    end
  else channelBypass.

Definition bypassOn : string := "^bypass\s+(on|enable|enabled|true|1)$".
Definition bypassOff : string := "^bypass\s+(off|disable|disabled|false|0)$".
Definition approvalOn : string := "^approval\s+(on|enable|enabled|true|1)$".
Definition approvalOff : string := "^approval\s+(off|disable|disabled|false|0)$".
Definition bypassStatus : string := "^bypass(\s+status)?(\?)?$".
Definition approvalStatus : string := "^approval(\s+status)?(\?)?$".

Definition isStatusQuery (text : string) : bool :=
  let trimmed := toLowerCase (trim text) in
  Regex.test true (Regex.re bypassStatus) trimmed
  || Regex.test true (Regex.re approvalStatus) trimmed.

Definition parseBypassCommand (text : string) : option bool :=
  let trimmed := toLowerCase (trim text) in
  let bypassOnMatch := Regex.test true (Regex.re bypassOn) trimmed in
  let bypassOffMatch := Regex.test true (Regex.re bypassOff) trimmed in
  let approvalOnMatch := Regex.test true (Regex.re approvalOn) trimmed in
  let approvalOffMatch := Regex.test true (Regex.re approvalOff) trimmed in
  if bypassOnMatch || approvalOffMatch then Some true
  else if bypassOffMatch || approvalOnMatch then Some false
  else if Regex.test true (Regex.re bypassStatus) trimmed
          || Regex.test true (Regex.re approvalStatus) trimmed
       then None    (* a status query, not a command *)
       else None.

Definition getAllSettings (bypassModes : gmap string bool) : gmap string bool :=
  bypassModes.

Definition restoreSettings (bypassModes settings : gmap string bool) : gmap string bool :=
  fold_left (fun acc (entry : string * bool) => <[entry.1 := entry.2]> acc)
            (map_to_list settings) bypassModes.

End BypassModeManagerLegacy.

(** ** Danger Classifier *)

Module DangerClassifier.
Import JsString.

(** The catalogue, each pattern by its source text. *)
Definition DANGEROUS_BASH_PATTERNS : list string :=
  [ "rm\s+(-[rRf]+\s+)*[^\s]*(\*|\/\s*$|~|\.\.)";
    "rm\s+-[rRf]*\s+\/";
    "git\s+push\s+.*--force";
    "git\s+push\s+-f";
    "git\s+reset\s+--hard";
    "git\s+clean\s+-[fdx]";
    "git\s+checkout\s+\.\s*$";
    "git\s+restore\s+\.\s*$";
    "sudo\s+";
    "chmod\s+(-R\s+)?777";
    "chown\s+-R";
    "curl\s+[^|]*\|\s*(sh|bash|zsh)";
    "wget\s+[^|]*\|\s*(sh|bash|zsh)";
    "^\s*env\s*$";
    "^\s*printenv\s*$";
    "cat\s+[^\s]*\.env";
    "kill\s+-9\s+";
    "pkill\s+";
    "killall\s+";
    "launchctl\s+(unload|remove|bootout)";
    "npm\s+publish";
    "yarn\s+publish";
    "mkfs\.";
    "dd\s+if=";
    "fdisk" ].

Record Danger : Type := { dangerous : bool; danger_reason : option string }.

(** [pattern.toString()] of a pattern without flags. *)
Definition patternToString (src : string) : string := "/" +:+ src +:+ "/".

Fixpoint firstMatch (patterns : list string) (command : string) : Danger :=
  match patterns with
  | [] => {| dangerous := false; danger_reason := None |}
  | pattern :: rest =>
      if Regex.test false (Regex.re pattern) command
      then {| dangerous := true;
              danger_reason :=
                Some ("Command matches dangerous pattern: " +:+ patternToString pattern) |}
      else firstMatch rest command
  end.

Definition isDangerousBashCommand (command : string) : Danger :=
  firstMatch DANGEROUS_BASH_PATTERNS command.

Definition isWithinWorkingDirectory (cwd filePath workingDirectory : string) : bool :=
  let resolvedPath := Path.resolve cwd [workingDirectory; filePath] in
  let resolvedWorkingDir := Path.resolve cwd [workingDirectory] in
  startsWith resolvedPath (resolvedWorkingDir +:+ Path.sep)
  || String.eqb resolvedPath resolvedWorkingDir.

Record SafetyCheck : Type := { safe : bool; reason : option string }.

Definition quote : string := String (ascii_of_nat 34) "".

Definition isFileTool (toolName : string) : bool :=
  String.eqb toolName "Write" || String.eqb toolName "Edit"
  || String.eqb toolName "MultiEdit".

(** The second check.  [input.file_path as string] is a cast only: a
    truthy value that is not a string reaches [path.resolve], which
    throws. *)
Definition fileCheck (cwd toolName : string) (input : ToolInput)
           (workingDirectory : option string) : Completion SafetyCheck :=
  match workingDirectory with
  | Some wd =>
      if truthy workingDirectory && isFileTool toolName then
        match Js.prop input "file_path" with
        | Some (JStr filePath) =>
            if negb (String.eqb filePath "")
               && negb (isWithinWorkingDirectory cwd filePath wd)
            then Normal {| safe := false;
                           reason := Some ("File path " +:+ quote +:+ filePath +:+ quote
                                           +:+ " is outside working directory "
                                           +:+ quote +:+ wd +:+ quote) |}
            else Normal {| safe := true; reason := None |}
        | other =>
            if Js.truthy other
            then Throw "TypeError [ERR_INVALID_ARG_TYPE]: The path argument must be of type string"
            else Normal {| safe := true; reason := None |}
        end
      else Normal {| safe := true; reason := None |}
  | None => Normal {| safe := true; reason := None |}
  end.

(** [cwd] is the process's working directory, which [path.resolve]
    consults when the boundary is a relative path. *)
Definition checkAutoModeSafety (cwd toolName : string) (input : ToolInput)
           (workingDirectory : option string) : Completion SafetyCheck :=
  let bash :=
    if String.eqb toolName "Bash" then
      match Js.prop input "command" with
      | Some (JStr command) => isDangerousBashCommand command
      | _ => {| dangerous := false; danger_reason := None |}
      end
    else {| dangerous := false; danger_reason := None |} in
  if dangerous bash
  then Normal {| safe := false; reason := danger_reason bash |}
  else fileCheck cwd toolName input workingDirectory.

End DangerClassifier.

(** ** Chat Transport (the Slack Web API client) *)

Record SlackContext : Type :=
  { channel : string; threadTs : option string; user : string }.

Module Slack.

Record Button : Type :=
  { label : string; style : string; action_id : string; value : string }.

Inductive Block : Type :=
  | SectionBlock (text : string)
  | ActionsBlock (elements : list Button)
  | ContextBlock (text : string).

Record PostMessage : Type :=
  { pm_channel : string;
    pm_thread_ts : option string;
    pm_blocks : option (list Block);
    pm_text : string }.

Record Update : Type :=
  { up_channel : option string;
    up_ts : string;
    up_blocks : list Block;
    up_text : string }.

Record PostResult : Type :=
  { ts : option string; res_channel : option string }.

Definition isActions (b : Block) : bool :=
  match b with ActionsBlock _ => true | _ => false end.

(** A message is interactive when it carries an actions block, that is
    buttons a human can click. *)
Definition interactive (m : PostMessage) : bool :=
  match pm_blocks m with
  | Some blocks => existsb isActions blocks
  | None => false
  end.

End Slack.

(** What the process cannot decide by itself: the answers of the chat
    platform and the rendering of [JSON.stringify(input, null, 2)]. *)
Record Platform : Type :=
  { postMessage : Slack.PostMessage -> Completion Slack.PostResult;
    chatUpdate : Slack.Update -> Completion unit;
    JSON_stringify : ToolInput -> string }.

(** A file of the approval directory: text that [JSON.parse] accepts,
    given by the value it parses to, or text it rejects. *)
Inductive FileContent : Type :=
| Document (v : JsValue)
| Malformed (raw : string).

Definition JSON_parse (c : FileContent) : Completion JsValue :=
  match c with
  | Document v => Normal v
  | Malformed _ => Throw "SyntaxError: Unexpected token in JSON"
  end.

(** The observable effects of a permission callback, in order. *)
Inductive Effect : Type :=
| SlackPost (m : Slack.PostMessage)
| SlackUpdate (u : Slack.Update)
| AwaitApproval (approvalId : string).

Record World : Type :=
  { trace : list Effect;                       (* oldest first *)
    approvals : gmap string FileContent }.     (* APPROVAL_DIR, by file name *)

Definition emit (e : Effect) (w : World) : World :=
  {| trace := (trace w ++ [e])%list; approvals := approvals w |}.

Inductive Behavior : Type := allow | deny.

Record PermissionResult : Type :=
  { behavior : Behavior;
    updatedInput : option ToolInput;
    message : option JsValue }.

Definition Allow (input : ToolInput) : PermissionResult :=
  {| behavior := allow; updatedInput := Some input; message := None |}.
Definition Deny (msg : JsValue) : PermissionResult :=
  {| behavior := deny; updatedInput := None; message := Some msg |}.

(** ** Approval Coordinator: the wait

    What happens while [waitForApproval] is suspended, in the order the
    event loop delivers it. *)

Inductive Event : Type :=
| Timer (now : Z)                                  (* a scheduled poll fires; [Date.now()] then *)
| Abort                                            (* the caller's signal is aborted *)
| Deposit (file : string) (content : FileContent). (* another process writes into APPROVAL_DIR *)

Module Wait.

Record State : Type :=
  { resolved : bool;             (* let resolved *)
    timerArmed : bool;           (* timeoutId refers to a pending setTimeout *)
    listening : bool;            (* abortHandler is registered on the signal *)
    aborted : bool;              (* signal.aborted *)
    pollCount : nat;
    settled : option JsValue;    (* the value the promise resolved with *)
    dir : gmap string FileContent }.

Definition denyResponse (msg : string) : JsValue :=
  JObj [("behavior", JStr "deny"); ("message", JStr msg)].

Definition cleanup (st : State) : State :=
  {| resolved := true; timerArmed := false; listening := listening st;
     aborted := aborted st; pollCount := pollCount st; settled := settled st;
     dir := dir st |}.

(** [resolve(v)]: only the first call settles the promise. *)
Definition resolve (v : JsValue) (st : State) : State :=
  {| resolved := resolved st; timerArmed := timerArmed st; listening := listening st;
     aborted := aborted st; pollCount := pollCount st;
     settled := match settled st with Some old => Some old | None => Some v end;
     dir := dir st |}.

Definition removeListener (st : State) : State :=
  {| resolved := resolved st; timerArmed := timerArmed st; listening := false;
     aborted := aborted st; pollCount := pollCount st; settled := settled st;
     dir := dir st |}.

Definition unlink (file : string) (st : State) : State :=
  {| resolved := resolved st; timerArmed := timerArmed st; listening := listening st;
     aborted := aborted st; pollCount := pollCount st; settled := settled st;
     dir := delete file (dir st) |}.

Definition arm (st : State) : State :=
  {| resolved := resolved st; timerArmed := true; listening := listening st;
     aborted := aborted st; pollCount := pollCount st; settled := settled st;
     dir := dir st |}.

Definition disarm (st : State) : State :=
  {| resolved := resolved st; timerArmed := false; listening := listening st;
     aborted := aborted st; pollCount := pollCount st; settled := settled st;
     dir := dir st |}.

Definition countPoll (st : State) : State :=
  {| resolved := resolved st; timerArmed := timerArmed st; listening := listening st;
     aborted := aborted st; pollCount := S (pollCount st); settled := settled st;
     dir := dir st |}.

Definition setAborted (st : State) : State :=
  {| resolved := resolved st; timerArmed := timerArmed st; listening := listening st;
     aborted := true; pollCount := pollCount st; settled := settled st;
     dir := dir st |}.

Definition write (file : string) (c : FileContent) (st : State) : State :=
  {| resolved := resolved st; timerArmed := timerArmed st; listening := listening st;
     aborted := aborted st; pollCount := pollCount st; settled := settled st;
     dir := <[file := c]> (dir st) |}.

Definition abortHandler (st : State) : State :=
  if negb (resolved st)
  then resolve (denyResponse "Request was aborted") (cleanup st)
  else st.

(** The part of [checkApproval] both handlers share: look for the
    approval file, settle with what it holds, or poll again. *)
Definition checkFile (approvalFile : string) (st : State) : State :=
  match dir st !! approvalFile with
  | Some content =>
      match JSON_parse content with
      | Normal response =>
          resolve response (removeListener (cleanup (unlink approvalFile st)))
      | Throw _ => arm st     (* logged; continue polling *)
      end
  | None => arm st
  end.

Section Run.
(** [checkApproval now st] is the body of one poll. *)
Variable checkApproval : Z -> State -> State.

Definition step (e : Event) (st : State) : State :=
  match e with
  | Timer now => if timerArmed st then checkApproval now (disarm st) else st
  | Abort =>
      if aborted st then st
      else if listening st then abortHandler (setAborted st) else setAborted st
  | Deposit file content => write file content st
  end.

(** Deliver events until the promise settles; the events that come
    later are not this wait's business. *)
Fixpoint run (events : list Event) (st : State) : State :=
  match events with
  | [] => st
  | e :: rest =>
      match settled st with
      | Some _ => st
      | None => run rest (step e st)
      end
  end.

(** The first poll, made at once. *)
Definition start (signalAborted : bool) (startTime : Z)
           (d : gmap string FileContent) : State :=
  checkApproval startTime
    {| resolved := false; timerArmed := false; listening := true;
       aborted := signalAborted; pollCount := 0; settled := None; dir := d |}.
End Run.

End Wait.

(** ** Approval Coordinator: [PermissionHandler] with Auto mode (part_006) *)

Module PermissionHandler.
Import JsString.

Definition approvalFileOf (approvalId : string) : string := approvalId +:+ ".json".

(** [approval_${Date.now()}_${Math.random().toString(36).substr(2, 9)}] *)
Definition newApprovalId (now : Z) (random : string) : string :=
  "approval_" +:+ pretty now +:+ "_" +:+ random.

Definition checkApproval (approvalFile : string) (now : Z) (st : Wait.State) : Wait.State :=
  if Wait.resolved st || Wait.aborted st then st
  else Wait.checkFile approvalFile (Wait.countPoll st).

Definition waitForApproval (approvalId : string) (signalAborted : bool) (startTime : Z)
           (events : list Event) (d : gmap string FileContent) : Wait.State :=
  let approvalFile := approvalFileOf approvalId in
  Wait.run (checkApproval approvalFile) events
           (Wait.start (checkApproval approvalFile) signalAborted startTime d).

Definition mentionText (slackContext : SlackContext) : string :=
  if String.eqb (user slackContext) "" then "" else "<@" +:+ user slackContext +:+ "> ".

Definition nl : string := String (ascii_of_nat 10) "".
Definition fence : string := "```".

Definition parametersText (P : Platform) (input : ToolInput) : string :=
  "*Tool Parameters:*" +:+ nl +:+ fence +:+ "json" +:+ nl
  +:+ JSON_stringify P input +:+ nl +:+ fence.

Definition requestMessage (P : Platform) (slackContext : SlackContext)
           (toolName : string) (input : ToolInput) (approvalId : string) : Slack.PostMessage :=
  {| Slack.pm_channel := channel slackContext;
     Slack.pm_thread_ts := threadTs slackContext;
     Slack.pm_blocks := Some
       [ Slack.SectionBlock
           (mentionText slackContext +:+ "🔐 *Permission Request*" +:+ nl +:+ nl
            +:+ "Claude wants to use the tool: `" +:+ toolName +:+ "`" +:+ nl +:+ nl
            +:+ parametersText P input);
         Slack.ActionsBlock
           [ {| Slack.label := "✅ Approve"; Slack.style := "primary";
                Slack.action_id := "approve_tool"; Slack.value := approvalId |};
             {| Slack.label := "❌ Deny"; Slack.style := "danger";
                Slack.action_id := "deny_tool"; Slack.value := approvalId |} ];
         Slack.ContextBlock
           ("Requested by: <@" +:+ user slackContext +:+ "> | Tool: " +:+ toolName) ];
     Slack.pm_text := mentionText slackContext +:+ "Permission request for " +:+ toolName |}.

Definition outcomeMessage (P : Platform) (result : Slack.PostResult) (t : string)
           (toolName : string) (input : ToolInput) (allowed : bool) : Slack.Update :=
  {| Slack.up_channel := Slack.res_channel result;
     Slack.up_ts := t;
     Slack.up_blocks :=
       [ Slack.SectionBlock
           ("🔐 *Permission Request* - "
            +:+ (if allowed then "✅ Approved" else "❌ Denied") +:+ nl +:+ nl
            +:+ "Tool: `" +:+ toolName +:+ "`" +:+ nl +:+ nl +:+ parametersText P input);
         Slack.ContextBlock
           ((if allowed then "Approved" else "Denied") +:+ " by user | Tool: " +:+ toolName) ];
     Slack.up_text :=
       "Permission " +:+ (if allowed then "approved" else "denied") +:+ " for " +:+ toolName |}.

Definition errorResult : PermissionResult :=
  Deny (JStr "Error occurred while requesting permission").

(** What the callback returns once the wait has produced [response]
    and the notification has been updated. *)
Definition conclude (input : ToolInput) (response : JsValue) : PermissionResult :=
  match Js.get response "behavior" with
  | Throw _ => errorResult
  | Normal b =>
      if Js.isStr b "allow" then Allow input
      else match Js.get response "message" with
           | Throw _ => errorResult
           | Normal (Some m) => if Js.truthy (Some m) then Deny m else Deny (JStr "Denied by user")
           | Normal None => Deny (JStr "Denied by user")
           end
  end.

Section Callback.
(** The wait the callback suspends on. *)
Variable wait : string -> bool -> Z -> list Event -> gmap string FileContent -> Wait.State.

(** The [canUseTool] callback of a scope.  [now] is the clock at the
    call (it feeds the ticket id and is the start time of the wait),
    [random] the random part of the ticket id, [signalAborted] the
    state of the caller's signal when the wait starts, and [events]
    what happens during the wait.
    [None]: the promise is still pending when the events end. *)
Definition canUseTool (P : Platform) (slackContext : SlackContext)
           (toolName : string) (input : ToolInput)
           (now : Z) (random : string) (signalAborted : bool) (events : list Event)
           (w : World) : option PermissionResult * World :=
  let approvalId := newApprovalId now random in
  let request := requestMessage P slackContext toolName input approvalId in
  let w1 := emit (SlackPost request) w in
  match postMessage P request with
  | Throw _ => (Some errorResult, w1)
  | Normal result =>
      let w2 := emit (AwaitApproval approvalId) w1 in
      let st := wait approvalId signalAborted now events (approvals w2) in
      let w3 := {| trace := trace w2; approvals := Wait.dir st |} in
      match Wait.settled st with
      | None => (None, w3)
      | Some response =>
          match Slack.ts result with
          | Some t =>
              if String.eqb t "" then (Some (conclude input response), w3)
              else
                match Js.get response "behavior" with
                | Throw _ => (Some errorResult, w3)
                | Normal b =>
                    let upd := outcomeMessage P result t toolName input
                                              (Js.isStr b "allow") in
                    let w4 := emit (SlackUpdate upd) w3 in
                    match chatUpdate P upd with
                    | Throw _ => (Some errorResult, w4)
                    | Normal _ => (Some (conclude input response), w4)
                    end
                end
          | None => (Some (conclude input response), w3)
          end
      end
  end.
End Callback.

Definition createCanUseToolCallback := canUseTool waitForApproval.

Definition blockedMessage (P : Platform) (slackContext : SlackContext)
           (toolName : string) (input : ToolInput) (why : option string) : Slack.PostMessage :=
  {| Slack.pm_channel := channel slackContext;
     Slack.pm_thread_ts := threadTs slackContext;
     Slack.pm_blocks := None;
     Slack.pm_text :=
       "⛔ *Dangerous operation blocked*" +:+ nl +:+ nl
       +:+ "Tool: `" +:+ toolName +:+ "`" +:+ nl
       +:+ "Reason: " +:+ default "undefined" why +:+ nl +:+ nl
       +:+ "*Input:*" +:+ nl +:+ fence +:+ "json" +:+ nl
       +:+ JSON_stringify P input +:+ nl +:+ fence +:+ nl +:+ nl
       +:+ "Switch to `bypass on` if you want to allow all operations." |}.

(** The [canUseTool] callback of Auto mode.  [cwd] is the process's
    working directory.  The classifier runs outside any [try], so its
    exception is the callback's. *)
Definition createAutoModeCallback (P : Platform) (cwd : string)
           (slackContext : SlackContext) (workingDirectory : option string)
           (toolName : string) (input : ToolInput)
           (w : World) : Completion PermissionResult * World :=
  match DangerClassifier.checkAutoModeSafety cwd toolName input workingDirectory with
  | Throw e => (Throw e, w)
  | Normal safetyCheck =>
      if DangerClassifier.safe safetyCheck then (Normal (Allow input), w)
      else
        let note := blockedMessage P slackContext toolName input
                                   (DangerClassifier.reason safetyCheck) in
        (* a failure to post is caught and logged *)
        (Normal (Deny (JStr (orElse (DangerClassifier.reason safetyCheck)
                                    "Operation blocked by auto mode"))),
         emit (SlackPost note) w)
  end.

End PermissionHandler.

(** ** Approval Coordinator: [PermissionHandler] with the deadline (part_005) *)

Module PermissionHandlerDeadline.

Definition timeout : Z := 5 * 60 * 1000.
Definition pollInterval : Z := 500.

Definition checkApproval (startTime : Z) (approvalFile : string) (now : Z)
           (st : Wait.State) : Wait.State :=
  if Wait.resolved st || Wait.aborted st then st
  else
    let st := Wait.countPoll st in
    if (now - startTime >? timeout)%Z then
      Wait.resolve (Wait.denyResponse "Permission request timed out")
                   (Wait.unlink approvalFile (Wait.removeListener (Wait.cleanup st)))
    else Wait.checkFile approvalFile st.

Definition waitForApproval (approvalId : string) (signalAborted : bool) (startTime : Z)
           (events : list Event) (d : gmap string FileContent) : Wait.State :=
  let approvalFile := PermissionHandler.approvalFileOf approvalId in
  Wait.run (checkApproval startTime approvalFile) events
           (Wait.start (checkApproval startTime approvalFile) signalAborted startTime d).

Definition createCanUseToolCallback := PermissionHandler.canUseTool waitForApproval.

End PermissionHandlerDeadline.

(** ** The MCP permission server ([permission-mcp-server.ts]) *)

Module PermissionMCPServer.

Record PermissionResponse : Type :=
  { r_behavior : Behavior;
    r_updatedInput : option JsValue;
    r_message : option string }.

(** [resolveApproval]: settles the pending approval of that id, if
    any.  [pendingApprovals] is given by its set of ids; the result is
    the response handed to the pending resolver. *)
Definition resolveApproval (pendingApprovals : gset string) (approvalId : string)
           (approved : bool) (updatedInput : option JsValue)
  : gset string * option PermissionResponse :=
  if bool_decide (approvalId ∈ pendingApprovals) then
    (pendingApprovals ∖ {[approvalId]},
     Some {| r_behavior := if approved then allow else deny;
             r_updatedInput := if Js.truthy updatedInput then updatedInput else None;
             r_message := Some (if approved then "Approved by user" else "Denied by user") |})
  else (pendingApprovals, None).

Definition timeout : Z := 5 * 60 * 1000.

(** One poll of the server's own [waitForApproval], which takes no
    abort signal. *)
Definition checkApproval (startTime : Z) (approvalFile : string) (now : Z)
           (st : Wait.State) : Wait.State :=
  let st := Wait.countPoll st in
  if (now - startTime >? timeout)%Z then
    Wait.resolve (Wait.denyResponse "Permission request timed out")
                 (Wait.unlink approvalFile st)
  else
    match Wait.dir st !! approvalFile with
    | Some content =>
        match JSON_parse content with
        | Normal response => Wait.resolve response (Wait.unlink approvalFile st)
        | Throw _ => Wait.arm st
        end
    | None => Wait.arm st
    end.

Definition waitForApproval (approvalId : string) (startTime : Z)
           (events : list Event) (d : gmap string FileContent) : Wait.State :=
  let approvalFile := approvalId +:+ ".json" in
  Wait.run (checkApproval startTime approvalFile) events
           (checkApproval startTime approvalFile startTime
              {| Wait.resolved := false; Wait.timerArmed := false; Wait.listening := false;
                 Wait.aborted := false; Wait.pollCount := 0; Wait.settled := None;
                 Wait.dir := d |}).

End PermissionMCPServer.

(** ** Numbers

    A Number is an IEEE 754 binary64 value.  The operations are those
    of the Standard Library's specification of the format: results are
    rounded to nearest, ties to even, and a comparison with NaN is
    false. *)

Module JsNumber.

Definition prec : Z := 53.
Definition emax : Z := 1024.

Definition Number : Type := spec_float.

Definition NaN : Number := S754_nan.

(** The Number nearest to the integer [z]. *)
Definition ofZ (z : Z) : Number := binary_normalize prec emax z 0 false.

Definition sub : Number -> Number -> Number := SFsub prec emax.
Definition mul : Number -> Number -> Number := SFmul prec emax.

(** [x > y] and [x <= y]. *)
Definition gtb (x y : Number) : bool := SFltb y x.
Definition leb (x y : Number) : bool := SFleb x y.

End JsNumber.

(** ** Dates *)

Inductive Date : Type :=
| Time (ms : Z)       (* a time value: milliseconds since the epoch *)
| InvalidDate.        (* the time value NaN *)

Module JsDate.
Import JsString.
Local Open Scope Z_scope.

(** The time values a [Date] can hold. *)
Definition inRange (t : Z) : Prop := -8640000000000000 <= t <= 8640000000000000.

Definition validDate (d : Date) : Prop :=
  match d with Time t => inRange t | InvalidDate => False end.

Definition msPerDay : Z := 86400000.

(** Day number within a 400-year era (starting on 1 March) to year of
    era, month and day of month, and back. *)
Definition civilOfDoe (doe : Z) : Z * Z * Z :=
  let yoe := (doe - doe / 1460 + doe / 36524 - doe / 146096) / 365 in
  let doy := doe - (365 * yoe + yoe / 4 - yoe / 100) in
  let mp := (5 * doy + 2) / 153 in
  let d := doy - (153 * mp + 2) / 5 + 1 in
  let m := if mp <? 10 then mp + 3 else mp - 9 in
  (yoe, m, d).

Definition doeOfCivil (yoe m d : Z) : Z :=
  let doy := (153 * (if 2 <? m then m - 3 else m + 9) + 2) / 5 + d - 1 in
  yoe * 365 + yoe / 4 - yoe / 100 + doy.

(** Days since the epoch to the proleptic Gregorian date. *)
Definition civilFromDays (z : Z) : Z * Z * Z :=
  let z := z + 719468 in
  let era := z / 146097 in
  let doe := z mod 146097 in
  let '(yoe, m, d) := civilOfDoe doe in
  (yoe + era * 400 + (if m <=? 2 then 1 else 0), m, d).

Definition daysFromCivil (y m d : Z) : Z :=
  let y := y - (if m <=? 2 then 1 else 0) in
  let era := y / 400 in
  let yoe := y mod 400 in
  era * 146097 + doeOfCivil yoe m d - 719468.

Definition digit (k : Z) : ascii := ascii_of_N (48 + Z.to_N k).

(** [k] in decimal, padded with zeros to [n] digits. *)
Fixpoint pad (n : nat) (k : Z) : list ascii :=
  match n with
  | O => []
  | S n' => (pad n' (k / 10) ++ [digit (k mod 10)])%list
  end.

Definition yearText (y : Z) : list ascii :=
  if (0 <=? y) && (y <=? 9999) then pad 4 y
  else if y <? 0 then "-"%char :: pad 6 (- y)
  else "+"%char :: pad 6 y.

Definition isoChars (t : Z) : list ascii :=
  let '(y, m, d) := civilFromDays (t / msPerDay) in
  let r := t mod msPerDay in
  (yearText y ++ "-"%char :: pad 2 m ++ "-"%char :: pad 2 d
   ++ "T"%char :: pad 2 (r / 3600000)
   ++ ":"%char :: pad 2 ((r / 60000) mod 60)
   ++ ":"%char :: pad 2 ((r / 1000) mod 60)
   ++ "."%char :: pad 3 (r mod 1000) ++ ["Z"%char])%list.

(** [Date.prototype.toISOString]; it throws on an invalid date. *)
Definition toISOString (d : Date) : Completion string :=
  match d with
  | Time t => Normal (str (isoChars t))
  | InvalidDate => Throw "RangeError: Invalid time value"
  end.

Definition digitValue (c : ascii) : option Z :=
  let n := code c in
  if between 48 57 n then Some (Z.of_N n - 48) else None.

Fixpoint number (acc : Z) (l : list ascii) : option Z :=
  match l with
  | [] => Some acc
  | c :: t =>
      match digitValue c with
      | Some v => number (acc * 10 + v) t
      | None => None
      end
  end.

(** Read [n] digits, then the separator [sepc]. *)
Definition field (n : nat) (sepc : ascii) (l : list ascii) : option (Z * list ascii) :=
  match number 0 (firstn n l), skipn n l with
  | Some v, c :: rest =>
      if (List.length (firstn n l) =? n)%nat && (if ascii_dec c sepc then true else false)
      then Some (v, rest) else None
  | _, _ => None
  end.

Definition yearField (l : list ascii) : option (Z * list ascii) :=
  match l with
  | c :: t =>
      if ascii_dec c "+"%char then field 6 "-"%char t
      else if ascii_dec c "-"%char then
             match field 6 "-"%char t with
             | Some (v, rest) => Some (- v, rest)
             | None => None
             end
      else field 4 "-"%char l
  | [] => None
  end.

(** [new Date(text)] for a text in the date-time format [toISOString]
    writes; any other text is outside this model and reads as an
    invalid date. *)
Definition parseChars (l : list ascii) : Date :=
  match yearField l with
  | Some (y, l1) =>
  match field 2 "-"%char l1 with
  | Some (m, l2) =>
  match field 2 "T"%char l2 with
  | Some (d, l3) =>
  match field 2 ":"%char l3 with
  | Some (h, l4) =>
  match field 2 ":"%char l4 with
  | Some (mi, l5) =>
  match field 2 "."%char l5 with
  | Some (s, l6) =>
  match field 3 "Z"%char l6 with
  | Some (ms, []) =>
      if (1 <=? m) && (m <=? 12) && (1 <=? d) && (d <=? 31)
         && (h <=? 24) && (mi <=? 59) && (s <=? 59)
      then Time (daysFromCivil y m d * msPerDay
                 + h * 3600000 + mi * 60000 + s * 1000 + ms)
      else InvalidDate
  | _ => InvalidDate end
  | None => InvalidDate end
  | None => InvalidDate end
  | None => InvalidDate end
  | None => InvalidDate end
  | None => InvalidDate end
  | None => InvalidDate end.

Definition parse (text : string) : Date := parseChars (chars text).

End JsDate.

(** ** Session Store ([ClaudeHandler]) *)

Record ConversationSession : Type :=
  { userId : string;
    channelId : string;
    cs_threadTs : option string;
    sessionId : option string;
    isActive : bool;
    lastActivity : Date }.

(** The [canUseTool] option of a query. *)
Inductive CanUseTool : Type :=
| ApprovalCallback (slackContext : SlackContext).   (* permissionHandler.createCanUseToolCallback(slackContext) *)

Module ClaudeHandler.
Import JsString.

Definition getSessionKey (userId channelId : string) (threadTs : option string) : string :=
  userId +:+ "-" +:+ channelId +:+ "-" +:+ orElse threadTs "direct".

Definition getSession (sessions : gmap string ConversationSession)
           (userId channelId : string) (threadTs : option string)
  : option ConversationSession :=
  sessions !! getSessionKey userId channelId threadTs.

(** [now] is the value of [new Date()]. *)
Definition createSession (sessions : gmap string ConversationSession) (now : Z)
           (userId channelId : string) (threadTs : option string)
  : ConversationSession * gmap string ConversationSession :=
  let session :=
    {| userId := userId; channelId := channelId; cs_threadTs := threadTs;
       sessionId := None; isActive := true; lastActivity := Time now |} in
  (session, <[getSessionKey userId channelId threadTs := session]> sessions).

(** [date.getTime()]: the time value, NaN for an invalid date. *)
Definition getTime (d : Date) : JsNumber.Number :=
  match d with
  | Time t => JsNumber.ofZ t
  | InvalidDate => JsNumber.NaN
  end.

(** [now - session.lastActivity.getTime() > maxAge], on Numbers.
    [now] is the value of [Date.now()], a whole number of
    milliseconds. *)
Definition expired (now : Z) (maxAge : JsNumber.Number) (session : ConversationSession)
  : bool :=
  JsNumber.gtb (JsNumber.sub (JsNumber.ofZ now) (getTime (lastActivity session))) maxAge.

(** [maxAgeHours * 60 * 60 * 1000] *)
Definition maxAgeOf (maxAgeHours : JsNumber.Number) : JsNumber.Number :=
  JsNumber.mul (JsNumber.mul (JsNumber.mul maxAgeHours (JsNumber.ofZ 60)) (JsNumber.ofZ 60))
               (JsNumber.ofZ 1000).

(** [maxAgeHours] defaults to 24 when the caller passes none. *)
Definition cleanupInactiveSessions (sessions : gmap string ConversationSession)
           (now : Z) (maxAgeHoursArg : option JsNumber.Number)
  : gmap string ConversationSession :=
  let maxAgeHours := default (JsNumber.ofZ 24) maxAgeHoursArg in
  if JsNumber.leb maxAgeHours (JsNumber.ofZ 0) then sessions
  else
    let maxAge := maxAgeOf maxAgeHours in
    fold_left (fun acc (entry : string * ConversationSession) =>
                 if expired now maxAge entry.2 then delete entry.1 acc else acc)
              (map_to_list sessions) sessions.

Definition getAllSessions (sessions : gmap string ConversationSession) := sessions.

Definition restoreSessions (live restored : gmap string ConversationSession)
  : gmap string ConversationSession :=
  fold_left (fun acc (entry : string * ConversationSession) => <[entry.1 := entry.2]> acc)
            (map_to_list restored) live.

(** The permission part of the options [streamQuery] hands to the
    agent runtime. *)
Record PermissionOptions : Type :=
  { outputFormat : string;
    permissionMode : string;
    canUseTool : option CanUseTool }.

Definition permissionOptions (modes : gmap string BypassModeManager.PermissionMode)
           (slackContext : option SlackContext) : PermissionOptions :=
  let isBypassMode :=
    match slackContext with
    | Some ctx =>
        BypassModeManager.isBypassMode modes (channel ctx) (threadTs ctx)
          (if startsWith (channel ctx) "D" then Some (user ctx) else None)
    | None => true    (* No Slack context means bypass by default *)
    end in
  {| outputFormat := "stream-json";
     permissionMode := if isBypassMode then "bypassPermissions" else "default";
     canUseTool :=
       match slackContext with
       | Some ctx => if negb isBypassMode then Some (ApprovalCallback ctx) else None
       | None => None
       end |}.

(** *** The other accessors of the session table *)

Definition setSession (sessions : gmap string ConversationSession)
           (k : string) (session : ConversationSession)
  : gmap string ConversationSession :=
  <[k := session]> sessions.

(** [now] is the value of [new Date()]. *)
Definition attachExternalSession (sessions : gmap string ConversationSession) (now : Z)
           (userId channelId : string) (threadTs : option string)
           (externalSessionId : string)
  : ConversationSession * gmap string ConversationSession :=
  let session :=
    {| userId := userId; channelId := channelId; cs_threadTs := threadTs;
       sessionId := Some externalSessionId; isActive := true;
       lastActivity := Time now |} in
  (session, <[getSessionKey userId channelId threadTs := session]> sessions).

(** [session?.sessionId] *)
Definition getSessionId (sessions : gmap string ConversationSession)
           (userId channelId : string) (threadTs : option string) : option string :=
  match getSession sessions userId channelId threadTs with
  | Some session => sessionId session
  | None => None
  end.

(** *** The options and the message loop of [streamQuery] *)

(** What [streamQuery] asks of the MCP manager: the configured servers,
    an object keyed by server name or [undefined], and the tools allowed
    by default. *)
Record McpManager : Type :=
  { getServerConfiguration : option (list (string * JsValue));
    getDefaultAllowedTools : list string }.

(** [abortController || new AbortController()] *)
Inductive AbortController : Type :=
| Supplied (id : nat)
| Fresh.

Record QueryOptions : Type :=
  { permission : PermissionOptions;
    cwd : option string;
    mcpServers : option (list (string * JsValue));
    allowedTools : option (list string);
    resume : option string;
    abortController : AbortController }.

Definition nonEmpty {A : Type} (l : list A) : bool :=
  match l with [] => false | _ :: _ => true end.

Definition queryOptions (modes : gmap string BypassModeManager.PermissionMode)
           (mcpManager : McpManager)
           (session : option ConversationSession) (controller : option nat)
           (workingDirectory : option string) (slackContext : option SlackContext)
  : QueryOptions :=
  let servers :=
    match getServerConfiguration mcpManager with
    | Some configured => if nonEmpty configured then Some configured else None
    | None => None
    end in
  {| permission := permissionOptions modes slackContext;
     cwd := if truthy workingDirectory then workingDirectory else None;
     mcpServers := servers;
     allowedTools :=
       match servers with
       | Some _ =>
           if nonEmpty (getDefaultAllowedTools mcpManager)
           then Some (getDefaultAllowedTools mcpManager) else None
       | None => None
       end;
     resume :=
       match session with
       | Some s => if truthy (sessionId s) then sessionId s else None
       | None => None
       end;
     abortController :=
       match controller with Some id => Supplied id | None => Fresh end |}.

(** A message of the agent runtime: the fields [streamQuery] looks at,
    and the rest of it. *)
Record SDKMessage : Type :=
  { m_type : string;
    m_subtype : option string;
    session_id : option string;
    m_rest : JsValue }.

Definition isInit (message : SDKMessage) : bool :=
  String.eqb (m_type message) "system"
  && match m_subtype message with
     | Some subtype => String.eqb subtype "init"
     | None => false
     end.

(** The body of the loop, on the session object the caller passed. *)
Definition onMessage (session : option ConversationSession) (message : SDKMessage)
  : option ConversationSession :=
  if isInit message then
    match session with
    | Some s =>
        Some {| userId := userId s; channelId := channelId s;
                cs_threadTs := cs_threadTs s;
                sessionId := session_id message;
                isActive := isActive s; lastActivity := lastActivity s |}
    | None => None
    end
  else session.

(** [query] yields [messages] and then ends, normally or by throwing
    [failure], which [streamQuery] throws again.  The result: what the
    generator has yielded, how it ends, and the session object then. *)
Definition streamQuery (session : option ConversationSession)
           (messages : list SDKMessage) (failure : option string)
  : list SDKMessage * Completion unit * option ConversationSession :=
  (messages,
   match failure with Some e => Throw e | None => Normal tt end,
   fold_left onMessage messages session).

End ClaudeHandler.

(** ** Backup Manager ([SessionBackupManager]) *)

Record SerializedSession : Type :=
  { key : string;
    s_userId : string;
    s_channelId : string;
    s_threadTs : option string;
    s_sessionId : option string;
    s_isActive : bool;
    s_lastActivity : string }.

Record SessionBackup : Type :=
  { b_sessions : list SerializedSession;
    workingDirectories : gmap string string;
    timestamp : string;
    version : Z }.

(** A file of the backup directory: JSON text of a snapshot, given by
    the snapshot it parses to, or anything else. *)
Inductive BackupFile : Type :=
| Snapshot (b : SessionBackup)
| Unreadable (raw : string).

Module SessionBackupManager.
Import JsString.

Definition backupFile : string := "sessions.json".
Definition tempFile : string := backupFile +:+ ".tmp".

Definition serialize (k : string) (session : ConversationSession)
  : Completion SerializedSession :=
  match JsDate.toISOString (lastActivity session) with
  | Normal iso =>
      Normal {| key := k;
                s_userId := userId session;
                s_channelId := channelId session;
                s_threadTs := cs_threadTs session;
                s_sessionId := sessionId session;
                s_isActive := isActive session;
                s_lastActivity := iso |}
  | Throw e => Throw e
  end.

Fixpoint serializeAll (entries : list (string * ConversationSession))
  : Completion (list SerializedSession) :=
  match entries with
  | [] => Normal []
  | (k, session) :: rest =>
      match serialize k session with
      | Normal s =>
          match serializeAll rest with
          | Normal ss => Normal (s :: ss)
          | Throw e => Throw e
          end
      | Throw e => Throw e
      end
  end.

(** [iso.replace(/[:.]/g, '-')] *)
Definition dashed (iso : string) : string :=
  str (map (fun c => if ascii_dec c ":"%char then "-"%char
                     else if ascii_dec c "."%char then "-"%char else c)
           (chars iso)).

Definition timestampedFile (now : Z) : string :=
  "sessions-" +:+ slice0 16 (dashed (str (JsDate.isoChars now))) +:+ ".json".

Definition isTimestamped (f : string) : bool :=
  startsWith f "sessions-" && endsWith f ".json".

(** [Array.prototype.sort] without a comparator, on distinct strings:
    ascending by code units. *)
Fixpoint insertSorted (x : string) (l : list string) : list string :=
  match l with
  | [] => [x]
  | y :: t => if String.leb x y then x :: l else y :: insertSorted x t
  end.

Definition sort (l : list string) : list string := fold_right insertSorted [] l.

Definition readdir (fs : gmap string BackupFile) : list string :=
  map fst (map_to_list fs).

Definition cleanupOldBackups (keepCount : nat) (fs : gmap string BackupFile)
  : gmap string BackupFile :=
  let files := rev (sort (List.filter isTimestamped (readdir fs))) in
  if (keepCount <? List.length files)%nat
  then fold_left (fun acc file => delete file acc) (skipn keepCount files) fs
  else fs.

(** [now] is the clock when the dated copy is named. *)
Definition createTimestampedBackup (now : Z) (backup : SessionBackup)
           (fs : gmap string BackupFile) : gmap string BackupFile :=
  let file := timestampedFile now in
  match fs !! file with
  | Some _ => fs
  | None => cleanupOldBackups 48 (<[file := Snapshot backup]> fs)
  end.

(** [now] is the clock when the snapshot is stamped, [now'] the clock
    when the dated copy is named.  A session that cannot be
    serialized makes the whole save fail before anything is written. *)
Definition saveBackup (now now' : Z)
           (sessions : gmap string ConversationSession)
           (workingDirs : gmap string string)
           (fs : gmap string BackupFile) : gmap string BackupFile :=
  match serializeAll (map_to_list sessions) with
  | Throw _ => fs
  | Normal serializedSessions =>
      let backup :=
        {| b_sessions := serializedSessions;
           workingDirectories := workingDirs;
           timestamp := str (JsDate.isoChars now);
           version := 1 |} in
      let written := <[tempFile := Snapshot backup]> fs in
      let renamed := <[backupFile := Snapshot backup]> (delete tempFile written) in
      createTimestampedBackup now' backup renamed
  end.

Definition loadBackup (fs : gmap string BackupFile) : option SessionBackup :=
  match fs !! backupFile with
  | Some (Snapshot backup) => Some backup
  | Some (Unreadable _) => None
  | None => None
  end.

Definition deserialize (s : SerializedSession) : ConversationSession :=
  {| userId := s_userId s;
     channelId := s_channelId s;
     cs_threadTs := s_threadTs s;
     sessionId := s_sessionId s;
     isActive := s_isActive s;
     lastActivity := JsDate.parse (s_lastActivity s) |}.

Definition restoreSessions (backup : SessionBackup)
  : gmap string ConversationSession * gmap string string :=
  (fold_left (fun acc s => <[key s := deserialize s]> acc) (b_sessions backup) ∅,
   fold_left (fun acc (entry : string * string) => <[entry.1 := entry.2]> acc)
             (map_to_list (workingDirectories backup)) ∅).

(** One run of the save that [startPeriodicBackup] schedules: the
    clock readings and the stores as the getters return them then. *)
Record Tick : Type :=
  { tick_now : Z;
    tick_now' : Z;
    tick_sessions : gmap string ConversationSession;
    tick_workingDirs : gmap string string }.

Definition saveAt (t : Tick) (fs : gmap string BackupFile) : gmap string BackupFile :=
  saveBackup (tick_now t) (tick_now' t) (tick_sessions t) (tick_workingDirs t) fs.

(** [startup] is the save made immediately, [ticks] are the saves the
    interval timer has made so far. *)
Definition startPeriodicBackup (startup : Tick) (ticks : list Tick)
           (fs : gmap string BackupFile) : gmap string BackupFile :=
  fold_left (fun acc t => saveAt t acc) ticks (saveAt startup fs).

(** *** Listing the backups *)

Record BackupInfo : Type :=
  { info_file : string; info_timestamp : string; info_sessionCount : nat }.

(** The entry of one file; a file that does not read as a snapshot is
    skipped. *)
Definition describe (fs : gmap string BackupFile) (file : string) : list BackupInfo :=
  match fs !! file with
  | Some (Snapshot backup) =>
      [ {| info_file := file;
           info_timestamp := timestamp backup;
           info_sessionCount := List.length (b_sessions backup) |} ]
  | Some (Unreadable _) => []
  | None => []
  end.

Definition isJson (f : string) : bool := endsWith f ".json".

Definition listBackups (fs : gmap string BackupFile) : list BackupInfo :=
  let files := rev (sort (List.filter isJson (readdir fs))) in
  flat_map (describe fs) (firstn 10 files).

(** *** The interval timer

    The timers of the process: the live ones, and the handle the next
    [setInterval] returns. *)
Record Timers : Type := { live : gset nat; next : nat }.

Definition setInterval (t : Timers) : nat * Timers :=
  (next t, {| live := {[next t]} ∪ live t; next := S (next t) |}).

Definition clearInterval (h : nat) (t : Timers) : Timers :=
  {| live := live t ∖ {[h]}; next := next t |}.

Record Scheduler : Type := { backupInterval : option nat; timers : Timers }.

(** What [startPeriodicBackup] does with the timers. *)
Definition startInterval (s : Scheduler) : Scheduler :=
  let cleared :=
    match backupInterval s with
    | Some h => clearInterval h (timers s)
    | None => timers s
    end in
  let '(h, armed) := setInterval cleared in
  {| backupInterval := Some h; timers := armed |}.

Definition stopPeriodicBackup (s : Scheduler) : Scheduler :=
  match backupInterval s with
  | Some h => {| backupInterval := None; timers := clearInterval h (timers s) |}
  | None => s
  end.

End SessionBackupManager.

(** ** Start and shutdown ([index.ts]) *)

Module Main.

(** The sessions of the fresh [ClaudeHandler] once [start] has restored
    the backup, if there is one. *)
Definition restoredSessions (fs : gmap string BackupFile)
  : gmap string ConversationSession :=
  match SessionBackupManager.loadBackup fs with
  | Some backup =>
      ClaudeHandler.restoreSessions ∅ (SessionBackupManager.restoreSessions backup).1
  | None => ∅
  end.

(** The working directories [start] hands to the Slack handler. *)
Definition restoredWorkingDirectories (fs : gmap string BackupFile)
  : option (gmap string string) :=
  match SessionBackupManager.loadBackup fs with
  | Some backup => Some (SessionBackupManager.restoreSessions backup).2
  | None => None
  end.

(** The save [shutdown] makes on SIGTERM and SIGINT. *)
Definition shutdown (now now' : Z) (sessions : gmap string ConversationSession)
           (workingDirs : gmap string string) (fs : gmap string BackupFile)
  : gmap string BackupFile :=
  SessionBackupManager.saveBackup now now' sessions workingDirs fs.

End Main.

(** ** The specification's vocabulary

    Notions the specification uses, stated in its own words, to compare
    the code with. *)

Module Spec.

(** A session's last activity predates [now - maxAge], [maxAge] given
    in milliseconds, in exact arithmetic.  An invalid date predates
    nothing. *)
Definition predates (now maxAge : Z) (session : ConversationSession) : Prop :=
  match lastActivity session with
  | Time t => (t < now - maxAge)%Z
  | InvalidDate => False
  end.

#[global] Instance predates_dec now maxAge s : Decision (predates now maxAge s).
Proof. unfold predates. destruct (lastActivity s); apply _. Defined.

(** The age of a session, a whole number of milliseconds, exceeds the
    Number [maxAge].  A session with an invalid date has no age. *)
Definition overAge (now : Z) (maxAge : JsNumber.Number) (session : ConversationSession)
  : Prop :=
  match lastActivity session with
  | Time t => JsNumber.gtb (JsNumber.ofZ (now - t)) maxAge = true
  | InvalidDate => False
  end.

#[global] Instance overAge_dec now maxAge s : Decision (overAge now maxAge s).
Proof. unfold overAge. destruct (lastActivity s); apply _. Defined.

End Spec.

(** ** Concrete scenarios *)

Module Scenario.

(** A chat platform that accepts every call. *)
Definition platform : Platform :=
  {| postMessage := fun m =>
       Normal {| Slack.ts := Some "1700000000.000100";
                 Slack.res_channel := Some (Slack.pm_channel m) |};
     chatUpdate := fun _ => Normal tt;
     JSON_stringify := fun _ => "{ ... }" |}.

(** A chat platform that accepts messages and rejects every update. *)
Definition stalePlatform : Platform :=
  {| postMessage := postMessage platform;
     chatUpdate := fun _ => Throw "An API error occurred: message_not_found";
     JSON_stringify := JSON_stringify platform |}.

Definition scope : SlackContext :=
  {| channel := "C0123"; threadTs := Some "1700000000.000001"; user := "U0456" |}.

Definition world : World := {| trace := []; approvals := ∅ |}.


Definition input : ToolInput := [("command", JStr "ls")].
Definition edited : ToolInput := [("command", JStr "ls -la")].

Definition ticket : string := PermissionHandler.newApprovalId 0 "k3j9x0q2a".
Definition ticketFile : string := PermissionHandler.approvalFileOf ticket.

(** A poll every 500 ms for ten minutes, and nothing else. *)
Definition tenMinutesOfPolls : list Event :=
  map (fun k => Timer (500 * Z.of_nat k)) (seq 1 1200).

Definition approved : JsValue :=
  JObj [("behavior", JStr "allow"); ("message", JStr "Approved by user")].

Definition approvedWithEdit : JsValue :=
  JObj [("behavior", JStr "allow"); ("updatedInput", JObj edited)].

(** The human approves, and the caller aborts before the next poll. *)
Definition approveThenAbort : list Event :=
  [Deposit ticketFile (Document approved); Abort].

(** The human approves with an edited input; the next poll finds it. *)
Definition approveEdited : list Event :=
  [Deposit ticketFile (Document approvedWithEdit); Timer 500].

Definition session : ConversationSession :=
  {| userId := "U0456"; channelId := "C0123"; cs_threadTs := None;
     sessionId := Some "3f2a9c1e"; isActive := true;
     lastActivity := Time 1730620800123 |}.

Definition sessions : gmap string ConversationSession :=
  {[ "U0456-C0123-direct" := session ]}.

Definition workingDirs : gmap string string := {[ "C0123" := "/home/user/project" ]}.

(** Half an hour, as a number of hours: [0.5]. *)
Definition halfAnHour : JsNumber.Number := S754_finite false 4503599627370496 (-53).

(** A session last active some 11600 years before the epoch, the clock at the last
    time value a [Date] can hold, and a maximal age of 2502000000
    hours, that is 9007200000000000 ms. *)
Definition ancientSession : ConversationSession :=
  {| userId := "U0456"; channelId := "C0123"; cs_threadTs := None;
     sessionId := None; isActive := true;
     lastActivity := Time (-367200000000001) |}.
Definition endOfTime : Z := 8640000000000000.
Definition ages : JsNumber.Number := JsNumber.ofZ 2502000000.

(** The save made at startup, on 3 November 2024 at 08:00 UTC. *)
Definition startup : SessionBackupManager.Tick :=
  {| SessionBackupManager.tick_now := 1730620800200;
     SessionBackupManager.tick_now' := 1730620800201;
     SessionBackupManager.tick_sessions := sessions;
     SessionBackupManager.tick_workingDirs := workingDirs |}.

(** A backup directory with the dated copies of the 48 half hours
    before the startup save. *)
Definition halfHoursBefore (k : nat) : Z := (1730620800201 - 1800000 * Z.of_nat k)%Z.

Definition fullDirectory : gmap string BackupFile :=
  list_to_map
    (map (fun k => (SessionBackupManager.timestampedFile (halfHoursBefore k),
                    Unreadable "{}"))
         (seq 1 48)).

End Scenario.

Module SpecClassifier.
Import DangerClassifier.

(** The command matches a pattern of the catalogue. *)
Definition inCatalogue (command : string) : Prop :=
  exists pattern, In pattern DANGEROUS_BASH_PATTERNS
                  /\ Regex.test false (Regex.re pattern) command = true.

(** First check: a shell command of the catalogue. *)
Definition shellFlag (toolName : string) (input : ToolInput) : Prop :=
  toolName = "Bash"
  /\ exists command, Js.prop input "command" = Some (JStr command) /\ inCatalogue command.

(** Second check: a file tool whose target escapes the configured
    working-directory boundary. *)
Definition escapeFlag (cwd toolName : string) (input : ToolInput)
           (workingDirectory : option string) : Prop :=
  exists boundary filePath,
    workingDirectory = Some boundary /\ boundary <> ""
    /\ isFileTool toolName = true
    /\ Js.prop input "file_path" = Some (JStr filePath) /\ filePath <> ""
    /\ isWithinWorkingDirectory cwd filePath boundary = false.

End SpecClassifier.

Module SpecCommand.
Import JsString BypassModeManager.

Definition onWords : list string := ["on"; "enable"; "enabled"; "true"; "1"].
Definition offWords : list string := ["off"; "disable"; "disabled"; "false"; "0"].

(** The text is a keyword, some white space and one of the arguments. *)
Definition phrase (keyword : string) (arguments : list string) (t : string) : Prop :=
  exists ws argument,
    In argument arguments
    /\ ws <> [] /\ Forall (fun c => isWhiteSpace c = true) ws
    /\ chars t = (chars keyword ++ ws ++ chars argument)%list.

(** The command phrases of each mode. *)
Definition commandFor (t : string) (mode : PermissionMode) : Prop :=
  match mode with
  | Auto => phrase "auto" onWords t
  | Bypass => phrase "bypass" onWords t \/ phrase "approval" offWords t
  | Approval =>
      phrase "auto" offWords t \/ phrase "bypass" offWords t \/ phrase "approval" onWords t
  end.

End SpecCommand.

Module SpecBackup.
Import SessionBackupManager.

(** The dated historical copies in the backup directory. *)
Definition datedCopies (fs : gmap string BackupFile) : list string :=
  List.filter isTimestamped (readdir fs).

(** The name of the dated copy a save makes. *)
Definition copyOf (t : Tick) : string := timestampedFile (tick_now' t).

End SpecBackup.

(** ** Notions used to state the lemmas *)

(** *** Waits *)

Definition isTimer (e : Event) : Prop :=
  match e with Timer _ => True | _ => False end.

(** The state of a wait that is polling: nothing decided, a poll
    scheduled, the abort handler registered. *)
Definition polling (d : gmap string FileContent) (st : Wait.State) : Prop :=
  Wait.resolved st = false /\ Wait.timerArmed st = true /\ Wait.listening st = true
  /\ Wait.aborted st = false /\ Wait.settled st = None /\ Wait.dir st = d.

(** A poll that fires no later than the deadline. *)
Definition withinDeadline (startTime : Z) (e : Event) : Prop :=
  match e with
  | Timer now => (now - startTime <= PermissionHandlerDeadline.timeout)%Z
  | _ => False
  end.

(** *** Characters and command patterns *)

Definition allAscii : list ascii := map ascii_of_nat (seq 0 256).

Definition ascii_eqb (a b : ascii) : bool := if ascii_dec a b then true else false.

(** A literal text followed by [r], as the reader of patterns builds it. *)
Definition litSeq (cs : list ascii) (r : Regex.regex) : Regex.regex :=
  fold_right (fun c acc => Regex.Seq (Regex.Chr c) acc) r cs.

Fixpoint alts (words : list string) : Regex.regex :=
  match words with
  | [] => Regex.Void
  | [w] => litSeq (JsString.chars w) Regex.Eps
  | w :: rest => Regex.Alt (litSeq (JsString.chars w) Regex.Eps) (alts rest)
  end.

(** [^keyword\s+(word|...|word)$] *)
Definition modePattern (keyword : string) (words : list string) : Regex.regex :=
  Regex.Seq Regex.Bol
    (litSeq (JsString.chars keyword)
            (Regex.Seq (Regex.Plus Regex.Space)
                       (Regex.Seq (alts words) (Regex.Seq Regex.Eol Regex.Eps)))).

(** Equal up to case, character by character. *)
Definition sameUpToCase (pattern text : list ascii) : Prop :=
  Forall2 (fun p c => JsString.canonChar p = JsString.canonChar c) pattern text.

(** A text that lower-casing leaves as it is. *)
Definition lowered (s : string) : Prop :=
  Forall (fun c => JsString.lowerChar c = c) (JsString.chars s).

(** A text that starts with a character other than white space. *)
Definition startsBlack (l : list ascii) : Prop :=
  match l with c :: _ => JsString.isWhiteSpace c = false | [] => False end.

Definition keywords : list string := ["auto"; "bypass"; "approval"].

(** *** Paths *)

(** A path segment that is a plain name: not empty, without a slash,
    and neither [.] nor [..]. *)
Definition plain (seg : list ascii) : Prop :=
  seg <> [] /\ ~ In Path.slash seg /\ Path.isDot seg = false /\ Path.isDotDot seg = false.

(** The relative path [a/b/c] and the absolute path [/a/b/c]. *)
Definition relPath (segs : list (list ascii)) : string :=
  JsString.str (Path.joinSlash segs).
Definition absPath (segs : list (list ascii)) : string :=
  JsString.str (Path.slash :: Path.joinSlash segs).

(** *** Backup directories *)

Definition ascending : list string -> Prop :=
  StronglySorted (fun a b => String.leb a b = true).

(** The names [cleanupOldBackups] sorts, newest first. *)
Definition newestFirst (fs : gmap string BackupFile) : list string :=
  rev (SessionBackupManager.sort (SpecBackup.datedCopies fs)).

(** The directory once the snapshot is in place, before the dated copy. *)
Definition renamed (backup : SessionBackup) (fs : gmap string BackupFile)
  : gmap string BackupFile :=
  <[SessionBackupManager.backupFile := Snapshot backup]>
    (delete SessionBackupManager.tempFile
            (<[SessionBackupManager.tempFile := Snapshot backup]> fs)).


(** *** Settings and status queries *)

(** The mode a stored setting stands for. *)
Definition modeOf (s : BypassModeManager.Setting) : BypassModeManager.PermissionMode :=
  match s with
  | BypassModeManager.ModeSetting mode => mode
  | BypassModeManager.LegacyFlag enabled =>
      if enabled then BypassModeManager.Bypass else BypassModeManager.Approval
  end.

(** [(\s+status)?(\?)?$] *)
Definition statusTail : Regex.regex :=
  Regex.Seq
    (Regex.Opt (Regex.Seq (Regex.Plus Regex.Space)
                          (litSeq (JsString.chars "status") Regex.Eps)))
    (Regex.Seq (Regex.Opt (Regex.Seq (Regex.Chr "?"%char) Regex.Eps))
               (Regex.Seq Regex.Eol Regex.Eps)).

(** [^(word|...|word)(\s+status)?(\?)?$] and [^word(\s+status)?(\?)?$] *)
Definition statusPattern (words : list string) : Regex.regex :=
  Regex.Seq Regex.Bol (Regex.Seq (alts words) statusTail).
Definition statusPattern1 (word : string) : Regex.regex :=
  Regex.Seq Regex.Bol (litSeq (JsString.chars word) statusTail).

Definition statusWords : list string := ["mode"; "bypass"; "approval"; "auto"].

(** The text is the word, then optionally white space and [status],
    then optionally a question mark. *)
Definition statusPhrase (word : string) (t : string) : Prop :=
  exists mid q,
    JsString.chars t = (JsString.chars word ++ mid ++ q)%list
    /\ (mid = []
        \/ exists ws, ws <> [] /\ Forall (fun c => JsString.isWhiteSpace c = true) ws
                      /\ mid = (ws ++ JsString.chars "status")%list)
    /\ (q = [] \/ q = ["?"%char]).

(** The text is a command of the keyword [auto]. *)
Definition autoCommand (t : string) : Prop :=
  SpecCommand.phrase "auto" SpecCommand.onWords t
  \/ SpecCommand.phrase "auto" SpecCommand.offWords t.


(** *** Sessions *)

(** An identifier without a hyphen, as the chat platform issues them. *)
Definition hyphenFree (s : string) : Prop := ~ In "-"%char (JsString.chars s).

(** The scope a session key stands for: the user, the channel and the
    thread, a missing or empty thread id counting as [direct]. *)
Definition scopeOf (userId channelId : string) (threadTs : option string)
  : string * string * string :=
  (userId, channelId, JsString.orElse threadTs "direct").

(** The last [init] message of a stream, if it has one. *)
Definition lastInit (messages : list ClaudeHandler.SDKMessage)
  : option ClaudeHandler.SDKMessage :=
  List.find ClaudeHandler.isInit (rev messages).

Definition withSessionId (id : option string) (s : ConversationSession)
  : ConversationSession :=
  {| userId := userId s; channelId := channelId s; cs_threadTs := cs_threadTs s;
     sessionId := id; isActive := isActive s; lastActivity := lastActivity s |}.


(** *** Waits, whatever the handler *)

(** A wait that is pending in good order: nothing decided, a poll
    scheduled, the abort handler registered, the signal not aborted. *)
Definition waiting (st : Wait.State) : Prop :=
  Wait.resolved st = false /\ Wait.timerArmed st = true /\ Wait.listening st = true
  /\ Wait.aborted st = false /\ Wait.settled st = None.

Definition abortRefusal : JsValue := Wait.denyResponse "Request was aborted".
Definition timeoutRefusal : JsValue := Wait.denyResponse "Permission request timed out".

(** What one event does to a wait that is pending in good order, for a
    handler whose poll at [now] comes after the deadline when
    [late now]: [st'] is the state after the event. *)
Definition stepSpec (late : Z -> bool) (f : string) (e : Event) (st st' : Wait.State)
  : Prop :=
  match e with
  | Timer now =>
      if late now
      then Wait.settled st' = Some timeoutRefusal /\ Wait.dir st' = delete f (Wait.dir st)
      else match Wait.dir st !! f with
           | Some (Document v) =>
               Wait.settled st' = Some v /\ Wait.dir st' = delete f (Wait.dir st)
           | _ => waiting st' /\ Wait.dir st' = Wait.dir st
           end
  | Abort => Wait.settled st' = Some abortRefusal /\ Wait.dir st' = Wait.dir st
  | Deposit g c => waiting st' /\ Wait.dir st' = <[g := c]> (Wait.dir st)
  end.

(** The state after the first poll, made at once on the directory [d]. *)
Definition startSpec (f : string) (d : gmap string FileContent) (st0 : Wait.State)
  : Prop :=
  match d !! f with
  | Some (Document v) => Wait.settled st0 = Some v /\ Wait.dir st0 = delete f d
  | _ => waiting st0 /\ Wait.dir st0 = d
  end.

(** No poll at all past the deadline of the handler of part_006, which
    has none; the polls later than five minutes after the start for
    the handler of part_005. *)
Definition never (now : Z) : bool := false.
Definition pastDeadline (startTime now : Z) : bool :=
  (now - startTime >? PermissionHandlerDeadline.timeout)%Z.

(** The content [c] was in the file [f] of the directory [d] at the
    start, or some event has deposited it there. *)
Definition deposited (d : gmap string FileContent) (events : list Event)
           (f : string) (c : FileContent) : Prop :=
  d !! f = Some c \/ In (Deposit f c) events.

(** The events delivered to a wait one after the other, those that
    come after the settlement included. *)
Definition deliver (check : Z -> Wait.State -> Wait.State) (events : list Event)
           (st : Wait.State) : Wait.State :=
  fold_left (fun st e => Wait.step check e st) events st.

(** The directory once the deposits among the events are written. *)
Definition written (events : list Event) (d : gmap string FileContent)
  : gmap string FileContent :=
  fold_left (fun d e => match e with
                        | Deposit file content => <[file := content]> d
                        | _ => d
                        end) events d.

(** An event that is a poll on time. *)
Definition pollOnTime (late : Z -> bool) (e : Event) : Prop :=
  match e with Timer now => late now = false | _ => False end.

(** An event that writes nothing into the file [g]. *)
Definition sparing (g : string) (e : Event) : Prop :=
  match e with Deposit file _ => file <> g | _ => True end.


(** A wait of the MCP server that is pending: a poll is scheduled and
    nothing is decided. *)
Definition polled (st : Wait.State) : Prop :=
  Wait.timerArmed st = true /\ Wait.listening st = false /\ Wait.settled st = None.


(** *** The catalogue, pattern by pattern *)

(** A pattern without the assertions [^] and [$]. *)
Fixpoint anchorFree (r : Regex.regex) : bool :=
  match r with
  | Regex.Eps => true
  | Regex.CSet _ _ => true
  | Regex.Bol => false
  | Regex.Eol => false
  | Regex.Seq r1 r2 => anchorFree r1 && anchorFree r2
  | Regex.Alt r1 r2 => anchorFree r1 && anchorFree r2
  | Regex.Star r1 => anchorFree r1
  end.

(** The patterns of the catalogue that look for a fragment anywhere in
    the command. *)
Definition fragmentPatterns : list string :=
  List.filter (fun src => anchorFree (Regex.re src))
              DangerClassifier.DANGEROUS_BASH_PATTERNS.


(** *** Dated names *)

(** The stamp of a minute in a dated name, [YYYY-MM-DDTHH-MM], for a
    year of four digits. *)
Definition minuteStamp (y m d h mi : Z) : list ascii :=
  (JsDate.pad 4 y ++ "-"%char :: JsDate.pad 2 m ++ "-"%char :: JsDate.pad 2 d
   ++ "T"%char :: JsDate.pad 2 h ++ "-"%char :: JsDate.pad 2 mi)%list.

(** The minute a time value falls in. *)
Definition minuteOf (t : Z) : Z := (t / 60000)%Z.

(** The time values of the years 0000 to 9999, whose year
    [toISOString] writes with four digits. *)
Definition fourDigitYear (t : Z) : Prop :=
  (-62167219200000 <= t < 253402300800000)%Z.

(** The first day of a year and of a month, counted from 1 March. *)
Definition yearStart (a : Z) : Z := (365 * a + a / 4 - a / 100 + a / 400)%Z.
Definition monthStart (a : Z) : Z := ((153 * a + 2) / 5)%Z.

(** [iso.replace(/[:.]/g, '-')] on one character. *)
Definition dash (c : ascii) : ascii :=
  if ascii_dec c ":"%char then "-"%char
  else if ascii_dec c "."%char then "-"%char else c.


(** *** The listing *)

(** The [.json] files of the backup directory, newest name first, as
    [listBackups] sorts them. *)
Definition jsonNewestFirst (fs : gmap string BackupFile) : list string :=
  rev (SessionBackupManager.sort
         (List.filter SessionBackupManager.isJson (SessionBackupManager.readdir fs))).

(** The entry [listBackups] makes for the snapshot in a file. *)
Definition entryOf (file : string) (backup : SessionBackup)
  : SessionBackupManager.BackupInfo :=
  {| SessionBackupManager.info_file := file;
     SessionBackupManager.info_timestamp := timestamp backup;
     SessionBackupManager.info_sessionCount := List.length (b_sessions backup) |}.

(** [a] comes before [b] in the list. *)
Definition before {A : Type} (l : list A) (a b : A) : Prop :=
  exists l1 l2 l3, l = (l1 ++ a :: l2 ++ b :: l3)%list.

(** A directory that holds no other [.json] file than the ones the
    manager writes. *)
Definition managed (fs : gmap string BackupFile) : Prop :=
  forall g, is_Some (fs !! g) -> SessionBackupManager.isJson g = true ->
            g = SessionBackupManager.backupFile
            \/ SessionBackupManager.isTimestamped g = true.

(** *** The interval timers *)

(** The scheduler owns at most the one live timer it knows of, and the
    handles to come are fresh. *)
Definition tidy (others : gset nat) (s : SessionBackupManager.Scheduler) : Prop :=
  SessionBackupManager.live (SessionBackupManager.timers s)
  = others ∪ match SessionBackupManager.backupInterval s with
             | Some h => {[h]}
             | None => ∅
             end
  /\ (forall h, h ∈ SessionBackupManager.live (SessionBackupManager.timers s) ->
                h < SessionBackupManager.next (SessionBackupManager.timers s))%nat
  /\ match SessionBackupManager.backupInterval s with
     | Some h => h ∉ others
     | None => True
     end.

(** A call of [startPeriodicBackup] or of [stopPeriodicBackup]. *)
Inductive SchedulerCall : Type := CallStart | CallStop.

Definition call (s : SessionBackupManager.Scheduler) (c : SchedulerCall)
  : SessionBackupManager.Scheduler :=
  match c with
  | CallStart => SessionBackupManager.startInterval s
  | CallStop => SessionBackupManager.stopPeriodicBackup s
  end.


(** *** Numbers *)

(** An integer that a Number holds exactly, as do its neighbours. *)
Definition safeInteger (z : Z) : Prop := (- 2 ^ 53 < z < 2 ^ 53)%Z.

(** [m] shifted left by [n] bits. *)
Definition shl (m : positive) (n : nat) : positive := Nat.iter n xO m.

(** The Number of the integer [p], with sign [s], in canonical form:
    a mantissa of 53 bits. *)
Definition repr (s : bool) (p : positive) : JsNumber.Number :=
  S754_finite s (shl p (Z.to_nat (53 - Zpos (digits2_pos p))))
              (Zpos (digits2_pos p) - 53).

(** Zero of either sign, a negative Number or minus infinity; a
    positive Number or plus infinity. *)
Definition zeroOrNegative (x : JsNumber.Number) : Prop :=
  match x with
  | S754_zero _ => True
  | S754_infinity s => s = true
  | S754_finite s _ _ => s = true
  | S754_nan => False
  end.

Definition positiveNumber (x : JsNumber.Number) : Prop :=
  match x with
  | S754_infinity s => s = false
  | S754_finite s _ _ => s = false
  | _ => False
  end.

(** The maximal age comes to the whole number [ms] of milliseconds. *)
Definition wholeMilliseconds (maxAgeHours : option JsNumber.Number) (ms : Z) : Prop :=
  safeInteger ms
  /\ ClaudeHandler.maxAgeOf (default (JsNumber.ofZ 24) maxAgeHours) = JsNumber.ofZ ms.

(** The clock and the last activities are safe integers, and so is
    the age of every session. *)
Definition withinReach (now : Z) (sessions : gmap string ConversationSession) : Prop :=
  safeInteger now
  /\ forall k s t, sessions !! k = Some s -> lastActivity s = Time t ->
                   safeInteger t /\ safeInteger (now - t).

(* ===================================================================== *)
(** * Part II. Properties                                                 *)
(* ===================================================================== *)

(** ** Strings and their characters *)

Section Strings.
Import JsString.

Lemma chars_str (l : list ascii) : chars (str l) = l.
Proof. apply list_ascii_of_string_of_list_ascii. Qed.

Lemma str_chars (s : string) : str (chars s) = s.
Proof. apply string_of_list_ascii_of_string. Qed.

Lemma chars_append (a b : string) : chars (a +:+ b) = (chars a ++ chars b)%list.
Proof. induction a as [|c a IH]; simpl; [done|]. by rewrite IH. Qed.

Lemma prefixChars_app (p rest : list ascii) : prefixChars p (p ++ rest) = true.
Proof.
  induction p as [|c p IH]; simpl; [done|]. by destruct (ascii_dec c c).
Qed.

End Strings.

Section Reap.
Import ClaudeHandler.

(** The sweep as a fold over the entries: a key is gone exactly when
    some visited entry for it is expired. *)
Lemma sweep_lookup (P : ConversationSession -> bool)
      (l : list (string * ConversationSession))
      (acc : gmap string ConversationSession) (k : string) :
  fold_left (fun a (e : string * ConversationSession) =>
               if P e.2 then delete e.1 a else a) l acc !! k
  = if existsb (fun e : string * ConversationSession =>
                  bool_decide (e.1 = k) && P e.2) l
    then None else acc !! k.
Proof.
  revert acc. induction l as [|[k' s] l IH]; intros acc; simpl; [done|].
  rewrite IH. destruct (existsb _ l); [by rewrite orb_true_r|].
  rewrite orb_false_r. destruct (P s) eqn:HP; simpl.
  - case_bool_decide as Hk; simpl.
    + subst. apply lookup_delete_eq.
    + by apply lookup_delete_ne.
  - by rewrite andb_false_r.
Qed.

Lemma existsb_entries (P : ConversationSession -> bool)
      (m : gmap string ConversationSession) (k : string) :
  existsb (fun e : string * ConversationSession =>
             bool_decide (e.1 = k) && P e.2) (map_to_list m)
  = match m !! k with Some s => P s | None => false end.
Proof.
  destruct (existsb _ _) eqn:E.
  - apply existsb_exists in E as [[k' s] [Hin Hp]]. simpl in Hp.
    apply andb_true_iff in Hp as [Hk Hp]. apply bool_decide_eq_true in Hk. subst.
    apply list_elem_of_In, elem_of_map_to_list in Hin. by rewrite Hin.
  - destruct (m !! k) as [s|] eqn:Hm; [|done].
    destruct (P s) eqn:HP; [|done].
    assert (existsb (fun e : string * ConversationSession =>
                       bool_decide (e.1 = k) && P e.2) (map_to_list m) = true) as E'.
    { apply existsb_exists. exists (k, s). split.
      - by apply list_elem_of_In, elem_of_map_to_list.
      - simpl. rewrite HP. by rewrite bool_decide_eq_true_2. }
    congruence.
Qed.
End Reap.

(** ** Numbers: the integers a Number holds exactly *)

Section Numbers.
Local Open Scope Z_scope.

Lemma digits_size (p : positive) : digits2_pos p = Pos.size p.
Proof. induction p; simpl; congruence. Qed.

Lemma digits_shl (m : positive) (n : nat) :
  Zpos (digits2_pos (shl m n)) = Zpos (digits2_pos m) + Z.of_nat n.
Proof.
  induction n as [|n IH]; [simpl; lia|].
  change (shl m (S n)) with (xO (shl m n)). cbn [digits2_pos]. lia.
Qed.

Lemma Zpos_shl (m : positive) (n : nat) : Zpos (shl m n) = Zpos m * 2 ^ Z.of_nat n.
Proof.
  induction n as [|n IH]; [simpl; lia|].
  change (shl m (S n)) with (xO (shl m n)).
  rewrite Nat2Z.inj_succ, Z.pow_succ_r by lia. lia.
Qed.

Lemma shl_shl (m : positive) (a b : nat) : shl (shl m a) b = shl m (b + a).
Proof. unfold shl. by rewrite Nat.iter_add. Qed.

Lemma iter_xO (m d : positive) : Pos.iter xO m d = shl m (Pos.to_nat d).
Proof. apply Pos2Nat.inj_iter. Qed.

Lemma iter_pos_nat {A} (f : A -> A) (p : positive) (x : A) :
  SpecFloat.iter_pos f p x = Nat.iter (Pos.to_nat p) f x.
Proof.
  revert x. induction p as [p IH|p IH|]; intros x; cbn [SpecFloat.iter_pos].
  - rewrite !IH, Pos2Nat.inj_xI, Nat.iter_succ_r.
    replace (2 * Pos.to_nat p)%nat with (Pos.to_nat p + Pos.to_nat p)%nat by lia.
    by rewrite Nat.iter_add.
  - rewrite !IH, Pos2Nat.inj_xO.
    replace (2 * Pos.to_nat p)%nat with (Pos.to_nat p + Pos.to_nat p)%nat by lia.
    by rewrite Nat.iter_add.
  - done.
Qed.

Lemma shr_exact (m : positive) (n : nat) :
  Nat.iter n shr_1 {| shr_m := Zpos (shl m n); shr_r := false; shr_s := false |}
  = {| shr_m := Zpos m; shr_r := false; shr_s := false |}.
Proof.
  induction n as [|n IH]; [done|].
  rewrite Nat.iter_succ_r. change (shl m (S n)) with (xO (shl m n)). simpl. exact IH.
Qed.

Lemma digits_bounds (p : positive) :
  2 ^ (Zpos (digits2_pos p) - 1) <= Zpos p < 2 ^ Zpos (digits2_pos p).
Proof.
  induction p as [p IH|p IH|]; cbn [digits2_pos]; [| |simpl; lia].
  - rewrite Pos2Z.inj_succ. replace (Z.succ (Zpos (digits2_pos p)) - 1) with (Z.succ (Zpos (digits2_pos p) - 1)) by lia.
    rewrite !Z.pow_succ_r by lia. lia.
  - rewrite Pos2Z.inj_succ. replace (Z.succ (Zpos (digits2_pos p)) - 1) with (Z.succ (Zpos (digits2_pos p) - 1)) by lia.
    rewrite !Z.pow_succ_r by lia. lia.
Qed.

Lemma fexp_normal (x : Z) : -1021 <= x -> fexp 53 1024 x = x - 53.
Proof. intros H. unfold fexp, emin. lia. Qed.

Lemma shr_fexp_canonical (m : positive) (e : Z) :
  Zpos (digits2_pos m) = 53 -> -1074 <= e ->
  shr_fexp 53 1024 (Zpos m) e loc_Exact
  = ({| shr_m := Zpos m; shr_r := false; shr_s := false |}, e).
Proof.
  intros Hd He. unfold shr_fexp. cbn [Zdigits2]. rewrite Hd, fexp_normal by lia.
  replace (53 + e - 53 - e) with 0 by lia. reflexivity.
Qed.

Lemma round_canonical (s : bool) (m : positive) (e : Z) :
  Zpos (digits2_pos m) = 53 -> -1074 <= e <= 971 ->
  binary_round_aux 53 1024 s (Zpos m) e loc_Exact = S754_finite s m e.
Proof.
  intros Hd He. unfold binary_round_aux.
  rewrite shr_fexp_canonical by lia. cbn [shr_m loc_of_shr_record round_nearest_even].
  rewrite shr_fexp_canonical by lia. cbn [shr_m].
  replace (e <=? 1024 - 53) with true by (symmetry; apply Z.leb_le; lia). reflexivity.
Qed.

(** The integer [m * 2^n] at exponent [e], with [m] of at most 53 bits,
    rounds to the canonical form of its value. *)
Lemma binary_round_exact (s : bool) (m : positive) (n : nat) (e : Z) :
  Zpos (digits2_pos m) <= 53 ->
  -1074 <= Zpos (digits2_pos m) + Z.of_nat n + e - 53 <= 971 ->
  binary_round 53 1024 s (shl m n) e
  = S754_finite s (shl m (Z.to_nat (53 - Zpos (digits2_pos m))))
                (Zpos (digits2_pos m) + Z.of_nat n + e - 53).
Proof.
  intros Hd He. unfold binary_round.
  rewrite digits_shl, fexp_normal by lia.
  set (d := Zpos (digits2_pos m)) in *.
  assert (Hcan : Zpos (digits2_pos (shl m (Z.to_nat (53 - d)))) = 53).
  { rewrite digits_shl. fold d. lia. }
  unfold shl_align.
  destruct (d + Z.of_nat n + e - 53 - e) as [|p|p] eqn:E.
  - replace (shl m n) with (shl m (Z.to_nat (53 - d))) by (f_equal; lia).
    replace e with (d + Z.of_nat n + e - 53) at 1 by lia.
    apply round_canonical; [done|lia].
  - unfold binary_round_aux. unfold shr_fexp at 1. cbn [Zdigits2].
    rewrite digits_shl, fexp_normal by (fold d; lia). fold d. rewrite E.
    cbn [shr shr_record_of_loc]. rewrite iter_pos_nat.
    replace (shl m n) with (shl (shl m (Z.to_nat (53 - d))) (Pos.to_nat p))
      by (rewrite shl_shl; f_equal; lia).
    rewrite shr_exact. cbn [shr_m loc_of_shr_record round_nearest_even].
    rewrite shr_fexp_canonical by (try done; lia). cbn [shr_m].
    replace (e + Zpos p <=? 1024 - 53) with true by (symmetry; apply Z.leb_le; lia).
    f_equal. lia.
  - rewrite iter_xO, shl_shl.
    replace (Pos.to_nat p + n)%nat with (Z.to_nat (53 - d)) by lia.
    apply round_canonical; [done|lia].
Qed.

Lemma digits_le (p : positive) : Zpos p < 2 ^ 53 -> Zpos (digits2_pos p) <= 53.
Proof.
  intros Hp. pose proof (digits_bounds p) as [Hl _].
  destruct (Z_le_gt_dec (Zpos (digits2_pos p)) 53) as [|Hgt]; [done|exfalso].
  assert (2 ^ 53 <= 2 ^ (Zpos (digits2_pos p) - 1)) by (apply Z.pow_le_mono_r; lia).
  lia.
Qed.

Lemma Zneg_shl (m : positive) (n : nat) : Zneg (shl m n) = Zneg m * 2 ^ Z.of_nat n.
Proof.
  rewrite <- !Pos2Z.opp_pos, Zpos_shl. lia.
Qed.

Lemma ofZ_pos (p : positive) : Zpos p < 2 ^ 53 -> JsNumber.ofZ (Zpos p) = repr false p.
Proof.
  intros Hp. unfold JsNumber.ofZ, JsNumber.prec, JsNumber.emax. cbn [binary_normalize].
  pose proof (digits_le p Hp).
  change (binary_round 53 1024 false p 0) with (binary_round 53 1024 false (shl p 0) 0).
  rewrite binary_round_exact by lia.
  reflexivity.
Qed.

Lemma ofZ_neg (p : positive) : Zpos p < 2 ^ 53 -> JsNumber.ofZ (Zneg p) = repr true p.
Proof.
  intros Hp. unfold JsNumber.ofZ, JsNumber.prec, JsNumber.emax. cbn [binary_normalize].
  pose proof (digits_le p Hp).
  change (binary_round 53 1024 true p 0) with (binary_round 53 1024 true (shl p 0) 0).
  rewrite binary_round_exact by lia.
  reflexivity.
Qed.

Lemma normalize_scaled (z : Z) (n : nat) :
  safeInteger z ->
  binary_normalize 53 1024 (z * 2 ^ Z.of_nat n) (- Z.of_nat n) false
  = JsNumber.ofZ z.
Proof.
  intros Hz. unfold safeInteger in Hz.
  destruct z as [|p|p]; [done| |].
  - rewrite ofZ_pos by lia. rewrite <- Zpos_shl. cbn [binary_normalize].
    assert (Zpos (digits2_pos p) <= 53) as Hd by (apply digits_le; lia).
    rewrite binary_round_exact by lia. unfold repr. f_equal. lia.
  - rewrite ofZ_neg by lia. rewrite <- Zneg_shl. cbn [binary_normalize].
    assert (Zpos (digits2_pos p) <= 53) as Hd by (apply digits_le; lia).
    rewrite binary_round_exact by lia. unfold repr. f_equal. lia.
Qed.

Lemma shl_align_fst (m : positive) (ex ez : Z) :
  ez <= ex -> fst (shl_align m ex ez) = shl m (Z.to_nat (ex - ez)).
Proof.
  intros H. unfold shl_align. destruct (ez - ex) as [|p|p] eqn:E; [| lia |].
  - replace (ex - ez) with 0 by lia. reflexivity.
  - cbn [fst]. rewrite iter_xO. f_equal. lia.
Qed.

(** The mantissa of [repr s p], aligned to the exponent [- n]. *)
Lemma aligned_repr (s : bool) (p : positive) (n : nat) :
  Zpos (digits2_pos p) <= 53 -> 53 - Zpos (digits2_pos p) <= Z.of_nat n ->
  cond_Zopp s (Zpos (fst (shl_align (shl p (Z.to_nat (53 - Zpos (digits2_pos p))))
                                    (Zpos (digits2_pos p) - 53) (- Z.of_nat n))))
  = cond_Zopp s (Zpos p) * 2 ^ Z.of_nat n.
Proof.
  intros Hd Hn. rewrite shl_align_fst by lia. rewrite shl_shl, Zpos_shl.
  replace (Z.of_nat (Z.to_nat (Zpos (digits2_pos p) - 53 - - Z.of_nat n)
                     + Z.to_nat (53 - Zpos (digits2_pos p))))
    with (Z.of_nat n) by lia.
  destruct s; cbn [cond_Zopp]; [|done]. by rewrite Z.mul_opp_l.
Qed.

Lemma sub_repr (sa sb : bool) (pa pb : positive) :
  Zpos pa < 2 ^ 53 -> Zpos pb < 2 ^ 53 ->
  safeInteger (cond_Zopp sa (Zpos pa) - cond_Zopp sb (Zpos pb)) ->
  SFsub 53 1024 (repr sa pa) (repr sb pb)
  = JsNumber.ofZ (cond_Zopp sa (Zpos pa) - cond_Zopp sb (Zpos pb)).
Proof.
  intros Ha Hb Hs. pose proof (digits_le pa Ha). pose proof (digits_le pb Hb).
  unfold repr. cbn [SFsub].
  set (da := Zpos (digits2_pos pa)) in *. set (db := Zpos (digits2_pos pb)) in *.
  set (n := Z.to_nat (- Z.min (da - 53) (db - 53))).
  replace (Z.min (da - 53) (db - 53)) with (- Z.of_nat n) by lia.
  unfold da, db. rewrite !aligned_repr by (fold da db; lia).
  rewrite <- Z.mul_sub_distr_r. by apply normalize_scaled.
Qed.

Lemma ofZ_opp_repr (s : bool) (p : positive) :
  Zpos p < 2 ^ 53 -> JsNumber.ofZ (cond_Zopp s (Zpos p)) = repr s p.
Proof. destruct s; simpl; [apply ofZ_neg|apply ofZ_pos]. Qed.

Lemma sub_exact (a b : Z) :
  safeInteger a -> safeInteger b -> safeInteger (a - b) ->
  JsNumber.sub (JsNumber.ofZ a) (JsNumber.ofZ b) = JsNumber.ofZ (a - b).
Proof.
  unfold safeInteger, JsNumber.sub, JsNumber.prec, JsNumber.emax. intros Ha Hb Hs.
  destruct a as [|pa|pa], b as [|pb|pb]; try reflexivity.
  - rewrite ofZ_pos by lia. change (0 - Zpos pb) with (cond_Zopp true (Zpos pb)).
    by rewrite ofZ_opp_repr by lia.
  - rewrite ofZ_neg by lia. change (0 - Zneg pb) with (cond_Zopp false (Zpos pb)).
    by rewrite ofZ_opp_repr by lia.
  - rewrite Z.sub_0_r, ofZ_pos by lia. reflexivity.
  - rewrite !ofZ_pos by lia. apply (sub_repr false false); unfold safeInteger; cbn [cond_Zopp Z.opp]; lia.
  - rewrite ofZ_pos, ofZ_neg by lia. apply (sub_repr false true); unfold safeInteger; cbn [cond_Zopp Z.opp]; lia.
  - rewrite Z.sub_0_r, ofZ_neg by lia. reflexivity.
  - rewrite ofZ_pos, ofZ_neg by lia. apply (sub_repr true false); unfold safeInteger; cbn [cond_Zopp Z.opp]; lia.
  - rewrite !ofZ_neg by lia. apply (sub_repr true true); unfold safeInteger; cbn [cond_Zopp Z.opp]; lia.
Qed.

Lemma shl_compare (p q : positive) (n : nat) :
  (shl p n ?= shl q n)%positive = (p ?= q)%positive.
Proof.
  induction n as [|n IH]; [done|].
  change (shl p (S n)) with (xO (shl p n)). change (shl q (S n)) with (xO (shl q n)).
  by rewrite Pos.compare_xO_xO.
Qed.

Lemma digits_lt_compare (p q : positive) :
  Zpos (digits2_pos p) < Zpos (digits2_pos q) -> (p ?= q)%positive = Lt.
Proof.
  intros H. apply Pos.compare_lt_iff.
  pose proof (digits_bounds p) as [_ Hp]. pose proof (digits_bounds q) as [Hq _].
  assert (2 ^ Zpos (digits2_pos p) <= 2 ^ (Zpos (digits2_pos q) - 1))
    by (apply Z.pow_le_mono_r; lia).
  lia.
Qed.

Lemma compare_repr_pos (p q : positive) :
  SFcompare (repr false p) (repr false q) = Some (p ?= q)%positive.
Proof.
  unfold repr. cbn [SFcompare]. f_equal.
  destruct (Z.compare_spec (Zpos (digits2_pos p) - 53) (Zpos (digits2_pos q) - 53))
    as [E|E|E].
  - assert (digits2_pos p = digits2_pos q) as -> by lia.
    rewrite Pos.compare_cont_spec. cbn [Pos.switch_Eq]. 
    destruct (shl p _ ?= shl q _)%positive eqn:C; rewrite shl_compare in C; by rewrite C.
  - symmetry. apply digits_lt_compare. lia.
  - symmetry. rewrite Pos.compare_antisym, digits_lt_compare by lia. done.
Qed.

Lemma compare_repr_neg (p q : positive) :
  SFcompare (repr true p) (repr true q) = Some (q ?= p)%positive.
Proof.
  unfold repr. cbn [SFcompare]. f_equal.
  destruct (Z.compare_spec (Zpos (digits2_pos p) - 53) (Zpos (digits2_pos q) - 53))
    as [E|E|E].
  - assert (digits2_pos p = digits2_pos q) as -> by lia.
    rewrite Pos.compare_cont_spec. cbn [Pos.switch_Eq].
    rewrite (Pos.compare_antisym p q).
    destruct (shl p _ ?= shl q _)%positive eqn:C; rewrite shl_compare in C; by rewrite C.
  - symmetry. rewrite Pos.compare_antisym, digits_lt_compare by lia. done.
  - symmetry. apply digits_lt_compare. lia.
Qed.

Lemma compare_exact (x y : Z) :
  safeInteger x -> safeInteger y -> SFcompare (JsNumber.ofZ x) (JsNumber.ofZ y) = Some (x ?= y).
Proof.
  unfold safeInteger. intros Hx Hy.
  destruct x as [|p|p], y as [|q|q]; try reflexivity;
    rewrite ?ofZ_pos, ?ofZ_neg by lia; try reflexivity.
  - apply compare_repr_pos.
  - rewrite compare_repr_neg. cbn [Z.compare]. by rewrite Pos.compare_antisym.
Qed.


Lemma gtb_exact (x y : Z) :
  safeInteger x -> safeInteger y ->
  JsNumber.gtb (JsNumber.ofZ x) (JsNumber.ofZ y) = (x >? y).
Proof.
  intros Hx Hy. unfold JsNumber.gtb, SFltb. rewrite compare_exact by done.
  rewrite Z.gtb_ltb. unfold Z.ltb. by destruct (y ?= x).
Qed.

Lemma leb_exact (x y : Z) :
  safeInteger x -> safeInteger y ->
  JsNumber.leb (JsNumber.ofZ x) (JsNumber.ofZ y) = (x <=? y).
Proof.
  intros Hx Hy. unfold JsNumber.leb, SFleb. rewrite compare_exact by done.
  unfold Z.leb. by destruct (x ?= y).
Qed.

Lemma digits_mono (p q : positive) :
  Zpos p <= Zpos q -> Zpos (digits2_pos p) <= Zpos (digits2_pos q).
Proof.
  intros H. pose proof (digits_bounds p) as [Hp _]. pose proof (digits_bounds q) as [_ Hq].
  destruct (Z_le_gt_dec (Zpos (digits2_pos p)) (Zpos (digits2_pos q))) as [|Hgt]; [done|].
  exfalso.
  assert (2 ^ Zpos (digits2_pos q) <= 2 ^ (Zpos (digits2_pos p) - 1))
    by (apply Z.pow_le_mono_r; lia).
  lia.
Qed.

Lemma shl_le (p q : positive) (n : nat) : Zpos p <= Zpos q -> Zpos (shl p n) <= Zpos (shl q n).
Proof.
  intros H. rewrite !Zpos_shl. apply Z.mul_le_mono_nonneg_r; [|done].
  apply Z.pow_nonneg. lia.
Qed.

(** Among Numbers of integers of one sign, the order is that of the
    integers: what is below the smaller is below the greater. *)
Lemma below_repr_pos (x : JsNumber.Number) (p q : positive) :
  Zpos p <= Zpos q ->
  SFltb x (repr false p) = true -> SFltb x (repr false q) = true.
Proof.
  intros Hpq. pose proof (digits_mono p q Hpq) as Hd.
  unfold SFltb, repr. destruct x as [s|s| |s m e]; cbn [SFcompare]; try done.
  destruct s; [done|].
  destruct (Z.compare_spec e (Zpos (digits2_pos p) - 53)) as [E|E|E]; [| |done].
  - destruct (Z.compare_spec e (Zpos (digits2_pos q) - 53)) as [E'|E'|E']; [|done|lia].
    assert (digits2_pos p = digits2_pos q) as Heq by lia. rewrite Heq.
    rewrite !Pos.compare_cont_spec. cbn [Pos.switch_Eq].
    pose proof (shl_le p q (Z.to_nat (53 - Zpos (digits2_pos q))) Hpq) as Hle.
    destruct (Pos.compare_spec m (shl p (Z.to_nat (53 - Zpos (digits2_pos q)))))
      as [C|C|C]; try done. intros _.
    destruct (Pos.compare_spec m (shl q (Z.to_nat (53 - Zpos (digits2_pos q)))))
      as [C'|C'|C']; try done; lia.
  - intros _.
    destruct (Z.compare_spec e (Zpos (digits2_pos q) - 53)) as [E'|E'|E']; [lia|done|lia].
Qed.

Lemma below_repr_neg (x : JsNumber.Number) (p q : positive) :
  Zpos q <= Zpos p ->
  SFltb x (repr true p) = true -> SFltb x (repr true q) = true.
Proof.
  intros Hpq. pose proof (digits_mono q p Hpq) as Hd.
  unfold SFltb, repr. destruct x as [s|s| |s m e]; cbn [SFcompare]; try done.
  destruct s; [|done].
  destruct (Z.compare_spec e (Zpos (digits2_pos p) - 53)) as [E|E|E]; [|done|].
  - destruct (Z.compare_spec e (Zpos (digits2_pos q) - 53)) as [E'|E'|E']; [|lia|done].
    assert (digits2_pos p = digits2_pos q) as Heq by lia. rewrite Heq.
    rewrite !Pos.compare_cont_spec. cbn [Pos.switch_Eq].
    pose proof (shl_le q p (Z.to_nat (53 - Zpos (digits2_pos q))) Hpq) as Hle.
    destruct (Pos.compare_spec m (shl p (Z.to_nat (53 - Zpos (digits2_pos q)))))
      as [C|C|C]; try done. intros _.
    destruct (Pos.compare_spec m (shl q (Z.to_nat (53 - Zpos (digits2_pos q)))))
      as [C'|C'|C']; try done; lia.
  - intros _.
    destruct (Z.compare_spec e (Zpos (digits2_pos q) - 53)) as [E'|E'|E']; [lia|lia|done].
Qed.

Lemma gtb_mono (x : JsNumber.Number) (d1 d2 : Z) :
  safeInteger d1 -> safeInteger d2 -> d1 <= d2 ->
  JsNumber.gtb (JsNumber.ofZ d1) x = true -> JsNumber.gtb (JsNumber.ofZ d2) x = true.
Proof.
  unfold safeInteger, JsNumber.gtb. intros H1 H2 Hle.
  destruct d1 as [|p|p], d2 as [|q|q]; try lia; try done;
    rewrite ?ofZ_pos, ?ofZ_neg by lia.
  - destruct x as [s|s| |s m e]; try done; destruct s; done.
  - by apply below_repr_pos.
  - destruct x as [s|s| |s m e]; try done; destruct s; done.
  - destruct x as [s|s| |s m e]; try done; destruct s; done.
  - apply below_repr_neg. lia.
Qed.

End Numbers.

(** ** The reaper *)

Section Reaper.
Import ClaudeHandler.
Local Open Scope Z_scope.

Lemma leb_zero (x : JsNumber.Number) :
  JsNumber.leb x (JsNumber.ofZ 0) = true <-> zeroOrNegative x.
Proof.
  destruct x as [s|s| |s m e]; cbn; try destruct s; cbn;
    split; (done || discriminate || tauto).
Qed.

Lemma leb_positive (x : JsNumber.Number) :
  positiveNumber x -> JsNumber.leb x (JsNumber.ofZ 0) = false.
Proof. destruct x as [s|s| |s m e]; cbn; try done; by intros ->. Qed.

Lemma sub_NaN (x : JsNumber.Number) : JsNumber.sub x JsNumber.NaN = JsNumber.NaN.
Proof. by destruct x. Qed.

Lemma gtb_NaN (y : JsNumber.Number) : JsNumber.gtb JsNumber.NaN y = false.
Proof. by destruct y. Qed.

(** Within reach, the subtraction the code makes on Numbers is exact:
    what is compared with the maximal age is the age itself. *)
Lemma expired_reach (now : Z) (maxAge : JsNumber.Number) (s : ConversationSession) :
  safeInteger now ->
  (forall t, lastActivity s = Time t -> safeInteger t /\ safeInteger (now - t)) ->
  expired now maxAge s
  = match lastActivity s with
    | Time t => JsNumber.gtb (JsNumber.ofZ (now - t)) maxAge
    | InvalidDate => false
    end.
Proof.
  intros Hnow Ht. unfold expired.
  destruct (lastActivity s) as [t|]; cbn [getTime].
  - destruct (Ht t eq_refl) as [H1 H2]. by rewrite sub_exact.
  - by rewrite sub_NaN, gtb_NaN.
Qed.

Lemma expired_iff_overAge (now : Z) (maxAge : JsNumber.Number) (s : ConversationSession) :
  safeInteger now ->
  (forall t, lastActivity s = Time t -> safeInteger t /\ safeInteger (now - t)) ->
  expired now maxAge s = true <-> Spec.overAge now maxAge s.
Proof.
  intros Hnow Ht. rewrite expired_reach by done. unfold Spec.overAge.
  destruct (lastActivity s) as [t|]; [done|split; [discriminate|tauto]].
Qed.

(** When the maximal age is a whole number of milliseconds, so is the
    comparison. *)
Lemma overAge_iff_predates (now ms : Z) (s : ConversationSession) :
  safeInteger ms ->
  (forall t, lastActivity s = Time t -> safeInteger t /\ safeInteger (now - t)) ->
  Spec.overAge now (JsNumber.ofZ ms) s <-> Spec.predates now ms s.
Proof.
  intros Hms Ht. unfold Spec.overAge, Spec.predates.
  destruct (lastActivity s) as [t|]; [|done].
  destruct (Ht t eq_refl) as [H1 H2].
  rewrite gtb_exact, Z.gtb_ltb, Z.ltb_lt by done. lia.
Qed.

(** The later the clock, the more sessions are over age. *)
Lemma expired_later (now1 now2 : Z) (maxAge : JsNumber.Number) (s : ConversationSession) :
  safeInteger now1 -> safeInteger now2 ->
  (forall t, lastActivity s = Time t ->
             safeInteger t /\ safeInteger (now1 - t) /\ safeInteger (now2 - t)) ->
  expired (Z.max now1 now2) maxAge s = expired now1 maxAge s || expired now2 maxAge s.
Proof.
  intros H1 H2 Ht.
  assert (forall a b, safeInteger a -> safeInteger b ->
                      (forall t, lastActivity s = Time t ->
                                 safeInteger t /\ safeInteger (a - t) /\ safeInteger (b - t)) ->
                      a <= b ->
                      expired b maxAge s = expired a maxAge s || expired b maxAge s) as Hmono.
  { intros a b Ha Hb Hab Hle.
    rewrite (expired_reach a), (expired_reach b) by (try done; intros t Hlt; by destruct (Hab t Hlt) as (? & ? & ?)).
    destruct (lastActivity s) as [t|]; [|done].
    destruct (Hab t eq_refl) as (_ & Hat & Hbt).
    destruct (JsNumber.gtb (JsNumber.ofZ (a - t)) maxAge) eqn:E; [|done].
    apply (gtb_mono maxAge (a - t) (b - t)); try done. lia. }
  destruct (Z.max_spec now1 now2) as [[Hlt ->]|[Hle ->]].
  - apply Hmono; try done. lia.
  - rewrite orb_comm. apply Hmono; try done; try lia.
    intros t Hlt. destruct (Ht t Hlt) as (? & ? & ?). done.
Qed.

(** The sweep, key by key. *)
Lemma cleanup_lookup (sessions : gmap string ConversationSession)
      (now : Z) (maxAgeHours : option JsNumber.Number) (k : string) :
  cleanupInactiveSessions sessions now maxAgeHours !! k
  = if JsNumber.leb (default (JsNumber.ofZ 24) maxAgeHours) (JsNumber.ofZ 0)
    then sessions !! k
    else match sessions !! k with
         | Some s => if expired now (maxAgeOf (default (JsNumber.ofZ 24) maxAgeHours)) s
                     then None else Some s
         | None => None
         end.
Proof.
  unfold cleanupInactiveSessions.
  destruct (JsNumber.leb _ _); [done|].
  rewrite sweep_lookup, existsb_entries.
  destruct (sessions !! k) as [s|]; [|done]. by destruct (expired _ _ s).
Qed.

End Reaper.

(** C9, as stated, fails at the edge of the time values: the clock is
    at the last time value a [Date] can hold, the maximal age is
    2502000000 hours, that is 9007200000000000 ms exactly, and the
    session was last active one millisecond before [now - maxAge].
    The age of the session rounds down to 9007200000000000 ms, which
    is not greater than the maximal age: the session is kept. *)
Lemma reaper_keeps_a_session_that_predates :
  JsDate.validDate (Time Scenario.endOfTime)
  /\ JsDate.validDate (lastActivity Scenario.ancientSession)
  /\ positiveNumber Scenario.ages
  /\ ClaudeHandler.maxAgeOf Scenario.ages = JsNumber.ofZ 9007200000000000
  /\ Spec.predates Scenario.endOfTime 9007200000000000 Scenario.ancientSession
  /\ ClaudeHandler.cleanupInactiveSessions
       {[ "U0456-C0123-direct" := Scenario.ancientSession ]}
       Scenario.endOfTime (Some Scenario.ages) !! "U0456-C0123-direct"
     = Some Scenario.ancientSession.
Proof.
  split; [unfold Scenario.endOfTime; simpl; unfold JsDate.inRange; lia|].
  split; [simpl; unfold JsDate.inRange; lia|].
  split; [reflexivity|].
  split; [vm_compute; reflexivity|].
  split; [unfold Spec.predates, Scenario.endOfTime; simpl; lia|].
  rewrite cleanup_lookup, lookup_singleton_eq. vm_compute. reflexivity.
Qed.

(** C9, amended.  [cleanupInactiveSessions] with a zero or negative
    [maxAgeHours] removes no session, whatever its age.  With a
    positive [maxAgeHours], a clock and last activities below 2^53 in
    absolute value and ages below 2^53, it removes exactly the
    sessions whose age [now - lastActivity] exceeds the maximal age,
    the Number the code computes as [maxAgeHours * 60 * 60 * 1000],
    and leaves all the others, those with an invalid date included, as
    they are; when that Number is a whole number [ms] of milliseconds
    below 2^53, these are exactly the sessions whose last activity
    predates [now - ms]. *)
Theorem cleanupInactiveSessions_reaps
        (sessions : gmap string ConversationSession) (now : Z)
        (maxAgeHours : JsNumber.Number) :
  (zeroOrNegative maxAgeHours ->
   ClaudeHandler.cleanupInactiveSessions sessions now (Some maxAgeHours) = sessions)
  /\ (positiveNumber maxAgeHours ->
      withinReach now sessions ->
      ClaudeHandler.cleanupInactiveSessions sessions now (Some maxAgeHours)
      = filter (fun kv : string * ConversationSession =>
                  ~ Spec.overAge now (ClaudeHandler.maxAgeOf maxAgeHours) kv.2) sessions)
  /\ (forall ms,
         positiveNumber maxAgeHours ->
         wholeMilliseconds (Some maxAgeHours) ms ->
         withinReach now sessions ->
         ClaudeHandler.cleanupInactiveSessions sessions now (Some maxAgeHours)
         = filter (fun kv : string * ConversationSession =>
                     ~ Spec.predates now ms kv.2) sessions).
Proof.
  assert (positiveNumber maxAgeHours -> withinReach now sessions ->
          forall P : ConversationSession -> Prop,
            (forall s, Decision (P s)) ->
            (forall k s, sessions !! k = Some s ->
                         Spec.overAge now (ClaudeHandler.maxAgeOf maxAgeHours) s <-> P s) ->
            forall (dec : forall kv : string * ConversationSession, Decision (~ P kv.2)),
            ClaudeHandler.cleanupInactiveSessions sessions now (Some maxAgeHours)
            = filter (fun kv : string * ConversationSession => ~ P kv.2) sessions)
    as Hfilter.
  { intros Hpos [Hnow Hreach] P HP Hiff dec.
    apply map_eq; intros k.
    rewrite cleanup_lookup, map_lookup_filter.
    change (default (JsNumber.ofZ 24) (Some maxAgeHours)) with maxAgeHours.
    rewrite leb_positive by done.
    destruct (sessions !! k) as [s|] eqn:Hs; simpl; [|done].
    pose proof (expired_iff_overAge now (ClaudeHandler.maxAgeOf maxAgeHours) s Hnow
                  (fun t => Hreach k s t Hs)) as Hexp.
    pose proof (Hiff k s Hs) as Hp.
    destruct (decide (P s)) as [Hy|Hn].
    - rewrite option_guard_False by tauto.
      apply Hp, Hexp in Hy. by rewrite Hy.
    - rewrite option_guard_True by done.
      destruct (ClaudeHandler.expired _ _ s); [|done].
      exfalso. by apply Hn, Hp, Hexp. }
  split; [|split].
  - intros Hz. unfold ClaudeHandler.cleanupInactiveSessions.
    change (default (JsNumber.ofZ 24) (Some maxAgeHours)) with maxAgeHours.
    by rewrite (proj2 (leb_zero maxAgeHours) Hz).
  - intros Hpos Hreach.
    apply (Hfilter Hpos Hreach
             (Spec.overAge now (ClaudeHandler.maxAgeOf maxAgeHours))); [apply _|done].
  - intros ms Hpos [Hms Hage] Hreach.
    apply (Hfilter Hpos Hreach (Spec.predates now ms)); [apply _|].
    intros k s Hs.
    change (default (JsNumber.ofZ 24) (Some maxAgeHours)) with maxAgeHours in Hage.
    rewrite Hage. apply overAge_iff_predates; [done|].
    intros t Ht. by apply (proj2 Hreach k s t).
Qed.

Lemma cleanupInactiveSessions_reaps_witness :
  positiveNumber Scenario.halfAnHour
  /\ wholeMilliseconds (Some Scenario.halfAnHour) 1800000
  /\ withinReach 1730622600124 Scenario.sessions
  /\ ClaudeHandler.cleanupInactiveSessions Scenario.sessions 1730622600124
       (Some Scenario.halfAnHour)
     = filter (fun kv : string * ConversationSession =>
                 ~ Spec.predates 1730622600124 1800000 kv.2) Scenario.sessions.
Proof.
  assert (positiveNumber Scenario.halfAnHour) as H1 by reflexivity.
  assert (wholeMilliseconds (Some Scenario.halfAnHour) 1800000) as H2.
  { split; [unfold safeInteger; lia|vm_compute; reflexivity]. }
  assert (withinReach 1730622600124 Scenario.sessions) as H3.
  { split; [unfold safeInteger; lia|]. intros k s t Hk Ht.
    unfold Scenario.sessions in Hk. apply lookup_singleton_Some in Hk as [_ <-].
    injection Ht as <-. unfold safeInteger. lia. }
  split; [exact H1|]. split; [exact H2|]. split; [exact H3|].
  exact (proj2 (proj2 (cleanupInactiveSessions_reaps Scenario.sessions 1730622600124
                         Scenario.halfAnHour)) 1800000%Z H1 H2 H3).
Defined.

(** C10. A query started without a Slack context runs with permission
    mode [bypassPermissions] and without a [canUseTool] callback,
    whatever modes are stored for whatever scopes. *)
Theorem streamQuery_without_context_bypasses
        (modes : gmap string BypassModeManager.PermissionMode) :
  ClaudeHandler.permissionMode (ClaudeHandler.permissionOptions modes None)
    = "bypassPermissions"
  /\ ClaudeHandler.canUseTool (ClaudeHandler.permissionOptions modes None) = None.
Proof. split; reflexivity. Qed.

(** ** The wait *)

Lemma checkFile_absent (f : string) (st : Wait.State) :
  Wait.dir st !! f = None -> Wait.checkFile f st = Wait.arm st.
Proof. intros H. unfold Wait.checkFile. by rewrite H. Qed.

Section NoDeadline.
Import PermissionHandler.

Lemma poll_keeps_polling (f : string) (d : gmap string FileContent)
      (now : Z) (st : Wait.State) :
  d !! f = None -> polling d st ->
  polling d (Wait.step (checkApproval f) (Timer now) st).
Proof.
  intros Hf (Hr & Ht & Hl & Ha & Hs & Hd). simpl. rewrite Ht.
  unfold checkApproval. simpl. rewrite Hr, Ha. simpl.
  rewrite checkFile_absent by (simpl; by rewrite Hd).
  by repeat split.
Qed.

Lemma run_keeps_polling (f : string) (d : gmap string FileContent)
      (events : list Event) (st : Wait.State) :
  d !! f = None -> Forall isTimer events -> polling d st ->
  polling d (Wait.run (checkApproval f) events st).
Proof.
  intros Hf Hev. revert st. induction Hev as [|e events He _ IH]; intros st Hp.
  - done.
  - simpl. destruct Hp as (Hr & Ht & Hl & Ha & Hs & Hd). rewrite Hs.
    destruct e as [now| |]; try done.
    apply IH, poll_keeps_polling; [done|]. by repeat split.
Qed.

(** Without a deposit and without an abort, the wait of the handler
    that has Auto mode polls for ever: no number of polls settles it. *)
Lemma waitForApproval_polls_for_ever (approvalId : string) (startTime : Z)
      (events : list Event) (d : gmap string FileContent) :
  d !! approvalFileOf approvalId = None -> Forall isTimer events ->
  polling d (waitForApproval approvalId false startTime events d).
Proof.
  intros Hf Hev. unfold waitForApproval. apply run_keeps_polling; [done..|].
  unfold Wait.start, checkApproval. simpl.
  rewrite checkFile_absent by done. by repeat split.
Qed.
End NoDeadline.

Section Deadline.
Import PermissionHandlerDeadline.

Lemma deadline_run_pending (startTime : Z) (f : string) (d : gmap string FileContent)
      (events : list Event) (st : Wait.State) :
  d !! f = None -> Forall (withinDeadline startTime) events -> polling d st ->
  polling d (Wait.run (checkApproval startTime f) events st).
Proof.
  intros Hf Hev. revert st. induction Hev as [|e events He _ IH]; intros st Hp.
  - done.
  - simpl. destruct Hp as (Hr & Ht & Hl & Ha & Hs & Hd). rewrite Hs.
    destruct e as [now| |]; try done. simpl in He.
    apply IH. simpl. rewrite Ht. unfold checkApproval. simpl. rewrite Hr, Ha. simpl.
    replace (now - startTime >? timeout)%Z with false
      by (symmetry; rewrite Z.gtb_ltb; apply Z.ltb_ge; lia).
    rewrite checkFile_absent by (simpl; by rewrite Hd).
    by repeat split.
Qed.

(** With the deadline check, the first poll later than five minutes
    after the start settles the wait with the time-out refusal. *)
Lemma waitForApproval_times_out (approvalId : string) (startTime now : Z)
      (before after : list Event) (d : gmap string FileContent) :
  d !! PermissionHandler.approvalFileOf approvalId = None ->
  Forall (withinDeadline startTime) before ->
  (now - startTime > timeout)%Z ->
  Wait.settled (waitForApproval approvalId false startTime
                                (before ++ Timer now :: after) d)
  = Some (Wait.denyResponse "Permission request timed out").
Proof.
  intros Hf Hb Hnow. unfold waitForApproval.
  set (f := PermissionHandler.approvalFileOf approvalId) in *.
  assert (polling d (Wait.start (checkApproval startTime f) false startTime d)) as H0.
  { unfold Wait.start, checkApproval. simpl.
    replace (startTime - startTime >? timeout)%Z with false
      by (symmetry; rewrite Z.gtb_ltb; apply Z.ltb_ge; unfold timeout; lia).
    rewrite checkFile_absent by done. by repeat split. }
  revert H0. generalize (Wait.start (checkApproval startTime f) false startTime d).
  induction Hb as [|e before He _ IH]; intros st Hp.
  - simpl. destruct Hp as (Hr & Ht & Hl & Ha & Hs & Hd). rewrite Hs, Ht.
    unfold checkApproval. simpl. rewrite Hr, Ha. simpl.
    replace (now - startTime >? timeout)%Z with true
      by (symmetry; rewrite Z.gtb_ltb; apply Z.ltb_lt; lia).
    destruct after; simpl; rewrite ?Hs; simpl; by rewrite ?Hs.
  - simpl. pose proof Hp as (Hr & Ht & Hl & Ha & Hs & Hd). rewrite Hs.
    apply IH.
    change (polling d (Wait.run (checkApproval startTime f) [] (Wait.step (checkApproval startTime f) e st))).
    replace (Wait.run (checkApproval startTime f) [] (Wait.step (checkApproval startTime f) e st))
      with (Wait.run (checkApproval startTime f) [e] st) by (simpl; by rewrite Hs).
    apply deadline_run_pending; [done| |done]. by constructor.
Qed.
End Deadline.

(** The abort handler settles the wait and leaves the approval
    directory as it is. *)
Lemma abortHandler_keeps_dir (st : Wait.State) :
  Wait.dir (Wait.abortHandler st) = Wait.dir st.
Proof. unfold Wait.abortHandler. by destruct (Wait.resolved st). Qed.

Lemma abort_while_polling (check : Z -> Wait.State -> Wait.State)
      (d : gmap string FileContent) (st : Wait.State) (rest : list Event) :
  polling d st ->
  let st' := Wait.run check (Abort :: rest) st in
  Wait.settled st' = Some (Wait.denyResponse "Request was aborted") /\ Wait.dir st' = d.
Proof.
  intros (Hr & Ht & Hl & Ha & Hs & Hd) st'. subst st'. simpl. rewrite Hs, Ha, Hl.
  unfold Wait.abortHandler. simpl. rewrite Hr. simpl.
  destruct rest; simpl; rewrite ?Hs; simpl; by rewrite ?Hs.
Qed.

(** C1, at the failing input.  The notification is posted, nobody
    answers and nobody aborts, and the polls go on for ten minutes:
    the handler that has Auto mode is still pending, where the handler
    with the deadline check has refused with the time-out reason, as
    has the wait of the MCP permission server. *)
Theorem waitForApproval_without_deadline_stays_pending :
  (PermissionHandler.createCanUseToolCallback
     Scenario.platform Scenario.scope "Bash" Scenario.input
     0 "k3j9x0q2a" false Scenario.tenMinutesOfPolls Scenario.world).1 = None
  /\ (PermissionHandlerDeadline.createCanUseToolCallback
        Scenario.platform Scenario.scope "Bash" Scenario.input
        0 "k3j9x0q2a" false Scenario.tenMinutesOfPolls Scenario.world).1
     = Some (Deny (JStr "Permission request timed out"))
  /\ Wait.settled (PermissionMCPServer.waitForApproval
                     Scenario.ticket 0 Scenario.tenMinutesOfPolls ∅)
     = Some (Wait.denyResponse "Permission request timed out").
Proof. repeat split; vm_compute; reflexivity. Qed.

(** C4, at the failing input.  The approval file is deposited, and the
    caller aborts before the next poll: the callback, of either
    handler, refuses with the abort reason and returns with the file
    still in the approval directory. *)
Theorem abort_leaves_the_approval_file :
  (let '(result, w) :=
     PermissionHandler.createCanUseToolCallback
       Scenario.platform Scenario.scope "Bash" Scenario.input
       0 "k3j9x0q2a" false Scenario.approveThenAbort Scenario.world in
   result = Some (Deny (JStr "Request was aborted"))
   /\ approvals w !! Scenario.ticketFile = Some (Document Scenario.approved))
  /\ (let '(result, w) :=
        PermissionHandlerDeadline.createCanUseToolCallback
          Scenario.platform Scenario.scope "Bash" Scenario.input
          0 "k3j9x0q2a" false Scenario.approveThenAbort Scenario.world in
      result = Some (Deny (JStr "Request was aborted"))
      /\ approvals w !! Scenario.ticketFile = Some (Document Scenario.approved)).
Proof. split; vm_compute; split; reflexivity. Qed.

(** C3, as stated, fails: the record approves with an edited input,
    and the callback returns the input it was called with. *)
Lemma edited_input_is_dropped :
  (PermissionHandler.createCanUseToolCallback
     Scenario.platform Scenario.scope "Bash" Scenario.input
     0 "k3j9x0q2a" false Scenario.approveEdited Scenario.world).1
  = Some (Allow Scenario.input)
  /\ Js.get Scenario.approvedWithEdit "updatedInput" = Normal (Some (JObj Scenario.edited))
  /\ Scenario.edited <> Scenario.input.
Proof. vm_compute. repeat split; try reflexivity. discriminate. Qed.

(** ** Auto mode *)

Lemma firstMatch_reason (patterns : list string) (command : string) :
  DangerClassifier.dangerous (DangerClassifier.firstMatch patterns command) = true ->
  exists why, DangerClassifier.danger_reason (DangerClassifier.firstMatch patterns command)
              = Some why
              /\ String.eqb why "" = false.
Proof.
  induction patterns as [|p ps IH]; simpl; [discriminate|].
  destruct (Regex.test false (Regex.re p) command); simpl; [|exact IH].
  intros _. eexists. split; reflexivity.
Qed.

(** An unsafe verdict always comes with a reason, and the reason is
    never the empty string. *)
Lemma unsafe_has_reason (cwd toolName : string) (input : ToolInput)
      (workingDirectory : option string) (sc : DangerClassifier.SafetyCheck) :
  DangerClassifier.checkAutoModeSafety cwd toolName input workingDirectory = Normal sc ->
  DangerClassifier.safe sc = false ->
  exists why, DangerClassifier.reason sc = Some why /\ String.eqb why "" = false.
Proof.
  unfold DangerClassifier.checkAutoModeSafety.
  set (bash := if String.eqb toolName "Bash" then _ else _).
  destruct (DangerClassifier.dangerous bash) eqn:Hd.
  - intros [= <-] _. simpl.
    subst bash. destruct (String.eqb toolName "Bash"); [|discriminate].
    destruct (Js.prop input "command") as [[]|]; try discriminate.
    by apply firstMatch_reason.
  - unfold DangerClassifier.fileCheck.
    destruct workingDirectory as [wd|]; [|by intros [= <-]].
    destruct (_ && _); [|by intros [= <-]].
    destruct (Js.prop input "file_path") as [v|]; [|by intros [= <-]].
    destruct v; try (destruct (Js.truthy _); [discriminate|by intros [= <-]]).
    destruct (_ && _); intros [= <-]; [|discriminate].
    intros _. eexists. split; reflexivity.
Qed.

(** The callback written for Auto mode, taken by itself: a safe verdict
    resolves [Allow] at once and nothing is posted; an unsafe verdict
    resolves [Deny] with the classifier's reason, and the only effect
    is one message without buttons, added to the trace, to the scope's
    channel and thread: no approval request, no wait for a human. *)
Lemma createAutoModeCallback_resolves_by_itself
      (P : Platform) (cwd : string) (slackContext : SlackContext)
      (workingDirectory : option string) (toolName : string) (input : ToolInput)
      (w : World) (sc : DangerClassifier.SafetyCheck) :
  DangerClassifier.checkAutoModeSafety cwd toolName input workingDirectory = Normal sc ->
  let '(result, w') :=
    PermissionHandler.createAutoModeCallback P cwd slackContext workingDirectory
                                             toolName input w in
  if DangerClassifier.safe sc
  then result = Normal (Allow input) /\ w' = w
  else exists why note,
      DangerClassifier.reason sc = Some why
      /\ result = Normal (Deny (JStr why))
      /\ trace w' = (trace w ++ [SlackPost note])%list
      /\ approvals w' = approvals w
      /\ Slack.interactive note = false
      /\ Slack.pm_channel note = channel slackContext
      /\ Slack.pm_thread_ts note = threadTs slackContext.
Proof.
  intros Hsc. unfold PermissionHandler.createAutoModeCallback. rewrite Hsc.
  destruct (DangerClassifier.safe sc) eqn:Hsafe; [done|].
  destruct (unsafe_has_reason _ _ _ _ _ Hsc Hsafe) as (why & Hwhy & Hne).
  exists why. eexists. split; [done|]. rewrite Hwhy. simpl. rewrite Hne.
  repeat split.
Qed.



(** ** Paths under a boundary *)

Section Paths.
Import JsString Path.

Lemma splitSlash_plain (seg rest cur : list ascii) :
  ~ In slash seg ->
  splitSlash (seg ++ rest) cur = splitSlash rest (rev seg ++ cur).
Proof.
  revert cur. induction seg as [|c seg IH]; intros cur Hn; simpl; [done|].
  destruct (ascii_dec c slash) as [->|_]; [exfalso; apply Hn; by left|].
  rewrite IH by (intros H; apply Hn; by right). by rewrite <- app_assoc.
Qed.

Lemma splitSlash_segment (seg rest : list ascii) :
  ~ In slash seg ->
  splitSlash (seg ++ slash :: rest) [] = seg :: splitSlash rest [].
Proof.
  intros Hn. rewrite splitSlash_plain by done. simpl.
  destruct (ascii_dec slash slash); [|done]. by rewrite app_nil_r, rev_involutive.
Qed.

Lemma splitSlash_join (segs : list (list ascii)) (rest : list ascii) :
  segs <> [] -> Forall plain segs ->
  splitSlash (joinSlash segs ++ slash :: rest) [] = (segs ++ splitSlash rest [])%list.
Proof.
  intros Hne Hp. induction Hp as [|seg segs (_ & Hs & _) Hp IH]; [done|].
  destruct segs as [|seg' segs].
  - simpl. by apply splitSlash_segment.
  - change (joinSlash (seg :: seg' :: segs))
      with (seg ++ slash :: joinSlash (seg' :: segs))%list.
    rewrite <- app_assoc, <- app_comm_cons, splitSlash_segment by done.
    by rewrite IH.
Qed.

Lemma normalizeSegs_plain (segs rest stack : list (list ascii)) :
  Forall plain segs ->
  normalizeSegs false (segs ++ rest) stack = normalizeSegs false rest (rev segs ++ stack).
Proof.
  intros Hp. revert stack. induction Hp as [|seg segs (Hne & _ & Hd & Hdd) _ IH];
    intros stack; simpl; [done|].
  destruct seg as [|c seg]; [done|]. rewrite Hd, Hdd, IH. by rewrite <- app_assoc.
Qed.

Lemma joinSlash_app (a b : list (list ascii)) :
  a <> [] -> b <> [] ->
  joinSlash (a ++ b) = (joinSlash a ++ slash :: joinSlash b)%list.
Proof.
  intros Ha Hb. induction a as [|x a IH]; [done|].
  destruct a as [|y a].
  - simpl. by destruct b.
  - change (joinSlash ((x :: y :: a) ++ b))
      with (x ++ slash :: joinSlash ((y :: a) ++ b))%list.
    rewrite IH by done. simpl. by rewrite <- app_assoc.
Qed.

Lemma joinSlash_head (segs : list (list ascii)) :
  segs <> [] -> Forall plain segs ->
  exists c t, joinSlash segs = c :: t /\ c <> slash.
Proof.
  intros Hne Hp. destruct Hp as [|seg segs (Hs & Hn & _) _]; [done|].
  destruct seg as [|c seg]; [done|].
  exists c. destruct segs; simpl; eexists; (split; [reflexivity|]);
    intros ->; apply Hn; by left.
Qed.

(** [path.resolve(boundary)] is the boundary, and
    [path.resolve(boundary, file)] is the file below it. *)
Lemma resolve_boundary (cwd : string) (bsegs : list (list ascii)) :
  bsegs <> [] -> Forall plain bsegs ->
  resolve cwd [absPath bsegs] = absPath bsegs.
Proof.
  intros Hne Hp. unfold resolve, absPath. simpl. rewrite chars_str. simpl.
  destruct (ascii_dec slash slash); [|done].
  unfold normalizeString. simpl.
  destruct (ascii_dec slash slash); [|done].
  rewrite splitSlash_join by done. simpl.
  rewrite normalizeSegs_plain by done. simpl.
  by rewrite app_nil_r, rev_involutive.
Qed.

Lemma gather_below (p q rest : list ascii) (more : list (list ascii)) :
  (exists c t, p = c :: t /\ c <> slash) ->
  gather (p :: (slash :: q) :: more) rest
  = ((slash :: q) ++ slash :: p ++ slash :: rest, true)%list.
Proof.
  intros (c & t & -> & Hc). cbn [gather].
  destruct (ascii_dec c slash); [done|].
  destruct (ascii_dec slash slash); [|done]. done.
Qed.

Lemma resolve_below (cwd : string) (bsegs fsegs : list (list ascii)) :
  bsegs <> [] -> Forall plain bsegs -> fsegs <> [] -> Forall plain fsegs ->
  resolve cwd [absPath bsegs; relPath fsegs] = absPath (bsegs ++ fsegs).
Proof.
  intros Hb Hpb Hf Hpf. unfold resolve, absPath, relPath.
  cbn [rev app map]. rewrite !chars_str.
  rewrite gather_below by (by apply joinSlash_head).
  cbn [negb]. unfold normalizeString. cbn [app splitSlash].
  destruct (ascii_dec slash slash); [|done]. cbn [rev].
  rewrite splitSlash_join by done.
  rewrite splitSlash_join by done.
  cbn [splitSlash rev normalizeSegs].
  rewrite app_assoc, normalizeSegs_plain by (by apply Forall_app).
  cbn [normalizeSegs]. by rewrite app_nil_r, rev_involutive.
Qed.

(** A plain relative path is inside every plain absolute boundary. *)
Lemma plain_path_within (cwd : string) (bsegs fsegs : list (list ascii)) :
  bsegs <> [] -> Forall plain bsegs -> fsegs <> [] -> Forall plain fsegs ->
  DangerClassifier.isWithinWorkingDirectory cwd (relPath fsegs) (absPath bsegs) = true.
Proof.
  intros Hb Hpb Hf Hpf. unfold DangerClassifier.isWithinWorkingDirectory.
  rewrite resolve_below, resolve_boundary by done.
  apply orb_true_iff. left. unfold startsWith, absPath, sep.
  rewrite chars_append, !chars_str, joinSlash_app by done.
  change (chars "/") with [slash].
  change (slash :: (joinSlash bsegs ++ slash :: joinSlash fsegs))%list
    with ((slash :: joinSlash bsegs) ++ [slash] ++ joinSlash fsegs)%list.
  rewrite app_assoc. apply prefixChars_app.
Qed.

End Paths.

(** Every pattern of the catalogue is in the fragment the reader of
    patterns understands. *)
Lemma catalogue_reads :
  forallb (fun src => match Regex.parse src with Some _ => true | None => false end)
          DangerClassifier.DANGEROUS_BASH_PATTERNS = true.
Proof. vm_compute. reflexivity. Qed.

Section Classifier.
Import DangerClassifier SpecClassifier.

Lemma firstMatch_dangerous (patterns : list string) (command : string) :
  dangerous (firstMatch patterns command) = true
  <-> exists pattern, In pattern patterns
                      /\ Regex.test false (Regex.re pattern) command = true.
Proof.
  induction patterns as [|p ps IH]; simpl.
  - split; [discriminate|]. by intros (? & [] & _).
  - destruct (Regex.test false (Regex.re p) command) eqn:E; simpl.
    + split; [|done]. intros _. exists p. auto.
    + rewrite IH. split.
      * intros (q & Hin & Hq). exists q. auto.
      * intros (q & [->|Hin] & Hq); [congruence|]. exists q. auto.
Qed.

Lemma eqb_empty_false (s : string) : String.eqb s "" = false <-> s <> "".
Proof. apply String.eqb_neq. Qed.

(* A case where the file check answers "safe": no flag can hold. *)
Ltac safe_verdict :=
  intros [= <-]; simpl; split; [discriminate|];
  intros [?|(?&?&?&?&?&?&?&?)]; [contradiction|simplify_eq].

(** The verdict is unsafe exactly when one of the two checks flags
    the action. *)
Lemma verdict_unsafe_iff (cwd toolName : string) (input : ToolInput)
      (workingDirectory : option string) (sc : SafetyCheck) :
  checkAutoModeSafety cwd toolName input workingDirectory = Normal sc ->
  (safe sc = false
   <-> shellFlag toolName input \/ escapeFlag cwd toolName input workingDirectory).
Proof.
  unfold checkAutoModeSafety.
  set (bash := if String.eqb toolName "Bash" then _ else _).
  destruct (dangerous bash) eqn:Hd.
  - intros [= <-]. simpl. split; [intros _|done]. left.
    subst bash. destruct (String.eqb toolName "Bash") eqn:Ht; [|discriminate].
    apply String.eqb_eq in Ht.
    destruct (Js.prop input "command") as [[]|] eqn:Hc; try discriminate.
    split; [done|]. eexists. split; [done|]. by apply firstMatch_dangerous.
  - assert (~ shellFlag toolName input) as Hns.
    { intros (-> & command & Hc & Hcat). subst bash. simpl in Hd.
      rewrite Hc in Hd. apply firstMatch_dangerous in Hcat.
      unfold isDangerousBashCommand in Hd. congruence. }
    unfold fileCheck, escapeFlag.
    destruct workingDirectory as [wd|]; [|by safe_verdict].
    simpl. destruct (String.eqb wd "") eqn:Hwd; simpl.
    { apply String.eqb_eq in Hwd. by safe_verdict. }
    apply eqb_empty_false in Hwd.
    destruct (isFileTool toolName) eqn:Hft; [|by safe_verdict].
    destruct (Js.prop input "file_path") as [v|] eqn:Hfp; [|by safe_verdict].
    destruct v as [|b|z|fp|items|fields]; simpl;
      try (by safe_verdict); try discriminate;
      try (by (destruct b; [discriminate|safe_verdict]));
      try (by (destruct (z =? 0)%Z; simpl; [safe_verdict|discriminate])).
    destruct (String.eqb fp "") eqn:Hs; simpl.
    { apply String.eqb_eq in Hs. by safe_verdict. }
    apply eqb_empty_false in Hs.
    destruct (isWithinWorkingDirectory cwd fp wd) eqn:Hw; simpl.
    + safe_verdict. congruence.
    + intros [= <-]. simpl. split; [|done]. intros _. right. by exists wd, fp.
Qed.
End Classifier.

(** A file tool writing to a plain relative path is safe under every
    plain absolute boundary. *)
Lemma file_tool_below_boundary_is_safe
      (cwd toolName : string) (bsegs fsegs : list (list ascii)) (other : ToolInput) :
  DangerClassifier.isFileTool toolName = true ->
  bsegs <> [] -> Forall plain bsegs -> fsegs <> [] -> Forall plain fsegs ->
  DangerClassifier.checkAutoModeSafety
    cwd toolName (("file_path", JStr (relPath fsegs)) :: other) (Some (absPath bsegs))
  = Normal {| DangerClassifier.safe := true; DangerClassifier.reason := None |}.
Proof.
  intros Hft Hb Hpb Hf Hpf. unfold DangerClassifier.checkAutoModeSafety.
  assert (String.eqb toolName "Bash" = false) as ->.
  { unfold DangerClassifier.isFileTool in Hft.
    destruct (String.eqb toolName "Bash") eqn:E; [|done].
    apply String.eqb_eq in E. subst toolName. discriminate Hft. }
  cbn [DangerClassifier.dangerous]. unfold DangerClassifier.fileCheck.
  rewrite Hft. cbn [Js.prop Js.assoc]. rewrite String.eqb_refl.
  rewrite (plain_path_within cwd bsegs fsegs) by done.
  unfold absPath at 1. cbn [JsString.truthy JsString.str string_of_list_ascii String.eqb].
  cbn [negb andb]. by rewrite andb_false_r.
Qed.

(** C5.  The classifier on the specification's four examples; every
    plain path below a plain boundary is safe for a file tool; and
    fail-open: a verdict is safe whenever neither check flags the
    action. *)
Theorem classifier_examples_and_fail_open :
  (exists why,
      DangerClassifier.checkAutoModeSafety "/" "Bash" [("command", JStr "rm -rf /")] None
      = Normal {| DangerClassifier.safe := false; DangerClassifier.reason := Some why |})
  /\ DangerClassifier.checkAutoModeSafety "/" "Bash" [("command", JStr "ls -la")] None
     = Normal {| DangerClassifier.safe := true; DangerClassifier.reason := None |}
  /\ (exists why,
         DangerClassifier.checkAutoModeSafety
           "/" "Write" [("file_path", JStr "../../etc/passwd")] (Some "/home/user/project")
         = Normal {| DangerClassifier.safe := false; DangerClassifier.reason := Some why |})
  /\ DangerClassifier.checkAutoModeSafety
       "/" "Write" [("file_path", JStr "src/index.ts")] (Some "/home/user/project")
     = Normal {| DangerClassifier.safe := true; DangerClassifier.reason := None |}
  /\ DangerClassifier.checkAutoModeSafety
       "/" "Write" [("file_path", JStr "/home/user/project/docs/../README.md")]
       (Some "/home/user/project")
     = Normal {| DangerClassifier.safe := true; DangerClassifier.reason := None |}
  /\ (forall cwd toolName bsegs fsegs other,
         DangerClassifier.isFileTool toolName = true ->
         bsegs <> [] -> Forall plain bsegs -> fsegs <> [] -> Forall plain fsegs ->
         DangerClassifier.checkAutoModeSafety
           cwd toolName (("file_path", JStr (relPath fsegs)) :: other)
           (Some (absPath bsegs))
         = Normal {| DangerClassifier.safe := true; DangerClassifier.reason := None |})
  /\ (forall cwd toolName input workingDirectory sc,
         DangerClassifier.checkAutoModeSafety cwd toolName input workingDirectory = Normal sc ->
         ~ SpecClassifier.shellFlag toolName input ->
         ~ SpecClassifier.escapeFlag cwd toolName input workingDirectory ->
         DangerClassifier.safe sc = true).
Proof.
  split; [eexists; vm_compute; reflexivity|].
  split; [vm_compute; reflexivity|].
  split; [eexists; vm_compute; reflexivity|].
  split; [vm_compute; reflexivity|].
  split; [vm_compute; reflexivity|].
  split; [exact file_tool_below_boundary_is_safe|].
  intros cwd toolName input wd sc Hsc Hn1 Hn2.
  destruct (DangerClassifier.safe sc) eqn:Hs; [done|].
  apply (verdict_unsafe_iff _ _ _ _ _ Hsc) in Hs. tauto.
Qed.

Lemma classifier_examples_and_fail_open_witness :
  DangerClassifier.checkAutoModeSafety "/" "Read" [("file_path", JStr "/etc/passwd")]
                                       (Some "/home/user/project")
  = Normal {| DangerClassifier.safe := true; DangerClassifier.reason := None |}
  /\ ~ SpecClassifier.shellFlag "Read" [("file_path", JStr "/etc/passwd")]
  /\ ~ SpecClassifier.escapeFlag "/" "Read" [("file_path", JStr "/etc/passwd")]
                                 (Some "/home/user/project")
  /\ DangerClassifier.safe
       {| DangerClassifier.safe := true; DangerClassifier.reason := None |} = true.
Proof.
  assert (~ SpecClassifier.shellFlag "Read" [("file_path", JStr "/etc/passwd")]) as H1
    by (intros [H _]; discriminate H).
  assert (~ SpecClassifier.escapeFlag "/" "Read" [("file_path", JStr "/etc/passwd")]
                                 (Some "/home/user/project")) as H2
    by (intros (b & f & _ & _ & H & _); discriminate H).
  split; [reflexivity|]. split; [exact H1|]. split; [exact H2|].
  destruct classifier_examples_and_fail_open as (_ & _ & _ & _ & _ & _ & H).
  exact (H "/" "Read" [("file_path", JStr "/etc/passwd")] (Some "/home/user/project")
           _ eq_refl H1 H2).
Defined.

(** ** The matcher computes what the patterns match *)

Section Matcher.
Import Regex.
Variable icase : bool.

Lemma star_iter_head (step : list ascii -> list (list ascii)) (fuel : nat) (s : list ascii) :
  In s (star_iter step fuel s).
Proof. destruct fuel; simpl; auto. Qed.

Lemma star_iter_mono (step : list ascii -> list (list ascii)) (f1 f2 : nat) :
  (f1 <= f2)%nat -> forall s x, In x (star_iter step f1 s) -> In x (star_iter step f2 s).
Proof.
  revert f2. induction f1 as [|f1 IH]; intros f2 Hle s x Hin.
  - destruct Hin as [<-|[]]. apply star_iter_head.
  - destruct f2 as [|f2]; [lia|].
    simpl in *. destruct Hin as [Hin|Hin]; [auto|right].
    apply in_flat_map in Hin as (s' & Hs' & Hx). apply in_flat_map.
    exists s'. split; [done|].
    destruct (List.length s' <? List.length s)%nat; [|done].
    apply IH; [lia|done].
Qed.

(** Soundness: what the matcher returns is what is left after a match. *)
Lemma matchFrom_sound (r : regex) :
  forall (n : nat) (before s rest : list ascii),
    (List.length before + List.length s = n)%nat ->
    In rest (matchFrom icase n r s) ->
    exists m, s = (m ++ rest)%list /\ lang icase r before m rest.
Proof.
  induction r as [| neg items | | | r1 IH1 r2 IH2 | r1 IH1 r2 IH2 | r IH];
    intros n before s rest Hn Hin; simpl in Hin.
  - destruct Hin as [<-|[]]. exists []. split; [done|constructor].
  - destruct s as [|c t]; [done|].
    destruct (cset_mem icase neg items c) eqn:E; [|done].
    destruct Hin as [<-|[]]. exists [c]. split; [done|by constructor].
  - destruct (List.length s =? n)%nat eqn:E; [|done].
    destruct Hin as [<-|[]]. apply Nat.eqb_eq in E.
    assert (before = []) as -> by (destruct before; [done|simpl in *; lia]).
    exists []. split; [done|constructor].
  - destruct s; [|done]. destruct Hin as [<-|[]].
    exists []. split; [done|constructor].
  - apply in_flat_map in Hin as (mid & Hmid & Hrest).
    destruct (IH1 n before s mid Hn Hmid) as (m1 & -> & L1).
    assert (List.length (before ++ m1) + List.length mid = n)%nat as Hn'.
    { rewrite <- Hn. rewrite !length_app. lia. }
    destruct (IH2 n (before ++ m1)%list mid rest Hn' Hrest) as (m2 & -> & L2).
    exists (m1 ++ m2)%list. split; [by rewrite <- app_assoc|].
    by constructor.
  - apply in_app_or in Hin as [Hin|Hin].
    + destruct (IH1 n before s rest Hn Hin) as (m & -> & L). exists m. split; [done|].
      by apply L_alt_l.
    + destruct (IH2 n before s rest Hn Hin) as (m & -> & L). exists m. split; [done|].
      by apply L_alt_r.
  - revert Hin. generalize (List.length s) as fuel. intros fuel.
    revert before s Hn. induction fuel as [|fuel IHf]; intros before s Hn Hin.
    + destruct Hin as [<-|[]]. exists []. split; [done|constructor].
    + simpl in Hin. destruct Hin as [<-|Hin].
      { exists []. split; [done|constructor]. }
      apply in_flat_map in Hin as (mid & Hmid & Hrest).
      destruct (List.length mid <? List.length s)%nat; [|done].
      destruct (IH n before s mid Hn Hmid) as (m1 & -> & L1).
      assert (List.length (before ++ m1) + List.length mid = n)%nat as Hn'.
      { rewrite <- Hn. rewrite !length_app. lia. }
      destruct (IHf (before ++ m1)%list mid Hn' Hrest) as (m2 & -> & L2).
      exists (m1 ++ m2)%list. split; [by rewrite <- app_assoc|].
      by apply L_star_more.
Qed.

(** Completeness: every match is found. *)
Lemma matchFrom_complete (r : regex) (before m rest : list ascii) :
  lang icase r before m rest ->
  forall n, (List.length before + List.length (m ++ rest) = n)%nat ->
            In rest (matchFrom icase n r (m ++ rest)).
Proof.
  induction 1 as [ before after | neg items before c after Hc | after | before
                 | r1 r2 before m1 m2 after L1 IH1 L2 IH2
                 | r1 r2 before m after L IH | r1 r2 before m after L IH
                 | r before after
                 | r before m1 m2 after L1 IH1 L2 IH2 ];
    intros n Hn; simpl.
  - auto.
  - rewrite Hc. simpl. auto.
  - simpl in Hn. rewrite <- Hn, Nat.eqb_refl. simpl. auto.
  - auto.
  - apply in_flat_map. exists (m2 ++ after)%list. split.
    + rewrite <- app_assoc. apply IH1. by rewrite <- app_assoc in Hn.
    + apply IH2. rewrite <- Hn. rewrite !length_app. lia.
  - apply in_or_app. left. by apply IH.
  - apply in_or_app. right. by apply IH.
  - apply star_iter_head.
  - destruct m1 as [|c m1].
    + simpl. simpl in IH2. apply IH2. rewrite <- Hn. by rewrite app_nil_r.
    + rewrite <- app_assoc in *. cbn [matchFrom app List.length star_iter].
      right. apply in_flat_map. exists (m2 ++ after)%list. split.
      * apply (IH1 n). exact Hn.
      * replace (List.length (m2 ++ after) <? S (List.length (m1 ++ m2 ++ after)))%nat
          with true by (symmetry; apply Nat.ltb_lt; rewrite (length_app m1); lia).
        assert (In after (matchFrom icase n (Star r) (m2 ++ after))) as Hin.
        { apply IH2. rewrite <- Hn. simpl. rewrite !length_app. simpl. lia. }
        simpl in Hin. revert Hin. apply star_iter_mono. rewrite (length_app m1). lia.
Qed.

Lemma matchesAt_iff (r : regex) (before s : list ascii) :
  matchesAt icase (List.length before + List.length s) r s = true
  <-> exists m rest, s = (m ++ rest)%list /\ lang icase r before m rest.
Proof.
  unfold matchesAt. split.
  - destruct (matchFrom _ _ _ _) as [|rest l] eqn:E; [discriminate|]. intros _.
    destruct (matchFrom_sound r _ before s rest eq_refl) as (m & -> & L).
    { rewrite E. by left. }
    by exists m, rest.
  - intros (m & rest & -> & L).
    pose proof (matchFrom_complete r before m rest L _ eq_refl) as Hin.
    by destruct (matchFrom _ _ _ _).
Qed.

Lemma searchFrom_iff (r : regex) (s before : list ascii) :
  searchFrom icase (List.length before + List.length s) r s = true
  <-> exists skipped m rest,
      s = (skipped ++ m ++ rest)%list /\ lang icase r (before ++ skipped) m rest.
Proof.
  revert before. induction s as [|c s IH]; intros before; simpl.
  - rewrite orb_false_r.
    pose proof (matchesAt_iff r before []) as H. simpl in H. rewrite H. split.
    + intros (m & rest & Hs & L). exists [], m, rest. by rewrite app_nil_r.
    + intros (sk & m & rest & Hs & L).
      destruct sk; [|done]. rewrite app_nil_r in L. by exists m, rest.
  - rewrite orb_true_iff.
    pose proof (matchesAt_iff r before (c :: s)) as H. simpl in H. rewrite H.
    replace (List.length before + S (List.length s))%nat
      with (List.length (before ++ [c]) + List.length s)%nat
      by (rewrite length_app; simpl; lia).
    rewrite IH. split.
    + intros [(m & rest & Hs & L)|(sk & m & rest & Hs & L)].
      * exists [], m, rest. by rewrite app_nil_r.
      * exists (c :: sk), m, rest. rewrite <- app_assoc in L. simpl in *. by subst.
    + intros (sk & m & rest & Hs & L). destruct sk as [|c' sk].
      * left. rewrite app_nil_r in L. by exists m, rest.
      * right. simpl in Hs. injection Hs as <- ->.
        exists sk, m, rest. rewrite <- app_assoc. done.
Qed.

(** [test] answers whether some part of the input matches. *)
Lemma test_iff (r : regex) (s : string) :
  test icase r s = true
  <-> exists before m after,
      JsString.chars s = (before ++ m ++ after)%list /\ lang icase r before m after.
Proof.
  unfold test. pose proof (searchFrom_iff r (JsString.chars s) []) as H.
  simpl in H. exact H.
Qed.

End Matcher.

(** ** Characters, by enumeration *)

Lemma forall_ascii (f : ascii -> bool) :
  forallb f allAscii = true -> forall c, f c = true.
Proof.
  intros H c. rewrite forallb_forall in H. apply H.
  rewrite <- (ascii_nat_embedding c). unfold allAscii. apply in_map, in_seq.
  pose proof (nat_ascii_bounded c). lia.
Qed.

Lemma ascii_eqb_eq (a b : ascii) : ascii_eqb a b = true <-> a = b.
Proof. unfold ascii_eqb. destruct (ascii_dec a b); split; congruence. Qed.

Section Chars.
Import JsString.

Lemma lowerChar_idem (c : ascii) : lowerChar (lowerChar c) = lowerChar c.
Proof.
  apply ascii_eqb_eq. revert c. apply forall_ascii. vm_compute. reflexivity.
Qed.

Lemma lowerChar_space (c : ascii) : isWhiteSpace (lowerChar c) = isWhiteSpace c.
Proof.
  apply eqb_prop. revert c.
  apply (forall_ascii (fun c => Bool.eqb (isWhiteSpace (lowerChar c)) (isWhiteSpace c))).
  vm_compute. reflexivity.
Qed.

(** Between characters that lower-casing leaves alone, matching up to
    case is equality. *)
Lemma canon_lower_eq (p c : ascii) :
  lowerChar p = p -> lowerChar c = c -> canonChar p = canonChar c -> p = c.
Proof.
  intros Hp Hc Hpc. apply ascii_eqb_eq.
  assert (forall p c, (negb (ascii_eqb (lowerChar p) p)
                       || negb (ascii_eqb (lowerChar c) c)
                       || negb (ascii_eqb (canonChar p) (canonChar c))
                       || ascii_eqb p c) = true) as H.
  { intros p0. apply forall_ascii. revert p0.
    apply (forall_ascii (fun p0 => forallb (fun c0 =>
             negb (ascii_eqb (lowerChar p0) p0)
             || negb (ascii_eqb (lowerChar c0) c0)
             || negb (ascii_eqb (canonChar p0) (canonChar c0))
             || ascii_eqb p0 c0) allAscii)).
    vm_compute. reflexivity. }
  specialize (H p c).
  apply ascii_eqb_eq in Hp, Hc, Hpc. rewrite Hp, Hc, Hpc in H. exact H.
Qed.

Lemma dropSpace_map_lower (l : list ascii) :
  dropSpace (map lowerChar l) = map lowerChar (dropSpace l).
Proof.
  induction l as [|c l IH]; simpl; [done|].
  rewrite lowerChar_space. by destruct (isWhiteSpace c).
Qed.

Lemma trim_lower (s : string) : toLowerCase (trim s) = trim (toLowerCase s).
Proof.
  unfold toLowerCase, trim, trimChars. rewrite !chars_str. f_equal.
  rewrite dropSpace_map_lower, <- map_rev, dropSpace_map_lower, map_rev. done.
Qed.

Lemma lowered_chars (s : string) :
  Forall (fun c => lowerChar c = c) (chars (toLowerCase s)).
Proof.
  unfold toLowerCase. rewrite chars_str. apply Forall_forall. intros c Hin.
  apply list_elem_of_In, in_map_iff in Hin as (x & <- & _). apply lowerChar_idem.
Qed.

End Chars.

(** ** The command patterns *)

Section CommandPatterns.
Import JsString Regex SpecCommand.

Lemma patterns_read :
  re BypassModeManager.autoOn = modePattern "auto" onWords
  /\ re BypassModeManager.autoOff = modePattern "auto" offWords
  /\ re BypassModeManager.bypassOn = modePattern "bypass" onWords
  /\ re BypassModeManager.bypassOff = modePattern "bypass" offWords
  /\ re BypassModeManager.approvalOn = modePattern "approval" onWords
  /\ re BypassModeManager.approvalOff = modePattern "approval" offWords.
Proof. repeat split; vm_compute; reflexivity. Qed.

Lemma lang_eps_inv b m a : lang true Eps b m a -> m = [].
Proof. by inversion 1. Qed.

Lemma lang_eol_inv b m a : lang true Eol b m a -> m = [] /\ a = [].
Proof. by inversion 1. Qed.

Lemma lang_bol_inv b m a : lang true Bol b m a -> m = [] /\ b = [].
Proof. by inversion 1. Qed.

Lemma lang_seq_inv r1 r2 b m a :
  lang true (Seq r1 r2) b m a ->
  exists m1 m2, m = (m1 ++ m2)%list
                /\ lang true r1 b m1 (m2 ++ a)%list /\ lang true r2 (b ++ m1)%list m2 a.
Proof. inversion 1; subst. eauto. Qed.

Lemma lang_alt_inv r1 r2 b m a :
  lang true (Alt r1 r2) b m a -> lang true r1 b m a \/ lang true r2 b m a.
Proof. inversion 1; subst; auto. Qed.

Lemma lang_chr_iff p b m a :
  lang true (Chr p) b m a <-> exists c, m = [c] /\ canonChar p = canonChar c.
Proof.
  unfold Chr. split.
  - inversion 1 as [| ? ? ? c ? Hc | | | | | | |]; subst. exists c. split; [done|].
    unfold cset_mem in Hc. simpl in Hc.
    by destruct (ascii_dec (canonChar p) (canonChar c)).
  - intros (c & -> & Hc). constructor. unfold cset_mem. simpl.
    by destruct (ascii_dec (canonChar p) (canonChar c)).
Qed.

Lemma lang_space_iff b m a :
  lang true Space b m a <-> exists c, m = [c] /\ isWhiteSpace c = true.
Proof.
  unfold Space. split.
  - inversion 1 as [| ? ? ? c ? Hc | | | | | | |]; subst. exists c. split; [done|].
    unfold cset_mem in Hc. simpl in Hc. by destruct (isWhiteSpace c).
  - intros (c & -> & Hc). constructor. unfold cset_mem. simpl. by rewrite Hc.
Qed.

Lemma lang_star_space_inv b m a :
  lang true (Star Space) b m a -> Forall (fun c => isWhiteSpace c = true) m.
Proof.
  remember (Star Space) as r eqn:Hr. induction 1; try discriminate.
  - constructor.
  - injection Hr as ->. apply Forall_app. split; [|auto].
    match goal with H : lang true Space _ _ _ |- _ =>
      apply lang_space_iff in H as (c & -> & Hc) end.
    by repeat constructor.
Qed.

Lemma lang_star_space_intro b m a :
  Forall (fun c => isWhiteSpace c = true) m -> lang true (Star Space) b m a.
Proof.
  intros H. revert b. induction H as [|c m Hc _ IH]; intros b.
  - constructor.
  - apply (L_star_more true Space b [c] m a).
    + apply lang_space_iff. eauto.
    + apply IH.
Qed.

Lemma lang_plus_space_iff b m a :
  lang true (Plus Space) b m a
  <-> m <> [] /\ Forall (fun c => isWhiteSpace c = true) m.
Proof.
  unfold Plus. split.
  - intros H. apply lang_seq_inv in H as (m1 & m2 & -> & H1 & H2).
    apply lang_space_iff in H1 as (c & -> & Hc).
    apply lang_star_space_inv in H2. split; [done|]. by constructor.
  - intros [Hne H]. destruct H as [|c m Hc H]; [done|].
    apply (L_seq true Space (Star Space) b [c] m a).
    + apply lang_space_iff. eauto.
    + by apply lang_star_space_intro.
Qed.

Lemma lang_litSeq_iff cs r b m a :
  lang true (litSeq cs r) b m a
  <-> exists m1 m2, m = (m1 ++ m2)%list /\ sameUpToCase cs m1
                    /\ lang true r (b ++ m1)%list m2 a.
Proof.
  revert b m. induction cs as [|p cs IH]; intros b m; simpl.
  - split.
    + intros H. exists [], m. rewrite app_nil_r. repeat split; [constructor|done].
    + intros (m1 & m2 & -> & Hc & H). inversion Hc; subst.
      by rewrite app_nil_r in H.
  - split.
    + intros H. apply lang_seq_inv in H as (m1 & m2 & -> & H1 & H2).
      apply lang_chr_iff in H1 as (c & -> & Hc).
      apply IH in H2 as (m3 & m4 & -> & Hcs & H).
      exists (c :: m3), m4. rewrite <- app_assoc in H. repeat split; [|done].
      by constructor.
    + intros (m1 & m2 & -> & Hc & H). inversion Hc as [|? c ? m3 Hpc Hcs]; subst.
      apply (L_seq true (Chr p) (litSeq cs r) b [c] (m3 ++ m2) a).
      * apply lang_chr_iff. eauto.
      * apply IH. exists m3, m2. rewrite <- app_assoc. done.
Qed.

Lemma lang_word_iff w b m a :
  lang true (litSeq (chars w) Eps) b m a <-> sameUpToCase (chars w) m.
Proof.
  rewrite lang_litSeq_iff. split.
  - intros (m1 & m2 & -> & Hc & H). apply lang_eps_inv in H as ->.
    by rewrite app_nil_r.
  - intros H. exists m, []. rewrite app_nil_r. repeat split; [done|constructor].
Qed.

Lemma lang_alts_iff words b m a :
  lang true (alts words) b m a
  <-> exists w, In w words /\ sameUpToCase (chars w) m.
Proof.
  induction words as [|w rest IH].
  - simpl. split; [inversion 1; discriminate|by intros (? & [] & _)].
  - destruct rest as [|w' rest].
    + simpl. rewrite lang_word_iff. split; [eauto|].
      by intros (? & [<-|[]] & ?).
    + change (alts (w :: w' :: rest)) with (Alt (litSeq (chars w) Eps) (alts (w' :: rest))).
      split.
      * intros H. apply lang_alt_inv in H as [H|H].
        -- apply lang_word_iff in H. exists w. split; [by left|done].
        -- apply IH in H as (x & Hin & Hx). exists x. split; [by right|done].
      * intros (x & [<-|Hin] & Hx).
        -- apply L_alt_l. by apply lang_word_iff.
        -- apply L_alt_r. apply IH. eauto.
Qed.

(** What a command pattern matches, up to case. *)
Lemma modePattern_iff keyword words (t : string) :
  test true (modePattern keyword words) t = true
  <-> exists k ws w arg,
      chars t = (k ++ ws ++ arg)%list
      /\ sameUpToCase (chars keyword) k
      /\ ws <> [] /\ Forall (fun c => isWhiteSpace c = true) ws
      /\ In w words /\ sameUpToCase (chars w) arg.
Proof.
  rewrite test_iff. unfold modePattern. split.
  - intros (b & m & a & Ht & H).
    apply lang_seq_inv in H as (m0 & m' & -> & H0 & H).
    apply lang_bol_inv in H0 as [-> ->]. simpl in *.
    apply lang_litSeq_iff in H as (k & m2 & -> & Hk & H).
    apply lang_seq_inv in H as (ws & m3 & -> & Hws & H).
    apply lang_plus_space_iff in Hws as [Hne Hws].
    apply lang_seq_inv in H as (arg & m4 & -> & Harg & H).
    apply lang_alts_iff in Harg as (w & Hin & Hw).
    apply lang_seq_inv in H as (m5 & m6 & -> & H5 & H6).
    apply lang_eol_inv in H5 as [-> H5]. apply lang_eps_inv in H6 as ->.
    simpl in H5. subst a. rewrite !app_nil_r in Ht.
    by exists k, ws, w, arg.
  - intros (k & ws & w & arg & Ht & Hk & Hne & Hws & Hin & Hw).
    exists [], (k ++ ws ++ arg)%list, []. rewrite app_nil_r. split; [done|].
    apply (L_seq true Bol _ [] [] (k ++ ws ++ arg) []); [constructor|]. simpl.
    apply lang_litSeq_iff. exists k, (ws ++ arg)%list. repeat split; [done|].
    apply L_seq; [by apply lang_plus_space_iff|].
    rewrite <- (app_nil_r arg) at 1.
    apply L_seq; [apply lang_alts_iff; eauto|].
    apply (L_seq true Eol Eps _ [] [] []); constructor.
Qed.

Lemma sameUpToCase_lowered (pattern text : list ascii) :
  Forall (fun c => lowerChar c = c) pattern ->
  Forall (fun c => lowerChar c = c) text ->
  sameUpToCase pattern text -> pattern = text.
Proof.
  intros Hp Ht H. induction H as [|p c ps cs Hpc _ IH]; [done|].
  inversion Hp; inversion Ht; subst. f_equal; [|auto].
  by apply canon_lower_eq.
Qed.

(** On a lower-case text, a lower-case command pattern matches exactly
    the phrases of its keyword and words. *)
Lemma modePattern_phrase keyword words (t : string) :
  lowered keyword -> Forall lowered words -> lowered t ->
  test true (modePattern keyword words) t = true <-> phrase keyword words t.
Proof.
  intros Hk Hw Ht. rewrite modePattern_iff. unfold phrase. split.
  - intros (k & ws & w & arg & Hc & Hsk & Hne & Hws & Hin & Hsw).
    unfold lowered in Ht. rewrite Hc in Ht.
    apply Forall_app in Ht as [Htk Ht]. apply Forall_app in Ht as [_ Hta].
    apply sameUpToCase_lowered in Hsk; [|done..].
    apply sameUpToCase_lowered in Hsw; [|by apply (proj1 (Forall_forall _ _) Hw), list_elem_of_In|done].
    subst. eauto 10.
  - intros (ws & arg & Hin & Hne & Hws & Hc).
    exists (chars keyword), ws, arg, (chars arg). repeat split; try done.
    + clear. induction (chars keyword); constructor; auto.
    + clear. induction (chars arg); constructor; auto.
Qed.

End CommandPatterns.

Section Commands.
Import JsString SpecCommand BypassModeManager.

Lemma white_prefix_unique (ws1 ws2 a1 a2 : list ascii) :
  Forall (fun c => isWhiteSpace c = true) ws1 ->
  Forall (fun c => isWhiteSpace c = true) ws2 ->
  startsBlack a1 -> startsBlack a2 ->
  (ws1 ++ a1 = ws2 ++ a2)%list -> a1 = a2.
Proof.
  intros H1. revert ws2. induction H1 as [|c ws1 Hc _ IH]; intros ws2 H2 B1 B2 E.
  - destruct H2 as [|c' ws2 Hc' _]; [done|].
    simpl in E. subst a1. simpl in B1. congruence.
  - destruct H2 as [|c' ws2 Hc' H2].
    + simpl in E. subst a2. simpl in B2. congruence.
    + simpl in E. injection E as _ E. by apply (IH ws2).
Qed.

(** A text is a phrase in one way only. *)
Lemma phrase_unique (k1 k2 : string) (args1 args2 : list string) (t : string) :
  In k1 keywords -> In k2 keywords ->
  Forall (fun w => startsBlack (chars w)) args1 ->
  Forall (fun w => startsBlack (chars w)) args2 ->
  phrase k1 args1 t -> phrase k2 args2 t ->
  k1 = k2 /\ exists w, In w args1 /\ In w args2.
Proof.
  intros Hk1 Hk2 Hb1 Hb2 (ws1 & a1 & Hin1 & Hne1 & Hw1 & E1) (ws2 & a2 & Hin2 & Hne2 & Hw2 & E2).
  rewrite E1 in E2. clear E1.
  assert (startsBlack (chars a1)) as B1
      by (by apply (proj1 (Forall_forall _ _) Hb1), list_elem_of_In).
  assert (startsBlack (chars a2)) as B2
      by (by apply (proj1 (Forall_forall _ _) Hb2), list_elem_of_In).
  assert (forall x, In x ws1 -> isWhiteSpace x = true) as W1
      by (intros x Hx; by apply (proj1 (Forall_forall _ _) Hw1), list_elem_of_In).
  assert (forall x, In x ws2 -> isWhiteSpace x = true) as W2
      by (intros x Hx; by apply (proj1 (Forall_forall _ _) Hw2), list_elem_of_In).
  assert (k1 = k2) as <-.
  { simpl in Hk1, Hk2.
    destruct Hk1 as [<-|[<-|[<-|[]]]]; destruct Hk2 as [<-|[<-|[<-|[]]]];
      try done; simpl in E2; exfalso; congruence. }
  split; [done|].
  apply app_inv_head in E2.
  apply white_prefix_unique in E2; [|done..].
  assert (a1 = a2) as <-.
  { rewrite <- (str_chars a1), <- (str_chars a2). by rewrite E2. }
  eauto.
Qed.

Lemma words_black :
  Forall (fun w => startsBlack (chars w)) onWords
  /\ Forall (fun w => startsBlack (chars w)) offWords.
Proof. split; repeat constructor. Qed.

Lemma words_lowered :
  Forall lowered onWords /\ Forall lowered offWords
  /\ lowered "auto" /\ lowered "bypass" /\ lowered "approval".
Proof. repeat split; repeat constructor. Qed.

Lemma on_off_disjoint (w : string) : In w onWords -> In w offWords -> False.
Proof. simpl. intuition congruence. Qed.

(* Two phrases of one text that differ in the keyword or in the kind
   of argument. *)
Ltac clash H1 H2 :=
  exfalso;
  let K := fresh in
  match type of H1 with
  | phrase ?k1 ?a1 ?t =>
      match type of H2 with
      | phrase ?k2 ?a2 _ =>
          assert (Forall (fun w => startsBlack (chars w)) a1) as B1
            by first [apply (proj1 words_black) | apply (proj2 words_black)];
          assert (Forall (fun w => startsBlack (chars w)) a2) as B2
            by first [apply (proj1 words_black) | apply (proj2 words_black)];
          pose proof (phrase_unique k1 k2 a1 a2 t ltac:(simpl; tauto) ltac:(simpl; tauto)
                        B1 B2 H1 H2) as [K (? & ? & ?)];
          first [discriminate K | eauto using on_off_disjoint]
      end
  end.

(** The code's cascade of patterns recognizes exactly the command
    phrases of each mode. *)
Lemma parseModeCommand_iff (text : string) (mode : PermissionMode) :
  parseModeCommand text = Some mode
  <-> commandFor (toLowerCase (trim text)) mode.
Proof.
  unfold parseModeCommand.
  set (t := toLowerCase (trim text)).
  assert (lowered t) as Ht by apply lowered_chars.
  destruct patterns_read as (-> & -> & -> & -> & -> & ->).
  destruct words_lowered as (Lon & Loff & La & Lb & Lp).
  pose proof (modePattern_phrase "auto" onWords t La Lon Ht) as P1.
  pose proof (modePattern_phrase "auto" offWords t La Loff Ht) as P2.
  pose proof (modePattern_phrase "bypass" onWords t Lb Lon Ht) as P3.
  pose proof (modePattern_phrase "bypass" offWords t Lb Loff Ht) as P4.
  pose proof (modePattern_phrase "approval" onWords t Lp Lon Ht) as P5.
  pose proof (modePattern_phrase "approval" offWords t Lp Loff Ht) as P6.
  destruct (Regex.test true (modePattern "auto" onWords) t).
  { assert (phrase "auto" onWords t) as H by tauto. clear P1 P2 P3 P4 P5 P6.
    destruct mode; simpl; split; try done.
    - intros [H'|[H'|H']]; clash H H'.
    - intros [H'|H']; clash H H'. }
  destruct (Regex.test true (modePattern "auto" offWords) t).
  { assert (phrase "auto" offWords t) as H by tauto. clear P1 P2 P3 P4 P5 P6.
    destruct mode; simpl; split; try done; try tauto.
    - intros [H'|H']; clash H H'.
    - intros H'; clash H H'. }
  destruct (Regex.test true (modePattern "bypass" onWords) t).
  { assert (phrase "bypass" onWords t) as H by tauto. clear P1 P2 P3 P4 P5 P6.
    destruct mode; simpl; split; try done; try tauto.
    - intros [H'|[H'|H']]; clash H H'.
    - intros H'; clash H H'. }
  destruct (Regex.test true (modePattern "bypass" offWords) t).
  { assert (phrase "bypass" offWords t) as H by tauto. clear P1 P2 P3 P4 P5 P6.
    destruct mode; simpl; split; try done; try tauto.
    - intros [H'|H']; clash H H'.
    - intros H'; clash H H'. }
  destruct (Regex.test true (modePattern "approval" onWords) t).
  { assert (phrase "approval" onWords t) as H by tauto. clear P1 P2 P3 P4 P5 P6.
    destruct mode; simpl; split; try done; try tauto.
    - intros [H'|H']; clash H H'.
    - intros H'; clash H H'. }
  destruct (Regex.test true (modePattern "approval" offWords) t).
  { assert (phrase "approval" offWords t) as H by tauto. clear P1 P2 P3 P4 P5 P6.
    destruct mode; simpl; split; try done; try tauto.
    - intros [H'|[H'|H']]; clash H H'.
    - intros H'; clash H H'. }
  split; [discriminate|].
  destruct mode; simpl; intros H; exfalso.
  - destruct H as [H|[H|H]]; [apply P2 in H|apply P4 in H|apply P5 in H]; discriminate.
  - destruct H as [H|H]; [apply P3 in H|apply P6 in H]; discriminate.
  - apply P1 in H; discriminate.
Qed.

Lemma parseModeCommand_case (a b : string) :
  toLowerCase a = toLowerCase b -> parseModeCommand a = parseModeCommand b.
Proof.
  intros H. unfold parseModeCommand. by rewrite !trim_lower, H.
Qed.

End Commands.

(** C6.  [parseModeCommand] maps [approval off] to Bypass, as it does
    [bypass on]; it maps [bypass off] and [auto off] to Approval, and
    only an [auto] phrase with an "on" word to Auto; letter case makes
    no difference; and a text yields a mode exactly when it is a
    command phrase of that mode, so that any other text yields no
    command. *)
Theorem parseModeCommand_recognizes_the_command_phrases :
  BypassModeManager.parseModeCommand "approval off" = Some BypassModeManager.Bypass
  /\ BypassModeManager.parseModeCommand "bypass on" = Some BypassModeManager.Bypass
  /\ BypassModeManager.parseModeCommand "bypass off" = Some BypassModeManager.Approval
  /\ BypassModeManager.parseModeCommand "auto off" = Some BypassModeManager.Approval
  /\ (forall a b : string,
         JsString.toLowerCase a = JsString.toLowerCase b ->
         BypassModeManager.parseModeCommand a = BypassModeManager.parseModeCommand b)
  /\ (forall (text : string) (mode : BypassModeManager.PermissionMode),
         BypassModeManager.parseModeCommand text = Some mode
         <-> SpecCommand.commandFor (JsString.toLowerCase (JsString.trim text)) mode)
  /\ (forall text : string,
         (forall mode, ~ SpecCommand.commandFor
                         (JsString.toLowerCase (JsString.trim text)) mode) ->
         BypassModeManager.parseModeCommand text = None).
Proof.
  split; [vm_compute; reflexivity|]. split; [vm_compute; reflexivity|].
  split; [vm_compute; reflexivity|]. split; [vm_compute; reflexivity|].
  split; [exact parseModeCommand_case|].
  split; [exact parseModeCommand_iff|].
  intros text H. destruct (BypassModeManager.parseModeCommand text) as [mode|] eqn:E; [|done].
  apply parseModeCommand_iff in E. by apply H in E.
Qed.

Lemma parseModeCommand_recognizes_the_command_phrases_witness :
  JsString.toLowerCase "Auto OFF" = JsString.toLowerCase "auto off"
  /\ BypassModeManager.parseModeCommand "Auto OFF"
     = BypassModeManager.parseModeCommand "auto off".
Proof.
  split; [reflexivity|].
  destruct parseModeCommand_recognizes_the_command_phrases as (_ & _ & _ & _ & H & _).
  exact (H "Auto OFF" "auto off" eq_refl).
Defined.

(** ** Dates: [new Date(d.toISOString())] is [d] *)

Section DateRoundTrip.
Import JsString JsDate.
Local Open Scope Z_scope.

Lemma digitValue_digit (d : Z) : 0 <= d <= 9 -> digitValue (digit d) = Some d.
Proof.
  intros H.
  assert (d = 0 \/ d = 1 \/ d = 2 \/ d = 3 \/ d = 4 \/ d = 5 \/ d = 6 \/ d = 7
          \/ d = 8 \/ d = 9) as Hd by lia.
  repeat (destruct Hd as [->|Hd]; [reflexivity|]). by subst.
Qed.

Lemma digit_not_sign (d : Z) :
  0 <= d <= 9 -> digit d <> "+"%char /\ digit d <> "-"%char.
Proof.
  intros H.
  assert (d = 0 \/ d = 1 \/ d = 2 \/ d = 3 \/ d = 4 \/ d = 5 \/ d = 6 \/ d = 7
          \/ d = 8 \/ d = 9) as Hd by lia.
  repeat (destruct Hd as [->|Hd]; [split; discriminate|]). subst. split; discriminate.
Qed.

Lemma number_app (l1 l2 : list ascii) (acc : Z) :
  number acc (l1 ++ l2)
  = match number acc l1 with Some v => number v l2 | None => None end.
Proof.
  revert acc. induction l1 as [|c l1 IH]; intros acc; simpl; [done|].
  destruct (digitValue c); [apply IH|done].
Qed.

Lemma length_pad (n : nat) (k : Z) : List.length (pad n k) = n.
Proof.
  revert k. induction n as [|n IH]; intros k; simpl; [done|].
  rewrite length_app, IH. simpl. lia.
Qed.

Lemma number_pad (n : nat) (k acc : Z) :
  0 <= k < 10 ^ Z.of_nat n ->
  number acc (pad n k) = Some (acc * 10 ^ Z.of_nat n + k).
Proof.
  revert k acc. induction n as [|n IH]; intros k acc Hk.
  - simpl in *. f_equal. lia.
  - rewrite Nat2Z.inj_succ, Z.pow_succ_r in * by lia.
    simpl. rewrite number_app, IH by (split; [apply Z.div_pos; lia|apply Z.div_lt_upper_bound; lia]).
    simpl. rewrite digitValue_digit
      by (pose proof (Z.mod_pos_bound k 10 ltac:(lia)); lia).
    f_equal. pose proof (Z.div_mod k 10 ltac:(lia)). lia.
Qed.

Lemma firstn_pad (n : nat) (k : Z) (rest : list ascii) :
  firstn n (pad n k ++ rest) = pad n k.
Proof.
  rewrite <- (length_pad n k) at 1. induction (pad n k) as [|c l IH]; simpl; [|by rewrite IH].
  by destruct rest.
Qed.

Lemma skipn_pad (n : nat) (k : Z) (rest : list ascii) :
  skipn n (pad n k ++ rest) = rest.
Proof.
  rewrite <- (length_pad n k) at 1. induction (pad n k) as [|c l IH]; simpl; done.
Qed.

Lemma field_pad (n : nat) (sepc : ascii) (k : Z) (rest : list ascii) :
  0 <= k < 10 ^ Z.of_nat n ->
  field n sepc (pad n k ++ sepc :: rest) = Some (k, rest).
Proof.
  intros Hk. unfold field.
  rewrite firstn_pad, skipn_pad, number_pad by done.
  rewrite length_pad, Nat.eqb_refl.
  destruct (ascii_dec sepc sepc); [|done]. simpl. do 2 f_equal.
Qed.

Lemma yearField_yearText (y : Z) (rest : list ascii) :
  -999999 <= y <= 999999 ->
  yearField (yearText y ++ "-"%char :: rest) = Some (y, rest).
Proof.
  intros Hy. unfold yearText.
  destruct ((0 <=? y) && (y <=? 9999)) eqn:E.
  - apply andb_true_iff in E as [E1 E2]. apply Z.leb_le in E1, E2.
    pose proof (field_pad 4 "-"%char y rest ltac:(simpl; lia)) as F.
    assert (pad 4 y = digit (y / 10 / 10 / 10 mod 10)
                        :: [digit (y / 10 / 10 mod 10); digit (y / 10 mod 10);
                            digit (y mod 10)]) as Hp by reflexivity.
    rewrite Hp in *. clear Hp.
    assert (0 <= y / 10 / 10 / 10 mod 10 <= 9) as Hd
        by (pose proof (Z.mod_pos_bound (y / 10 / 10 / 10) 10 ltac:(lia)); lia).
    destruct (digit_not_sign _ Hd) as [N1 N2].
    cbn [yearField app] in *.
    destruct (ascii_dec (digit (y / 10 / 10 / 10 mod 10)) "+"); [done|].
    destruct (ascii_dec (digit (y / 10 / 10 / 10 mod 10)) "-"); [done|].
    exact F.
  - destruct (y <? 0) eqn:Hneg.
    + apply Z.ltb_lt in Hneg. cbn [yearField app].
      rewrite field_pad by (simpl; lia). f_equal. f_equal. lia.
    + apply Z.ltb_ge in Hneg. cbn [yearField app].
      by rewrite field_pad by (simpl; lia).
Qed.

(** Within a 400-year era: the year of the era and the day of that
    year. *)
Lemma yoe_bounds (doe : Z) :
  0 <= doe < 146097 ->
  let yoe := (doe - doe / 1460 + doe / 36524 - doe / 146096) / 365 in
  0 <= yoe <= 399 /\ 0 <= doe - (365 * yoe + yoe / 4 - yoe / 100) <= 365.
Proof. intros H. cbv zeta. Z.div_mod_to_equations; lia. Qed.

(** Day of the year (from 1 March) to month and day, and back. *)
Lemma doy_round_trip (doy : Z) :
  0 <= doy <= 365 ->
  let mp := (5 * doy + 2) / 153 in
  let d := doy - (153 * mp + 2) / 5 + 1 in
  let m := if mp <? 10 then mp + 3 else mp - 9 in
  1 <= m <= 12 /\ 1 <= d <= 31
  /\ (153 * (if 2 <? m then m - 3 else m + 9) + 2) / 5 + d - 1 = doy.
Proof.
  intros H. cbv zeta.
  assert (0 <= (5 * doy + 2) / 153 <= 11) as Hmp by (Z.div_mod_to_equations; lia).
  destruct ((5 * doy + 2) / 153 <? 10) eqn:E.
  - apply Z.ltb_lt in E.
    replace (2 <? (5 * doy + 2) / 153 + 3) with true by (symmetry; apply Z.ltb_lt; lia).
    replace ((5 * doy + 2) / 153 + 3 - 3) with ((5 * doy + 2) / 153) by lia.
    Z.div_mod_to_equations; lia.
  - apply Z.ltb_ge in E.
    replace (2 <? (5 * doy + 2) / 153 - 9) with false by (symmetry; apply Z.ltb_ge; lia).
    replace ((5 * doy + 2) / 153 - 9 + 9) with ((5 * doy + 2) / 153) by lia.
    Z.div_mod_to_equations; lia.
Qed.

Lemma civilOfDoe_ok (doe : Z) :
  0 <= doe < 146097 ->
  let '(yoe, m, d) := civilOfDoe doe in
  0 <= yoe <= 399 /\ 1 <= m <= 12 /\ 1 <= d <= 31 /\ doeOfCivil yoe m d = doe.
Proof.
  intros H. unfold civilOfDoe, doeOfCivil.
  pose proof (yoe_bounds doe H) as [Hy Hdoy]. cbv zeta in Hy, Hdoy.
  set (yoe := (doe - doe / 1460 + doe / 36524 - doe / 146096) / 365) in *.
  set (doy := doe - (365 * yoe + yoe / 4 - yoe / 100)) in *.
  pose proof (doy_round_trip doy Hdoy) as (Hm & Hd & Hback). cbv zeta in Hm, Hd, Hback.
  repeat split; try lia.
Qed.

Lemma civil_round_trip (z : Z) :
  let '(y, m, d) := civilFromDays z in
  daysFromCivil y m d = z /\ 1 <= m <= 12 /\ 1 <= d <= 31
  /\ (z + 719468) / 146097 * 400 <= y <= (z + 719468) / 146097 * 400 + 400.
Proof.
  unfold civilFromDays.
  pose proof (Z.mod_pos_bound (z + 719468) 146097 ltac:(lia)) as Hdoe.
  pose proof (civilOfDoe_ok _ Hdoe) as Hok.
  destruct (civilOfDoe ((z + 719468) mod 146097)) as [[yoe m] d].
  destruct Hok as (Hyoe & Hm & Hd & Hback).
  set (era := (z + 719468) / 146097) in *.
  set (adj := if m <=? 2 then 1 else 0).
  assert (0 <= adj <= 1) by (subst adj; destruct (m <=? 2); lia).
  repeat split; try lia.
  unfold daysFromCivil. fold adj.
  replace (yoe + era * 400 + adj - adj) with (yoe + era * 400) by lia.
  rewrite Z.div_add, Z.mod_add by lia.
  rewrite Z.div_small, Z.mod_small by lia.
  rewrite Hback. pose proof (Z.div_mod (z + 719468) 146097 ltac:(lia)). lia.
Qed.

Lemma pow10_2 : 10 ^ Z.of_nat 2 = 100. Proof. reflexivity. Qed.
Lemma pow10_3 : 10 ^ Z.of_nat 3 = 1000. Proof. reflexivity. Qed.

(** Reading what [toISOString] wrote gives the time value back. *)
Lemma parse_iso (t : Z) : inRange t -> parseChars (isoChars t) = Time t.
Proof.
  intros Ht. unfold inRange in Ht. unfold isoChars, parseChars, msPerDay.
  pose proof (civil_round_trip (t / 86400000)) as Hc.
  destruct (civilFromDays (t / 86400000)) as [[y m] d].
  destruct Hc as (Hback & Hm & Hd & Hy).
  pose proof (Z.mod_pos_bound t 86400000 ltac:(lia)) as Hr.
  set (r := t mod 86400000) in *.
  assert (-999999 <= y <= 999999) as Hy'.
  { assert (-100000000 <= t / 86400000 <= 100000000) as Hdays.
    { split; [apply Z.div_le_lower_bound; lia|apply Z.div_le_upper_bound; lia]. }
    assert (-700 <= (t / 86400000 + 719468) / 146097 <= 700).
    { split; [apply Z.div_le_lower_bound; lia|apply Z.div_le_upper_bound; lia]. }
    lia. }
  rewrite yearField_yearText by done.
  assert (0 <= r / 3600000 < 24)
    by (split; [apply Z.div_pos; lia|apply Z.div_lt_upper_bound; lia]).
  pose proof (Z.mod_pos_bound (r / 60000) 60 ltac:(lia)).
  pose proof (Z.mod_pos_bound (r / 1000) 60 ltac:(lia)).
  pose proof (Z.mod_pos_bound r 1000 ltac:(lia)).
  rewrite field_pad by (rewrite pow10_2; lia).
  rewrite field_pad by (rewrite pow10_2; lia).
  rewrite field_pad by (rewrite pow10_2; lia).
  rewrite field_pad by (rewrite pow10_2; lia).
  rewrite field_pad by (rewrite pow10_2; lia).
  rewrite field_pad by (rewrite pow10_3; lia).
  replace ((1 <=? m) && (m <=? 12) && (1 <=? d) && (d <=? 31)
           && (r / 3600000 <=? 24) && ((r / 60000) mod 60 <=? 59)
           && ((r / 1000) mod 60 <=? 59)) with true.
  2:{ symmetry. repeat (apply andb_true_iff; split); apply Z.leb_le; lia. }
  f_equal. rewrite Hback.
  pose proof (Z.div_mod t 86400000 ltac:(lia)) as E. fold r in E.
  assert (r / 3600000 * 3600000 + (r / 60000) mod 60 * 60000
          + (r / 1000) mod 60 * 1000 + r mod 1000 = r) as Hsum.
  { clear -Hr. Z.div_mod_to_equations. lia. }
  lia.
Qed.

Lemma parse_toISOString (d : Date) :
  validDate d ->
  exists iso, toISOString d = Normal iso /\ parse iso = d.
Proof.
  destruct d as [t|]; [|done]. intros Ht. eexists. split; [reflexivity|].
  unfold parse. rewrite chars_str. by rewrite parse_iso.
Qed.

End DateRoundTrip.

(** ** Backups *)

Section MapFolds.
Context {V : Type}.

(** Filling a map entry by entry, as the [for ... set] loops do. *)
Lemma fold_insert_lookup (l : list (string * V)) (acc : gmap string V) (k : string) :
  NoDup (l.*1) ->
  fold_left (fun a (e : string * V) => <[e.1 := e.2]> a) l acc !! k
  = match (list_to_map l : gmap string V) !! k with
    | Some v => Some v
    | None => acc !! k
    end.
Proof.
  revert acc. induction l as [|[k0 v0] l IH]; intros acc Hnd; simpl.
  - by rewrite lookup_empty.
  - apply NoDup_cons in Hnd as [Hk0 Hnd]. rewrite IH by done.
    destruct (decide (k0 = k)) as [->|Hne].
    + rewrite (not_elem_of_list_to_map_1 _ _ Hk0).
      by rewrite !lookup_insert_eq.
    + rewrite (lookup_insert_ne (list_to_map l)) by done.
      destruct (list_to_map l !! k); [done|]. by rewrite lookup_insert_ne.
Qed.

Lemma fold_insert_entries (m : gmap string V) :
  fold_left (fun a (e : string * V) => <[e.1 := e.2]> a) (map_to_list m) ∅ = m.
Proof.
  apply map_eq. intros k.
  rewrite fold_insert_lookup by apply NoDup_fst_map_to_list.
  rewrite list_to_map_to_list, lookup_empty. by destruct (m !! k).
Qed.

(** Emptying a map file by file, as the pruning loop does. *)
Lemma fold_delete_lookup (l : list string) (m : gmap string V) (k : string) :
  fold_left (fun a f => delete f a) l m !! k
  = if decide (k ∈ l) then None else m !! k.
Proof.
  revert m. induction l as [|f l IH]; intros m; simpl.
  - destruct (decide (k ∈ [])) as [H|]; [|done]. by apply elem_of_nil in H.
  - rewrite IH. destruct (decide (k ∈ l)) as [Hin|Hnin].
    + destruct (decide (k ∈ f :: l)) as [|Hn]; [done|].
      exfalso. apply Hn. by right.
    + destruct (decide (f = k)) as [->|Hne].
      * rewrite lookup_delete_eq. destruct (decide (k ∈ k :: l)) as [|Hn]; [done|].
        exfalso. apply Hn. by left.
      * rewrite lookup_delete_ne by done.
        destruct (decide (k ∈ f :: l)) as [Hin|]; [|done].
        apply elem_of_cons in Hin as [->|]; done.
Qed.

End MapFolds.

Section Sorting.
Import SessionBackupManager.

Lemma insertSorted_perm (x : string) (l : list string) :
  Permutation (insertSorted x l) (x :: l).
Proof.
  induction l as [|y l IH]; simpl; [done|].
  destruct (String.leb x y); [done|].
  rewrite IH. apply perm_swap.
Qed.

Lemma sort_perm (l : list string) : Permutation (sort l) l.
Proof.
  induction l as [|x l IH]; simpl; [done|].
  rewrite insertSorted_perm. by constructor.
Qed.

Lemma sort_In (l : list string) (x : string) : In x (sort l) <-> In x l.
Proof.
  rewrite <- !list_elem_of_In. by rewrite sort_perm.
Qed.

End Sorting.

Section RoundTrip.
Import JsString SessionBackupManager.

Lemma deserialize_serialize (k : string) (session : ConversationSession) :
  JsDate.validDate (lastActivity session) ->
  exists s, serialize k session = Normal s /\ key s = k /\ deserialize s = session.
Proof.
  intros Hv. destruct (parse_toISOString _ Hv) as (iso & Hiso & Hparse).
  unfold serialize. rewrite Hiso. eexists. split; [reflexivity|]. split; [done|].
  unfold deserialize. simpl. rewrite Hparse. by destruct session.
Qed.

Lemma serializeAll_restores (l : list (string * ConversationSession)) :
  (forall k s, In (k, s) l -> JsDate.validDate (lastActivity s)) ->
  exists ss, serializeAll l = Normal ss
             /\ forall acc : gmap string ConversationSession,
                 fold_left (fun a s => <[key s := deserialize s]> a) ss acc
                 = fold_left (fun a (e : string * ConversationSession) =>
                                <[e.1 := e.2]> a) l acc.
Proof.
  induction l as [|[k s] l IH]; intros Hv.
  - exists []. by split.
  - destruct (deserialize_serialize k s) as (x & Hx & Hk & Hd);
      [apply (Hv k s); by left|].
    destruct IH as (ss & Hss & Hfold); [intros k' s' Hin; apply (Hv k' s'); by right|].
    exists (x :: ss). simpl. rewrite Hx, Hss. split; [done|].
    intros acc. simpl. by rewrite Hfold, Hk, Hd.
Qed.

Lemma timestampedFile_dated (now : Z) : isTimestamped (timestampedFile now) = true.
Proof.
  unfold isTimestamped, timestampedFile, startsWith, endsWith.
  rewrite !chars_append. apply andb_true_iff. split.
  - apply prefixChars_app.
  - rewrite app_assoc, rev_app_distr. apply prefixChars_app.
Qed.

Lemma timestampedFile_not_main (now : Z) :
  timestampedFile now <> backupFile /\ timestampedFile now <> tempFile.
Proof.
  pose proof (timestampedFile_dated now) as H.
  split; intros E; rewrite E in H; discriminate H.
Qed.

Lemma cleanupOldBackups_lookup (keepCount : nat) (fs : gmap string BackupFile) (f : string) :
  cleanupOldBackups keepCount fs !! f = fs !! f \/ cleanupOldBackups keepCount fs !! f = None.
Proof.
  unfold cleanupOldBackups. destruct (_ <? _)%nat; [|by left].
  rewrite fold_delete_lookup. destruct (decide _); auto.
Qed.

(** Pruning only touches dated copies. *)
Lemma cleanupOldBackups_other (keepCount : nat) (fs : gmap string BackupFile) (f : string) :
  isTimestamped f = false -> cleanupOldBackups keepCount fs !! f = fs !! f.
Proof.
  intros Hf. unfold cleanupOldBackups. destruct (_ <? _)%nat; [|done].
  rewrite fold_delete_lookup. destruct (decide _) as [Hin|]; [|done].
  exfalso. apply (subseteq_drop keepCount), list_elem_of_In, in_rev in Hin.
  apply (proj1 (sort_In _ _)), filter_In in Hin as [_ Hd]. congruence.
Qed.

Lemma createTimestampedBackup_other (now : Z) (backup : SessionBackup)
      (fs : gmap string BackupFile) (f : string) :
  isTimestamped f = false -> createTimestampedBackup now backup fs !! f = fs !! f.
Proof.
  intros Hf. unfold createTimestampedBackup.
  destruct (fs !! timestampedFile now); [done|].
  rewrite cleanupOldBackups_other by done.
  apply lookup_insert_ne. intros E. rewrite <- E in Hf.
  by rewrite timestampedFile_dated in Hf.
Qed.

End RoundTrip.



(** ** Dated copies and their pruning *)

Section StringOrder.

Lemma leb_iff (a b : string) :
  String.leb a b = true <-> a = b \/ OrderedTypeEx.String_as_OT.lt a b.
Proof.
  unfold String.leb.
  pose proof (OrderedTypeEx.String_as_OT.cmp_eq a b) as He.
  pose proof (OrderedTypeEx.String_as_OT.cmp_lt a b) as Hl.
  pose proof (OrderedTypeEx.String_as_OT.cmp_lt b a) as Hg.
  pose proof (OrderedTypeEx.String_as_OT.cmp_antisym b a) as Ha.
  unfold OrderedTypeEx.String_as_OT.cmp in *.
  destruct (String.compare a b) eqn:E.
  - split; [|done]. intros _. left. by apply He.
  - split; [|done]. intros _. right. by apply Hl.
  - split; [discriminate|]. intros [->|Hlt].
    + assert (String.compare b b = Eq) as E' by (by apply OrderedTypeEx.String_as_OT.cmp_eq).
      congruence.
    + apply Hl in Hlt. congruence.
Qed.

Lemma leb_trans (a b c : string) :
  String.leb a b = true -> String.leb b c = true -> String.leb a c = true.
Proof.
  rewrite !leb_iff. intros [->|H1] [->|H2]; auto.
  right. by apply (OrderedTypeEx.String_as_OT.lt_trans a b c).
Qed.

Lemma leb_false_flip (a b : string) : String.leb a b = false -> String.leb b a = true.
Proof. destruct (String.leb_total a b) as [H|H]; congruence. Qed.

Lemma leb_ne_ltb (a b : string) : String.leb a b = true -> a <> b -> String.ltb a b = true.
Proof.
  unfold String.leb, String.ltb. intros H Hne.
  destruct (String.compare a b) eqn:E; try done.
  apply String.compare_eq_iff in E. contradiction.
Qed.

End StringOrder.

Section Pruning.
Import JsString SessionBackupManager SpecBackup.

Lemma insertSorted_ascending (x : string) (l : list string) :
  ascending l -> ascending (insertSorted x l).
Proof.
  unfold ascending. induction 1 as [|y l Hl IH Hy]; simpl.
  - repeat constructor.
  - destruct (String.leb x y) eqn:E.
    + constructor; [by constructor|]. constructor; [done|].
      apply Forall_forall. intros z Hz. apply (leb_trans x y z); [done|].
      by apply (proj1 (Forall_forall _ _) Hy).
    + constructor; [done|].
      apply Forall_forall. intros z Hz.
      apply list_elem_of_In, (Permutation_in _ (insertSorted_perm x l)) in Hz.
      destruct Hz as [<-|Hz]; [by apply leb_false_flip|].
      by apply (proj1 (Forall_forall _ _) Hy), list_elem_of_In.
Qed.

Lemma sort_ascending (l : list string) : ascending (sort l).
Proof.
  induction l as [|x l IH]; simpl; [constructor|]. by apply insertSorted_ascending.
Qed.

Lemma ascending_split (l1 l2 : list string) (a b : string) :
  ascending (l1 ++ l2) -> In a l1 -> In b l2 -> String.leb a b = true.
Proof.
  unfold ascending. induction l1 as [|x l1 IH]; simpl; [done|].
  intros H Ha Hb. apply StronglySorted_inv in H as [H Hx].
  destruct Ha as [<-|Ha]; [|by apply IH].
  apply (proj1 (Forall_forall _ _) Hx), list_elem_of_In, in_or_app. by right.
Qed.

Lemma datedCopies_In (fs : gmap string BackupFile) (g : string) :
  In g (datedCopies fs) <-> isTimestamped g = true /\ is_Some (fs !! g).
Proof.
  unfold datedCopies, readdir. rewrite filter_In, in_map_iff. split.
  - intros [([g' x] & <- & Hin) Hd]. split; [done|].
    apply list_elem_of_In, elem_of_map_to_list in Hin. simpl. by rewrite Hin.
  - intros [Hd [x Hx]]. split; [|done]. exists (g, x). split; [done|].
    by apply list_elem_of_In, elem_of_map_to_list.
Qed.

Lemma datedCopies_NoDup (fs : gmap string BackupFile) : List.NoDup (datedCopies fs).
Proof.
  unfold datedCopies, readdir. apply List.NoDup_filter, NoDup_ListNoDup.
  apply (NoDup_fst_map_to_list fs).
Qed.

Lemma datedCopies_length_le (fs1 fs2 : gmap string BackupFile) :
  (forall g, isTimestamped g = true -> is_Some (fs1 !! g) -> is_Some (fs2 !! g)) ->
  (List.length (datedCopies fs1) <= List.length (datedCopies fs2))%nat.
Proof.
  intros H. apply NoDup_incl_length; [apply datedCopies_NoDup|].
  intros g Hg. apply datedCopies_In in Hg as [Hd Hs]. apply datedCopies_In. auto.
Qed.

Lemma newestFirst_In (fs : gmap string BackupFile) (g : string) :
  In g (newestFirst fs) <-> isTimestamped g = true /\ is_Some (fs !! g).
Proof.
  unfold newestFirst. rewrite <- in_rev, sort_In. apply datedCopies_In.
Qed.

Lemma newestFirst_NoDup (fs : gmap string BackupFile) : NoDup (newestFirst fs).
Proof.
  unfold newestFirst. apply NoDup_ListNoDup, List.NoDup_rev.
  apply (Permutation.Permutation_NoDup (Permutation_sym (sort_perm _))).
  apply datedCopies_NoDup.
Qed.

Lemma newestFirst_order (fs : gmap string BackupFile) (n : nat) (g h : string) :
  In h (firstn n (newestFirst fs)) -> In g (skipn n (newestFirst fs)) ->
  String.ltb g h = true.
Proof.
  intros Hh Hg.
  pose proof (newestFirst_NoDup fs) as Hnd.
  rewrite <- (firstn_skipn n (newestFirst fs)) in Hnd.
  apply leb_ne_ltb.
  - apply (ascending_split (rev (skipn n (newestFirst fs)))
                           (rev (firstn n (newestFirst fs)))).
    + rewrite <- rev_app_distr, firstn_skipn. unfold newestFirst.
      rewrite rev_involutive. apply sort_ascending.
    + by apply in_rev in Hg.
    + by apply in_rev in Hh.
  - intros ->. apply NoDup_app in Hnd as (_ & Hdisj & _).
    apply (Hdisj h); by apply list_elem_of_In.
Qed.

(** What pruning leaves of each file. *)
Lemma cleanupOldBackups_spec (keepCount : nat) (fs : gmap string BackupFile) (g : string) :
  cleanupOldBackups keepCount fs !! g
  = if decide (g ∈ skipn keepCount (newestFirst fs)) then None else fs !! g.
Proof.
  unfold cleanupOldBackups. fold (datedCopies fs). fold (newestFirst fs).
  destruct (keepCount <? List.length (newestFirst fs))%nat eqn:E.
  - apply fold_delete_lookup.
  - apply Nat.ltb_ge in E. rewrite skipn_all2 by done.
    destruct (decide (g ∈ [])) as [H|]; [|done]. by apply elem_of_nil in H.
Qed.

Lemma cleanupOldBackups_bound (keepCount : nat) (fs : gmap string BackupFile) :
  (List.length (datedCopies (cleanupOldBackups keepCount fs)) <= keepCount)%nat.
Proof.
  transitivity (List.length (firstn keepCount (newestFirst fs))).
  - apply NoDup_incl_length; [apply datedCopies_NoDup|].
    intros g Hg. apply datedCopies_In in Hg as [Hd Hs].
    rewrite cleanupOldBackups_spec in Hs.
    destruct (decide _) as [|Hn]; [by destruct Hs|].
    assert (In g (newestFirst fs)) as Hin by (by apply newestFirst_In).
    rewrite <- (firstn_skipn keepCount (newestFirst fs)) in Hin.
    apply in_app_or in Hin as [|Hin]; [done|].
    exfalso. by apply Hn, list_elem_of_In.
  - rewrite length_firstn. lia.
Qed.

Lemma renamed_dated (backup : SessionBackup) (fs : gmap string BackupFile) (g : string) :
  isTimestamped g = true -> renamed backup fs !! g = fs !! g.
Proof.
  intros Hg. unfold renamed.
  assert (g <> backupFile) by (intros ->; discriminate Hg).
  assert (g <> tempFile) by (intros ->; discriminate Hg).
  by rewrite lookup_insert_ne, lookup_delete_ne, lookup_insert_ne.
Qed.

(** A save, on the dated copies: nothing when the sessions cannot be
    serialized or the minute's copy exists; else the copy is added and
    the directory pruned. *)
Lemma saveAt_dated (t : Tick) (fs : gmap string BackupFile) :
  ((forall ss, serializeAll (map_to_list (tick_sessions t)) <> Normal ss)
   \/ is_Some (fs !! copyOf t))
  /\ (forall g, isTimestamped g = true -> saveAt t fs !! g = fs !! g)
  \/ exists ss backup,
      serializeAll (map_to_list (tick_sessions t)) = Normal ss
      /\ b_sessions backup = ss /\ workingDirectories backup = tick_workingDirs t
      /\ fs !! copyOf t = None
      /\ saveAt t fs
         = cleanupOldBackups 48 (<[copyOf t := Snapshot backup]> (renamed backup fs)).
Proof.
  unfold saveAt, saveBackup.
  destruct (serializeAll _) as [ss|] eqn:Hss; [|left; split; [by left|done]].
  set (backup := {| b_sessions := ss |}).
  fold (renamed backup fs). unfold createTimestampedBackup. fold (copyOf t).
  pose proof (renamed_dated backup fs (copyOf t) (timestampedFile_dated _)) as Hf.
  destruct (renamed backup fs !! copyOf t) eqn:E.
  - left. split; [right; by rewrite <- Hf|]. intros g Hg. by apply renamed_dated.
  - right. exists ss, backup. rewrite <- Hf. by repeat split.
Qed.

Lemma saveAt_retention (t : Tick) (fs : gmap string BackupFile) :
  (List.length (datedCopies (saveAt t fs))
   <= Nat.max 48 (List.length (datedCopies fs)))%nat.
Proof.
  destruct (saveAt_dated t fs) as [[_ Hsame]|(ss & backup & _ & _ & _ & _ & ->)].
  - transitivity (List.length (datedCopies fs)); [|lia].
    apply datedCopies_length_le. intros g Hg Hs. by rewrite <- Hsame.
  - pose proof (cleanupOldBackups_bound 48
                  (<[copyOf t := Snapshot backup]> (renamed backup fs))). lia.
Qed.

Lemma startPeriodicBackup_retention (startup : Tick) (ticks : list Tick)
      (fs : gmap string BackupFile) :
  (List.length (datedCopies fs) <= 48)%nat ->
  (List.length (datedCopies (startPeriodicBackup startup ticks fs)) <= 48)%nat.
Proof.
  intros H. unfold startPeriodicBackup.
  assert (List.length (datedCopies (saveAt startup fs)) <= 48)%nat as H0
      by (pose proof (saveAt_retention startup fs); lia).
  revert H0. generalize (saveAt startup fs).
  induction ticks as [|t ticks IH]; intros acc Hacc; simpl; [done|].
  apply IH. pose proof (saveAt_retention t acc). lia.
Qed.

Lemma saveAt_prunes_oldest (t : Tick) (fs : gmap string BackupFile) (g h : string) :
  isTimestamped g = true -> is_Some (fs !! g) -> saveAt t fs !! g = None ->
  isTimestamped h = true -> is_Some (saveAt t fs !! h) ->
  String.ltb g h = true.
Proof.
  intros Hg [x Hx] Hgone Hh Hkept.
  destruct (saveAt_dated t fs) as [[_ Hsame]|(ss & backup & _ & _ & _ & Hnone & E)].
  - rewrite Hsame in Hgone by done. congruence.
  - rewrite E in Hgone, Hkept. rewrite cleanupOldBackups_spec in Hgone, Hkept.
    set (X := <[copyOf t := Snapshot backup]> (renamed backup fs)) in *.
    destruct (decide (g ∈ _)) as [Hgin|_].
    2:{ assert (copyOf t <> g) by (intros Heq; rewrite Heq in Hnone; congruence).
        unfold X in Hgone. rewrite lookup_insert_ne, renamed_dated in Hgone by done.
        congruence. }
    destruct (decide (h ∈ _)) as [|Hhn]; [by destruct Hkept|].
    apply (newestFirst_order X 48).
    + assert (In h (newestFirst X)) as Hin by (by apply newestFirst_In).
      rewrite <- (firstn_skipn 48 (newestFirst X)) in Hin.
      apply in_app_or in Hin as [|Hin]; [done|]. exfalso. by apply Hhn, list_elem_of_In.
    + by apply list_elem_of_In.
Qed.

(** What pruning keeps: the first [keepCount] names, newest first. *)
Lemma cleanupOldBackups_kept (keepCount : nat) (fs : gmap string BackupFile) (g : string) :
  In g (datedCopies (cleanupOldBackups keepCount fs))
  <-> In g (firstn keepCount (newestFirst fs)).
Proof.
  rewrite datedCopies_In, cleanupOldBackups_spec.
  pose proof (newestFirst_NoDup fs) as Hnd.
  rewrite <- (firstn_skipn keepCount (newestFirst fs)) in Hnd.
  apply NoDup_app in Hnd as (_ & Hdisj & _).
  split.
  - intros [Hd Hs]. destruct (decide _) as [|Hn]; [by destruct Hs|].
    assert (In g (newestFirst fs)) as Hin by (by apply newestFirst_In).
    rewrite <- (firstn_skipn keepCount (newestFirst fs)) in Hin.
    apply in_app_or in Hin as [|Hin]; [done|].
    exfalso. by apply Hn, list_elem_of_In.
  - intros Hin.
    assert (In g (newestFirst fs)) as Hall.
    { rewrite <- (firstn_skipn keepCount (newestFirst fs)). apply in_or_app. by left. }
    apply newestFirst_In in Hall as [Hd Hs]. split; [done|].
    destruct (decide _) as [Hsk|]; [|done].
    exfalso. apply (Hdisj g); [by apply list_elem_of_In|done].
Qed.

Lemma cleanupOldBackups_count (keepCount : nat) (fs : gmap string BackupFile) :
  List.length (datedCopies (cleanupOldBackups keepCount fs))
  = Nat.min keepCount (List.length (datedCopies fs)).
Proof.
  transitivity (List.length (firstn keepCount (newestFirst fs))).
  - apply Permutation_length, NoDup_Permutation.
    + apply NoDup_ListNoDup, datedCopies_NoDup.
    + apply (sublist_NoDup _ (newestFirst fs)); [apply newestFirst_NoDup|].
      apply sublist_take.
    + intros g. rewrite !list_elem_of_In. apply cleanupOldBackups_kept.
  - rewrite length_firstn. unfold newestFirst.
    by rewrite length_rev, (Permutation_length (sort_perm _)).
Qed.

(** The dated copies once the copy of a new minute is written. *)
Lemma written_copy_count (t : Tick) (backup : SessionBackup) (fs : gmap string BackupFile) :
  fs !! copyOf t = None ->
  List.length (datedCopies (<[copyOf t := Snapshot backup]> (renamed backup fs)))
  = S (List.length (datedCopies fs)).
Proof.
  intros Hnone.
  change (S (List.length (datedCopies fs)))
    with (List.length (copyOf t :: datedCopies fs)).
  apply Permutation_length, NoDup_Permutation.
  - apply NoDup_ListNoDup, datedCopies_NoDup.
  - apply NoDup_cons. split; [|apply NoDup_ListNoDup, datedCopies_NoDup].
    rewrite list_elem_of_In, datedCopies_In, Hnone. by intros [_ [x Hx]].
  - intros g. rewrite !list_elem_of_In. cbn [In]. rewrite !datedCopies_In.
    destruct (decide (copyOf t = g)) as [<-|Hne].
    + rewrite lookup_insert_eq. split; [by left|]. intros _.
      split; [apply timestampedFile_dated|eauto].
    + rewrite lookup_insert_ne by done. split.
      * intros [Hd Hs]. right. by rewrite renamed_dated in Hs.
      * intros [|[Hd Hs]]; [done|]. by rewrite renamed_dated.
Qed.

(** A save that writes the copy of its minute: how many dated copies
    there are afterwards, what they hold, and which ones are gone. *)
Lemma saveAt_writes_and_prunes (t : Tick) (fs : gmap string BackupFile)
      (ss : list SerializedSession) :
  serializeAll (map_to_list (tick_sessions t)) = Normal ss ->
  fs !! copyOf t = None ->
  exists backup,
    b_sessions backup = ss
    /\ workingDirectories backup = tick_workingDirs t
    /\ List.length (datedCopies (saveAt t fs))
       = Nat.min 48 (S (List.length (datedCopies fs)))
    /\ (forall g c, isTimestamped g = true -> saveAt t fs !! g = Some c ->
                    (g = copyOf t /\ c = Snapshot backup)
                    \/ (g <> copyOf t /\ fs !! g = Some c))
    /\ (forall g h, isTimestamped g = true -> g = copyOf t \/ is_Some (fs !! g) ->
                    saveAt t fs !! g = None ->
                    isTimestamped h = true -> is_Some (saveAt t fs !! h) ->
                    String.ltb g h = true).
Proof.
  intros Hss Hnone.
  destruct (saveAt_dated t fs) as [[[Hthrow|Hsome] _]|(ss' & backup & Hss' & Hb & Hw & _ & E)].
  - by destruct (Hthrow ss).
  - rewrite Hnone in Hsome. by destruct Hsome.
  - exists backup. rewrite Hss in Hss'. injection Hss' as <-.
    set (X := <[copyOf t := Snapshot backup]> (renamed backup fs)) in *.
    split; [done|]. split; [done|]. rewrite E. split; [|split].
    + rewrite cleanupOldBackups_count. unfold X. by rewrite written_copy_count.
    + intros g c Hg. rewrite cleanupOldBackups_spec.
      destruct (decide _); [done|]. unfold X.
      destruct (decide (copyOf t = g)) as [<-|Hne].
      * rewrite lookup_insert_eq. intros [= <-]. by left.
      * rewrite lookup_insert_ne, renamed_dated by done. intros Hc. by right.
    + intros g h Hg Hcand Hgone Hh Hkept.
      rewrite cleanupOldBackups_spec in Hgone, Hkept.
      assert (is_Some (X !! g)) as [x Hx].
      { unfold X. destruct (decide (copyOf t = g)) as [<-|Hne].
        - rewrite lookup_insert_eq. eauto.
        - rewrite lookup_insert_ne, renamed_dated by done.
          destruct Hcand as [->|Hs]; [done|exact Hs]. }
      destruct (decide (g ∈ _)) as [Hgin|_]; [|congruence].
      destruct (decide (h ∈ _)) as [|Hhn]; [by destruct Hkept|].
      apply (newestFirst_order X 48).
      * assert (In h (newestFirst X)) as Hin by (by apply newestFirst_In).
        rewrite <- (firstn_skipn 48 (newestFirst X)) in Hin.
        apply in_app_or in Hin as [|Hin]; [done|]. exfalso. by apply Hhn, list_elem_of_In.
      * by apply list_elem_of_In.
Qed.

(** A save in a minute that has its copy leaves the dated copies as
    they are. *)
Lemma saveAt_same_minute (t : Tick) (fs : gmap string BackupFile) (g : string) :
  is_Some (fs !! copyOf t) -> isTimestamped g = true -> saveAt t fs !! g = fs !! g.
Proof.
  intros [old Hold] Hg.
  destruct (saveAt_dated t fs) as [[_ Hsame]|(ss & backup & _ & _ & _ & Hnone & E)].
  - by apply Hsame.
  - congruence.
Qed.

End Pruning.

(** C7, as stated, fails: the save [startPeriodicBackup] makes at once,
    before any periodic tick, already writes a dated copy. *)
Lemma startup_save_writes_a_dated_copy :
  exists backup,
    SessionBackupManager.startPeriodicBackup Scenario.startup [] ∅
      !! "sessions-2024-11-03T08-00.json" = Some (Snapshot backup).
Proof. eexists. vm_compute. reflexivity. Qed.

(** C7, amended.  [startPeriodicBackup] saves at once and then at each
    periodic tick, and every one of these saves, the immediate one
    included, treats the dated copies alike.  A save whose sessions
    serialize and whose minute has no copy yet writes the copy named
    after that minute and prunes, oldest name first, down to 48:
    afterwards there are as many dated copies as before and one more,
    but 48 at most; each of them is the new copy or a copy that was
    there, unchanged; and every copy that is gone, be it the new one,
    has a smaller name, that is an older date, than every copy kept.
    A save whose minute has its copy leaves the dated copies as they
    are.  So from a directory with at most 48 dated copies, at most 48
    are retained. *)
Theorem periodic_backup_dated_copies :
  (forall startup fs,
      SessionBackupManager.startPeriodicBackup startup [] fs
      = SessionBackupManager.saveAt startup fs)
  /\ (forall startup ticks t fs,
         SessionBackupManager.startPeriodicBackup startup (ticks ++ [t]) fs
         = SessionBackupManager.saveAt t
             (SessionBackupManager.startPeriodicBackup startup ticks fs))
  /\ (forall t fs ss,
         SessionBackupManager.serializeAll
           (map_to_list (SessionBackupManager.tick_sessions t)) = Normal ss ->
         fs !! SpecBackup.copyOf t = None ->
         exists backup,
           b_sessions backup = ss
           /\ workingDirectories backup = SessionBackupManager.tick_workingDirs t
           /\ List.length (SpecBackup.datedCopies (SessionBackupManager.saveAt t fs))
              = Nat.min 48 (S (List.length (SpecBackup.datedCopies fs)))
           /\ (forall g c,
                  SessionBackupManager.isTimestamped g = true ->
                  SessionBackupManager.saveAt t fs !! g = Some c ->
                  (g = SpecBackup.copyOf t /\ c = Snapshot backup)
                  \/ (g <> SpecBackup.copyOf t /\ fs !! g = Some c))
           /\ (forall g h,
                  SessionBackupManager.isTimestamped g = true ->
                  g = SpecBackup.copyOf t \/ is_Some (fs !! g) ->
                  SessionBackupManager.saveAt t fs !! g = None ->
                  SessionBackupManager.isTimestamped h = true ->
                  is_Some (SessionBackupManager.saveAt t fs !! h) ->
                  String.ltb g h = true))
  /\ (forall t fs g,
         is_Some (fs !! SpecBackup.copyOf t) ->
         SessionBackupManager.isTimestamped g = true ->
         SessionBackupManager.saveAt t fs !! g = fs !! g)
  /\ (forall startup ticks fs,
         (List.length (SpecBackup.datedCopies fs) <= 48)%nat ->
         (List.length (SpecBackup.datedCopies
                         (SessionBackupManager.startPeriodicBackup startup ticks fs))
          <= 48)%nat).
Proof.
  split; [done|].
  split; [intros; unfold SessionBackupManager.startPeriodicBackup;
          by rewrite fold_left_app|].
  split; [exact saveAt_writes_and_prunes|].
  split; [intros t fs g; apply saveAt_same_minute|].
  exact startPeriodicBackup_retention.
Qed.

Lemma periodic_backup_dated_copies_witness :
  Scenario.fullDirectory !! SpecBackup.copyOf Scenario.startup = None
  /\ List.length (SpecBackup.datedCopies Scenario.fullDirectory) = 48%nat
  /\ List.length (SpecBackup.datedCopies
                    (SessionBackupManager.saveAt Scenario.startup Scenario.fullDirectory))
     = Nat.min 48 (S (List.length (SpecBackup.datedCopies Scenario.fullDirectory)))
  /\ is_Some (SessionBackupManager.saveAt Scenario.startup Scenario.fullDirectory
                !! SpecBackup.copyOf Scenario.startup).
Proof.
  assert (Scenario.fullDirectory !! SpecBackup.copyOf Scenario.startup = None) as H
      by (vm_compute; reflexivity).
  split; [exact H|]. split; [vm_compute; reflexivity|].
  split; [|vm_compute; eauto].
  destruct (SessionBackupManager.serializeAll
              (map_to_list (SessionBackupManager.tick_sessions Scenario.startup)))
    as [ss|e] eqn:Hss; [|vm_compute in Hss; discriminate Hss].
  destruct (proj1 (proj2 (proj2 periodic_backup_dated_copies))
                  Scenario.startup Scenario.fullDirectory ss Hss H)
    as (backup & _ & _ & Hcount & _).
  exact Hcount.
Defined.

(** ** The mode store: scopes and their keys *)

Section ModeStore.
Import JsString BypassModeManager.

Lemma getKey_thread (channelId : string) (threadTs userId : option string) :
  truthy threadTs = true ->
  getKey channelId threadTs userId = channelId +:+ "-" +:+ default "" threadTs.
Proof. intros H. unfold getKey. by rewrite H. Qed.

Lemma getKey_channel (channelId : string) (threadTs userId : option string) :
  truthy threadTs = false ->
  getKey channelId threadTs userId = getKey channelId None userId.
Proof. intros H. unfold getKey. by rewrite H. Qed.

Lemma append_ne_self (a b : string) : b <> "" -> a +:+ b <> a.
Proof.
  intros Hb Heq. apply Hb.
  assert (a +:+ "" = a) as Hnil.
  { clear. induction a as [|c a IH]; [done|].
    change (String c (a +:+ "") = String c a). by f_equal. }
  apply (String.app_inj a). by rewrite Heq, Hnil.
Qed.

Lemma truthy_Some (s : string) : truthy (Some s) = true <-> s <> "".
Proof.
  simpl. destruct (String.eqb_spec s ""); simpl; split; congruence.
Qed.

(** The key of a thread differs from both keys a channel can have,
    unless the thread is named like the user. *)
Lemma thread_key_ne_channel_key (channelId t : string) (userId : option string) :
  t <> "" -> userId <> Some t ->
  channelId +:+ "-" +:+ t <> getKey channelId None userId.
Proof.
  intros Ht Hu. unfold getKey. simpl.
  destruct (truthy userId && startsWith channelId "D").
  - destruct userId as [u|]; simpl.
    + intros Heq. apply Hu. f_equal.
      apply (String.app_inj "-"), (String.app_inj channelId). by rewrite Heq.
    + intros Heq. apply Ht.
      apply (String.app_inj "-"), (String.app_inj channelId). by rewrite Heq.
  - apply append_ne_self. discriminate.
Qed.

End ModeStore.

(** X1. The mode just set for a scope is the mode read for that scope,
    whatever the scope: a thread, a direct message or a channel, with
    an empty thread id counting as no thread. *)
Theorem setMode_then_getMode
        (modes : gmap string BypassModeManager.PermissionMode)
        (channelId : string) (mode : BypassModeManager.PermissionMode)
        (threadTs userId : option string) :
  BypassModeManager.getMode
    (BypassModeManager.setMode modes channelId mode threadTs userId)
    channelId threadTs userId = mode.
Proof.
  unfold BypassModeManager.getMode, BypassModeManager.setMode.
  destruct (JsString.truthy threadTs) eqn:Ht.
  - rewrite !(getKey_thread _ threadTs) by done.
    by rewrite lookup_insert_eq.
  - rewrite (getKey_channel _ threadTs) by done.
    by rewrite lookup_insert_eq.
Qed.

(** X2. Setting the mode of a thread is local to the thread: the
    channel itself and its other threads read the mode they read
    before, provided the thread is not named like the user of the
    reading scope. *)
Theorem setMode_of_a_thread_is_local
        (modes : gmap string BypassModeManager.PermissionMode)
        (channelId t : string) (mode : BypassModeManager.PermissionMode)
        (setter threadTs userId : option string) :
  t <> "" -> threadTs <> Some t -> userId <> Some t ->
  BypassModeManager.getMode
    (BypassModeManager.setMode modes channelId mode (Some t) setter)
    channelId threadTs userId
  = BypassModeManager.getMode modes channelId threadTs userId.
Proof.
  intros Ht Hth Hu.
  unfold BypassModeManager.getMode, BypassModeManager.setMode.
  rewrite (getKey_thread _ (Some t)) by by apply truthy_Some.
  simpl default.
  rewrite (lookup_insert_ne _ _ (BypassModeManager.getKey channelId None userId))
    by by apply thread_key_ne_channel_key.
  destruct (JsString.truthy threadTs) eqn:Htt; [|done].
  rewrite (getKey_thread _ threadTs) by done.
  rewrite lookup_insert_ne; [done|].
  intros Heq. apply Hth.
  destruct threadTs as [t'|]; [|done]. f_equal. simpl in Heq.
  symmetry. apply (String.app_inj "-"), (String.app_inj channelId). by rewrite Heq.
Qed.

Lemma setMode_of_a_thread_is_local_witness :
  "1700000000.000001" <> ""
  /\ (None : option string) <> Some "1700000000.000001"
  /\ Some "U0456" <> Some "1700000000.000001"
  /\ BypassModeManager.getMode
       (BypassModeManager.setMode {[ "D0123-U0456" := BypassModeManager.Auto ]}
          "D0123" BypassModeManager.Bypass (Some "1700000000.000001") (Some "U0456"))
       "D0123" None (Some "U0456")
     = BypassModeManager.getMode {[ "D0123-U0456" := BypassModeManager.Auto ]}
         "D0123" None (Some "U0456").
Proof.
  split; [discriminate|]. split; [discriminate|]. split; [discriminate|].
  apply (setMode_of_a_thread_is_local
           {[ "D0123-U0456" := BypassModeManager.Auto ]} "D0123" "1700000000.000001"
           BypassModeManager.Bypass (Some "U0456") None (Some "U0456"));
    discriminate.
Defined.

(** X3. A thread without a setting of its own follows its channel: once
    the mode of the channel (or of the direct message) is set, every
    such thread reads that mode. *)
Theorem thread_inherits_the_channel_mode
        (modes : gmap string BypassModeManager.PermissionMode)
        (channelId t : string) (mode : BypassModeManager.PermissionMode)
        (userId : option string) :
  modes !! BypassModeManager.getKey channelId (Some t) None = None ->
  BypassModeManager.getMode
    (BypassModeManager.setMode modes channelId mode None userId)
    channelId (Some t) userId = mode.
Proof.
  intros Hnone.
  unfold BypassModeManager.getMode, BypassModeManager.setMode.
  rewrite lookup_insert_eq. simpl default.
  destruct (JsString.truthy (Some t)) eqn:Ht; [|done].
  destruct (decide (BypassModeManager.getKey channelId None userId
                    = BypassModeManager.getKey channelId (Some t) None)) as [Heq|Hne].
  - by rewrite Heq, lookup_insert_eq.
  - rewrite lookup_insert_ne by done. by rewrite Hnone.
Qed.

Lemma thread_inherits_the_channel_mode_witness :
  (∅ : gmap string BypassModeManager.PermissionMode)
    !! BypassModeManager.getKey "C0123" (Some "1700000000.000001") None = None
  /\ BypassModeManager.getMode
       (BypassModeManager.setMode ∅ "C0123" BypassModeManager.Auto None None)
       "C0123" (Some "1700000000.000001") None = BypassModeManager.Auto.
Proof.
  split; [reflexivity|].
  apply (thread_inherits_the_channel_mode ∅ "C0123" "1700000000.000001"
           BypassModeManager.Auto None).
  reflexivity.
Defined.

(** ** The mode store: restoring the settings *)

Section Settings.
Import BypassModeManager.

Lemma restore_fold_lookup (l : list (string * Setting))
      (acc : gmap string PermissionMode) (k : string) :
  NoDup (l.*1) ->
  fold_left (fun a (entry : string * Setting) =>
               match entry.2 with
               | LegacyFlag value => <[entry.1 := if value then Bypass else Approval]> a
               | ModeSetting value => <[entry.1 := value]> a
               end) l acc !! k
  = match (list_to_map l : gmap string Setting) !! k with
    | Some s => Some (modeOf s)
    | None => acc !! k
    end.
Proof.
  revert acc. induction l as [|[k' s] l IH]; intros acc Hnd; simpl; [done|].
  apply NoDup_cons in Hnd as [Hk' Hnd]. rewrite IH by done.
  destruct (list_to_map l !! k) as [s'|] eqn:Hl.
  - destruct (decide (k' = k)) as [->|Hne].
    + exfalso. apply Hk'. apply list_elem_of_fmap. exists (k, s'). split; [done|].
      by apply elem_of_list_to_map.
    + by rewrite lookup_insert_ne, Hl.
  - destruct (decide (k' = k)) as [->|Hne].
    + rewrite lookup_insert_eq. destruct s; by rewrite lookup_insert_eq.
    + rewrite lookup_insert_ne by done. rewrite Hl.
      destruct s; by rewrite lookup_insert_ne.
Qed.

Lemma restoreSettings_lookup (modes : gmap string PermissionMode)
      (settings : gmap string Setting) (k : string) :
  restoreSettings modes settings !! k
  = match settings !! k with
    | Some s => Some (modeOf s)
    | None => modes !! k
    end.
Proof.
  unfold restoreSettings.
  rewrite restore_fold_lookup by apply NoDup_fst_map_to_list.
  by rewrite list_to_map_to_list.
Qed.

End Settings.

(** X4. Restoring settings overrides the store key by key: a restored
    key reads the restored mode, a legacy boolean counting as bypass
    when true and approval when false; every other key keeps its mode.
    In particular the copy [getAllSettings] makes restores to the store
    it was taken from. *)
Theorem restoreSettings_overrides_key_by_key
        (modes : gmap string BypassModeManager.PermissionMode)
        (settings : gmap string BypassModeManager.Setting) :
  (forall k,
      BypassModeManager.restoreSettings modes settings !! k
      = match settings !! k with
        | Some s => Some (modeOf s)
        | None => modes !! k
        end)
  /\ BypassModeManager.restoreSettings ∅
       (BypassModeManager.ModeSetting <$> BypassModeManager.getAllSettings modes)
     = modes.
Proof.
  split; [apply restoreSettings_lookup|].
  apply map_eq; intros k. rewrite restoreSettings_lookup, lookup_fmap.
  unfold BypassModeManager.getAllSettings. by destruct (modes !! k).
Qed.

(** X5. A backup of the boolean store restores to a mode store that
    answers [isBypassMode] for every scope as the boolean store did. *)
Theorem restored_flags_answer_as_before
        (flags : gmap string bool) (channelId : string) (threadTs userId : option string) :
  BypassModeManager.isBypassMode
    (BypassModeManager.restoreSettings ∅
       (BypassModeManager.LegacyFlag <$> BypassModeManagerLegacy.getAllSettings flags))
    channelId threadTs userId
  = BypassModeManagerLegacy.isBypassMode flags channelId threadTs userId.
Proof.
  unfold BypassModeManager.isBypassMode, BypassModeManager.getMode,
    BypassModeManagerLegacy.isBypassMode, BypassModeManagerLegacy.getAllSettings.
  rewrite !restoreSettings_lookup, !lookup_fmap.
  change BypassModeManagerLegacy.getKey with BypassModeManager.getKey.
  destruct (JsString.truthy threadTs);
    repeat match goal with
           | |- context [flags !! ?k] => destruct (flags !! k) as [[|]|]; simpl
           end; done.
Qed.

(** ** Status queries and the legacy command parser *)

Section StatusQueries.
Import JsString Regex SpecCommand.

Lemma status_patterns_read :
  re "^(mode|bypass|approval|auto)(\s+status)?(\?)?$" = statusPattern statusWords
  /\ re BypassModeManagerLegacy.bypassStatus = statusPattern1 "bypass"
  /\ re BypassModeManagerLegacy.approvalStatus = statusPattern1 "approval".
Proof. repeat split; vm_compute; reflexivity. Qed.

Lemma canon_question (c : ascii) : canonChar "?" = canonChar c -> c = "?"%char.
Proof.
  intros H.
  assert (forall x, (if ascii_dec (canonChar "?") (canonChar x)
                     then ascii_eqb x "?" else true) = true) as Hall.
  { apply forall_ascii. by vm_compute. }
  specialize (Hall c). destruct (ascii_dec _ _); [|done].
  by apply ascii_eqb_eq.
Qed.

Lemma sameUpToCase_refl (l : list ascii) : sameUpToCase l l.
Proof. induction l; constructor; auto. Qed.

(** What the tail of a status pattern matches, up to case. *)
Lemma lang_statusTail_iff b m a :
  lang true statusTail b m a
  <-> a = []
      /\ exists mid q,
        m = (mid ++ q)%list
        /\ (mid = []
            \/ exists ws s, mid = (ws ++ s)%list /\ ws <> []
                            /\ Forall (fun c => isWhiteSpace c = true) ws
                            /\ sameUpToCase (chars "status") s)
        /\ (q = [] \/ q = ["?"%char]).
Proof.
  unfold statusTail. split.
  - intros H.
    apply lang_seq_inv in H as (mid & m' & -> & Hmid & H).
    apply lang_seq_inv in H as (q & m'' & -> & Hq & H).
    apply lang_seq_inv in H as (e1 & e2 & -> & He1 & He2).
    apply lang_eol_inv in He1 as [-> He1]. apply lang_eps_inv in He2 as ->.
    simpl in He1. subst a. split; [done|].
    exists mid, q. rewrite !app_nil_r. split; [done|]. split.
    + apply lang_alt_inv in Hmid as [Hmid|Hmid].
      * right. apply lang_seq_inv in Hmid as (ws & s & -> & Hws & Hs).
        apply lang_plus_space_iff in Hws as [Hne Hws].
        apply lang_word_iff in Hs. by exists ws, s.
      * left. by apply lang_eps_inv in Hmid.
    + apply lang_alt_inv in Hq as [Hq|Hq].
      * right. apply lang_seq_inv in Hq as (c1 & e & -> & Hc & He).
        apply lang_eps_inv in He as ->.
        apply lang_chr_iff in Hc as (c & -> & Hc).
        apply canon_question in Hc. by subst.
      * left. by apply lang_eps_inv in Hq.
  - intros (-> & mid & q & -> & Hmid & Hq).
    apply L_seq.
    + destruct Hmid as [->|(ws & s & -> & Hne & Hws & Hs)].
      * apply L_alt_r. constructor.
      * apply L_alt_l. apply L_seq; [by apply lang_plus_space_iff|].
        by apply lang_word_iff.
    + rewrite <- (app_nil_r q). apply L_seq.
      * destruct Hq as [-> | ->].
        -- apply L_alt_r. constructor.
        -- apply L_alt_l. apply (L_seq true (Chr "?") Eps _ ["?"%char] [] []).
           ++ apply lang_chr_iff. by exists "?"%char.
           ++ constructor.
      * apply (L_seq true Eol Eps _ [] [] []); constructor.
Qed.

Lemma statusPhrase_of (k mid q s : list ascii) (word : string) (t : string) :
  lowered t -> lowered word ->
  chars t = (k ++ mid ++ q)%list -> sameUpToCase (chars word) k ->
  (mid = []
   \/ exists ws s, mid = (ws ++ s)%list /\ ws <> []
                   /\ Forall (fun c => isWhiteSpace c = true) ws
                   /\ sameUpToCase (chars "status") s) ->
  (q = [] \/ q = ["?"%char]) ->
  statusPhrase word t.
Proof.
  intros Ht Hw Hc Hk Hmid Hq. unfold lowered in Ht. rewrite Hc in Ht.
  apply Forall_app in Ht as [Htk Ht]. apply Forall_app in Ht as [Htm _].
  apply sameUpToCase_lowered in Hk; [|done..]. subst k.
  exists mid, q. split; [done|]. split; [|done].
  destruct Hmid as [->|(ws & s' & -> & Hne & Hws & Hs)]; [by left|right].
  apply Forall_app in Htm as [_ Hts].
  apply sameUpToCase_lowered in Hs; [|repeat constructor|done].
  subst s'. by exists ws.
Qed.

Lemma lang_of_statusPhrase (word : string) (t : string) :
  statusPhrase word t ->
  exists mid q, chars t = (chars word ++ mid ++ q)%list
                /\ lang true statusTail (chars word) (mid ++ q) [].
Proof.
  intros (mid & q & Hc & Hmid & Hq). exists mid, q. split; [done|].
  apply lang_statusTail_iff. split; [done|]. exists mid, q. split; [done|].
  split; [|done].
  destruct Hmid as [->|(ws & Hne & Hws & ->)]; [by left|right].
  exists ws, (chars "status"). repeat split; try done. apply sameUpToCase_refl.
Qed.

(** On a lower-case text, the status pattern of several words matches
    exactly the status phrases of its words. *)
Lemma statusPattern_phrase (words : list string) (t : string) :
  Forall lowered words -> lowered t ->
  test true (statusPattern words) t = true
  <-> exists word, In word words /\ statusPhrase word t.
Proof.
  intros Hw Ht. rewrite test_iff. unfold statusPattern. split.
  - intros (b & m & a & Hc & H).
    apply lang_seq_inv in H as (m0 & m' & -> & H0 & H).
    apply lang_bol_inv in H0 as [-> ->]. simpl in *.
    apply lang_seq_inv in H as (k & tail & -> & Hk & H).
    apply lang_alts_iff in Hk as (word & Hin & Hk).
    apply lang_statusTail_iff in H as (-> & mid & q & -> & Hmid & Hq).
    rewrite app_nil_r in Hc.
    exists word. split; [done|].
    eapply statusPhrase_of; try done.
    by apply (proj1 (Forall_forall _ _) Hw), list_elem_of_In.
  - intros (word & Hin & Hp).
    apply lang_of_statusPhrase in Hp as (mid & q & Hc & Hl).
    exists [], (chars word ++ mid ++ q)%list, []. rewrite app_nil_r. split; [done|].
    apply (L_seq true Bol _ [] [] _ []); [constructor|]. simpl.
    apply L_seq; [|done].
    apply lang_alts_iff. exists word. split; [done|apply sameUpToCase_refl].
Qed.

(** The same for the status pattern of one word. *)
Lemma statusPattern1_phrase (word : string) (t : string) :
  lowered word -> lowered t ->
  test true (statusPattern1 word) t = true <-> statusPhrase word t.
Proof.
  intros Hw Ht. rewrite test_iff. unfold statusPattern1. split.
  - intros (b & m & a & Hc & H).
    apply lang_seq_inv in H as (m0 & m' & -> & H0 & H).
    apply lang_bol_inv in H0 as [-> ->]. simpl in *.
    apply lang_litSeq_iff in H as (k & tail & -> & Hk & H).
    apply lang_statusTail_iff in H as (-> & mid & q & -> & Hmid & Hq).
    rewrite app_nil_r in Hc.
    by eapply statusPhrase_of.
  - intros Hp.
    apply lang_of_statusPhrase in Hp as (mid & q & Hc & Hl).
    exists [], (chars word ++ mid ++ q)%list, []. rewrite app_nil_r. split; [done|].
    apply (L_seq true Bol _ [] [] _ []); [constructor|]. simpl.
    apply lang_litSeq_iff. exists (chars word), (mid ++ q)%list.
    split; [done|]. split; [apply sameUpToCase_refl|done].
Qed.

Lemma statusWords_lowered : Forall lowered statusWords.
Proof. repeat constructor. Qed.

End StatusQueries.

Section CommandsAndQueries.
Import JsString SpecCommand BypassModeManager.

Lemma command_is_no_status (kw : string) (args : list string) (word t : string) :
  In kw keywords -> In word statusWords ->
  (forall w, In w args -> In w onWords \/ In w offWords) ->
  phrase kw args t -> statusPhrase word t -> False.
Proof.
  intros Hkw Hword Hargs (ws & arg & Hin & Hne & Hws & E1) (mid & q & E2 & Hmid & Hq).
  rewrite E1 in E2. clear E1.
  assert (startsBlack (chars arg)) as Barg.
  { destruct (Hargs arg Hin) as [H|H];
      [apply (proj1 (Forall_forall _ _) (proj1 words_black))
      |apply (proj1 (Forall_forall _ _) (proj2 words_black))];
      by apply list_elem_of_In. }
  destruct ws as [|c ws]; [done|]. inversion Hws as [|? ? Hc Hws']; subst.
  assert (kw = word) as <-.
  { simpl in Hkw, Hword.
    destruct Hkw as [<-|[<-|[<-|[]]]]; destruct Hword as [<-|[<-|[<-|[<-|[]]]]];
      try done; simpl in E2; exfalso;
      destruct Hmid as [->|(ws' & _ & _ & ->)]; destruct Hq as [-> | ->];
      simpl in E2; try congruence;
      injection E2 as -> E2; try discriminate Hc;
      repeat (destruct ws' as [|? ws']; simpl in E2; try congruence). }
  apply app_inv_head in E2.
  destruct Hmid as [->|(ws' & Hne' & Hws2 & ->)].
  - destruct Hq as [-> | ->]; [done|].
    simpl in E2. injection E2 as -> _. discriminate Hc.
  - rewrite <- app_assoc in E2.
    apply (white_prefix_unique (c :: ws) ws') in E2; try done.
    assert (arg = str (chars "status" ++ q)) as ->.
    { rewrite <- (str_chars arg). by rewrite E2. }
    destruct (Hargs _ Hin) as [H|H]; destruct Hq as [-> | ->];
      simpl in H; intuition discriminate.
Qed.

Lemma mode_command_is_no_status (text : string) (mode : PermissionMode) :
  parseModeCommand text = Some mode -> isStatusQuery text = false.
Proof.
  intros Hcmd. apply parseModeCommand_iff in Hcmd.
  destruct (isStatusQuery text) eqn:Hq; [exfalso|done].
  unfold isStatusQuery in Hq.
  rewrite (proj1 status_patterns_read) in Hq.
  apply statusPattern_phrase in Hq as (word & Hword & Hst);
    [|apply statusWords_lowered|apply lowered_chars].
  assert (forall w, In w onWords -> In w onWords \/ In w offWords) as Hon by auto.
  assert (forall w, In w offWords -> In w onWords \/ In w offWords) as Hoff by auto.
  destruct mode; simpl in Hcmd.
  - destruct Hcmd as [H|[H|H]];
      eapply (command_is_no_status _ _ word); try exact H; try done; simpl; auto.
  - destruct Hcmd as [H|H];
      eapply (command_is_no_status _ _ word); try exact H; try done; simpl; auto.
  - eapply (command_is_no_status _ _ word); try exact Hcmd; try done; simpl; auto.
Qed.

End CommandsAndQueries.

(** X6. [isStatusQuery] accepts exactly the texts that, trimmed and
    lower-cased, are one of the words mode, bypass, approval and auto,
    optionally followed by white space and the word status, optionally
    followed by a question mark. *)
Theorem isStatusQuery_recognizes_the_status_phrases (text : string) :
  BypassModeManager.isStatusQuery text = true
  <-> exists word, In word statusWords
                   /\ statusPhrase word (JsString.toLowerCase (JsString.trim text)).
Proof.
  unfold BypassModeManager.isStatusQuery.
  rewrite (proj1 status_patterns_read).
  apply statusPattern_phrase; [apply statusWords_lowered|apply lowered_chars].
Qed.

(** X7. No text is both a mode command and a status query: what
    [parseModeCommand] and the legacy [parseBypassCommand] accept,
    [isStatusQuery] rejects, and what [isStatusQuery] accepts is no
    command. *)
Theorem commands_and_status_queries_are_disjoint (text : string) :
  (BypassModeManager.isStatusQuery text = true ->
   BypassModeManager.parseModeCommand text = None
   /\ BypassModeManager.parseBypassCommand text = None)
  /\ (forall mode, BypassModeManager.parseModeCommand text = Some mode ->
                   BypassModeManager.isStatusQuery text = false)
  /\ (forall enable, BypassModeManager.parseBypassCommand text = Some enable ->
                     BypassModeManager.isStatusQuery text = false).
Proof.
  split; [|split].
  - intros Hq. unfold BypassModeManager.parseBypassCommand.
    destruct (BypassModeManager.parseModeCommand text) as [mode|] eqn:Hcmd; [|done].
    apply mode_command_is_no_status in Hcmd. congruence.
  - apply mode_command_is_no_status.
  - intros enable. unfold BypassModeManager.parseBypassCommand.
    destruct (BypassModeManager.parseModeCommand text) as [mode|] eqn:Hcmd; [|done].
    intros _. by apply mode_command_is_no_status in Hcmd.
Qed.

Lemma commands_and_status_queries_are_disjoint_witness :
  BypassModeManager.isStatusQuery "  Bypass status?" = true
  /\ BypassModeManager.parseModeCommand "  Bypass status?" = None
  /\ BypassModeManager.parseBypassCommand "  Bypass status?" = None.
Proof.
  assert (BypassModeManager.isStatusQuery "  Bypass status?" = true) as H
      by (vm_compute; reflexivity).
  split; [exact H|].
  exact (proj1 (commands_and_status_queries_are_disjoint "  Bypass status?") H).
Defined.

Section LegacyCommands.
Import JsString SpecCommand.

Lemma legacy_patterns_read :
  Regex.re BypassModeManagerLegacy.bypassOn = modePattern "bypass" onWords
  /\ Regex.re BypassModeManagerLegacy.bypassOff = modePattern "bypass" offWords
  /\ Regex.re BypassModeManagerLegacy.approvalOn = modePattern "approval" onWords
  /\ Regex.re BypassModeManagerLegacy.approvalOff = modePattern "approval" offWords.
Proof. repeat split; vm_compute; reflexivity. Qed.

(** The boolean manager's parser, by the phrases of the text. *)
Lemma legacy_parseBypassCommand_iff (text : string) (enable : bool) :
  BypassModeManagerLegacy.parseBypassCommand text = Some enable
  <-> commandFor (toLowerCase (trim text))
                 (if enable then BypassModeManager.Bypass else BypassModeManager.Approval)
      /\ ~ autoCommand (toLowerCase (trim text)).
Proof.
  unfold BypassModeManagerLegacy.parseBypassCommand, autoCommand.
  set (t := toLowerCase (trim text)).
  assert (lowered t) as Ht by apply lowered_chars.
  destruct legacy_patterns_read as (-> & -> & -> & ->).
  destruct words_lowered as (Lon & Loff & La & Lb & Lp).
  pose proof (modePattern_phrase "bypass" onWords t Lb Lon Ht) as P3.
  pose proof (modePattern_phrase "bypass" offWords t Lb Loff Ht) as P4.
  pose proof (modePattern_phrase "approval" onWords t Lp Lon Ht) as P5.
  pose proof (modePattern_phrase "approval" offWords t Lp Loff Ht) as P6.
  destruct words_black as [Bon Boff].
  assert (forall k1 k2 a1 a2,
             In k1 keywords -> In k2 keywords ->
             (a1 = onWords \/ a1 = offWords) -> (a2 = onWords \/ a2 = offWords) ->
             phrase k1 a1 t -> phrase k2 a2 t -> k1 = k2 /\ a1 = a2) as Huniq.
  { intros k1 k2 a1 a2 Hk1 Hk2 Ha1 Ha2 H1 H2.
    assert (Forall (fun w => startsBlack (chars w)) a1) as B1 by (by destruct Ha1 as [-> | ->]).
    assert (Forall (fun w => startsBlack (chars w)) a2) as B2 by (by destruct Ha2 as [-> | ->]).
    destruct (phrase_unique k1 k2 a1 a2 t Hk1 Hk2 B1 B2 H1 H2) as [-> (w & Hw1 & Hw2)].
    split; [done|].
    destruct Ha1 as [-> | ->]; destruct Ha2 as [-> | ->]; try done;
      exfalso; eauto using on_off_disjoint. }
  assert (In "auto" keywords /\ In "bypass" keywords /\ In "approval" keywords)
    as (Ka & Kb & Kp) by (simpl; tauto).
  assert (forall k1 k2 a1 a2,
             In k1 keywords -> In k2 keywords ->
             (a1 = onWords \/ a1 = offWords) -> (a2 = onWords \/ a2 = offWords) ->
             phrase k1 a1 t -> phrase k2 a2 t ->
             (k1 <> k2 \/ a1 <> a2) -> False) as Hclash.
  { intros k1 k2 a1 a2 Hk1 Hk2 Ha1 Ha2 H1 H2 Hne.
    destruct (Huniq k1 k2 a1 a2 Hk1 Hk2 Ha1 Ha2 H1 H2) as [-> ->]. tauto. }
  assert (forall k1 k2 a1 a2,
             phrase k1 a1 t -> phrase k2 a2 t ->
             In k1 keywords -> In k2 keywords ->
             (a1 = onWords \/ a1 = offWords) -> (a2 = onWords \/ a2 = offWords) ->
             (k1 <> k2 \/ a1 <> a2) -> False) as Hc by eauto.
  clear Huniq Hclash.
  assert (forall k1 k2 a1 a2,
             phrase k1 a1 t -> phrase k2 a2 t ->
             (In k1 keywords /\ In k2 keywords
              /\ (a1 = onWords \/ a1 = offWords) /\ (a2 = onWords \/ a2 = offWords)
              /\ (k1 <> k2 \/ a1 <> a2)) -> False) as Hx.
  { intros k1 k2 a1 a2 H1 H2 (? & ? & ? & ? & ?). eauto. }
  clear Hc.
  assert (forall k1 k2 : string, forall a1 a2 : list string,
             In k1 keywords -> In k2 keywords ->
             (a1 = onWords \/ a1 = offWords) -> (a2 = onWords \/ a2 = offWords) ->
             (if decide (k1 = k2) then a1 <> a2 else True) ->
             In k1 keywords /\ In k2 keywords
             /\ (a1 = onWords \/ a1 = offWords) /\ (a2 = onWords \/ a2 = offWords)
             /\ (k1 <> k2 \/ a1 <> a2)) as Side.
  { intros k1 k2 a1 a2 ? ? ? ? Hd. repeat split; try done.
    destruct (decide (k1 = k2)); [by right|by left]. }
  assert (forall a, a = onWords \/ a = offWords -> True) as _ by done.
  destruct (Regex.test true (modePattern "bypass" onWords) t) eqn:E3.
  { assert (phrase "bypass" onWords t) as Q by tauto. clear P3 P4 P5 P6. simpl.
    destruct enable; simpl; split; try done.
    - intros _. split; [by left|].
      intros [H|H]; apply (Hx _ _ _ _ Q H); apply Side; auto; by vm_compute.
    - intros [[H|[H|H]] Hna]; exfalso; [apply Hna; by right| |];
        apply (Hx _ _ _ _ Q H); apply Side; auto; by vm_compute. }
  destruct (Regex.test true (modePattern "approval" offWords) t) eqn:E6.
  { assert (phrase "approval" offWords t) as Q by tauto. clear P3 P4 P5 P6. simpl.
    destruct enable; simpl; split; try done.
    - intros _. split; [by right|].
      intros [H|H]; apply (Hx _ _ _ _ Q H); apply Side; auto; by vm_compute.
    - intros [[H|[H|H]] Hna]; exfalso; [apply Hna; by right| |];
        apply (Hx _ _ _ _ Q H); apply Side; auto; by vm_compute. }
  assert (~ phrase "bypass" onWords t) as N3 by (intros H; apply P3 in H; discriminate).
  assert (~ phrase "approval" offWords t) as N6 by (intros H; apply P6 in H; discriminate).
  clear P3 P6. simpl.
  destruct (Regex.test true (modePattern "bypass" offWords) t) eqn:E4.
  { assert (phrase "bypass" offWords t) as Q by tauto. clear P4 P5. simpl.
    destruct enable; simpl; split; try done.
    - intros [[H|H] _]; exfalso; tauto.
    - intros _. split; [tauto|].
      intros [H|H]; apply (Hx _ _ _ _ Q H); apply Side; auto; by vm_compute. }
  destruct (Regex.test true (modePattern "approval" onWords) t) eqn:E5.
  { assert (phrase "approval" onWords t) as Q by tauto. clear P4 P5. simpl.
    destruct enable; simpl; split; try done.
    - intros [[H|H] _]; exfalso; tauto.
    - intros _. split; [tauto|].
      intros [H|H]; apply (Hx _ _ _ _ Q H); apply Side; auto; by vm_compute. }
  assert (~ phrase "bypass" offWords t) as N4 by (intros H; apply P4 in H; discriminate).
  assert (~ phrase "approval" onWords t) as N5 by (intros H; apply P5 in H; discriminate).
  clear P4 P5. simpl.
  assert ((if Regex.test true (Regex.re BypassModeManagerLegacy.bypassStatus) t
              || Regex.test true (Regex.re BypassModeManagerLegacy.approvalStatus) t
           then None else None) = (None : option bool)) as -> by (by destruct (_ || _)).
  split; [discriminate|].
  destruct enable; simpl; tauto.
Qed.

End LegacyCommands.

Section Compatibility.
Import JsString SpecCommand.

Lemma autoCommand_dec (t : string) : lowered t -> autoCommand t \/ ~ autoCommand t.
Proof.
  intros Ht. unfold autoCommand.
  destruct words_lowered as (Lon & Loff & La & _ & _).
  pose proof (modePattern_phrase "auto" onWords t La Lon Ht) as P1.
  pose proof (modePattern_phrase "auto" offWords t La Loff Ht) as P2.
  destruct (Regex.test true (modePattern "auto" onWords) t); [left; tauto|].
  destruct (Regex.test true (modePattern "auto" offWords) t); [left; tauto|].
  right. intros [H|H]; [apply P1 in H|apply P2 in H]; discriminate.
Qed.

Lemma legacy_command_is_a_command (text : string) (enable : bool) :
  BypassModeManagerLegacy.parseBypassCommand text = Some enable ->
  BypassModeManager.parseBypassCommand text = Some enable.
Proof.
  intros H. apply legacy_parseBypassCommand_iff in H as [H _].
  apply parseModeCommand_iff in H.
  unfold BypassModeManager.parseBypassCommand. rewrite H. by destruct enable.
Qed.

Lemma command_is_legacy_or_auto (text : string) (enable : bool) :
  BypassModeManager.parseBypassCommand text = Some enable ->
  BypassModeManagerLegacy.parseBypassCommand text = Some enable
  \/ (enable = false /\ autoCommand (toLowerCase (trim text))).
Proof.
  unfold BypassModeManager.parseBypassCommand.
  destruct (BypassModeManager.parseModeCommand text) as [mode|] eqn:Hm; [|done].
  intros [= <-].
  destruct (autoCommand_dec (toLowerCase (trim text))) as [Ha|Hna];
    [apply lowered_chars| |].
  - right. split; [|done].
    destruct Ha as [Ha|Ha].
    + assert (BypassModeManager.parseModeCommand text = Some BypassModeManager.Auto) as Hm'
          by (by apply parseModeCommand_iff).
      rewrite Hm in Hm'. by injection Hm' as ->.
    + assert (BypassModeManager.parseModeCommand text = Some BypassModeManager.Approval) as Hm'
          by (apply parseModeCommand_iff; by left).
      rewrite Hm in Hm'. by injection Hm' as ->.
  - left. apply parseModeCommand_iff in Hm.
    apply legacy_parseBypassCommand_iff. split; [|done].
    destruct mode; simpl; try done.
    exfalso. apply Hna. by left.
Qed.

Lemma legacy_status_is_a_status (text : string) :
  BypassModeManagerLegacy.isStatusQuery text = true ->
  BypassModeManager.isStatusQuery text = true.
Proof.
  unfold BypassModeManagerLegacy.isStatusQuery, BypassModeManager.isStatusQuery.
  destruct status_patterns_read as (-> & -> & ->).
  intros H. apply statusPattern_phrase; [apply statusWords_lowered|apply lowered_chars|].
  apply orb_true_iff in H as [H|H];
    apply statusPattern1_phrase in H; try apply lowered_chars; try (repeat constructor).
  - exists "bypass". split; [simpl; tauto|done].
  - exists "approval". split; [simpl; tauto|done].
Qed.

End Compatibility.

(** X8. The mode manager reads the texts of the boolean manager as the
    boolean manager did: a text the boolean [parseBypassCommand] takes
    for a command gets the same answer from the legacy method of the
    mode manager, the only further commands of the latter are the
    [auto] commands, which answer [enable: false], and every status
    query of the boolean manager is still a status query. *)
Theorem legacy_commands_keep_their_meaning (text : string) :
  (forall enable,
      BypassModeManagerLegacy.parseBypassCommand text = Some enable ->
      BypassModeManager.parseBypassCommand text = Some enable)
  /\ (forall enable,
         BypassModeManager.parseBypassCommand text = Some enable ->
         BypassModeManagerLegacy.parseBypassCommand text = Some enable
         \/ (enable = false
             /\ autoCommand (JsString.toLowerCase (JsString.trim text))))
  /\ (BypassModeManagerLegacy.isStatusQuery text = true ->
      BypassModeManager.isStatusQuery text = true).
Proof.
  split; [|split].
  - apply legacy_command_is_a_command.
  - apply command_is_legacy_or_auto.
  - apply legacy_status_is_a_status.
Qed.

Lemma legacy_commands_keep_their_meaning_witness :
  BypassModeManagerLegacy.parseBypassCommand "Approval  OFF" = Some true
  /\ BypassModeManager.parseBypassCommand "Approval  OFF" = Some true.
Proof.
  assert (BypassModeManagerLegacy.parseBypassCommand "Approval  OFF" = Some true) as H
      by (vm_compute; reflexivity).
  split; [exact H|].
  exact (proj1 (legacy_commands_keep_their_meaning "Approval  OFF") true H).
Defined.

(** ** The session table: keys and scopes *)

Section SessionKeys.
Import JsString ClaudeHandler.

Lemma pivot_unique (x : ascii) (l1 l2 r1 r2 : list ascii) :
  ~ In x l1 -> ~ In x l2 ->
  (l1 ++ x :: r1 = l2 ++ x :: r2)%list -> l1 = l2 /\ r1 = r2.
Proof.
  revert l2. induction l1 as [|a l1 IH]; intros l2 H1 H2 E.
  - destruct l2 as [|b l2]; simpl in E.
    + by injection E.
    + injection E as -> _. exfalso. apply H2. by left.
  - destruct l2 as [|b l2]; simpl in E.
    + injection E as -> _. exfalso. apply H1. by left.
    + injection E as -> E.
      destruct (IH l2) as [-> ->]; try done.
      * intros H. apply H1. by right.
      * intros H. apply H2. by right.
Qed.

Lemma chars_inj (a b : string) : chars a = chars b -> a = b.
Proof. intros H. by rewrite <- (str_chars a), <- (str_chars b), H. Qed.

Lemma hyphen_split (a a' r r' : string) :
  hyphenFree a -> hyphenFree a' ->
  a +:+ "-" +:+ r = a' +:+ "-" +:+ r' -> a = a' /\ r = r'.
Proof.
  intros Ha Ha' E. apply (f_equal chars) in E.
  rewrite !chars_append in E. simpl in E.
  apply pivot_unique in E as [E1 E2]; [|done..].
  split; by apply chars_inj.
Qed.

Lemma getSessionKey_inj (u c u' c' : string) (t t' : option string) :
  hyphenFree u -> hyphenFree c -> hyphenFree u' -> hyphenFree c' ->
  getSessionKey u c t = getSessionKey u' c' t' -> scopeOf u c t = scopeOf u' c' t'.
Proof.
  intros Hu Hc Hu' Hc' E. unfold getSessionKey in E.
  apply hyphen_split in E as [-> E]; [|done..].
  apply hyphen_split in E as [-> E]; [|done..].
  unfold scopeOf. by rewrite E.
Qed.

Lemma getSessionKey_scope (u c : string) (t t' : option string) :
  orElse t "direct" = orElse t' "direct" -> getSessionKey u c t = getSessionKey u c t'.
Proof. intros E. unfold getSessionKey. by rewrite E. Qed.

End SessionKeys.

(** X9. Session keys tell scopes apart: for user and channel ids
    without a hyphen, two scopes have the same session key exactly when
    they have the same user, the same channel and the same thread (a
    missing or empty thread id standing for [direct]). *)
Theorem session_keys_tell_scopes_apart
        (u c u' c' : string) (t t' : option string) :
  hyphenFree u -> hyphenFree c -> hyphenFree u' -> hyphenFree c' ->
  (ClaudeHandler.getSessionKey u c t = ClaudeHandler.getSessionKey u' c' t'
   <-> scopeOf u c t = scopeOf u' c' t').
Proof.
  intros Hu Hc Hu' Hc'. split.
  - by apply getSessionKey_inj.
  - unfold scopeOf. intros [= -> -> E]. by apply getSessionKey_scope.
Qed.

Lemma session_keys_tell_scopes_apart_witness :
  hyphenFree "U0456" /\ hyphenFree "C0123" /\ hyphenFree "U0456" /\ hyphenFree "C0999"
  /\ (ClaudeHandler.getSessionKey "U0456" "C0123" None
      = ClaudeHandler.getSessionKey "U0456" "C0999" (Some "")
      <-> scopeOf "U0456" "C0123" None = scopeOf "U0456" "C0999" (Some "")).
Proof.
  assert (hyphenFree "U0456") as H1 by (vm_compute; intuition discriminate).
  assert (hyphenFree "C0123") as H2 by (vm_compute; intuition discriminate).
  assert (hyphenFree "C0999") as H3 by (vm_compute; intuition discriminate).
  split; [exact H1|]. split; [exact H2|]. split; [exact H1|]. split; [exact H3|].
  exact (session_keys_tell_scopes_apart "U0456" "C0123" "U0456" "C0999" None (Some "")
           H1 H2 H1 H3).
Defined.

(** X10. Attaching an external session sets the session id of its own
    scope, where [getSessionId] then reads it back; creating a session
    for a scope forgets the id the scope had; and, for ids without a
    hyphen, neither changes what [getSessionId] reads for any other
    scope. *)
Theorem attach_and_create_touch_one_scope
        (sessions : gmap string ConversationSession) (now : Z)
        (u c : string) (t : option string) (external : string) :
  ClaudeHandler.getSessionId
    (ClaudeHandler.attachExternalSession sessions now u c t external).2 u c t
  = Some external
  /\ ClaudeHandler.getSessionId (ClaudeHandler.createSession sessions now u c t).2 u c t
     = None
  /\ (forall u' c' t',
         hyphenFree u -> hyphenFree c -> hyphenFree u' -> hyphenFree c' ->
         scopeOf u' c' t' <> scopeOf u c t ->
         ClaudeHandler.getSessionId
           (ClaudeHandler.attachExternalSession sessions now u c t external).2 u' c' t'
         = ClaudeHandler.getSessionId sessions u' c' t'
         /\ ClaudeHandler.getSessionId
              (ClaudeHandler.createSession sessions now u c t).2 u' c' t'
            = ClaudeHandler.getSessionId sessions u' c' t').
Proof.
  unfold ClaudeHandler.getSessionId, ClaudeHandler.getSession,
    ClaudeHandler.attachExternalSession, ClaudeHandler.createSession. simpl.
  rewrite !lookup_insert_eq. split; [done|]. split; [done|].
  intros u' c' t' Hu Hc Hu' Hc' Hne.
  assert (ClaudeHandler.getSessionKey u c t <> ClaudeHandler.getSessionKey u' c' t') as Hk.
  { intros E. apply Hne. symmetry. by apply getSessionKey_inj. }
  by rewrite !lookup_insert_ne.
Qed.

Lemma attach_and_create_touch_one_scope_witness :
  hyphenFree "U0456" /\ hyphenFree "C0123" /\ hyphenFree "U0789"
  /\ scopeOf "U0789" "C0123" None <> scopeOf "U0456" "C0123" None
  /\ ClaudeHandler.getSessionId
       (ClaudeHandler.attachExternalSession Scenario.sessions 0 "U0456" "C0123" None
          "9d1c77aa").2 "U0789" "C0123" None
     = ClaudeHandler.getSessionId Scenario.sessions "U0789" "C0123" None.
Proof.
  assert (hyphenFree "U0456") as H1 by (vm_compute; intuition discriminate).
  assert (hyphenFree "C0123") as H2 by (vm_compute; intuition discriminate).
  assert (hyphenFree "U0789") as H3 by (vm_compute; intuition discriminate).
  assert (scopeOf "U0789" "C0123" None <> scopeOf "U0456" "C0123" None) as H4
      by discriminate.
  split; [exact H1|]. split; [exact H2|]. split; [exact H3|]. split; [exact H4|].
  exact (proj1 (proj2 (proj2 (attach_and_create_touch_one_scope
                                Scenario.sessions 0 "U0456" "C0123" None "9d1c77aa"))
                      "U0789" "C0123" None H1 H2 H3 H2 H4)).
Defined.

(** ** The session table: sweeping *)

(** X11. Sweeps compose.  When the two clocks, the last activities
    and the ages at either clock are below 2^53 in absolute value, a
    sweep at one time followed by a sweep at another, with the same
    maximal age, whatever Number it is, leaves the table a single
    sweep at the later of the two times leaves.  In particular a sweep
    repeated at the same time changes nothing more. *)
Theorem cleanupInactiveSessions_composes
        (sessions : gmap string ConversationSession)
        (now1 now2 : Z) (maxAgeHours : option JsNumber.Number) :
  withinReach now1 sessions -> withinReach now2 sessions ->
  ClaudeHandler.cleanupInactiveSessions
    (ClaudeHandler.cleanupInactiveSessions sessions now1 maxAgeHours) now2 maxAgeHours
  = ClaudeHandler.cleanupInactiveSessions sessions (Z.max now1 now2) maxAgeHours.
Proof.
  intros [Hn1 Hr1] [Hn2 Hr2].
  apply map_eq; intros k. rewrite !cleanup_lookup.
  destruct (JsNumber.leb _ _); [done|].
  destruct (sessions !! k) as [s|] eqn:Hs; [|done].
  rewrite (expired_later now1 now2); try done.
  - destruct (ClaudeHandler.expired now1 _ s); simpl; [done|].
    by destruct (ClaudeHandler.expired now2 _ s).
  - intros t Ht. destruct (Hr1 k s t Hs Ht), (Hr2 k s t Hs Ht). done.
Qed.

Lemma cleanupInactiveSessions_composes_witness :
  withinReach 1730620800200 Scenario.sessions
  /\ withinReach 1730707200124 Scenario.sessions
  /\ ClaudeHandler.cleanupInactiveSessions
       (ClaudeHandler.cleanupInactiveSessions Scenario.sessions 1730620800200 None)
       1730707200124 None
     = ClaudeHandler.cleanupInactiveSessions Scenario.sessions
         (Z.max 1730620800200 1730707200124) None.
Proof.
  assert (forall now, safeInteger now -> safeInteger (now - 1730620800123) ->
                      withinReach now Scenario.sessions) as Hr.
  { intros now H1 H2. split; [done|]. intros k s t Hk Ht.
    unfold Scenario.sessions in Hk. apply lookup_singleton_Some in Hk as [_ <-].
    injection Ht as <-. split; [unfold safeInteger; lia|done]. }
  assert (withinReach 1730620800200 Scenario.sessions) as H1
      by (apply Hr; unfold safeInteger; lia).
  assert (withinReach 1730707200124 Scenario.sessions) as H2
      by (apply Hr; unfold safeInteger; lia).
  split; [exact H1|]. split; [exact H2|].
  exact (cleanupInactiveSessions_composes Scenario.sessions
           1730620800200 1730707200124 None H1 H2).
Defined.

(** ** Shutdown and restart *)

Section Restart.
Import SessionBackupManager.

Lemma serializeAll_invalid (l : list (string * ConversationSession))
      (k : string) (s : ConversationSession) :
  In (k, s) l -> lastActivity s = InvalidDate ->
  exists e, serializeAll l = Throw e.
Proof.
  induction l as [|[k' s'] l IH]; intros Hin Hs; [done|]. simpl.
  destruct Hin as [[= -> ->]|Hin].
  - unfold serialize. rewrite Hs. simpl. eauto.
  - destruct (serialize k' s'); [|eauto].
    destruct (IH Hin Hs) as [e ->]. eauto.
Qed.

Lemma saveBackup_loads (now now' : Z) (sessions : gmap string ConversationSession)
      (workingDirs : gmap string string) (fs : gmap string BackupFile) :
  (forall k s, sessions !! k = Some s -> JsDate.validDate (lastActivity s)) ->
  exists backup,
    loadBackup (saveBackup now now' sessions workingDirs fs) = Some backup
    /\ restoreSessions backup = (sessions, workingDirs).
Proof.
  intros Hv.
  destruct (serializeAll_restores (map_to_list sessions)) as (ss & Hss & Hfold).
  { intros k s Hin. apply (Hv k s). by apply elem_of_map_to_list, list_elem_of_In. }
  unfold saveBackup. rewrite Hss. eexists. split.
  - unfold loadBackup. rewrite createTimestampedBackup_other by reflexivity.
    by rewrite lookup_insert_eq.
  - unfold restoreSessions. simpl. by rewrite Hfold, !fold_insert_entries.
Qed.

End Restart.

(** X12. What a shutdown saves, the next start restores: if every
    session has a valid date, the fresh session table after [start]
    holds exactly the sessions of the table at [shutdown], and the
    Slack handler is handed exactly the working directories of then. *)
Theorem restart_restores_the_sessions
        (now now' : Z) (sessions : gmap string ConversationSession)
        (workingDirs : gmap string string) (fs : gmap string BackupFile) :
  (forall k s, sessions !! k = Some s -> JsDate.validDate (lastActivity s)) ->
  Main.restoredSessions (Main.shutdown now now' sessions workingDirs fs) = sessions
  /\ Main.restoredWorkingDirectories (Main.shutdown now now' sessions workingDirs fs)
     = Some workingDirs.
Proof.
  intros Hv. unfold Main.restoredSessions, Main.restoredWorkingDirectories, Main.shutdown.
  destruct (saveBackup_loads now now' sessions workingDirs fs Hv) as (backup & -> & ->).
  split; [|done]. simpl. unfold ClaudeHandler.restoreSessions.
  apply fold_insert_entries.
Qed.

Lemma restart_restores_the_sessions_witness :
  (forall k s, Scenario.sessions !! k = Some s -> JsDate.validDate (lastActivity s))
  /\ Main.restoredSessions
       (Main.shutdown 1730620800200 1730620800201 Scenario.sessions Scenario.workingDirs ∅)
     = Scenario.sessions.
Proof.
  assert (forall k s, Scenario.sessions !! k = Some s -> JsDate.validDate (lastActivity s))
    as Hv.
  { intros k s H. unfold Scenario.sessions in H.
    apply lookup_singleton_Some in H as [_ <-]. simpl. unfold JsDate.inRange. lia. }
  split; [exact Hv|].
  exact (proj1 (restart_restores_the_sessions 1730620800200 1730620800201
                  Scenario.sessions Scenario.workingDirs ∅ Hv)).
Defined.

(** X13. A save is all or nothing: one session whose date is invalid
    makes [saveBackup] leave the backup directory exactly as it was,
    main file, temporary file and dated copies alike, so the next
    start restores what the directory held before. *)
Theorem invalid_date_blocks_the_save
        (now now' : Z) (sessions : gmap string ConversationSession)
        (workingDirs : gmap string string) (fs : gmap string BackupFile)
        (k : string) (s : ConversationSession) :
  sessions !! k = Some s -> lastActivity s = InvalidDate ->
  SessionBackupManager.saveBackup now now' sessions workingDirs fs = fs
  /\ Main.restoredSessions (Main.shutdown now now' sessions workingDirs fs)
     = Main.restoredSessions fs.
Proof.
  intros Hk Hs.
  assert (SessionBackupManager.saveBackup now now' sessions workingDirs fs = fs) as E.
  { unfold SessionBackupManager.saveBackup.
    destruct (serializeAll_invalid (map_to_list sessions) k s) as [e ->]; try done.
    by apply list_elem_of_In, elem_of_map_to_list. }
  split; [done|]. unfold Main.shutdown. by rewrite E.
Qed.

Lemma invalid_date_blocks_the_save_witness :
  ({[ "U0456-C0123-direct" :=
        {| userId := "U0456"; channelId := "C0123"; cs_threadTs := None;
           sessionId := None; isActive := true; lastActivity := InvalidDate |} ]}
     : gmap string ConversationSession) !! "U0456-C0123-direct"
  = Some {| userId := "U0456"; channelId := "C0123"; cs_threadTs := None;
            sessionId := None; isActive := true; lastActivity := InvalidDate |}
  /\ SessionBackupManager.saveBackup 0 0
       {[ "U0456-C0123-direct" :=
            {| userId := "U0456"; channelId := "C0123"; cs_threadTs := None;
               sessionId := None; isActive := true; lastActivity := InvalidDate |} ]}
       Scenario.workingDirs ∅ = ∅.
Proof.
  split; [reflexivity|].
  refine (proj1 (invalid_date_blocks_the_save 0 0 _ Scenario.workingDirs ∅
                   "U0456-C0123-direct" _ _ _)); reflexivity.
Defined.

(** ** The message loop of [streamQuery] *)

Section Stream.
Import ClaudeHandler.

Lemma withSessionId_twice (a b : option string) (s : ConversationSession) :
  withSessionId a (withSessionId b s) = withSessionId a s.
Proof. reflexivity. Qed.

Lemma withSessionId_same (s : ConversationSession) : withSessionId (sessionId s) s = s.
Proof. by destruct s. Qed.

Lemma lastInit_snoc (messages : list SDKMessage) (m : SDKMessage) :
  lastInit (messages ++ [m]) = if isInit m then Some m else lastInit messages.
Proof. unfold lastInit. by rewrite rev_app_distr. Qed.

Lemma fold_onMessage (s : ConversationSession) (messages : list SDKMessage) :
  fold_left onMessage messages (Some s)
  = Some (withSessionId (match lastInit messages with
                         | Some m => session_id m
                         | None => sessionId s
                         end) s).
Proof.
  induction messages as [|m messages IH] using rev_ind.
  - simpl. by rewrite withSessionId_same.
  - rewrite fold_left_app, IH, lastInit_snoc. simpl. unfold onMessage.
    by destruct (isInit m).
Qed.

Lemma fold_onMessage_None (messages : list SDKMessage) :
  fold_left onMessage messages None = None.
Proof.
  induction messages as [|m messages IH]; [done|]. simpl.
  unfold onMessage at 2. by destruct (isInit m).
Qed.

End Stream.

(** X14. [streamQuery] yields every message of the agent runtime, in
    order and unchanged, and leaves the session object with the session
    id of the last [init] message of the stream (with its previous id
    if there was none), its other fields untouched; so the next query
    for that session resumes the conversation of that id. *)
Theorem streamQuery_records_the_last_init
        (s : ConversationSession) (messages : list ClaudeHandler.SDKMessage)
        (failure : option string) :
  (ClaudeHandler.streamQuery (Some s) messages failure).1.1 = messages
  /\ (ClaudeHandler.streamQuery (Some s) messages failure).2
     = Some (withSessionId (match lastInit messages with
                            | Some m => ClaudeHandler.session_id m
                            | None => sessionId s
                            end) s)
  /\ (ClaudeHandler.streamQuery None messages failure).2 = None
  /\ (forall modes mcpManager controller workingDirectory slackContext m id,
         lastInit messages = Some m -> ClaudeHandler.session_id m = Some id -> id <> "" ->
         ClaudeHandler.resume
           (ClaudeHandler.queryOptions modes mcpManager
              (ClaudeHandler.streamQuery (Some s) messages failure).2
              controller workingDirectory slackContext)
         = Some id).
Proof.
  unfold ClaudeHandler.streamQuery. simpl.
  rewrite fold_onMessage, fold_onMessage_None. repeat split.
  intros modes mcpManager controller workingDirectory slackContext m id Hm Hid Hne.
  rewrite Hm, Hid. simpl.
  destruct (String.eqb_spec id ""); [done|]. reflexivity.
Qed.

Lemma streamQuery_records_the_last_init_witness :
  lastInit [ {| ClaudeHandler.m_type := "system"; ClaudeHandler.m_subtype := Some "init";
                ClaudeHandler.session_id := Some "9d1c77aa";
                ClaudeHandler.m_rest := JNull |};
             {| ClaudeHandler.m_type := "assistant"; ClaudeHandler.m_subtype := None;
                ClaudeHandler.session_id := Some "9d1c77aa";
                ClaudeHandler.m_rest := JStr "done" |} ]
  = Some {| ClaudeHandler.m_type := "system"; ClaudeHandler.m_subtype := Some "init";
            ClaudeHandler.session_id := Some "9d1c77aa";
            ClaudeHandler.m_rest := JNull |}
  /\ "9d1c77aa" <> ""
  /\ ClaudeHandler.resume
       (ClaudeHandler.queryOptions ∅
          {| ClaudeHandler.getServerConfiguration := None;
             ClaudeHandler.getDefaultAllowedTools := [] |}
          (ClaudeHandler.streamQuery (Some Scenario.session)
             [ {| ClaudeHandler.m_type := "system"; ClaudeHandler.m_subtype := Some "init";
                  ClaudeHandler.session_id := Some "9d1c77aa";
                  ClaudeHandler.m_rest := JNull |};
               {| ClaudeHandler.m_type := "assistant"; ClaudeHandler.m_subtype := None;
                  ClaudeHandler.session_id := Some "9d1c77aa";
                  ClaudeHandler.m_rest := JStr "done" |} ] None).2
          None None None)
     = Some "9d1c77aa".
Proof.
  split; [reflexivity|]. split; [discriminate|].
  refine (proj2 (proj2 (proj2 (streamQuery_records_the_last_init Scenario.session _ None)))
            ∅ _ None None None _ "9d1c77aa" _ _ _);
    [reflexivity|reflexivity|discriminate].
Defined.

(** ** The wait, event by event *)

Lemma run_settled (check : Z -> Wait.State -> Wait.State)
      (events : list Event) (st : Wait.State) :
  Wait.settled st <> None -> Wait.run check events st = st.
Proof. intros H. destruct events; simpl; [done|]. by destruct (Wait.settled st). Qed.

Lemma run_app (check : Z -> Wait.State -> Wait.State)
      (a b : list Event) (st : Wait.State) :
  Wait.run check (a ++ b) st = Wait.run check b (Wait.run check a st).
Proof.
  revert st. induction a as [|e a IH]; intros st; simpl; [done|].
  destruct (Wait.settled st) eqn:Hs; [|apply IH].
  symmetry. apply run_settled. by rewrite Hs.
Qed.

Lemma run_cons_pending (check : Z -> Wait.State -> Wait.State)
      (e : Event) (rest : list Event) (st : Wait.State) :
  Wait.settled st = None ->
  Wait.run check (e :: rest) st = Wait.run check rest (Wait.step check e st).
Proof. intros H. simpl. by rewrite H. Qed.

(** The two handlers meet the description of a step, each with its own
    notion of a late poll. *)
Lemma step_part_006 (f : string) (e : Event) (st : Wait.State) :
  waiting st ->
  stepSpec never f e st (Wait.step (PermissionHandler.checkApproval f) e st).
Proof.
  intros (Hr & Ht & Hl & Ha & Hs). destruct e as [now| |g c]; simpl.
  - rewrite Ht. unfold PermissionHandler.checkApproval. simpl. rewrite Hr, Ha. simpl.
    unfold Wait.checkFile. simpl.
    destruct (Wait.dir st !! f) as [[v|raw]|]; simpl; rewrite ?Hs; by repeat split.
  - rewrite Ha, Hl. unfold Wait.abortHandler. simpl. rewrite Hr. simpl. by rewrite Hs.
  - by repeat split.
Qed.

Lemma step_part_005 (startTime : Z) (f : string) (e : Event) (st : Wait.State) :
  waiting st ->
  stepSpec (pastDeadline startTime) f e st
           (Wait.step (PermissionHandlerDeadline.checkApproval startTime f) e st).
Proof.
  intros (Hr & Ht & Hl & Ha & Hs). destruct e as [now| |g c]; simpl.
  - rewrite Ht. unfold PermissionHandlerDeadline.checkApproval. simpl.
    rewrite Hr, Ha. simpl. unfold pastDeadline.
    destruct (now - startTime >? PermissionHandlerDeadline.timeout)%Z; simpl.
    + by rewrite Hs.
    + unfold Wait.checkFile. simpl.
      destruct (Wait.dir st !! f) as [[v|raw]|]; simpl; rewrite ?Hs; by repeat split.
  - rewrite Ha, Hl. unfold Wait.abortHandler. simpl. rewrite Hr. simpl. by rewrite Hs.
  - by repeat split.
Qed.

Lemma start_part_006 (f : string) (startTime : Z) (d : gmap string FileContent) :
  startSpec f d (Wait.start (PermissionHandler.checkApproval f) false startTime d).
Proof.
  unfold startSpec, Wait.start, PermissionHandler.checkApproval, Wait.checkFile. simpl.
  destruct (d !! f) as [[v|raw]|]; simpl; by repeat split.
Qed.

Lemma start_part_005 (f : string) (startTime : Z) (d : gmap string FileContent) :
  startSpec f d (Wait.start (PermissionHandlerDeadline.checkApproval startTime f)
                            false startTime d).
Proof.
  unfold startSpec, Wait.start, PermissionHandlerDeadline.checkApproval. simpl.
  replace (startTime - startTime >? PermissionHandlerDeadline.timeout)%Z with false
    by (symmetry; rewrite Z.gtb_ltb; apply Z.ltb_ge;
        unfold PermissionHandlerDeadline.timeout; lia).
  unfold Wait.checkFile. simpl.
  destruct (d !! f) as [[v|raw]|]; simpl; by repeat split.
Qed.

(** What an abort does to a wait that is pending in good order:
    besides settling it, it leaves no poll scheduled. *)
Lemma abort_step (check : Z -> Wait.State -> Wait.State) (st : Wait.State) :
  waiting st ->
  Wait.settled (Wait.step check Abort st) = Some abortRefusal
  /\ Wait.dir (Wait.step check Abort st) = Wait.dir st
  /\ Wait.timerArmed (Wait.step check Abort st) = false
  /\ Wait.aborted (Wait.step check Abort st) = true.
Proof.
  intros (Hr & Ht & Hl & Ha & Hs). simpl. rewrite Ha, Hl.
  unfold Wait.abortHandler. simpl. rewrite Hr. simpl. by rewrite Hs.
Qed.

(** With no poll scheduled and the signal aborted, the events that
    come only write their deposits. *)
Lemma deliver_idle (check : Z -> Wait.State -> Wait.State) (events : list Event)
      (st : Wait.State) :
  Wait.timerArmed st = false -> Wait.aborted st = true ->
  Wait.settled (deliver check events st) = Wait.settled st
  /\ Wait.dir (deliver check events st) = written events (Wait.dir st).
Proof.
  revert st. induction events as [|e events IH]; intros st Ht Ha; [done|].
  unfold deliver, written. cbn [fold_left]. fold (deliver check events (Wait.step check e st)).
  destruct e as [now| |g c]; cbn [Wait.step].
  - rewrite Ht. by apply IH.
  - rewrite Ha. by apply IH.
  - destruct (IH (Wait.write g c st) Ht Ha) as [H1 H2]. by rewrite H1, H2.
Qed.

Section Coordinator.
(** A handler, by its poll, the approval file it looks for and its
    notion of a late poll. *)
Variable check : Z -> Wait.State -> Wait.State.
Variable f : string.
Variable late : Z -> bool.
Hypothesis Hstep :
  forall e st, waiting st -> stepSpec late f e st (Wait.step check e st).

Lemma waiting_or_settled_step (e : Event) (st : Wait.State) :
  waiting st ->
  waiting (Wait.step check e st) \/ Wait.settled (Wait.step check e st) <> None.
Proof.
  intros Hw. pose proof (Hstep e st Hw) as H. destruct e as [now| |g c]; cbv beta iota delta [stepSpec] in H.
  - destruct (late now); [right; by rewrite (proj1 H)|].
    destruct (Wait.dir st !! f) as [[v|raw]|]; try (left; tauto).
    right. by rewrite (proj1 H).
  - right. by rewrite (proj1 H).
  - left. tauto.
Qed.

Lemma waiting_or_settled_run (events : list Event) (st : Wait.State) :
  waiting st \/ Wait.settled st <> None ->
  waiting (Wait.run check events st) \/ Wait.settled (Wait.run check events st) <> None.
Proof.
  revert st. induction events as [|e events IH]; intros st H; [done|].
  destruct H as [Hw|Hs].
  - rewrite run_cons_pending by apply Hw. apply IH. by apply waiting_or_settled_step.
  - rewrite run_settled by done. by right.
Qed.

Lemma pending_is_waiting (events : list Event) (st0 : Wait.State) :
  waiting st0 \/ Wait.settled st0 <> None ->
  Wait.settled (Wait.run check events st0) = None ->
  waiting (Wait.run check events st0).
Proof.
  intros H0 Hs. destruct (waiting_or_settled_run events st0 H0) as [H|H]; [done|].
  by rewrite Hs in H.
Qed.

Lemma event_on_pending (before after : list Event) (e : Event) (st0 : Wait.State) :
  waiting st0 \/ Wait.settled st0 <> None ->
  Wait.settled (Wait.run check before st0) = None ->
  Wait.run check (before ++ e :: after) st0
  = Wait.run check after (Wait.step check e (Wait.run check before st0))
  /\ stepSpec late f e (Wait.run check before st0)
              (Wait.step check e (Wait.run check before st0)).
Proof.
  intros H0 Hs. split.
  - by rewrite run_app, run_cons_pending.
  - apply Hstep. by apply pending_is_waiting.
Qed.

(** A poll on time finds the record deposited just before it. *)
Lemma deposit_on_pending (before after : list Event) (now : Z) (v : JsValue)
      (st0 : Wait.State) :
  waiting st0 \/ Wait.settled st0 <> None ->
  Wait.settled (Wait.run check before st0) = None ->
  late now = false ->
  Wait.settled (Wait.run check (before ++ Deposit f (Document v) :: Timer now :: after) st0)
  = Some v
  /\ Wait.dir (Wait.run check (before ++ Deposit f (Document v) :: Timer now :: after) st0)
     = delete f (Wait.dir (Wait.run check before st0)).
Proof.
  intros H0 Hs Hl.
  destruct (event_on_pending before (Timer now :: after) (Deposit f (Document v)) st0 H0 Hs)
    as [-> H].
  cbv beta iota delta [stepSpec] in H. destruct H as [Hw Hd].
  set (st1 := Wait.step check (Deposit f (Document v)) (Wait.run check before st0)) in *.
  rewrite run_cons_pending by apply Hw.
  pose proof (Hstep (Timer now) st1 Hw) as H. cbv beta iota delta [stepSpec] in H. rewrite Hl, Hd in H.
  rewrite lookup_insert_eq in H. destruct H as [H1 H2].
  rewrite run_settled by (by rewrite H1). rewrite H1, H2. split; [done|].
  apply map_eq; intros k. destruct (decide (k = f)) as [->|Hne].
  - by rewrite !lookup_delete_eq.
  - by rewrite !lookup_delete_ne, lookup_insert_ne.
Qed.

(** A late poll settles a pending wait with the time-out refusal and
    deletes the approval file. *)
Lemma late_poll_on_pending (before after : list Event) (now : Z) (st0 : Wait.State) :
  waiting st0 \/ Wait.settled st0 <> None ->
  Wait.settled (Wait.run check before st0) = None ->
  late now = true ->
  Wait.settled (Wait.run check (before ++ Timer now :: after) st0) = Some timeoutRefusal
  /\ Wait.dir (Wait.run check (before ++ Timer now :: after) st0)
     = delete f (Wait.dir (Wait.run check before st0)).
Proof.
  intros H0 Hs Hl. destruct (event_on_pending before after (Timer now) st0 H0 Hs) as [-> H].
  cbv beta iota delta [stepSpec] in H. rewrite Hl in H. destruct H as [H1 H2].
  rewrite run_settled by (by rewrite H1). by rewrite H1, H2.
Qed.

(** Where a settlement comes from. *)
Lemma settlement_origin (d : gmap string FileContent) (events : list Event)
      (st : Wait.State) (seen : list Event) :
  waiting st \/ Wait.settled st <> None ->
  (forall c, Wait.dir st !! f = Some c -> deposited d seen f c) ->
  (forall v, Wait.settled st = Some v ->
             v = abortRefusal \/ v = timeoutRefusal \/ deposited d seen f (Document v)) ->
  forall v, Wait.settled (Wait.run check events st) = Some v ->
            v = abortRefusal \/ v = timeoutRefusal
            \/ deposited d (seen ++ events) f (Document v).
Proof.
  revert st seen. induction events as [|e events IH]; intros st seen H0 Hdir Hset v Hv.
  - rewrite app_nil_r. by apply Hset.
  - destruct H0 as [Hw|Hs].
    + rewrite run_cons_pending in Hv by apply Hw.
      replace (seen ++ e :: events)%list with ((seen ++ [e]) ++ events)%list
        by (by rewrite <- app_assoc).
      pose proof (Hstep e st Hw) as H.
      assert (forall c, deposited d seen f c -> deposited d (seen ++ [e]) f c) as Hmono.
      { intros c [Hc|Hc]; [by left|right]. apply in_or_app. by left. }
      apply (IH (Wait.step check e st) (seen ++ [e])%list); try done.
      * by apply waiting_or_settled_step.
      * intros c Hc. destruct e as [now| |g c']; cbv beta iota delta [stepSpec] in H.
        -- destruct (late now).
           ++ rewrite (proj2 H), lookup_delete_eq in Hc. done.
           ++ destruct (Wait.dir st !! f) as [[v'|raw]|] eqn:Hf.
              ** rewrite (proj2 H), lookup_delete_eq in Hc. done.
              ** rewrite (proj2 H) in Hc. apply Hmono, Hdir. congruence.
              ** rewrite (proj2 H) in Hc. congruence.
        -- rewrite (proj2 H) in Hc. by apply Hmono, Hdir.
        -- rewrite (proj2 H) in Hc. destruct (decide (g = f)) as [->|Hne].
           ++ rewrite lookup_insert_eq in Hc. injection Hc as <-.
              right. apply in_or_app. right. by left.
           ++ rewrite lookup_insert_ne in Hc by done. by apply Hmono, Hdir.
      * intros v' Hv'. destruct e as [now| |g c']; cbv beta iota delta [stepSpec] in H.
        -- destruct (late now).
           ++ rewrite (proj1 H) in Hv'. injection Hv' as <-. tauto.
           ++ destruct (Wait.dir st !! f) as [[v''|raw]|] eqn:Hf.
              ** rewrite (proj1 H) in Hv'. injection Hv' as <-.
                 right; right. by apply Hmono, Hdir.
              ** destruct H as [(_ & _ & _ & _ & Hn) _]. congruence.
              ** destruct H as [(_ & _ & _ & _ & Hn) _]. congruence.
        -- rewrite (proj1 H) in Hv'. injection Hv' as <-. tauto.
        -- destruct H as [(_ & _ & _ & _ & Hn) _]. congruence.
    + rewrite run_settled in Hv by done.
      destruct (Hset v Hv) as [?|[?|[Hd|Hd]]]; try tauto.
      * right; right. by left.
      * right; right. right. apply in_or_app. by left.
Qed.

(** The files of the other tickets. *)
Lemma other_files_kept (g : string) (events : list Event) (st : Wait.State) :
  g <> f -> waiting st \/ Wait.settled st <> None ->
  Forall (sparing g) events ->
  Wait.dir (Wait.run check events st) !! g = Wait.dir st !! g.
Proof.
  intros Hg. revert st. induction events as [|e events IH]; intros st H0 Hev; [done|].
  inversion Hev as [|? ? He Hev']; subst.
  destruct H0 as [Hw|Hs]; [|by rewrite run_settled].
  rewrite run_cons_pending by apply Hw.
  rewrite IH; [|by apply waiting_or_settled_step|done].
  pose proof (Hstep e st Hw) as H.
  destruct e as [now| |g' c]; cbv beta iota delta [stepSpec] in H; simpl in He.
  - destruct (late now); [by rewrite (proj2 H), lookup_delete_ne|].
    destruct (Wait.dir st !! f) as [[v|raw]|]; rewrite (proj2 H); try done.
    by rewrite lookup_delete_ne.
  - by rewrite (proj2 H).
  - rewrite (proj2 H). by rewrite lookup_insert_ne.
Qed.

(** A file that does not parse is neither an answer nor deleted. *)
Lemma unreadable_file_ignored (raw : string) (events : list Event) (st : Wait.State) :
  waiting st -> Wait.dir st !! f = Some (Malformed raw) ->
  Forall (pollOnTime late) events ->
  waiting (Wait.run check events st)
  /\ Wait.dir (Wait.run check events st) = Wait.dir st.
Proof.
  revert st. induction events as [|e events IH]; intros st Hw Hf Hev; [done|].
  inversion Hev as [|? ? He Hev']; subst.
  rewrite run_cons_pending by apply Hw.
  pose proof (Hstep e st Hw) as H. destruct e as [now| |]; simpl in He; try done.
  cbv beta iota delta [stepSpec] in H. rewrite He, Hf in H. destruct H as [Hw' Hd'].
  destruct (IH (Wait.step check (Timer now) st)) as [H1 H2]; try done.
  - by rewrite Hd'.
  - split; [done|]. by rewrite H2.
Qed.

End Coordinator.

(** A wait whose signal was aborted before it started: no poll is
    scheduled and the abort handler never runs. *)
Lemma stuck_run (check : Z -> Wait.State -> Wait.State)
      (events : list Event) (st : Wait.State) :
  Wait.timerArmed st = false -> Wait.aborted st = true -> Wait.settled st = None ->
  Wait.settled (Wait.run check events st) = None.
Proof.
  revert st. induction events as [|e events IH]; intros st Ht Ha Hs; [done|].
  rewrite run_cons_pending by done.
  destruct e as [now| |g c]; simpl; rewrite ?Ht, ?Ha; by apply IH.
Qed.

Section BothHandlers.
Variable approvalId : string.
Variable startTime : Z.
Variable d : gmap string FileContent.

Let f := PermissionHandler.approvalFileOf approvalId.
Let st006 := Wait.start (PermissionHandler.checkApproval f) false startTime d.
Let st005 := Wait.start (PermissionHandlerDeadline.checkApproval startTime f)
                        false startTime d.

Lemma start_ok (st0 : Wait.State) :
  startSpec f d st0 -> waiting st0 \/ Wait.settled st0 <> None.
Proof.
  unfold startSpec. destruct (d !! f) as [[v|raw]|]; intros [H1 H2]; try by left.
  right. by rewrite H1.
Qed.

Lemma start_006_ok : waiting st006 \/ Wait.settled st006 <> None.
Proof. apply start_ok, start_part_006. Qed.

Lemma start_005_ok : waiting st005 \/ Wait.settled st005 <> None.
Proof. apply start_ok, start_part_005. Qed.

Lemma start_dir (st0 : Wait.State) (g : string) :
  startSpec f d st0 -> g <> f -> Wait.dir st0 !! g = d !! g.
Proof.
  unfold startSpec. destruct (d !! f) as [[v|raw]|]; intros [H1 H2] Hg; rewrite H2; try done.
  by rewrite lookup_delete_ne.
Qed.

Lemma start_origin (st0 : Wait.State) :
  startSpec f d st0 ->
  (forall c, Wait.dir st0 !! f = Some c -> deposited d [] f c)
  /\ (forall v, Wait.settled st0 = Some v ->
                v = abortRefusal \/ v = timeoutRefusal \/ deposited d [] f (Document v)).
Proof.
  unfold startSpec. destruct (d !! f) as [[v|raw]|] eqn:Hf; intros [H1 H2]; split.
  - intros c. by rewrite H2, lookup_delete_eq.
  - intros v'. rewrite H1. intros [= <-]. right; right. by left.
  - intros c. rewrite H2, Hf. intros [= <-]. by left.
  - intros v'. destruct H1 as (_ & _ & _ & _ & Hn). by rewrite Hn.
  - intros c. by rewrite H2, Hf.
  - intros v'. destruct H1 as (_ & _ & _ & _ & Hn). by rewrite Hn.
Qed.

End BothHandlers.

(** X15. While a wait is pending, an abort of the caller's signal
    settles it at once with the refusal [Request was aborted], in
    either handler, and touches no file.  From then on the wait neither
    reads nor deletes anything: whatever is delivered later, the answer
    stays the refusal, and the approval directory is the directory of
    that moment with the later deposits written into it. *)
Theorem abort_settles_a_pending_wait
        (approvalId : string) (startTime : Z) (before after : list Event)
        (d : gmap string FileContent) :
  (Wait.settled (PermissionHandler.waitForApproval approvalId false startTime before d)
   = None ->
   Wait.settled (PermissionHandler.waitForApproval approvalId false startTime
                   (before ++ [Abort]) d) = Some abortRefusal
   /\ Wait.dir (PermissionHandler.waitForApproval approvalId false startTime
                  (before ++ [Abort]) d)
      = Wait.dir (PermissionHandler.waitForApproval approvalId false startTime before d)
   /\ Wait.settled
        (deliver (PermissionHandler.checkApproval
                    (PermissionHandler.approvalFileOf approvalId)) after
                 (PermissionHandler.waitForApproval approvalId false startTime
                    (before ++ [Abort]) d)) = Some abortRefusal
   /\ Wait.dir
        (deliver (PermissionHandler.checkApproval
                    (PermissionHandler.approvalFileOf approvalId)) after
                 (PermissionHandler.waitForApproval approvalId false startTime
                    (before ++ [Abort]) d))
      = written after
          (Wait.dir (PermissionHandler.waitForApproval approvalId false startTime
                       before d)))
  /\ (Wait.settled (PermissionHandlerDeadline.waitForApproval approvalId false startTime
                      before d) = None ->
      Wait.settled (PermissionHandlerDeadline.waitForApproval approvalId false startTime
                      (before ++ [Abort]) d) = Some abortRefusal
      /\ Wait.dir (PermissionHandlerDeadline.waitForApproval approvalId false startTime
                     (before ++ [Abort]) d)
         = Wait.dir (PermissionHandlerDeadline.waitForApproval approvalId false startTime
                       before d)
      /\ Wait.settled
           (deliver (PermissionHandlerDeadline.checkApproval startTime
                       (PermissionHandler.approvalFileOf approvalId)) after
                    (PermissionHandlerDeadline.waitForApproval approvalId false startTime
                       (before ++ [Abort]) d)) = Some abortRefusal
      /\ Wait.dir
           (deliver (PermissionHandlerDeadline.checkApproval startTime
                       (PermissionHandler.approvalFileOf approvalId)) after
                    (PermissionHandlerDeadline.waitForApproval approvalId false startTime
                       (before ++ [Abort]) d))
         = written after
             (Wait.dir (PermissionHandlerDeadline.waitForApproval approvalId false
                          startTime before d))).
Proof.
  split; intros Hs.
  - unfold PermissionHandler.waitForApproval in *. cbv zeta in *.
    set (check := PermissionHandler.checkApproval _) in *.
    set (st0 := Wait.start check false startTime d) in *.
    assert (waiting (Wait.run check before st0)) as Hw.
    { eapply pending_is_waiting; [apply step_part_006|apply start_006_ok|exact Hs]. }
    rewrite run_app, run_cons_pending by exact Hs. cbn [Wait.run].
    destruct (abort_step check _ Hw) as (H1 & H2 & H3 & H4).
    destruct (deliver_idle check after _ H3 H4) as [H5 H6].
    by rewrite H5, H6, H1, H2.
  - unfold PermissionHandlerDeadline.waitForApproval in *. cbv zeta in *.
    set (check := PermissionHandlerDeadline.checkApproval _ _) in *.
    set (st0 := Wait.start check false startTime d) in *.
    assert (waiting (Wait.run check before st0)) as Hw.
    { eapply pending_is_waiting; [apply step_part_005|apply start_005_ok|exact Hs]. }
    rewrite run_app, run_cons_pending by exact Hs. cbn [Wait.run].
    destruct (abort_step check _ Hw) as (H1 & H2 & H3 & H4).
    destruct (deliver_idle check after _ H3 H4) as [H5 H6].
    by rewrite H5, H6, H1, H2.
Qed.

Lemma abort_settles_a_pending_wait_witness :
  Wait.settled (PermissionHandler.waitForApproval Scenario.ticket false 0
                  [Timer 500; Deposit "approval_7_zzzzzzzzz.json" (Malformed "{")] ∅) = None
  /\ Wait.dir
       (deliver (PermissionHandler.checkApproval
                   (PermissionHandler.approvalFileOf Scenario.ticket))
                [Deposit Scenario.ticketFile (Document Scenario.approved); Timer 1000]
                (PermissionHandler.waitForApproval Scenario.ticket false 0
                   ([Timer 500; Deposit "approval_7_zzzzzzzzz.json" (Malformed "{")]
                      ++ [Abort]) ∅))
     = written [Deposit Scenario.ticketFile (Document Scenario.approved); Timer 1000]
         (Wait.dir (PermissionHandler.waitForApproval Scenario.ticket false 0
                      [Timer 500; Deposit "approval_7_zzzzzzzzz.json" (Malformed "{")] ∅)).
Proof.
  assert (Wait.settled (PermissionHandler.waitForApproval Scenario.ticket false 0
                          [Timer 500; Deposit "approval_7_zzzzzzzzz.json" (Malformed "{")] ∅)
          = None) as H by (vm_compute; reflexivity).
  split; [exact H|].
  exact (proj2 (proj2 (proj2 (proj1 (abort_settles_a_pending_wait Scenario.ticket 0
                         [Timer 500; Deposit "approval_7_zzzzzzzzz.json" (Malformed "{")]
                         [Deposit Scenario.ticketFile (Document Scenario.approved); Timer 1000]
                         ∅) H)))).
Defined.

(** X16. While a wait is pending, a resolution record deposited in the
    ticket's approval file is what the next poll settles the wait
    with, unchanged, and that poll deletes the file: in the handler of
    part_006 whenever the poll comes, in the handler of part_005 when
    it comes no later than five minutes after the start. *)
Theorem deposited_record_settles_the_wait
        (approvalId : string) (startTime now : Z) (before after : list Event)
        (v : JsValue) (d : gmap string FileContent) :
  (Wait.settled (PermissionHandler.waitForApproval approvalId false startTime before d)
   = None ->
   Wait.settled (PermissionHandler.waitForApproval approvalId false startTime
                   (before ++ Deposit (PermissionHandler.approvalFileOf approvalId)
                                      (Document v) :: Timer now :: after) d) = Some v
   /\ Wait.dir (PermissionHandler.waitForApproval approvalId false startTime
                  (before ++ Deposit (PermissionHandler.approvalFileOf approvalId)
                                     (Document v) :: Timer now :: after) d)
      = delete (PermissionHandler.approvalFileOf approvalId)
               (Wait.dir (PermissionHandler.waitForApproval approvalId false startTime
                            before d)))
  /\ (Wait.settled (PermissionHandlerDeadline.waitForApproval approvalId false startTime
                      before d) = None ->
      (now - startTime <= PermissionHandlerDeadline.timeout)%Z ->
      Wait.settled (PermissionHandlerDeadline.waitForApproval approvalId false startTime
                      (before ++ Deposit (PermissionHandler.approvalFileOf approvalId)
                                         (Document v) :: Timer now :: after) d) = Some v
      /\ Wait.dir (PermissionHandlerDeadline.waitForApproval approvalId false startTime
                     (before ++ Deposit (PermissionHandler.approvalFileOf approvalId)
                                        (Document v) :: Timer now :: after) d)
         = delete (PermissionHandler.approvalFileOf approvalId)
                  (Wait.dir (PermissionHandlerDeadline.waitForApproval approvalId false
                               startTime before d))).
Proof.
  split.
  - intros Hs.
    eapply deposit_on_pending; [apply step_part_006|apply start_006_ok|exact Hs|done].
  - intros Hs Hnow.
    eapply deposit_on_pending; [apply step_part_005|apply start_005_ok|exact Hs|].
    unfold pastDeadline. rewrite Z.gtb_ltb. apply Z.ltb_ge. lia.
Qed.

Lemma deposited_record_settles_the_wait_witness :
  Wait.settled (PermissionHandlerDeadline.waitForApproval Scenario.ticket false 0
                  [Timer 500] ∅) = None
  /\ (1000 - 0 <= PermissionHandlerDeadline.timeout)%Z
  /\ Wait.settled (PermissionHandlerDeadline.waitForApproval Scenario.ticket false 0
                     ([Timer 500] ++ Deposit (PermissionHandler.approvalFileOf Scenario.ticket)
                                             (Document Scenario.approvedWithEdit)
                                  :: Timer 1000 :: []) ∅)
     = Some Scenario.approvedWithEdit.
Proof.
  assert (Wait.settled (PermissionHandlerDeadline.waitForApproval Scenario.ticket false 0
                          [Timer 500] ∅) = None) as H by (vm_compute; reflexivity).
  assert (1000 - 0 <= PermissionHandlerDeadline.timeout)%Z as H'
      by (unfold PermissionHandlerDeadline.timeout; lia).
  split; [exact H|]. split; [exact H'|].
  exact (proj1 (proj2 (deposited_record_settles_the_wait Scenario.ticket 0 1000
                         [Timer 500] [] Scenario.approvedWithEdit ∅) H H')).
Defined.

(** X17. The deadline of the handler of part_005 bounds every wait: no
    wait stays pending past a poll that fires later than five minutes
    after its start, whatever has happened before; if the wait was
    still pending, that poll settles it with the refusal [Permission
    request timed out] and deletes the approval file, even when the
    file holds an approval by then. *)
Theorem deadline_bounds_every_wait
        (approvalId : string) (startTime now : Z) (before after : list Event)
        (d : gmap string FileContent) :
  (now - startTime > PermissionHandlerDeadline.timeout)%Z ->
  Wait.settled (PermissionHandlerDeadline.waitForApproval approvalId false startTime
                  (before ++ Timer now :: after) d) <> None
  /\ (Wait.settled (PermissionHandlerDeadline.waitForApproval approvalId false startTime
                      before d) = None ->
      Wait.settled (PermissionHandlerDeadline.waitForApproval approvalId false startTime
                      (before ++ Timer now :: after) d) = Some timeoutRefusal
      /\ Wait.dir (PermissionHandlerDeadline.waitForApproval approvalId false startTime
                     (before ++ Timer now :: after) d)
         = delete (PermissionHandler.approvalFileOf approvalId)
                  (Wait.dir (PermissionHandlerDeadline.waitForApproval approvalId false
                               startTime before d))).
Proof.
  intros Hnow.
  assert (pastDeadline startTime now = true) as Hl.
  { unfold pastDeadline. rewrite Z.gtb_ltb. apply Z.ltb_lt. lia. }
  assert (Wait.settled (PermissionHandlerDeadline.waitForApproval approvalId false startTime
                          before d) = None ->
          Wait.settled (PermissionHandlerDeadline.waitForApproval approvalId false startTime
                          (before ++ Timer now :: after) d) = Some timeoutRefusal
          /\ Wait.dir (PermissionHandlerDeadline.waitForApproval approvalId false startTime
                         (before ++ Timer now :: after) d)
             = delete (PermissionHandler.approvalFileOf approvalId)
                      (Wait.dir (PermissionHandlerDeadline.waitForApproval approvalId false
                                   startTime before d))) as Hlate.
  { intros Hs.
    eapply late_poll_on_pending; [apply step_part_005|apply start_005_ok|exact Hs|exact Hl]. }
  split; [|exact Hlate].
  destruct (Wait.settled (PermissionHandlerDeadline.waitForApproval approvalId false
                            startTime before d)) as [v|] eqn:Hs.
  - unfold PermissionHandlerDeadline.waitForApproval in *.
    rewrite run_app, run_settled by (by rewrite Hs). by rewrite Hs.
  - by rewrite (proj1 (Hlate eq_refl)).
Qed.

Lemma deadline_bounds_every_wait_witness :
  (300500 - 0 > PermissionHandlerDeadline.timeout)%Z
  /\ Wait.settled (PermissionHandlerDeadline.waitForApproval Scenario.ticket false 0
                     [Timer 300000] ∅) = None
  /\ Wait.settled (PermissionHandlerDeadline.waitForApproval Scenario.ticket false 0
                     ([Timer 300000] ++ Timer 300500 :: []) ∅) = Some timeoutRefusal.
Proof.
  assert (300500 - 0 > PermissionHandlerDeadline.timeout)%Z as H
      by (unfold PermissionHandlerDeadline.timeout; lia).
  assert (Wait.settled (PermissionHandlerDeadline.waitForApproval Scenario.ticket false 0
                          [Timer 300000] ∅) = None) as H' by (vm_compute; reflexivity).
  split; [exact H|]. split; [exact H'|].
  exact (proj1 (proj2 (deadline_bounds_every_wait Scenario.ticket 0 300500
                         [Timer 300000] [] ∅ H) H')).
Defined.

(** ** The callback: when it allows, when it cannot decide *)

Section Verdicts.
Import PermissionHandler.

Lemma conclude_allow (input : ToolInput) (response : JsValue) :
  behavior (conclude input response) = allow ->
  conclude input response = Allow input
  /\ Js.get response "behavior" = Normal (Some (JStr "allow")).
Proof.
  unfold conclude. destruct (Js.get response "behavior") as [b|e] eqn:Hb; [|done].
  destruct (Js.isStr b "allow") eqn:Hs.
  - intros _. split; [done|]. destruct b as [[| | |s| |]|]; try done.
    simpl in Hs. apply String.eqb_eq in Hs. by subst.
  - destruct (Js.get response "message") as [[m|]|]; try done.
    by destruct (Js.truthy (Some m)).
Qed.

(** The callback allows only on a settled wait whose response says
    [allow], and then returns the caller's own input. *)
Lemma canUseTool_allow
      (wait : string -> bool -> Z -> list Event -> gmap string FileContent -> Wait.State)
      (P : Platform) (slackContext : SlackContext) (toolName : string) (input : ToolInput)
      (now : Z) (random : string) (signalAborted : bool) (events : list Event)
      (w w' : World) (r : PermissionResult) :
  canUseTool wait P slackContext toolName input now random signalAborted events w
  = (Some r, w') ->
  behavior r = allow ->
  r = Allow input
  /\ exists response,
      Wait.settled (wait (newApprovalId now random) signalAborted now events (approvals w))
      = Some response
      /\ Js.get response "behavior" = Normal (Some (JStr "allow")).
Proof.
  unfold canUseTool. destruct (postMessage P _) as [result|e]; [|by intros [= <- _]].
  simpl approvals.
  destruct (Wait.settled _) as [response|] eqn:Hs; [|done].
  intros Hres Hb.
  assert (conclude input response = r ->
          r = Allow input
          /\ exists response0,
              Some response = Some response0
              /\ Js.get response0 "behavior" = Normal (Some (JStr "allow"))) as Hc.
  { intros <-. apply conclude_allow in Hb as [-> Hb]. eauto. }
  assert (errorResult = r -> False) as He.
  { intros <-. discriminate Hb. }
  destruct (Slack.ts result) as [t|].
  - destruct (String.eqb t ""); [injection Hres as H _; by apply Hc|].
    destruct (Js.get response "behavior") as [b|e];
      [|injection Hres as H _; by destruct He].
    destruct (chatUpdate P _); injection Hres as H _; [by apply Hc|by destruct He].
  - injection Hres as H _. by apply Hc.
Qed.

Lemma refusals_deny :
  Js.get abortRefusal "behavior" <> Normal (Some (JStr "allow"))
  /\ Js.get timeoutRefusal "behavior" <> Normal (Some (JStr "allow")).
Proof. split; discriminate. Qed.

Lemma preaborted_006 (approvalId : string) (startTime : Z) (events : list Event)
      (d : gmap string FileContent) :
  Wait.settled (waitForApproval approvalId true startTime events d) = None.
Proof. unfold waitForApproval. by apply stuck_run. Qed.

Lemma preaborted_005 (approvalId : string) (startTime : Z) (events : list Event)
      (d : gmap string FileContent) :
  Wait.settled (PermissionHandlerDeadline.waitForApproval approvalId true startTime events d)
  = None.
Proof. unfold PermissionHandlerDeadline.waitForApproval. by apply stuck_run. Qed.

Lemma origin_006 (approvalId : string) (startTime : Z) (events : list Event)
      (d : gmap string FileContent) (signalAborted : bool) (v : JsValue) :
  Wait.settled (waitForApproval approvalId signalAborted startTime events d) = Some v ->
  v = abortRefusal \/ v = timeoutRefusal
  \/ deposited d events (approvalFileOf approvalId) (Document v).
Proof.
  destruct signalAborted; [by rewrite preaborted_006|].
  unfold waitForApproval. intros Hv.
  destruct (start_origin approvalId d _ (start_part_006 _ startTime d))
    as [H1 H2].
  eapply (settlement_origin _ _ never (step_part_006 _) d events _ []); try done.
  apply start_006_ok.
Qed.

Lemma origin_005 (approvalId : string) (startTime : Z) (events : list Event)
      (d : gmap string FileContent) (signalAborted : bool) (v : JsValue) :
  Wait.settled (PermissionHandlerDeadline.waitForApproval approvalId signalAborted
                  startTime events d) = Some v ->
  v = abortRefusal \/ v = timeoutRefusal
  \/ deposited d events (approvalFileOf approvalId) (Document v).
Proof.
  destruct signalAborted; [by rewrite preaborted_005|].
  unfold PermissionHandlerDeadline.waitForApproval. intros Hv.
  destruct (start_origin approvalId d _ (start_part_005 _ startTime d))
    as [H1 H2].
  eapply (settlement_origin _ _ (pastDeadline startTime) (step_part_005 startTime _)
            d events _ []); try done.
  apply start_005_ok.
Qed.

End Verdicts.

(** X18. The callback of either handler allows a tool only on the
    strength of a resolution record: if it returns Allow, then the
    ticket's approval file held, at the start or by a deposit made
    during the wait, a record whose behavior is [allow]; the result is
    then Allow with the caller's own input.  No error, abort or
    time-out ever yields Allow. *)
Theorem allow_needs_an_allow_record
        (P : Platform) (slackContext : SlackContext) (toolName : string) (input : ToolInput)
        (now : Z) (random : string) (signalAborted : bool) (events : list Event)
        (w w' : World) (r : PermissionResult) :
  PermissionHandler.createCanUseToolCallback
    P slackContext toolName input now random signalAborted events w = (Some r, w')
  \/ PermissionHandlerDeadline.createCanUseToolCallback
       P slackContext toolName input now random signalAborted events w = (Some r, w') ->
  behavior r = allow ->
  r = Allow input
  /\ exists v,
      Js.get v "behavior" = Normal (Some (JStr "allow"))
      /\ deposited (approvals w) events
                   (PermissionHandler.approvalFileOf
                      (PermissionHandler.newApprovalId now random))
                   (Document v).
Proof.
  intros [H|H] Hb.
  - apply canUseTool_allow in H as [-> (v & Hv & Hallow)]; [|done].
    split; [done|]. exists v. split; [done|].
    apply origin_006 in Hv as [->|[->|Hv]]; [| |done]; by destruct refusals_deny.
  - apply canUseTool_allow in H as [-> (v & Hv & Hallow)]; [|done].
    split; [done|]. exists v. split; [done|].
    apply origin_005 in Hv as [->|[->|Hv]]; [| |done]; by destruct refusals_deny.
Qed.

Lemma allow_needs_an_allow_record_witness :
  (PermissionHandler.createCanUseToolCallback
     Scenario.platform Scenario.scope "Bash" Scenario.input
     0 "k3j9x0q2a" false Scenario.approveEdited Scenario.world).1
  = Some (Allow Scenario.input)
  /\ behavior (Allow Scenario.input) = allow
  /\ exists v,
      Js.get v "behavior" = Normal (Some (JStr "allow"))
      /\ deposited (approvals Scenario.world) Scenario.approveEdited
                   (PermissionHandler.approvalFileOf
                      (PermissionHandler.newApprovalId 0 "k3j9x0q2a"))
                   (Document v).
Proof.
  split; [vm_compute; reflexivity|]. split; [reflexivity|].
  refine (proj2 (allow_needs_an_allow_record
                   Scenario.platform Scenario.scope "Bash" Scenario.input
                   0 "k3j9x0q2a" false Scenario.approveEdited Scenario.world
                   (PermissionHandler.createCanUseToolCallback
                      Scenario.platform Scenario.scope "Bash" Scenario.input
                      0 "k3j9x0q2a" false Scenario.approveEdited Scenario.world).2
                   (Allow Scenario.input) (or_introl _) eq_refl)).
  vm_compute. reflexivity.
Defined.

(** X19. A wait touches no file but its own: in either handler, the
    file of any other name holds after the wait what it held before,
    as long as no event of the wait has written to it. *)
Theorem wait_touches_only_its_own_file
        (approvalId : string) (startTime : Z) (events : list Event)
        (d : gmap string FileContent) (g : string) :
  g <> PermissionHandler.approvalFileOf approvalId ->
  Forall (sparing g) events ->
  Wait.dir (PermissionHandler.waitForApproval approvalId false startTime events d) !! g
  = d !! g
  /\ Wait.dir (PermissionHandlerDeadline.waitForApproval approvalId false startTime
                 events d) !! g
     = d !! g.
Proof.
  intros Hg Hev. split.
  - unfold PermissionHandler.waitForApproval.
    rewrite (other_files_kept _ _ never (step_part_006 _));
      [|done|apply start_006_ok|done].
    apply (start_dir approvalId d); [apply start_part_006|done].
  - unfold PermissionHandlerDeadline.waitForApproval.
    rewrite (other_files_kept _ _ (pastDeadline startTime) (step_part_005 startTime _));
      [|done|apply start_005_ok|done].
    apply (start_dir approvalId d); [apply start_part_005|done].
Qed.

Lemma wait_touches_only_its_own_file_witness :
  "approval_7_zzzzzzzzz.json" <> PermissionHandler.approvalFileOf Scenario.ticket
  /\ Forall (sparing "approval_7_zzzzzzzzz.json") Scenario.approveEdited
  /\ Wait.dir (PermissionHandler.waitForApproval Scenario.ticket false 0
                 Scenario.approveEdited
                 {[ "approval_7_zzzzzzzzz.json" := Document Scenario.approved ]})
       !! "approval_7_zzzzzzzzz.json"
     = ({[ "approval_7_zzzzzzzzz.json" := Document Scenario.approved ]}
          : gmap string FileContent) !! "approval_7_zzzzzzzzz.json".
Proof.
  assert ("approval_7_zzzzzzzzz.json" <> PermissionHandler.approvalFileOf Scenario.ticket)
    as H by (vm_compute; discriminate).
  assert (Forall (sparing "approval_7_zzzzzzzzz.json") Scenario.approveEdited) as H'.
  { repeat constructor. vm_compute. discriminate. }
  split; [exact H|]. split; [exact H'|].
  exact (proj1 (wait_touches_only_its_own_file Scenario.ticket 0 Scenario.approveEdited
                  {[ "approval_7_zzzzzzzzz.json" := Document Scenario.approved ]}
                  "approval_7_zzzzzzzzz.json" H H')).
Defined.

(** X20. An approval file that does not parse is no answer: polls on
    time leave the wait pending and the file in place, in either
    handler.  Only the deadline of the handler of part_005 removes it;
    the handler of part_006 polls it for ever. *)
Theorem unreadable_record_is_ignored
        (approvalId : string) (startTime : Z) (events : list Event)
        (d : gmap string FileContent) (raw : string) :
  d !! PermissionHandler.approvalFileOf approvalId = Some (Malformed raw) ->
  (Forall isTimer events ->
   Wait.settled (PermissionHandler.waitForApproval approvalId false startTime events d)
   = None
   /\ Wait.dir (PermissionHandler.waitForApproval approvalId false startTime events d) = d)
  /\ (Forall (withinDeadline startTime) events ->
      Wait.settled (PermissionHandlerDeadline.waitForApproval approvalId false startTime
                      events d) = None
      /\ Wait.dir (PermissionHandlerDeadline.waitForApproval approvalId false startTime
                     events d) = d).
Proof.
  intros Hf. split; intros Hev.
  - unfold PermissionHandler.waitForApproval.
    pose proof (start_part_006 (PermissionHandler.approvalFileOf approvalId) startTime d)
      as H0.
    unfold startSpec in H0. rewrite Hf in H0. destruct H0 as [Hw Hd].
    destruct (unreadable_file_ignored
                (PermissionHandler.checkApproval (PermissionHandler.approvalFileOf approvalId))
                (PermissionHandler.approvalFileOf approvalId) never
                (step_part_006 _) raw events _ Hw) as [H1 H2].
    + by rewrite Hd.
    + eapply Forall_impl; [exact Hev|]. by intros [| |].
    + split; [apply H1|]. by rewrite H2.
  - unfold PermissionHandlerDeadline.waitForApproval.
    pose proof (start_part_005 (PermissionHandler.approvalFileOf approvalId) startTime d)
      as H0.
    unfold startSpec in H0. rewrite Hf in H0. destruct H0 as [Hw Hd].
    destruct (unreadable_file_ignored
                (PermissionHandlerDeadline.checkApproval
                   startTime (PermissionHandler.approvalFileOf approvalId))
                (PermissionHandler.approvalFileOf approvalId) (pastDeadline startTime)
                (step_part_005 startTime _) raw events _ Hw) as [H1 H2].
    + by rewrite Hd.
    + eapply Forall_impl; [exact Hev|]. intros [now| |]; simpl; try done.
      intros Hnow. unfold pastDeadline. rewrite Z.gtb_ltb. apply Z.ltb_ge. lia.
    + split; [apply H1|]. by rewrite H2.
Qed.

Lemma unreadable_record_is_ignored_witness :
  ({[ Scenario.ticketFile := Malformed "{ behavior: " ]} : gmap string FileContent)
    !! PermissionHandler.approvalFileOf Scenario.ticket = Some (Malformed "{ behavior: ")
  /\ Forall isTimer Scenario.tenMinutesOfPolls
  /\ Wait.settled (PermissionHandler.waitForApproval Scenario.ticket false 0
                     Scenario.tenMinutesOfPolls
                     {[ Scenario.ticketFile := Malformed "{ behavior: " ]}) = None.
Proof.
  assert (({[ Scenario.ticketFile := Malformed "{ behavior: " ]}
             : gmap string FileContent)
            !! PermissionHandler.approvalFileOf Scenario.ticket
          = Some (Malformed "{ behavior: ")) as H by apply lookup_singleton_eq.
  assert (Forall isTimer Scenario.tenMinutesOfPolls) as H'.
  { unfold Scenario.tenMinutesOfPolls. apply List.Forall_forall. intros e He.
    apply in_map_iff in He as (k & <- & _). exact I. }
  split; [exact H|]. split; [exact H'|].
  exact (proj1 (proj1 (unreadable_record_is_ignored Scenario.ticket 0
                         Scenario.tenMinutesOfPolls _ "{ behavior: " H) H')).
Defined.

(** X21. A signal that is already aborted when the wait starts leaves
    the wait without a poll and without an abort event to come: it
    never settles, whatever happens, and the callback of either
    handler never returns. *)
Theorem aborted_signal_never_settles
        (P : Platform) (slackContext : SlackContext) (toolName : string) (input : ToolInput)
        (now : Z) (random : string) (events : list Event) (w : World)
        (result : Slack.PostResult) :
  postMessage P (PermissionHandler.requestMessage P slackContext toolName input
                   (PermissionHandler.newApprovalId now random)) = Normal result ->
  (PermissionHandler.createCanUseToolCallback
     P slackContext toolName input now random true events w).1 = None
  /\ (PermissionHandlerDeadline.createCanUseToolCallback
        P slackContext toolName input now random true events w).1 = None.
Proof.
  intros Hpost.
  unfold PermissionHandler.createCanUseToolCallback,
    PermissionHandlerDeadline.createCanUseToolCallback, PermissionHandler.canUseTool.
  rewrite Hpost. simpl approvals.
  by rewrite preaborted_006, preaborted_005.
Qed.

Lemma aborted_signal_never_settles_witness :
  postMessage Scenario.platform
    (PermissionHandler.requestMessage Scenario.platform Scenario.scope "Bash" Scenario.input
       (PermissionHandler.newApprovalId 0 "k3j9x0q2a"))
  = Normal {| Slack.ts := Some "1700000000.000100"; Slack.res_channel := Some "C0123" |}
  /\ (PermissionHandlerDeadline.createCanUseToolCallback
        Scenario.platform Scenario.scope "Bash" Scenario.input
        0 "k3j9x0q2a" true (Scenario.approveEdited ++ Scenario.tenMinutesOfPolls)
        Scenario.world).1 = None.
Proof.
  split; [reflexivity|].
  exact (proj2 (aborted_signal_never_settles
                  Scenario.platform Scenario.scope "Bash" Scenario.input
                  0 "k3j9x0q2a" (Scenario.approveEdited ++ Scenario.tenMinutesOfPolls)
                  Scenario.world _ eq_refl)).
Defined.

(** X22. A notification that cannot be updated turns every answer
    into a refusal: when the platform has returned a timestamp for the
    request and then rejects the update, the callback returns the
    refusal [Error occurred while requesting permission] for whatever
    readable response the wait has settled with, an approval
    included. *)
Theorem failed_update_refuses
        (wait : string -> bool -> Z -> list Event -> gmap string FileContent -> Wait.State)
        (P : Platform) (slackContext : SlackContext) (toolName : string) (input : ToolInput)
        (now : Z) (random : string) (signalAborted : bool) (events : list Event) (w : World)
        (result : Slack.PostResult) (t : string) (response : JsValue) :
  postMessage P (PermissionHandler.requestMessage P slackContext toolName input
                   (PermissionHandler.newApprovalId now random)) = Normal result ->
  Slack.ts result = Some t -> t <> "" ->
  (forall u, exists e, chatUpdate P u = Throw e) ->
  Wait.settled (wait (PermissionHandler.newApprovalId now random) signalAborted now events
                     (approvals w)) = Some response ->
  (PermissionHandler.canUseTool wait P slackContext toolName input
                                now random signalAborted events w).1
  = Some PermissionHandler.errorResult.
Proof.
  intros Hpost Hts Ht Hupd Hs. unfold PermissionHandler.canUseTool.
  rewrite Hpost. simpl approvals. rewrite Hs, Hts.
  destruct (String.eqb_spec t ""); [done|].
  destruct (Js.get response "behavior") as [b|e]; [|done].
  by destruct (Hupd (PermissionHandler.outcomeMessage P result t toolName input
                       (Js.isStr b "allow"))) as [e ->].
Qed.

Lemma failed_update_refuses_witness :
  postMessage Scenario.stalePlatform
    (PermissionHandler.requestMessage Scenario.stalePlatform
       Scenario.scope "Bash" Scenario.input (PermissionHandler.newApprovalId 0 "k3j9x0q2a"))
  = Normal {| Slack.ts := Some "1700000000.000100"; Slack.res_channel := Some "C0123" |}
  /\ "1700000000.000100" <> ""
  /\ (forall u, exists e, chatUpdate Scenario.stalePlatform u = Throw e)
  /\ Wait.settled (PermissionHandler.waitForApproval
                     (PermissionHandler.newApprovalId 0 "k3j9x0q2a") false 0
                     Scenario.approveEdited (approvals Scenario.world))
     = Some Scenario.approvedWithEdit
  /\ (PermissionHandler.canUseTool PermissionHandler.waitForApproval
        Scenario.stalePlatform Scenario.scope "Bash" Scenario.input
        0 "k3j9x0q2a" false Scenario.approveEdited Scenario.world).1
     = Some PermissionHandler.errorResult.
Proof.
  split; [reflexivity|]. split; [discriminate|].
  assert (forall u, exists e, chatUpdate Scenario.stalePlatform u = Throw e) as Hu
      by (intros u; by eexists).
  assert (Wait.settled (PermissionHandler.waitForApproval
                          (PermissionHandler.newApprovalId 0 "k3j9x0q2a") false 0
                          Scenario.approveEdited (approvals Scenario.world))
          = Some Scenario.approvedWithEdit) as H by (vm_compute; reflexivity).
  split; [exact Hu|]. split; [exact H|].
  refine (failed_update_refuses PermissionHandler.waitForApproval Scenario.stalePlatform
            Scenario.scope "Bash" Scenario.input 0 "k3j9x0q2a" false
            Scenario.approveEdited Scenario.world
            {| Slack.ts := Some "1700000000.000100"; Slack.res_channel := Some "C0123" |}
            "1700000000.000100" Scenario.approvedWithEdit eq_refl eq_refl _ Hu H).
  discriminate.
Defined.

(** ** The wait of the MCP permission server *)

Section McpServer.
Import PermissionMCPServer.
Variable startTime : Z.
Variable f : string.

Lemma mcp_step (e : Event) (st : Wait.State) :
  polled st ->
  match e with
  | Timer now =>
      if pastDeadline startTime now
      then Wait.settled (Wait.step (checkApproval startTime f) e st) = Some timeoutRefusal
           /\ Wait.dir (Wait.step (checkApproval startTime f) e st)
              = delete f (Wait.dir st)
      else match Wait.dir st !! f with
           | Some (Document v) =>
               Wait.settled (Wait.step (checkApproval startTime f) e st) = Some v
               /\ Wait.dir (Wait.step (checkApproval startTime f) e st)
                  = delete f (Wait.dir st)
           | _ => polled (Wait.step (checkApproval startTime f) e st)
                  /\ Wait.dir (Wait.step (checkApproval startTime f) e st) = Wait.dir st
           end
  | Abort => polled (Wait.step (checkApproval startTime f) e st)
             /\ Wait.dir (Wait.step (checkApproval startTime f) e st) = Wait.dir st
  | Deposit g c => polled (Wait.step (checkApproval startTime f) e st)
                   /\ Wait.dir (Wait.step (checkApproval startTime f) e st)
                      = <[g := c]> (Wait.dir st)
  end.
Proof.
  intros (Ht & Hl & Hs). destruct e as [now| |g c]; simpl.
  - rewrite Ht. unfold checkApproval, pastDeadline. simpl.
    change timeout with PermissionHandlerDeadline.timeout.
    destruct (now - startTime >? PermissionHandlerDeadline.timeout)%Z; simpl.
    + by rewrite Hs.
    + destruct (Wait.dir st !! f) as [[v|raw]|]; simpl; rewrite ?Hs; by repeat split.
  - rewrite Hl. destruct (Wait.aborted st); by repeat split.
  - by repeat split.
Qed.

Lemma mcp_start (d : gmap string FileContent) :
  let st0 := checkApproval startTime f startTime
               {| Wait.resolved := false; Wait.timerArmed := false;
                  Wait.listening := false; Wait.aborted := false; Wait.pollCount := 0;
                  Wait.settled := None; Wait.dir := d |} in
  polled st0 \/ Wait.settled st0 <> None.
Proof.
  unfold checkApproval. simpl.
  replace (startTime - startTime >? timeout)%Z with false
    by (symmetry; rewrite Z.gtb_ltb; apply Z.ltb_ge; unfold timeout; lia).
  destruct (d !! f) as [[v|raw]|]; simpl; try (left; by repeat split).
  by right.
Qed.

Lemma mcp_run (events : list Event) (st : Wait.State) :
  polled st \/ Wait.settled st <> None ->
  polled (Wait.run (checkApproval startTime f) events st)
  \/ Wait.settled (Wait.run (checkApproval startTime f) events st) <> None.
Proof.
  revert st. induction events as [|e events IH]; intros st H; [done|].
  destruct H as [Hp|Hs]; [|rewrite run_settled by done; by right].
  rewrite run_cons_pending by apply Hp. apply IH.
  pose proof (mcp_step e st Hp) as H. destruct e as [now| |g c].
  - destruct (pastDeadline startTime now); [right; by rewrite (proj1 H)|].
    destruct (Wait.dir st !! f) as [[v|raw]|]; try (left; tauto).
    right. by rewrite (proj1 H).
  - left. tauto.
  - left. tauto.
Qed.

End McpServer.

(** X23. The wait of the MCP server is bounded and cannot be cut short:
    no wait stays pending past a poll that fires later than five
    minutes after its start; a wait still pending then is settled by
    that poll with the refusal [Permission request timed out], the
    approval file being deleted; before that, a record deposited in
    the approval file is what the next poll on time settles the wait
    with, unchanged. *)
Theorem mcp_wait_is_bounded
        (approvalId : string) (startTime now : Z) (before after : list Event)
        (d : gmap string FileContent) :
  ((now - startTime > PermissionMCPServer.timeout)%Z ->
   Wait.settled (PermissionMCPServer.waitForApproval approvalId startTime
                   (before ++ Timer now :: after) d) <> None
   /\ (Wait.settled (PermissionMCPServer.waitForApproval approvalId startTime before d)
       = None ->
       Wait.settled (PermissionMCPServer.waitForApproval approvalId startTime
                       (before ++ Timer now :: after) d) = Some timeoutRefusal
       /\ Wait.dir (PermissionMCPServer.waitForApproval approvalId startTime
                      (before ++ Timer now :: after) d) !! (approvalId +:+ ".json")
          = None))
  /\ (forall v,
         (now - startTime <= PermissionMCPServer.timeout)%Z ->
         Wait.settled (PermissionMCPServer.waitForApproval approvalId startTime before d)
         = None ->
         Wait.settled (PermissionMCPServer.waitForApproval approvalId startTime
                         (before ++ Deposit (approvalId +:+ ".json") (Document v)
                                 :: Timer now :: after) d) = Some v).
Proof.
  unfold PermissionMCPServer.waitForApproval.
  set (f := approvalId +:+ ".json").
  set (st0 := PermissionMCPServer.checkApproval startTime f startTime _).
  assert (polled st0 \/ Wait.settled st0 <> None) as H0 by apply mcp_start.
  assert (Wait.settled (Wait.run (PermissionMCPServer.checkApproval startTime f) before st0)
          = None ->
          polled (Wait.run (PermissionMCPServer.checkApproval startTime f) before st0))
    as Hp.
  { intros Hs. destruct (mcp_run startTime f before st0 H0) as [H|H]; [done|].
    by rewrite Hs in H. }
  split.
  - intros Hnow.
    assert (pastDeadline startTime now = true) as Hl.
    { unfold pastDeadline. rewrite Z.gtb_ltb. apply Z.ltb_lt.
      change PermissionHandlerDeadline.timeout with PermissionMCPServer.timeout. lia. }
    assert (Wait.settled (Wait.run (PermissionMCPServer.checkApproval startTime f)
                            before st0) = None ->
            Wait.settled (Wait.run (PermissionMCPServer.checkApproval startTime f)
                            (before ++ Timer now :: after) st0) = Some timeoutRefusal
            /\ Wait.dir (Wait.run (PermissionMCPServer.checkApproval startTime f)
                           (before ++ Timer now :: after) st0) !! f = None) as Hlate.
    { intros Hs. rewrite run_app, run_cons_pending by done.
      pose proof (mcp_step startTime f (Timer now) _ (Hp Hs)) as H.
      cbv beta iota in H. rewrite Hl in H. destruct H as [H1 H2].
      rewrite run_settled by (by rewrite H1). rewrite H1, H2.
      by rewrite lookup_delete_eq. }
    split; [|exact Hlate].
    destruct (Wait.settled (Wait.run (PermissionMCPServer.checkApproval startTime f)
                              before st0)) as [v|] eqn:Hs.
    + rewrite run_app, run_settled by (by rewrite Hs). by rewrite Hs.
    + by rewrite (proj1 (Hlate eq_refl)).
  - intros v Hnow Hs.
    assert (pastDeadline startTime now = false) as Hl.
    { unfold pastDeadline. rewrite Z.gtb_ltb. apply Z.ltb_ge.
      change PermissionHandlerDeadline.timeout with PermissionMCPServer.timeout. lia. }
    rewrite run_app, run_cons_pending by done.
    pose proof (mcp_step startTime f (Deposit f (Document v)) _ (Hp Hs)) as [Hp1 Hd1].
    rewrite run_cons_pending by apply Hp1.
    pose proof (mcp_step startTime f (Timer now) _ Hp1) as H.
    cbv beta iota in H. rewrite Hl, Hd1, lookup_insert_eq in H. destruct H as [H1 _].
    rewrite run_settled; [exact H1|]. by rewrite H1.
Qed.

Lemma mcp_wait_is_bounded_witness :
  (300500 - 0 > PermissionMCPServer.timeout)%Z
  /\ Wait.settled (PermissionMCPServer.waitForApproval Scenario.ticket 0
                     ([Deposit Scenario.ticketFile (Malformed "{"); Timer 300000] ++
                      Timer 300500 :: []) ∅) <> None.
Proof.
  assert (300500 - 0 > PermissionMCPServer.timeout)%Z as H
      by (unfold PermissionMCPServer.timeout; lia).
  split; [exact H|].
  exact (proj1 (proj1 (mcp_wait_is_bounded Scenario.ticket 0 300500
                         [Deposit Scenario.ticketFile (Malformed "{"); Timer 300000]
                         [] ∅) H)).
Defined.

(** ** The classifier: fragments and boundaries *)

Section Fragments.
Import JsString Regex DangerClassifier.

(** A pattern without assertions matches a text wherever the text
    stands. *)
Lemma lang_context (icase : bool) (r : regex) (b m a : list ascii) :
  lang icase r b m a -> anchorFree r = true ->
  forall b' a', lang icase r b' m a'.
Proof.
  induction 1 as [ | | | | r1 r2 b m1 m2 a H1 IH1 H2 IH2 | r1 r2 b m a H IH
                   | r1 r2 b m a H IH | | r b m1 m2 a H1 IH1 H2 IH2 ];
    simpl; intros Hf b' a'; try done.
  - constructor.
  - by constructor.
  - apply andb_true_iff in Hf as [Hf1 Hf2]. apply L_seq; auto.
  - apply andb_true_iff in Hf as [Hf1 Hf2]. apply L_alt_l; auto.
  - apply andb_true_iff in Hf as [Hf1 Hf2]. apply L_alt_r; auto.
  - constructor.
  - apply L_star_more; auto.
Qed.

Lemma test_context (icase : bool) (r : regex) (fragment pre post : string) :
  anchorFree r = true -> test icase r fragment = true ->
  test icase r (pre +:+ fragment +:+ post) = true.
Proof.
  intros Hf Ht. apply test_iff in Ht as (b & m & a & Hc & Hl).
  apply test_iff. exists (chars pre ++ b)%list, m, (a ++ chars post)%list. split.
  - rewrite !chars_append, Hc. by rewrite <- !app_assoc.
  - by eapply lang_context.
Qed.

End Fragments.

(** X24. Twenty of the twenty-five patterns of the catalogue look for a
    fragment anywhere in the command: a shell command that contains a
    text flagged by one of them, with anything before and after it, is
    dangerous, and Auto mode's classifier refuses it. *)
Theorem flagged_fragment_taints_the_command
        (pattern fragment pre post cwd : string) (workingDirectory : option string) :
  In pattern fragmentPatterns ->
  Regex.test false (Regex.re pattern) fragment = true ->
  DangerClassifier.dangerous
    (DangerClassifier.isDangerousBashCommand (pre +:+ fragment +:+ post)) = true
  /\ exists why,
      DangerClassifier.checkAutoModeSafety
        cwd "Bash" [("command", JStr (pre +:+ fragment +:+ post))] workingDirectory
      = Normal {| DangerClassifier.safe := false; DangerClassifier.reason := Some why |}.
Proof.
  intros Hin Ht. unfold fragmentPatterns in Hin.
  apply filter_In in Hin as [Hin Hf].
  assert (DangerClassifier.dangerous
            (DangerClassifier.isDangerousBashCommand (pre +:+ fragment +:+ post)) = true)
    as Hd.
  { apply firstMatch_dangerous. exists pattern. split; [done|]. by apply test_context. }
  split; [done|].
  unfold DangerClassifier.checkAutoModeSafety.
  change (String.eqb "Bash" "Bash") with true.
  change (Js.prop [("command", JStr (pre +:+ fragment +:+ post))] "command")
    with (Some (JStr (pre +:+ fragment +:+ post))).
  cbv beta iota zeta. rewrite Hd.
  unfold DangerClassifier.isDangerousBashCommand in *.
  destruct (firstMatch_reason _ _ Hd) as (why & -> & _). eauto.
Qed.

Lemma flagged_fragment_taints_the_command_witness :
  List.length fragmentPatterns = 20%nat
  /\ In "sudo\s+" fragmentPatterns
  /\ Regex.test false (Regex.re "sudo\s+") "sudo " = true
  /\ DangerClassifier.dangerous
       (DangerClassifier.isDangerousBashCommand
          ("cd /tmp && " +:+ "sudo " +:+ "make install")) = true.
Proof.
  assert (In "sudo\s+" fragmentPatterns) as H by (vm_compute; tauto).
  assert (Regex.test false (Regex.re "sudo\s+") "sudo " = true) as H'
      by (vm_compute; reflexivity).
  split; [vm_compute; reflexivity|]. split; [exact H|]. split; [exact H'|].
  exact (proj1 (flagged_fragment_taints_the_command
                  "sudo\s+" "sudo " "cd /tmp && " "make install" "/" None H H')).
Defined.

Section Boundary.
Import JsString Path.

Lemma splitSlash_joinSlash (segs : list (list ascii)) :
  segs <> [] -> Forall plain segs -> splitSlash (joinSlash segs) [] = segs.
Proof.
  intros Hne Hp. induction Hp as [|s segs Hs Hp IH]; [done|].
  destruct segs as [|s' segs].
  - simpl. rewrite <- (app_nil_r s) at 1.
    rewrite splitSlash_plain by apply Hs. simpl.
    by rewrite app_nil_r, rev_involutive.
  - change (joinSlash (s :: s' :: segs))
      with (s ++ slash :: joinSlash (s' :: segs))%list.
    rewrite splitSlash_segment by apply Hs. by rewrite IH.
Qed.

Lemma prefixChars_true (p l : list ascii) :
  prefixChars p l = true -> exists rest, l = (p ++ rest)%list.
Proof.
  revert l. induction p as [|a p IH]; intros l H; [by exists l|].
  destruct l as [|b l]; [done|]. simpl in H.
  destruct (ascii_dec a b) as [->|]; [|done].
  destruct (IH l H) as [rest ->]. by exists rest.
Qed.

(** An absolute target is resolved by itself. *)
Lemma resolve_absolute (cwd boundary : string) (fsegs : list (list ascii)) :
  fsegs <> [] -> Forall plain fsegs ->
  resolve cwd [boundary; absPath fsegs] = absPath fsegs.
Proof.
  intros Hne Hp. rewrite <- (resolve_boundary cwd fsegs) at 2 by done.
  unfold resolve, absPath. cbn [rev app map]. rewrite !chars_str.
  cbn [gather]. by destruct (ascii_dec slash slash).
Qed.

(** Between plain absolute paths, the boundary test compares the
    segments, not the characters. *)
Lemma within_iff_extends (cwd : string) (bsegs fsegs : list (list ascii)) :
  bsegs <> [] -> Forall plain bsegs -> fsegs <> [] -> Forall plain fsegs ->
  DangerClassifier.isWithinWorkingDirectory cwd (absPath fsegs) (absPath bsegs) = true
  <-> exists more, fsegs = (bsegs ++ more)%list.
Proof.
  intros Hb Hpb Hf Hpf. unfold DangerClassifier.isWithinWorkingDirectory.
  rewrite resolve_absolute, resolve_boundary by done.
  rewrite orb_true_iff. unfold startsWith, absPath, sep.
  rewrite chars_append, !chars_str. change (chars "/") with [slash].
  split.
  - intros [H|H].
    + apply prefixChars_true in H as [rest H].
      simpl in H. injection H as H. rewrite <- app_assoc in H. simpl in H.
      apply (f_equal (fun l => splitSlash l [])) in H.
      rewrite splitSlash_joinSlash, splitSlash_join in H by done. eauto.
    + apply String.eqb_eq in H. apply (f_equal chars) in H.
      rewrite !chars_str in H. injection H as H.
      apply (f_equal (fun l => splitSlash l [])) in H.
      rewrite !splitSlash_joinSlash in H by done.
      exists []. by rewrite app_nil_r.
  - intros [more ->]. destruct more as [|s more].
    + right. rewrite app_nil_r. apply String.eqb_refl.
    + left. rewrite joinSlash_app by done.
      change (slash :: (joinSlash bsegs ++ slash :: joinSlash (s :: more)))%list
        with ((slash :: joinSlash bsegs) ++ [slash] ++ joinSlash (s :: more))%list.
      rewrite app_assoc. apply prefixChars_app.
Qed.

End Boundary.

(** X25. For a file tool, a plain absolute target and a plain absolute
    boundary, the classifier compares the paths segment by segment:
    the action is safe exactly when the segments of the target start
    with all the segments of the boundary.  A sibling directory whose
    name merely starts like the boundary's last segment is outside. *)
Theorem absolute_target_is_safe_iff_it_extends_the_boundary
        (cwd toolName : string) (bsegs fsegs : list (list ascii)) (other : ToolInput) :
  DangerClassifier.isFileTool toolName = true ->
  bsegs <> [] -> Forall plain bsegs -> fsegs <> [] -> Forall plain fsegs ->
  exists sc,
    DangerClassifier.checkAutoModeSafety
      cwd toolName (("file_path", JStr (absPath fsegs)) :: other) (Some (absPath bsegs))
    = Normal sc
    /\ (DangerClassifier.safe sc = true <-> exists more, fsegs = (bsegs ++ more)%list).
Proof.
  intros Htool Hb Hpb Hf Hpf.
  pose proof (within_iff_extends cwd bsegs fsegs Hb Hpb Hf Hpf) as Hw.
  unfold DangerClassifier.checkAutoModeSafety, DangerClassifier.fileCheck.
  assert (String.eqb toolName "Bash" = false) as ->.
  { unfold DangerClassifier.isFileTool in Htool.
    destruct (String.eqb_spec toolName "Bash") as [->|]; [|done]. done. }
  cbv beta iota zeta. cbn [DangerClassifier.dangerous]. rewrite Htool.
  change (Js.prop (("file_path", JStr (absPath fsegs)) :: other) "file_path")
    with (Some (JStr (absPath fsegs))).
  assert (JsString.truthy (Some (absPath bsegs)) = true) as -> by reflexivity.
  assert (String.eqb (absPath fsegs) "" = false) as -> by reflexivity.
  cbn [andb negb].
  destruct (DangerClassifier.isWithinWorkingDirectory cwd (absPath fsegs) (absPath bsegs));
    eexists; (split; [reflexivity|]); simpl.
  - tauto.
  - split; [done|]. intros H. apply Hw in H. done.
Qed.

Ltac plain_segment :=
  unfold plain; split; [discriminate|split; [simpl; intuition discriminate|split; reflexivity]].

Lemma absolute_target_is_safe_iff_it_extends_the_boundary_witness :
  DangerClassifier.isFileTool "Edit" = true
  /\ Forall plain [JsString.chars "srv"; JsString.chars "app"]
  /\ Forall plain [JsString.chars "srv"; JsString.chars "app-old"; JsString.chars "x.ts"]
  /\ exists sc,
      DangerClassifier.checkAutoModeSafety
        "/" "Edit" [("file_path", JStr "/srv/app-old/x.ts")] (Some "/srv/app")
      = Normal sc
      /\ (DangerClassifier.safe sc = true
          <-> exists more,
            [JsString.chars "srv"; JsString.chars "app-old"; JsString.chars "x.ts"]
            = ([JsString.chars "srv"; JsString.chars "app"] ++ more)%list).
Proof.
  assert (Forall plain [JsString.chars "srv"; JsString.chars "app"]) as H1
      by (constructor; [plain_segment|]; constructor; [plain_segment|]; constructor).
  assert (Forall plain [JsString.chars "srv"; JsString.chars "app-old";
                        JsString.chars "x.ts"]) as H2
      by (constructor; [plain_segment|]; constructor; [plain_segment|];
          constructor; [plain_segment|]; constructor).
  split; [reflexivity|]. split; [exact H1|]. split; [exact H2|].
  exact (absolute_target_is_safe_iff_it_extends_the_boundary
           "/" "Edit" [JsString.chars "srv"; JsString.chars "app"]
           [JsString.chars "srv"; JsString.chars "app-old"; JsString.chars "x.ts"] []
           eq_refl ltac:(discriminate) H1 ltac:(discriminate) H2).
Defined.

(** ** Dated names and the minutes they stand for *)

Section Calendar.
Import JsDate.
Local Open Scope Z_scope.

Lemma yearStart_mono (a b : Z) : a <= b -> yearStart a <= yearStart b.
Proof. unfold yearStart. intros H. Z.div_mod_to_equations; lia. Qed.

Lemma monthStart_mono (a b : Z) : a <= b -> monthStart a <= monthStart b.
Proof. unfold monthStart. intros H. Z.div_mod_to_equations; lia. Qed.

Lemma yoe_tight (doe : Z) :
  0 <= doe < 146097 ->
  let yoe := (doe - doe / 1460 + doe / 36524 - doe / 146096) / 365 in
  doe < 365 * (yoe + 1) + (yoe + 1) / 4 - (yoe + 1) / 100 + (yoe + 1) / 400.
Proof. intros H. cbv zeta. Z.div_mod_to_equations; lia. Qed.

Lemma mp_tight (doy : Z) :
  0 <= doy <= 365 ->
  let mp := (5 * doy + 2) / 153 in
  0 <= mp <= 11 /\ (153 * mp + 2) / 5 <= doy < (153 * (mp + 1) + 2) / 5.
Proof. intros H. cbv zeta. Z.div_mod_to_equations; lia. Qed.

(** The date of a day number, by the year and the month counted from
    1 March: [Y] is that year, [mp] that month. *)
Lemma civil_coordinates (z : Z) :
  let '(y, m, d) := civilFromDays z in
  exists Y mp,
    0 <= mp <= 11 /\ 1 <= m <= 12 /\ 1 <= d <= 31
    /\ 12 * y + m = 12 * Y + mp + 3
    /\ z + 719468 = yearStart Y + monthStart mp + d - 1
    /\ monthStart mp + d - 1 < monthStart (mp + 1)
    /\ z + 719468 < yearStart (Y + 1).
Proof.
  unfold civilFromDays, civilOfDoe.
  set (z' := z + 719468). set (era := z' / 146097). set (doe := z' mod 146097).
  assert (0 <= doe < 146097) as Hdoe by (apply Z.mod_pos_bound; lia).
  assert (z' = era * 146097 + doe) as Hz
      by (unfold era, doe; pose proof (Z.div_mod z' 146097); lia).
  pose proof (yoe_bounds doe Hdoe) as [Hy Hdoy]. cbv zeta in Hy, Hdoy.
  pose proof (yoe_tight doe Hdoe) as Ht. cbv zeta in Ht.
  set (yoe := (doe - doe / 1460 + doe / 36524 - doe / 146096) / 365) in *.
  set (doy := doe - (365 * yoe + yoe / 4 - yoe / 100)) in *.
  pose proof (mp_tight doy Hdoy) as [Hmp Hm]. cbv zeta in Hmp, Hm.
  set (mp := (5 * doy + 2) / 153) in *.
  exists (yoe + era * 400), mp.
  assert (yearStart (yoe + era * 400) = era * 146097 + (365 * yoe + yoe / 4 - yoe / 100))
    as HS by (unfold yearStart; Z.div_mod_to_equations; lia).
  assert (yearStart (yoe + era * 400 + 1)
          = era * 146097
            + (365 * (yoe + 1) + (yoe + 1) / 4 - (yoe + 1) / 100 + (yoe + 1) / 400))
    as HS' by (unfold yearStart; Z.div_mod_to_equations; lia).
  assert (doy = doe - (365 * yoe + yoe / 4 - yoe / 100)) as Edoy by reflexivity.
  assert (z' = z + 719468) as Ez by reflexivity.
  unfold monthStart. clearbody mp doy yoe doe era z'.
  destruct (mp <? 10) eqn:E1.
  - apply Z.ltb_lt in E1.
    replace (mp + 3 <=? 2) with false by (symmetry; apply Z.leb_gt; lia).
    repeat split; try lia; Z.div_mod_to_equations; lia.
  - apply Z.ltb_ge in E1.
    replace (mp - 9 <=? 2) with true by (symmetry; apply Z.leb_le; lia).
    repeat split; try lia; Z.div_mod_to_equations; lia.
Qed.

End Calendar.

Section CalendarOrder.
Import JsDate.
Local Open Scope Z_scope.

Lemma monthStart_nonneg (mp : Z) : 0 <= mp -> 0 <= monthStart mp.
Proof. intros H. apply (monthStart_mono 0 mp H). Qed.

(** Later days have later dates. *)
Lemma civil_monotone (z1 z2 : Z) :
  z1 < z2 ->
  let '(y1, m1, d1) := civilFromDays z1 in
  let '(y2, m2, d2) := civilFromDays z2 in
  y1 < y2 \/ (y1 = y2 /\ (m1 < m2 \/ (m1 = m2 /\ d1 < d2))).
Proof.
  intros Hz.
  pose proof (civil_coordinates z1) as H1. pose proof (civil_coordinates z2) as H2.
  destruct (civilFromDays z1) as [[y1 m1] d1]. destruct (civilFromDays z2) as [[y2 m2] d2].
  destruct H1 as (Y1 & mp1 & Hmp1 & Hm1 & Hd1 & Hk1 & Hz1 & Hdoy1 & Hy1).
  destruct H2 as (Y2 & mp2 & Hmp2 & Hm2 & Hd2 & Hk2 & Hz2 & Hdoy2 & Hy2).
  pose proof (monthStart_nonneg mp1 (proj1 Hmp1)) as N1.
  pose proof (monthStart_nonneg mp2 (proj1 Hmp2)) as N2.
  assert (Y1 <= Y2) as HY.
  { destruct (Z_le_gt_dec Y1 Y2) as [|Hgt]; [done|].
    pose proof (yearStart_mono (Y2 + 1) Y1 ltac:(lia)). lia. }
  destruct (Z.eq_dec Y1 Y2) as [->|HneY]; [|lia].
  assert (mp1 <= mp2) as HM.
  { destruct (Z_le_gt_dec mp1 mp2) as [|Hgt]; [done|].
    pose proof (monthStart_mono (mp2 + 1) mp1 ltac:(lia)). lia. }
  destruct (Z.eq_dec mp1 mp2) as [->|HneM]; lia.
Qed.

(** The years of four digits. *)
Lemma year_range (z : Z) :
  -719528 <= z < 2932897 ->
  let '(y, m, d) := civilFromDays z in 0 <= y <= 9999.
Proof.
  intros Hz. pose proof (civil_coordinates z) as H.
  destruct (civilFromDays z) as [[y m] d].
  destruct H as (Y & mp & Hmp & Hm & Hd & Hk & Hzz & Hdoy & Hy).
  pose proof (monthStart_nonneg mp (proj1 Hmp)) as N.
  assert (yearStart (-1) = -366) as S1 by reflexivity.
  assert (yearStart 9999 = 3652059) as S2 by reflexivity.
  assert (yearStart 10000 = 3652425) as S3 by reflexivity.
  assert (monthStart 10 = 306) as M10 by reflexivity.
  assert (-1 <= Y <= 9999) as HY.
  { split.
    - destruct (Z_le_gt_dec (-1) Y) as [|Hgt]; [done|].
      pose proof (yearStart_mono (Y + 1) (-1) ltac:(lia)). lia.
    - destruct (Z_le_gt_dec Y 9999) as [|Hgt]; [done|].
      pose proof (yearStart_mono 10000 Y ltac:(lia)). lia. }
  destruct (Z.eq_dec Y (-1)) as [->|Hlo].
  - assert (10 <= mp).
    { destruct (Z_le_gt_dec 10 mp) as [|Hgt]; [done|].
      pose proof (monthStart_mono (mp + 1) 10 ltac:(lia)).
      change (-1 + 1) with 0 in Hy. lia. }
    lia.
  - destruct (Z.eq_dec Y 9999) as [->|Hhi]; [|lia].
    assert (mp <= 9).
    { destruct (Z_le_gt_dec mp 9) as [|Hgt]; [done|].
      pose proof (monthStart_mono 10 mp ltac:(lia)). lia. }
    lia.
Qed.

(** The day, the hour and the minute of a time value, by its minute. *)
Lemma minute_fields (t : Z) :
  t / msPerDay = minuteOf t / 1440
  /\ (t mod msPerDay) / 3600000 = (minuteOf t mod 1440) / 60
  /\ ((t mod msPerDay) / 60000) mod 60 = minuteOf t mod 60
  /\ 0 <= (t mod msPerDay) / 3600000 <= 23
  /\ 0 <= ((t mod msPerDay) / 60000) mod 60 <= 59
  /\ minuteOf t
     = t / msPerDay * 1440 + (t mod msPerDay) / 3600000 * 60
       + ((t mod msPerDay) / 60000) mod 60.
Proof. unfold msPerDay, minuteOf. repeat split; Z.div_mod_to_equations; lia. Qed.

End CalendarOrder.

Section Stamps.
Import JsString JsDate SessionBackupManager.

Lemma digit_cases (x : Z) (P : Z -> Prop) :
  (0 <= x <= 9)%Z ->
  P 0%Z -> P 1%Z -> P 2%Z -> P 3%Z -> P 4%Z -> P 5%Z -> P 6%Z -> P 7%Z -> P 8%Z -> P 9%Z ->
  P x.
Proof.
  intros H. intros.
  assert (x = 0 \/ x = 1 \/ x = 2 \/ x = 3 \/ x = 4 \/ x = 5 \/ x = 6 \/ x = 7
          \/ x = 8 \/ x = 9)%Z as Hx by lia.
  repeat (destruct Hx as [->|Hx]; [assumption|]). by subst.
Qed.

Lemma dash_digit (x : Z) : (0 <= x <= 9)%Z -> dash (digit x) = digit x.
Proof. intros H. by apply (digit_cases x (fun x => dash (digit x) = digit x)). Qed.

Lemma map_dash_pad (n : nat) (k : Z) : map dash (pad n k) = pad n k.
Proof.
  revert k. induction n as [|n IH]; intros k; [done|]. simpl.
  rewrite map_app, IH. simpl. rewrite dash_digit; [done|].
  pose proof (Z.mod_pos_bound k 10). lia.
Qed.

Lemma length_minuteStamp (y m d h mi : Z) :
  List.length (minuteStamp y m d h mi) = 16%nat.
Proof.
  unfold minuteStamp.
  repeat (rewrite ?length_app, ?length_pad; cbn [List.length]). reflexivity.
Qed.

Lemma chars_timestampedFile (t : Z) :
  chars (timestampedFile t)
  = (chars "sessions-" ++ firstn 16 (map dash (isoChars t)) ++ chars ".json")%list.
Proof.
  unfold timestampedFile, slice0, dashed.
  by rewrite !chars_append, !chars_str.
Qed.

(** The stamp in the name of a time value whose year has four digits. *)
Lemma stamp_of_four_digit_year (t : Z) :
  fourDigitYear t ->
  let '(y, m, d) := civilFromDays (t / msPerDay) in
  (0 <= y <= 9999)%Z
  /\ firstn 16 (map dash (isoChars t))
     = minuteStamp y m d ((t mod msPerDay) / 3600000) (((t mod msPerDay) / 60000) mod 60).
Proof.
  intros Ht. unfold isoChars.
  pose proof (year_range (t / msPerDay)) as Hy.
  destruct (civilFromDays (t / msPerDay)) as [[y m] d].
  assert (0 <= y <= 9999)%Z as Hy'.
  { apply Hy. unfold fourDigitYear, msPerDay in *. Z.div_mod_to_equations; lia. }
  split; [done|].
  unfold yearText.
  replace ((0 <=? y)%Z && (y <=? 9999)%Z) with true
    by (symmetry; apply andb_true_iff; split; apply Z.leb_le; lia).
  set (h := ((t mod msPerDay) / 3600000)%Z).
  set (mi := (((t mod msPerDay) / 60000) mod 60)%Z).
  repeat (rewrite ?map_app, ?map_dash_pad; cbn [map]).
  change (dash "-") with "-"%char. change (dash "T") with "T"%char.
  change (dash ":") with "-"%char. change (dash ".") with "-"%char.
  match goal with
  | |- firstn 16 ?l = _ =>
      replace l with (minuteStamp y m d h mi
                      ++ "-"%char :: pad 2 ((t mod msPerDay / 1000) mod 60)
                      ++ "-"%char :: pad 3 (t mod msPerDay mod 1000) ++ [dash "Z"])%list
  end.
  - apply take_app_length'. by rewrite length_minuteStamp.
  - unfold minuteStamp. by repeat (rewrite <- ?app_assoc; cbn [app]).
Qed.

(** Every name is a function of the minute. *)
Lemma name_of_minute (t1 t2 : Z) :
  minuteOf t1 = minuteOf t2 -> timestampedFile t1 = timestampedFile t2.
Proof.
  intros Hq. apply chars_inj. rewrite !chars_timestampedFile. do 2 f_equal.
  unfold isoChars.
  destruct (minute_fields t1) as (D1 & H1 & M1 & _).
  destruct (minute_fields t2) as (D2 & H2 & M2 & _).
  rewrite D1, D2, Hq.
  destruct (civilFromDays (minuteOf t2 / 1440)) as [[y m] d].
  rewrite H1, H2, M1, M2, Hq.
  set (A := (yearText y ++ "-"%char :: pad 2 m ++ "-"%char :: pad 2 d
             ++ "T"%char :: pad 2 (minuteOf t2 mod 1440 / 60)
             ++ ":"%char :: pad 2 (minuteOf t2 mod 60))%list).
  assert (16 <= List.length A)%nat as HA.
  { unfold A, yearText.
    destruct ((0 <=? y)%Z && (y <=? 9999)%Z); [|destruct (y <? 0)%Z];
      repeat (rewrite ?length_app, ?length_pad; cbn [List.length]); lia. }
  assert (forall rest, firstn 16 (map dash (A ++ rest)) = firstn 16 (map dash A)) as Hcut.
  { intros rest. rewrite map_app, firstn_app, length_map.
    replace (16 - List.length A)%nat with 0%nat by lia. simpl. by rewrite app_nil_r. }
  match goal with
  | |- firstn 16 (map dash ?l1) = firstn 16 (map dash ?l2) =>
      replace l1 with (A ++ ":"%char :: pad 2 ((t1 mod msPerDay / 1000) mod 60)
                         ++ "."%char :: pad 3 (t1 mod msPerDay mod 1000) ++ ["Z"%char])%list
        by (unfold A; by repeat (rewrite <- ?app_assoc; cbn [app]));
      replace l2 with (A ++ ":"%char :: pad 2 ((t2 mod msPerDay / 1000) mod 60)
                         ++ "."%char :: pad 3 (t2 mod msPerDay mod 1000) ++ ["Z"%char])%list
        by (unfold A; by repeat (rewrite <- ?app_assoc; cbn [app]))
  end.
  by rewrite !Hcut.
Qed.

Lemma compare_digit (a b : Z) :
  (0 <= a <= 9)%Z -> (0 <= b <= 9)%Z ->
  Ascii.compare (digit a) (digit b) = (a ?= b)%Z.
Proof.
  intros Ha Hb.
  apply (digit_cases a (fun a => Ascii.compare (digit a) (digit b) = (a ?= b)%Z) Ha);
    by apply (digit_cases b (fun b => Ascii.compare (digit _) (digit b) = (_ ?= b)%Z) Hb).
Qed.

Lemma compare_cons_same (c : ascii) (s1 s2 : string) :
  String.compare (String c s1) (String c s2) = String.compare s1 s2.
Proof. simpl. unfold Ascii.compare. by rewrite N.compare_refl. Qed.

(** Numbers written with the same number of digits compare as their
    texts do. *)
Lemma compare_pad (n : nat) (a b : Z) (r1 r2 : list ascii) :
  (0 <= a < 10 ^ Z.of_nat n)%Z -> (0 <= b < 10 ^ Z.of_nat n)%Z ->
  String.compare (str (pad n a ++ r1)) (str (pad n b ++ r2))
  = match (a ?= b)%Z with
    | Eq => String.compare (str r1) (str r2)
    | Lt => Lt
    | Gt => Gt
    end.
Proof.
  revert a b r1 r2. induction n as [|n IH]; intros a b r1 r2 Ha Hb.
  - simpl in *. assert (a = 0)%Z as -> by lia. assert (b = 0)%Z as -> by lia. done.
  - rewrite Nat2Z.inj_succ, Z.pow_succ_r in Ha, Hb by lia.
    cbn [pad]. rewrite <- !app_assoc. cbn [app].
    rewrite IH by (split; [apply Z.div_pos; lia|apply Z.div_lt_upper_bound; lia]).
    unfold str. cbn [string_of_list_ascii]. cbn [String.compare].
    rewrite compare_digit
      by (pose proof (Z.mod_pos_bound a 10); pose proof (Z.mod_pos_bound b 10); lia).
    destruct (Z.compare_spec (a / 10) (b / 10)) as [H1|H1|H1];
      destruct (Z.compare_spec (a mod 10) (b mod 10)) as [H2|H2|H2];
      destruct (Z.compare_spec a b) as [H3|H3|H3];
      try done; exfalso; Z.div_mod_to_equations; lia.
Qed.

Lemma stamp_lt (y1 m1 d1 h1 mi1 y2 m2 d2 h2 mi2 : Z) (r1 r2 : list ascii) :
  (0 <= y1 <= 9999)%Z -> (1 <= m1 <= 12)%Z -> (1 <= d1 <= 31)%Z ->
  (0 <= h1 <= 23)%Z -> (0 <= mi1 <= 59)%Z ->
  (0 <= y2 <= 9999)%Z -> (1 <= m2 <= 12)%Z -> (1 <= d2 <= 31)%Z ->
  (0 <= h2 <= 23)%Z -> (0 <= mi2 <= 59)%Z ->
  (y1 < y2
   \/ (y1 = y2
       /\ (m1 < m2
           \/ (m1 = m2
               /\ (d1 < d2
                   \/ (d1 = d2 /\ (h1 < h2 \/ (h1 = h2 /\ mi1 < mi2))))))))%Z ->
  String.compare (str (minuteStamp y1 m1 d1 h1 mi1 ++ r1))
                 (str (minuteStamp y2 m2 d2 h2 mi2 ++ r2)) = Lt.
Proof.
  intros Hy1 Hm1 Hd1 Hh1 Hmi1 Hy2 Hm2 Hd2 Hh2 Hmi2 Hlt.
  unfold minuteStamp. repeat (rewrite <- ?app_assoc; cbn [app]).
  assert (10 ^ Z.of_nat 4 = 10000)%Z as P4 by reflexivity.
  rewrite compare_pad by (rewrite ?P4, ?pow10_2; lia).
  destruct (Z.compare_spec y1 y2) as [Ey|Ey|Ey]; [|done|exfalso; lia].
  unfold str at 1 2. cbn [string_of_list_ascii]. rewrite compare_cons_same.
  fold (str (pad 2 m1 ++ "-"%char :: pad 2 d1 ++ "T"%char :: pad 2 h1
             ++ "-"%char :: pad 2 mi1 ++ r1)).
  fold (str (pad 2 m2 ++ "-"%char :: pad 2 d2 ++ "T"%char :: pad 2 h2
             ++ "-"%char :: pad 2 mi2 ++ r2)).
  rewrite compare_pad by (rewrite ?pow10_2; lia).
  destruct (Z.compare_spec m1 m2) as [Em|Em|Em]; [|done|exfalso; lia].
  unfold str at 1 2. cbn [string_of_list_ascii]. rewrite compare_cons_same.
  fold (str (pad 2 d1 ++ "T"%char :: pad 2 h1 ++ "-"%char :: pad 2 mi1 ++ r1)).
  fold (str (pad 2 d2 ++ "T"%char :: pad 2 h2 ++ "-"%char :: pad 2 mi2 ++ r2)).
  rewrite compare_pad by (rewrite ?pow10_2; lia).
  destruct (Z.compare_spec d1 d2) as [Ed|Ed|Ed]; [|done|exfalso; lia].
  unfold str at 1 2. cbn [string_of_list_ascii]. rewrite compare_cons_same.
  fold (str (pad 2 h1 ++ "-"%char :: pad 2 mi1 ++ r1)).
  fold (str (pad 2 h2 ++ "-"%char :: pad 2 mi2 ++ r2)).
  rewrite compare_pad by (rewrite ?pow10_2; lia).
  destruct (Z.compare_spec h1 h2) as [Eh|Eh|Eh]; [|done|exfalso; lia].
  unfold str at 1 2. cbn [string_of_list_ascii]. rewrite compare_cons_same.
  fold (str (pad 2 mi1 ++ r1)). fold (str (pad 2 mi2 ++ r2)).
  rewrite compare_pad by (rewrite ?pow10_2; lia).
  destruct (Z.compare_spec mi1 mi2) as [Ei|Ei|Ei]; [exfalso; lia|done|exfalso; lia].
Qed.

Lemma name_compare (t1 t2 : Z) (y1 m1 d1 y2 m2 d2 : Z) :
  fourDigitYear t1 -> fourDigitYear t2 ->
  civilFromDays (t1 / msPerDay) = (y1, m1, d1) ->
  civilFromDays (t2 / msPerDay) = (y2, m2, d2) ->
  String.compare (timestampedFile t1) (timestampedFile t2)
  = String.compare
      (str (minuteStamp y1 m1 d1 (t1 mod msPerDay / 3600000)
              ((t1 mod msPerDay / 60000) mod 60) ++ chars ".json"))
      (str (minuteStamp y2 m2 d2 (t2 mod msPerDay / 3600000)
              ((t2 mod msPerDay / 60000) mod 60) ++ chars ".json")).
Proof.
  intros F1 F2 C1 C2.
  rewrite <- (str_chars (timestampedFile t1)), <- (str_chars (timestampedFile t2)).
  rewrite !chars_timestampedFile.
  pose proof (stamp_of_four_digit_year t1 F1) as S1. rewrite C1 in S1.
  pose proof (stamp_of_four_digit_year t2 F2) as S2. rewrite C2 in S2.
  destruct S1 as [_ ->]. destruct S2 as [_ ->].
  change (chars "sessions-") with (list_ascii_of_string "sessions-").
  unfold str. cbn [list_ascii_of_string app string_of_list_ascii].
  by rewrite !compare_cons_same.
Qed.

(** Later minutes have greater names, while the year has four digits. *)
Lemma name_lt (t1 t2 : Z) :
  fourDigitYear t1 -> fourDigitYear t2 -> (minuteOf t1 < minuteOf t2)%Z ->
  String.ltb (timestampedFile t1) (timestampedFile t2) = true.
Proof.
  intros F1 F2 Hq. unfold String.ltb.
  destruct (civilFromDays (t1 / msPerDay)) as [[y1 m1] d1] eqn:C1.
  destruct (civilFromDays (t2 / msPerDay)) as [[y2 m2] d2] eqn:C2.
  rewrite (name_compare t1 t2 y1 m1 d1 y2 m2 d2) by done.
  pose proof (stamp_of_four_digit_year t1 F1) as S1. rewrite C1 in S1.
  pose proof (stamp_of_four_digit_year t2 F2) as S2. rewrite C2 in S2.
  pose proof (civil_round_trip (t1 / msPerDay)) as R1. rewrite C1 in R1.
  pose proof (civil_round_trip (t2 / msPerDay)) as R2. rewrite C2 in R2.
  pose proof (civil_monotone (t1 / msPerDay) (t2 / msPerDay)) as Hmono.
  rewrite C1, C2 in Hmono.
  destruct (minute_fields t1) as (_ & _ & _ & Hh1 & Hmi1 & Q1).
  destruct (minute_fields t2) as (_ & _ & _ & Hh2 & Hmi2 & Q2).
  destruct S1 as [Hy1 _]. destruct S2 as [Hy2 _].
  destruct R1 as (E1 & Hm1 & Hd1 & _). destruct R2 as (E2 & Hm2 & Hd2 & _).
  rewrite stamp_lt; try done.
  destruct (Z_lt_ge_dec (t1 / msPerDay) (t2 / msPerDay)) as [Hday|Hday].
  - specialize (Hmono Hday). lia.
  - assert (t1 / msPerDay = t2 / msPerDay)%Z as Heq by lia.
    rewrite Heq in C1. rewrite C1 in C2. injection C2 as -> -> ->. lia.
Qed.

End Stamps.

Lemma string_compare_refl (s : string) : String.compare s s = Eq.
Proof.
  induction s as [|c s IH]; [done|]. simpl. unfold Ascii.compare.
  by rewrite N.compare_refl.
Qed.

Lemma name_lt_iff (t1 t2 : Z) :
  fourDigitYear t1 -> fourDigitYear t2 ->
  ((minuteOf t1 < minuteOf t2)%Z
   <-> String.ltb (SessionBackupManager.timestampedFile t1)
                  (SessionBackupManager.timestampedFile t2) = true).
Proof.
  intros F1 F2. split; [by apply name_lt|].
  intros Hlt. destruct (Z.lt_trichotomy (minuteOf t1) (minuteOf t2)) as [H|[H|H]]; [done|..].
  - apply name_of_minute in H. rewrite H in Hlt. unfold String.ltb in Hlt.
    by rewrite string_compare_refl in Hlt.
  - apply (name_lt t2 t1 F2 F1) in H. unfold String.ltb in *.
    rewrite String.compare_antisym in Hlt.
    destruct (String.compare (SessionBackupManager.timestampedFile t2)
                             (SessionBackupManager.timestampedFile t1)); done.
Qed.

(** X26. The dated names order like the minutes they stand for: two
    saves in the same minute get the same name, and, while the year
    has four digits, a save in a later minute gets a name that is
    greater in the order [sort] uses, and only then. *)
Theorem dated_names_order_like_minutes (t1 t2 : Z) :
  (minuteOf t1 = minuteOf t2 ->
   SessionBackupManager.timestampedFile t1 = SessionBackupManager.timestampedFile t2)
  /\ (fourDigitYear t1 -> fourDigitYear t2 ->
      ((minuteOf t1 < minuteOf t2)%Z
       <-> String.ltb (SessionBackupManager.timestampedFile t1)
                      (SessionBackupManager.timestampedFile t2) = true)).
Proof. split; [apply name_of_minute|apply name_lt_iff]. Qed.

Lemma dated_names_order_like_minutes_witness :
  fourDigitYear 1730620800201 /\ fourDigitYear 1730622600000
  /\ (minuteOf 1730620800201 < minuteOf 1730622600000)%Z
  /\ String.ltb (SessionBackupManager.timestampedFile 1730620800201)
                (SessionBackupManager.timestampedFile 1730622600000) = true.
Proof.
  assert (fourDigitYear 1730620800201) as F1 by (unfold fourDigitYear; lia).
  assert (fourDigitYear 1730622600000) as F2 by (unfold fourDigitYear; lia).
  assert (minuteOf 1730620800201 < minuteOf 1730622600000)%Z as H by (vm_compute; reflexivity).
  split; [exact F1|]. split; [exact F2|]. split; [exact H|].
  exact (proj1 (proj2 (dated_names_order_like_minutes 1730620800201 1730622600000) F1 F2) H).
Defined.

(** X27. What a save prunes is older than what it keeps: among dated
    copies named by [timestampedFile] for times whose year has four
    digits, a copy that a save removes stands for an earlier minute
    than every copy the directory holds after the save. *)
Theorem pruning_removes_the_oldest_minutes
        (t : SessionBackupManager.Tick) (fs : gmap string BackupFile) (gone kept : Z) :
  fourDigitYear gone -> fourDigitYear kept ->
  is_Some (fs !! SessionBackupManager.timestampedFile gone) ->
  SessionBackupManager.saveAt t fs !! SessionBackupManager.timestampedFile gone = None ->
  is_Some (SessionBackupManager.saveAt t fs !! SessionBackupManager.timestampedFile kept) ->
  (minuteOf gone < minuteOf kept)%Z.
Proof.
  intros Fg Fk Hg Hgone Hkept.
  apply (proj2 (name_lt_iff gone kept Fg Fk)).
  apply (saveAt_prunes_oldest t fs); try done; apply timestampedFile_dated.
Qed.

Lemma pruning_removes_the_oldest_minutes_witness :
  fourDigitYear (Scenario.halfHoursBefore 48) /\ fourDigitYear (Scenario.halfHoursBefore 0)
  /\ is_Some (Scenario.fullDirectory
                !! SessionBackupManager.timestampedFile (Scenario.halfHoursBefore 48))
  /\ SessionBackupManager.saveAt Scenario.startup Scenario.fullDirectory
       !! SessionBackupManager.timestampedFile (Scenario.halfHoursBefore 48) = None
  /\ is_Some (SessionBackupManager.saveAt Scenario.startup Scenario.fullDirectory
                !! SessionBackupManager.timestampedFile (Scenario.halfHoursBefore 0))
  /\ (minuteOf (Scenario.halfHoursBefore 48) < minuteOf (Scenario.halfHoursBefore 0))%Z.
Proof.
  assert (fourDigitYear (Scenario.halfHoursBefore 48)) as F1
      by (unfold fourDigitYear, Scenario.halfHoursBefore; lia).
  assert (fourDigitYear (Scenario.halfHoursBefore 0)) as F2
      by (unfold fourDigitYear, Scenario.halfHoursBefore; lia).
  assert (is_Some (Scenario.fullDirectory
                     !! SessionBackupManager.timestampedFile (Scenario.halfHoursBefore 48)))
    as H1 by (vm_compute; eauto).
  assert (SessionBackupManager.saveAt Scenario.startup Scenario.fullDirectory
            !! SessionBackupManager.timestampedFile (Scenario.halfHoursBefore 48) = None)
    as H2 by (vm_compute; reflexivity).
  assert (is_Some (SessionBackupManager.saveAt Scenario.startup Scenario.fullDirectory
                     !! SessionBackupManager.timestampedFile (Scenario.halfHoursBefore 0)))
    as H3 by (vm_compute; eauto).
  split; [exact F1|]. split; [exact F2|]. split; [exact H1|]. split; [exact H2|].
  split; [exact H3|].
  exact (pruning_removes_the_oldest_minutes Scenario.startup Scenario.fullDirectory
           (Scenario.halfHoursBefore 48) (Scenario.halfHoursBefore 0) F1 F2 H1 H2 H3).
Defined.

(** ** Listing the backups *)

Section Listing.
Import JsString SessionBackupManager.

Lemma jsonNewestFirst_In (fs : gmap string BackupFile) (g : string) :
  In g (jsonNewestFirst fs) <-> isJson g = true /\ is_Some (fs !! g).
Proof.
  unfold jsonNewestFirst. rewrite <- in_rev, sort_In.
  unfold readdir. rewrite filter_In, in_map_iff. split.
  - intros [([g' x] & <- & Hin) Hd]. split; [done|].
    apply list_elem_of_In, elem_of_map_to_list in Hin. simpl. by rewrite Hin.
  - intros [Hd [x Hx]]. split; [|done]. exists (g, x). split; [done|].
    by apply list_elem_of_In, elem_of_map_to_list.
Qed.

Lemma jsonNewestFirst_NoDup (fs : gmap string BackupFile) :
  List.NoDup (jsonNewestFirst fs).
Proof.
  unfold jsonNewestFirst. apply List.NoDup_rev.
  apply (Permutation.Permutation_NoDup (Permutation_sym (sort_perm _))).
  unfold readdir. apply List.NoDup_filter, NoDup_ListNoDup.
  apply (NoDup_fst_map_to_list fs).
Qed.

(** The sorted names are strictly descending. *)
Lemma jsonNewestFirst_order (fs : gmap string BackupFile) (a b : string) :
  before (jsonNewestFirst fs) a b -> String.ltb b a = true.
Proof.
  intros (l1 & l2 & l3 & E).
  pose proof (jsonNewestFirst_NoDup fs) as Hnd. rewrite E in Hnd.
  apply leb_ne_ltb.
  - apply (ascending_split (rev (b :: l3)) (rev (l1 ++ a :: l2))).
    + rewrite <- rev_app_distr, <- app_assoc. cbn [app]. rewrite <- E.
      unfold jsonNewestFirst. rewrite rev_involutive. apply sort_ascending.
    + apply -> in_rev. by left.
    + apply -> in_rev. apply in_or_app. right. by left.
  - intros ->. apply List.NoDup_remove_2 in Hnd. apply Hnd.
    apply in_or_app. right. apply in_or_app. right. by left.
Qed.

Lemma describe_entries (fs : gmap string BackupFile) (file : string)
      (info : BackupInfo) :
  In info (describe fs file)
  <-> exists backup, fs !! file = Some (Snapshot backup) /\ info = entryOf file backup.
Proof.
  unfold describe. destruct (fs !! file) as [[backup|raw]|]; simpl.
  - split; [intros [<-|[]]; eauto|]. intros (b & [= <-] & ->). by left.
  - split; [done|]. by intros (b & [=] & _).
  - split; [done|]. by intros (b & [=] & _).
Qed.

Lemma described_names (fs : gmap string BackupFile) (files : list string) :
  map info_file (flat_map (describe fs) files) `sublist_of` files.
Proof.
  induction files as [|file files IH]; [constructor|]. simpl.
  rewrite map_app. unfold describe at 1.
  destruct (fs !! file) as [[backup|raw]|]; simpl.
  - by constructor.
  - by apply sublist_cons.
  - by apply sublist_cons.
Qed.

Lemma before_sublist {A : Type} (l k : list A) (a b : A) :
  l `sublist_of` k -> before l a b -> before k a b.
Proof.
  intros Hs (l1 & l2 & l3 & ->).
  apply sublist_app_l in Hs as (k1 & k2 & -> & _ & Hs).
  apply sublist_cons_l in Hs as (k3 & k4 & -> & Hs).
  apply sublist_app_l in Hs as (k5 & k6 & -> & _ & Hs).
  apply sublist_cons_l in Hs as (k7 & k8 & -> & Hs).
  exists (k1 ++ k3)%list, (k5 ++ k7)%list, k8.
  by rewrite <- !app_assoc.
Qed.

Lemma length_described (fs : gmap string BackupFile) (files : list string) :
  (List.length (flat_map (describe fs) files) <= List.length files)%nat.
Proof.
  induction files as [|file files IH]; [done|]. simpl.
  rewrite length_app. unfold describe at 1.
  destruct (fs !! file) as [[backup|raw]|]; simpl; lia.
Qed.

(** A dated name sorts below the name of the main backup. *)
Lemma dated_below_main (g : string) :
  isTimestamped g = true -> String.ltb g backupFile = true.
Proof.
  unfold isTimestamped, startsWith. intros H. apply andb_true_iff in H as [H _].
  apply prefixChars_true in H as [rest H].
  assert (g = str (chars "sessions-" ++ rest)) as ->
      by (rewrite <- H; symmetry; apply str_chars).
  reflexivity.
Qed.

Lemma ltb_asymmetric (a b : string) :
  String.ltb a b = true -> String.ltb b a = true -> False.
Proof.
  unfold String.ltb. rewrite (String.compare_antisym a b).
  by destruct (String.compare b a).
Qed.

(** In a directory of the manager's files only, the main backup is the
    newest name. *)
Lemma main_is_newest (fs : gmap string BackupFile) :
  managed fs -> is_Some (fs !! backupFile) ->
  exists rest, jsonNewestFirst fs = backupFile :: rest.
Proof.
  intros Hm Hmain.
  assert (In backupFile (jsonNewestFirst fs)) as Hin
      by (apply jsonNewestFirst_In; by split).
  destruct (jsonNewestFirst fs) as [|h rest] eqn:E; [done|].
  destruct (string_dec h backupFile) as [->|Hne]; [eauto|exfalso].
  destruct Hin as [Hin|Hin]; [done|].
  apply in_split in Hin as (l2 & l3 & ->).
  assert (String.ltb backupFile h = true) as H1.
  { apply (jsonNewestFirst_order fs). exists [], l2, l3. by rewrite E. }
  assert (In h (jsonNewestFirst fs)) as Hh by (rewrite E; by left).
  apply jsonNewestFirst_In in Hh as [Hj Hs].
  destruct (Hm h Hs Hj) as [->|Hd]; [done|].
  apply dated_below_main in Hd. by apply (ltb_asymmetric h backupFile).
Qed.

End Listing.

(** X28. [listBackups] lists the readable snapshots among the ten
    [.json] files with the greatest names: at most ten entries, each
    the file name, timestamp and number of sessions of such a
    snapshot, every such snapshot listed, and the entries in strictly
    descending order of file name.  A file among the ten that does not
    read as a snapshot is skipped without another file taking its
    place. *)
Theorem listBackups_lists_the_newest_ten (fs : gmap string BackupFile) :
  (List.length (SessionBackupManager.listBackups fs) <= 10)%nat
  /\ (forall info,
         In info (SessionBackupManager.listBackups fs)
         <-> exists file backup,
           In file (firstn 10 (jsonNewestFirst fs))
           /\ fs !! file = Some (Snapshot backup)
           /\ info = entryOf file backup)
  /\ (forall file, In file (jsonNewestFirst fs)
                   <-> SessionBackupManager.isJson file = true /\ is_Some (fs !! file))
  /\ (forall a b,
         before (map SessionBackupManager.info_file (SessionBackupManager.listBackups fs))
                a b ->
         String.ltb b a = true).
Proof.
  unfold SessionBackupManager.listBackups. fold (jsonNewestFirst fs).
  split; [|split; [|split]].
  - etransitivity; [apply length_described|]. rewrite length_firstn. lia.
  - intros info. rewrite in_flat_map. split.
    + intros (file & Hin & Hd). apply describe_entries in Hd as (backup & Hf & ->). eauto.
    + intros (file & backup & Hin & Hf & ->). exists file. split; [done|].
      apply describe_entries. eauto.
  - apply jsonNewestFirst_In.
  - intros a b Hb. apply (jsonNewestFirst_order fs).
    eapply before_sublist; [|exact Hb].
    etransitivity; [apply described_names|apply sublist_take].
Qed.

Section Saved.
Import JsString SessionBackupManager.

Lemma length_serializeAll (l : list (string * ConversationSession))
      (ss : list SerializedSession) :
  serializeAll l = Normal ss -> List.length ss = List.length l.
Proof.
  revert ss. induction l as [|[k s] l IH]; intros ss; simpl; [by intros [= <-]|].
  destruct (serialize k s); [|done].
  destruct (serializeAll l) as [ss'|]; [|done].
  intros [= <-]. simpl. by rewrite (IH ss').
Qed.

Lemma createTimestampedBackup_files (now : Z) (backup : SessionBackup)
      (fs : gmap string BackupFile) (g : string) :
  is_Some (createTimestampedBackup now backup fs !! g) ->
  g = timestampedFile now \/ is_Some (fs !! g).
Proof.
  unfold createTimestampedBackup.
  destruct (fs !! timestampedFile now) eqn:E; [by right|].
  destruct (cleanupOldBackups_lookup 48 (<[timestampedFile now := Snapshot backup]> fs) g)
    as [-> | ->]; [|by intros [? [=]]].
  destruct (decide (g = timestampedFile now)) as [->|Hne]; [by left|].
  rewrite lookup_insert_ne by done. by right.
Qed.

Lemma saveBackup_managed (now now' : Z) (sessions : gmap string ConversationSession)
      (workingDirs : gmap string string) (fs : gmap string BackupFile) :
  managed fs -> managed (saveBackup now now' sessions workingDirs fs).
Proof.
  intros Hm g Hs Hj. unfold saveBackup in Hs.
  destruct (serializeAll (map_to_list sessions)) as [ss|]; [|by apply Hm].
  apply createTimestampedBackup_files in Hs as [->|Hs];
    [right; apply timestampedFile_dated|].
  destruct (decide (g = backupFile)) as [->|Hne]; [by left|].
  rewrite lookup_insert_ne in Hs by done.
  destruct (decide (g = tempFile)) as [->|Hne']; [done|].
  rewrite lookup_delete_ne, lookup_insert_ne in Hs by done. by apply Hm.
Qed.

Lemma saveBackup_main (now now' : Z) (sessions : gmap string ConversationSession)
      (workingDirs : gmap string string) (fs : gmap string BackupFile) :
  (forall k s, sessions !! k = Some s -> JsDate.validDate (lastActivity s)) ->
  exists backup,
    saveBackup now now' sessions workingDirs fs !! backupFile = Some (Snapshot backup)
    /\ timestamp backup = str (JsDate.isoChars now)
    /\ List.length (b_sessions backup) = size sessions.
Proof.
  intros Hv.
  destruct (serializeAll_restores (map_to_list sessions)) as (ss & Hss & _).
  { intros k s Hin. apply (Hv k s). by apply elem_of_map_to_list, list_elem_of_In. }
  unfold saveBackup. rewrite Hss. eexists. split; [|split].
  - rewrite createTimestampedBackup_other by reflexivity. by rewrite lookup_insert_eq.
  - reflexivity.
  - simpl. rewrite (length_serializeAll _ _ Hss). apply length_map_to_list.
Qed.

End Saved.

(** X29. After [saveBackup] of sessions that all carry a valid date,
    in a directory whose [.json] files are the main file and dated
    copies, [listBackups] starts with the entry of [sessions.json]: it
    carries the time of this save and the number of sessions saved. *)
Theorem saved_backup_heads_the_listing (now now' : Z)
        (sessions : gmap string ConversationSession)
        (workingDirs : gmap string string) (fs : gmap string BackupFile) :
  managed fs ->
  (forall k s, sessions !! k = Some s -> JsDate.validDate (lastActivity s)) ->
  exists rest,
    SessionBackupManager.listBackups
      (SessionBackupManager.saveBackup now now' sessions workingDirs fs)
    = {| SessionBackupManager.info_file := SessionBackupManager.backupFile;
         SessionBackupManager.info_timestamp := JsString.str (JsDate.isoChars now);
         SessionBackupManager.info_sessionCount := size sessions |} :: rest.
Proof.
  intros Hm Hv.
  destruct (saveBackup_main now now' sessions workingDirs fs Hv)
    as (backup & Hf & Ht & Hn).
  pose proof (saveBackup_managed now now' sessions workingDirs fs Hm) as Hm'.
  destruct (main_is_newest _ Hm' (ex_intro _ _ Hf)) as (rest & Hrest).
  unfold SessionBackupManager.listBackups.
  fold (jsonNewestFirst (SessionBackupManager.saveBackup now now' sessions workingDirs fs)).
  rewrite Hrest. cbn [firstn flat_map].
  unfold SessionBackupManager.describe at 1. rewrite Hf.
  eexists. cbn [app]. f_equal. by rewrite Ht, Hn.
Qed.

Lemma saved_backup_heads_the_listing_witness :
  managed (∅ : gmap string BackupFile)
  /\ (forall k s, Scenario.sessions !! k = Some s -> JsDate.validDate (lastActivity s))
  /\ exists rest,
      SessionBackupManager.listBackups
        (SessionBackupManager.saveBackup 1730620800200 1730620800201
           Scenario.sessions Scenario.workingDirs ∅)
      = {| SessionBackupManager.info_file := SessionBackupManager.backupFile;
           SessionBackupManager.info_timestamp :=
             JsString.str (JsDate.isoChars 1730620800200);
           SessionBackupManager.info_sessionCount := size Scenario.sessions |} :: rest.
Proof.
  assert (managed (∅ : gmap string BackupFile)) as Hm.
  { intros g [x Hx]. by rewrite lookup_empty in Hx. }
  assert (forall k s, Scenario.sessions !! k = Some s -> JsDate.validDate (lastActivity s))
    as Hv.
  { intros k s H. unfold Scenario.sessions in H.
    apply lookup_singleton_Some in H as [_ <-]. simpl. unfold JsDate.inRange. lia. }
  split; [exact Hm|split; [exact Hv|]].
  exact (saved_backup_heads_the_listing 1730620800200 1730620800201
           Scenario.sessions Scenario.workingDirs ∅ Hm Hv).
Defined.

(** ** The interval timer of the periodic backup *)

Lemma call_tidy (others : gset nat) (s : SessionBackupManager.Scheduler)
      (c : SchedulerCall) :
  tidy others s -> tidy others (call s c).
Proof.
  assert (forall (nx : nat) (lv : gset nat),
             (forall x, x ∈ lv -> (x < nx)%nat) ->
             forall x, x ∈ ({[nx]} ∪ lv : gset nat) -> (x < S nx)%nat) as Hfresh.
  { intros nx lv Hn x Hx. apply elem_of_union in Hx as [Hx|Hx].
    - apply elem_of_singleton in Hx as ->. lia.
    - apply Hn in Hx. lia. }
  destruct s as [[h|] [lv nx]]; destruct c; unfold tidy; simpl;
    intros (Hl & Hn & Ho); subst lv.
  - split; [|split].
    + apply set_eq. intros x.
      rewrite !elem_of_union, elem_of_difference, elem_of_union, !elem_of_singleton.
      split; [tauto|]. intros [Hx | ->]; [|tauto].
      right. split; [tauto|]. by intros ->.
    + apply Hfresh. intros x Hx. apply Hn.
      apply elem_of_difference in Hx. tauto.
    + intros Hin. assert (nx < nx)%nat; [|lia].
      apply Hn, elem_of_union. tauto.
  - split; [|split; [|done]].
    + apply set_eq. intros x.
      rewrite !elem_of_union, elem_of_difference, elem_of_union,
        elem_of_singleton, elem_of_empty.
      split; [tauto|]. intros [Hx|[]]. split; [tauto|]. by intros ->.
    + intros x Hx. apply Hn. apply elem_of_difference in Hx. tauto.
  - split; [|split].
    + apply set_eq. intros x.
      rewrite !elem_of_union, !elem_of_singleton, elem_of_empty. tauto.
    + by apply Hfresh.
    + intros Hin. assert (nx < nx)%nat; [|lia].
      apply Hn, elem_of_union. tauto.
  - done.
Qed.

Lemma calls_tidy (others : gset nat) (calls : list SchedulerCall)
      (s : SessionBackupManager.Scheduler) :
  tidy others s -> tidy others (fold_left call calls s).
Proof.
  revert s. induction calls as [|c calls IH]; intros s Hs; [done|].
  simpl. apply IH. by apply call_tidy.
Qed.

(** X30. However [startPeriodicBackup] and [stopPeriodicBackup] are
    called one after the other, the live timers of the process are the
    timers of others plus at most the one timer the manager holds in
    [backupInterval]: a restart clears the timer it replaces, and after
    [stopPeriodicBackup] only the timers of others are left. *)
Theorem periodic_backup_keeps_one_timer (others : gset nat)
        (s : SessionBackupManager.Scheduler) (calls : list SchedulerCall) :
  tidy others s ->
  tidy others (fold_left call calls s)
  /\ SessionBackupManager.live
       (SessionBackupManager.timers
          (SessionBackupManager.stopPeriodicBackup (fold_left call calls s)))
     = others
  /\ SessionBackupManager.backupInterval
       (SessionBackupManager.stopPeriodicBackup (fold_left call calls s))
     = None.
Proof.
  intros Hs. pose proof (calls_tidy others calls s Hs) as Ht.
  split; [done|].
  pose proof (call_tidy others _ CallStop Ht) as (Hl & _ & _).
  simpl in Hl.
  assert (SessionBackupManager.backupInterval
            (SessionBackupManager.stopPeriodicBackup (fold_left call calls s)) = None) as Hb.
  { unfold SessionBackupManager.stopPeriodicBackup.
    by destruct (SessionBackupManager.backupInterval (fold_left call calls s)) eqn:E. }
  split; [|done]. rewrite Hl, Hb. apply set_eq. intros x.
  rewrite elem_of_union, elem_of_empty. tauto.
Qed.

Lemma periodic_backup_keeps_one_timer_witness :
  tidy {[0%nat]}
       {| SessionBackupManager.backupInterval := None;
          SessionBackupManager.timers :=
            {| SessionBackupManager.live := {[0%nat]};
               SessionBackupManager.next := 1%nat |} |}
  /\ SessionBackupManager.live
       (SessionBackupManager.timers
          (SessionBackupManager.stopPeriodicBackup
             (fold_left call [CallStart; CallStart; CallStop; CallStart]
                {| SessionBackupManager.backupInterval := None;
                   SessionBackupManager.timers :=
                     {| SessionBackupManager.live := {[0%nat]};
                        SessionBackupManager.next := 1%nat |} |})))
     = {[0%nat]}.
Proof.
  assert (tidy {[0%nat]}
               {| SessionBackupManager.backupInterval := None;
                  SessionBackupManager.timers :=
                    {| SessionBackupManager.live := {[0%nat]};
                       SessionBackupManager.next := 1%nat |} |}) as Hs.
  { unfold tidy. simpl. split; [|split; [|done]].
    - apply set_eq. intros x. rewrite elem_of_union, elem_of_empty. tauto.
    - intros h Hh. apply elem_of_singleton in Hh as ->. lia. }
  split; [exact Hs|].
  exact (proj1 (proj2 (periodic_backup_keeps_one_timer
                         {[0%nat]} _ [CallStart; CallStart; CallStop; CallStart] Hs))).
Defined.

(** ** What an approval carries *)

(** C3, amended.  In the permission handlers, once the request is
    posted and the wait has settled with a resolution record whose
    behavior is [allow], the callback returns [Allow] with the tool
    input it was called with, whatever [updatedInput] the record
    holds; unless the update of the notification fails, in which case
    it returns the refusal [Error occurred while requesting
    permission].  The wait of the MCP permission server, for its part,
    settles with the record as it was deposited, an [updatedInput]
    included, and [resolveApproval] hands a truthy [updatedInput] on
    to the pending resolver of the ticket, when there is one. *)
Theorem allow_carries_the_original_input :
  (forall (wait : string -> bool -> Z -> list Event -> gmap string FileContent
                  -> Wait.State)
          (P : Platform) (slackContext : SlackContext) (toolName : string)
          (input : ToolInput) (now : Z) (random : string) (signalAborted : bool)
          (events : list Event) (w : World) (result : Slack.PostResult)
          (response : JsValue),
      postMessage P (PermissionHandler.requestMessage P slackContext toolName input
                       (PermissionHandler.newApprovalId now random)) = Normal result ->
      Wait.settled (wait (PermissionHandler.newApprovalId now random) signalAborted now
                         events (approvals w)) = Some response ->
      Js.get response "behavior" = Normal (Some (JStr "allow")) ->
      (PermissionHandler.canUseTool wait P slackContext toolName input
                                    now random signalAborted events w).1
      = match Slack.ts result with
        | Some t =>
            if String.eqb t "" then Some (Allow input)
            else match chatUpdate P (PermissionHandler.outcomeMessage
                                       P result t toolName input true) with
                 | Normal _ => Some (Allow input)
                 | Throw _ => Some PermissionHandler.errorResult
                 end
        | None => Some (Allow input)
        end)
  /\ (forall (approvalId : string) (startTime now : Z) (before : list Event)
             (v : JsValue) (d : gmap string FileContent),
         Wait.settled (PermissionMCPServer.waitForApproval approvalId startTime before d)
         = None ->
         (now - startTime <= PermissionMCPServer.timeout)%Z ->
         Wait.settled (PermissionMCPServer.waitForApproval approvalId startTime
                         (before ++ [Deposit (approvalId +:+ ".json") (Document v);
                                     Timer now]) d) = Some v)
  /\ (forall (pending : gset string) (approvalId : string) (approved : bool)
             (edited : JsValue),
         Js.truthy (Some edited) = true ->
         (approvalId ∈ pending ->
          exists r,
            (PermissionMCPServer.resolveApproval pending approvalId approved
                                                 (Some edited)).2 = Some r
            /\ PermissionMCPServer.r_behavior r = (if approved then allow else deny)
            /\ PermissionMCPServer.r_updatedInput r = Some edited)
         /\ (approvalId ∉ pending ->
             PermissionMCPServer.resolveApproval pending approvalId approved (Some edited)
             = (pending, None))).
Proof.
  split; [|split].
  - intros wait P slackContext toolName input now random signalAborted events w
           result response Hpost Hset Hb.
    unfold PermissionHandler.canUseTool. rewrite Hpost. simpl. rewrite Hset.
    assert (PermissionHandler.conclude input response = Allow input) as Hc.
    { unfold PermissionHandler.conclude. by rewrite Hb. }
    destruct (Slack.ts result) as [t|]; simpl; [|by rewrite Hc].
    destruct (String.eqb t ""); simpl; [by rewrite Hc|].
    rewrite Hb. simpl.
    destruct (chatUpdate P _); simpl; [by rewrite Hc|done].
  - intros approvalId startTime now before v d Hs Hnow.
    unfold PermissionMCPServer.waitForApproval in *.
    set (f := approvalId +:+ ".json") in *.
    set (st0 := PermissionMCPServer.checkApproval startTime f startTime _) in *.
    assert (polled (Wait.run (PermissionMCPServer.checkApproval startTime f) before st0))
      as Hp.
    { destruct (mcp_run startTime f before st0 (mcp_start startTime f d)) as [H|H];
        [done|]. by rewrite Hs in H. }
    assert (pastDeadline startTime now = false) as Hl.
    { unfold pastDeadline. rewrite Z.gtb_ltb. apply Z.ltb_ge.
      change PermissionHandlerDeadline.timeout with PermissionMCPServer.timeout. lia. }
    rewrite run_app, run_cons_pending by done.
    pose proof (mcp_step startTime f (Deposit f (Document v)) _ Hp) as [Hp1 Hd1].
    rewrite run_cons_pending by apply Hp1.
    pose proof (mcp_step startTime f (Timer now) _ Hp1) as H.
    cbv beta iota in H. rewrite Hl, Hd1, lookup_insert_eq in H. destruct H as [H1 _].
    exact H1.
  - intros pending approvalId approved edited Ht. unfold PermissionMCPServer.resolveApproval.
    split; intros Hin.
    + rewrite bool_decide_eq_true_2 by done. eexists. split; [reflexivity|].
      split; [reflexivity|]. cbn [PermissionMCPServer.r_updatedInput]. by rewrite Ht.
    + by rewrite bool_decide_eq_false_2.
Qed.

Lemma allow_carries_the_original_input_witness :
  postMessage Scenario.platform
    (PermissionHandler.requestMessage Scenario.platform Scenario.scope "Bash" Scenario.input
       (PermissionHandler.newApprovalId 0 "k3j9x0q2a"))
  = Normal {| Slack.ts := Some "1700000000.000100"; Slack.res_channel := Some "C0123" |}
  /\ Wait.settled (PermissionHandler.waitForApproval
                     (PermissionHandler.newApprovalId 0 "k3j9x0q2a") false 0
                     Scenario.approveEdited (approvals Scenario.world))
     = Some Scenario.approvedWithEdit
  /\ Js.get Scenario.approvedWithEdit "behavior" = Normal (Some (JStr "allow"))
  /\ (PermissionHandler.canUseTool PermissionHandler.waitForApproval
        Scenario.platform Scenario.scope "Bash" Scenario.input
        0 "k3j9x0q2a" false Scenario.approveEdited Scenario.world).1
     = Some (Allow Scenario.input)
  /\ (PermissionHandler.canUseTool PermissionHandler.waitForApproval
        Scenario.stalePlatform Scenario.scope "Bash" Scenario.input
        0 "k3j9x0q2a" false Scenario.approveEdited Scenario.world).1
     = Some PermissionHandler.errorResult.
Proof.
  assert (Wait.settled (PermissionHandler.waitForApproval
                     (PermissionHandler.newApprovalId 0 "k3j9x0q2a") false 0
                     Scenario.approveEdited (approvals Scenario.world))
     = Some Scenario.approvedWithEdit) as Hs by (vm_compute; reflexivity).
  split; [reflexivity|]. split; [exact Hs|]. split; [reflexivity|].
  split.
  - exact (proj1 allow_carries_the_original_input
             PermissionHandler.waitForApproval Scenario.platform Scenario.scope "Bash"
             Scenario.input 0%Z "k3j9x0q2a" false Scenario.approveEdited Scenario.world
             {| Slack.ts := Some "1700000000.000100"; Slack.res_channel := Some "C0123" |}
             Scenario.approvedWithEdit eq_refl Hs eq_refl).
  - exact (proj1 allow_carries_the_original_input
             PermissionHandler.waitForApproval Scenario.stalePlatform Scenario.scope "Bash"
             Scenario.input 0%Z "k3j9x0q2a" false Scenario.approveEdited Scenario.world
             {| Slack.ts := Some "1700000000.000100"; Slack.res_channel := Some "C0123" |}
             Scenario.approvedWithEdit eq_refl Hs eq_refl).
Defined.
